(** * The block-model partition state of graph-tool's inference engine

    A shallow embedding of [src/graph/inference/graph_blockmodel.hh]
    (class [BlockState]) and [src/graph/inference/multicanonical_loop.hh]
    (function [multicanonical_sweep]), followed by the properties of the
    partition state, the virtual-move evaluator, the proposal density and the
    flat-histogram sweep.

    Conventions.
    - [size_t] values (vertex and block identifiers, vector sizes) are [N];
      arithmetic on them wraps at 2^64 ([wrap64]).
    - [int32_t] values (every [vmap_t]/[emap_t] property map: [wr], [mrp],
      [mrm], [mrs], [b], [bclabel], the position maps) are [Z]; a store into
      a property map wraps at 2^32 ([wrap32]).
    - [double] values are the kernel's binary64 floats.
    - A property map is a finite map whose unset keys read as 0.
    - A [throw] is the [Throw] outcome; it carries the state as it is at the
      point of the throw, so that "the state is unchanged" is a statement. *)

From Stdlib Require Import ZArith NArith Floats String Lia.
From stdpp Require Import gmap list.

Local Open Scope Z_scope.
Set Warnings "-register-all,-clear-no-such-hyp".

(** ** Machine integers *)

Definition wrap32 (z : Z) : Z := (z + 2 ^ 31) mod 2 ^ 32 - 2 ^ 31.

Definition wrap64 (z : Z) : N := Z.to_N (z mod 2 ^ 64).

Definition int32_range (z : Z) : Prop := - 2 ^ 31 <= z < 2 ^ 31.

(** [std::numeric_limits<size_t>::max()], the "no block" sentinel. *)
Definition null_group : N := 18446744073709551615%N.

(** An [int32_t] read where a [size_t] is expected (a block label used as a
    block identifier, a stored position used as an index). *)
Definition size_t_of_int (z : Z) : N := wrap64 z.

(** A [size_t] stored into an [int32_t] property map. *)
Definition int_of_size_t (n : N) : Z := wrap32 (Z.of_N n).

(** A [size_t] or [int] converted to [double] (round to nearest even). *)
Definition double_of_Z (z : Z) : float :=
  SF2Prim (binary_normalize prec emax z 0 false).

(** ** Property maps *)

Definition pget (m : gmap N Z) (k : N) : Z := default 0 (m !! k).

Definition pset (m : gmap N Z) (k : N) (z : Z) : gmap N Z := <[k := wrap32 z]> m.

(** ** Exceptions and outcomes *)

Inductive exn : Type :=
| ValueException (msg : string)
| GraphException (msg : string).

Inductive outcome (S A : Type) : Type :=
| Ok (a : A) (s : S)
| Throw (e : exn) (s : S).

Arguments Ok {S A} a s.
Arguments Throw {S A} e s.

Definition final_state {S A : Type} (o : outcome S A) : S :=
  match o with Ok _ s => s | Throw _ s => s end.

Definition result_of {S A : Type} (o : outcome S A) : option A :=
  match o with Ok a _ => Some a | Throw _ _ => None end.

Definition ret {S A : Type} (a : A) : S -> outcome S A := fun s => Ok a s.

Definition bind {S A B : Type} (m : S -> outcome S A) (k : A -> S -> outcome S B)
  : S -> outcome S B :=
  fun s => match m s with
           | Ok a s' => k a s'
           | Throw e s' => Throw e s'
           end.

Definition throw {S A : Type} (e : exn) : S -> outcome S A := fun s => Throw e s.

(** A statement that cannot throw, run inside the monad. *)
Definition modify {S : Type} (f : S -> S) : S -> outcome S unit := fun s => Ok tt (f s).

Notation "'let!' x := m 'in' k" := (bind m (fun x => k))
  (at level 10, x name, m at level 100, k at level 200).

(** ** The graph collaborator *)

(** Modelled from the spec: the graph storage is an external collaborator
    (spec 1 and 6) whose source is not among the inference sources.  A graph
    is a directedness flag and a list of edges; the index of an edge is its
    position in the list. *)
Record Graph : Type := {
  directed : bool;
  num_vertices : N;
  edge_list : list (N * N)
}.

(** An edge as an iteration hands it out: oriented, with its index. *)
Record edge_t : Type := { eidx : N; source : N; target : N }.

Fixpoint indexed {A : Type} (i : N) (l : list A) : list (N * A) :=
  match l with
  | [] => []
  | x :: l' => (i, x) :: indexed (N.succ i) l'
  end.

(** Modelled from the spec: [out_edges_range(v, g)] of the graph collaborator.
    In a directed graph the edges leaving [v]; in an undirected graph every
    incident edge seen from [v], a self-loop being met twice (the source
    relies on it: [deltal /= 2] in [virtual_move_dense], [w /= 2] in
    [merge_vertices]). *)
Definition out_edges_range (v : N) (g : Graph) : list edge_t :=
  flat_map (fun ie : N * (N * N) =>
              let '(i, (s, t)) := ie in
              (if N.eqb s v then [{| eidx := i; source := v; target := t |}] else [])
              ++ (if negb (directed g) && N.eqb t v
                  then [{| eidx := i; source := v; target := s |}] else []))
           (indexed 0%N (edge_list g)).

(** Modelled from the spec: [in_edges_range(v, g)] of the graph collaborator.
    The edges entering [v] of a directed graph; empty in an undirected
    graph, whose edges are all out-edges. *)
Definition in_edges_range (v : N) (g : Graph) : list edge_t :=
  if directed g then
    flat_map (fun ie : N * (N * N) =>
                let '(i, (s, t)) := ie in
                if N.eqb t v then [{| eidx := i; source := s; target := v |}] else [])
             (indexed 0%N (edge_list g))
  else [].

(** Modelled from the spec: [all_edges_range(v, g)] of the graph collaborator. *)
Definition all_edges_range (v : N) (g : Graph) : list edge_t :=
  out_edges_range v g ++ in_edges_range v g.

(** Modelled from the spec: the weighted degree queries [out_degreeS] and
    [in_degreeS] of the graph collaborator (spec 6). *)
Definition out_degreeS (v : N) (g : Graph) (ew : N -> Z) : Z :=
  foldr (fun e acc => ew (eidx e) + acc) 0 (out_edges_range v g).

Definition in_degreeS (v : N) (g : Graph) (ew : N -> Z) : Z :=
  foldr (fun e acc => ew (eidx e) + acc) 0 (in_edges_range v g).

(** ** Index-swap-removable vectors *)

(** Modelled from the spec: [add_element] of graph_blockmodel_util.hh (absent);
    spec 3 describes the block pools as "index-swap-removable lists". The
    element is pushed at the back and its position recorded. *)
Definition add_element (vp : list N * gmap N Z) (val : N) : list N * gmap N Z :=
  (vp.1 ++ [val], pset vp.2 val (Z.of_nat (length vp.1))).

(** Modelled from the spec: [remove_element] of graph_blockmodel_util.hh
    (absent). The last element is moved into the slot of [val] and the vector
    shrinks by one. On an empty vector ([vec.back()] is undefined in C++) the
    model changes nothing; a stored position outside the vector writes
    nothing. *)
Definition remove_element (vp : list N * gmap N Z) (val : N) : list N * gmap N Z :=
  let i := pget vp.2 val in
  match last vp.1 with
  | Some back =>
      (removelast (if 0 <=? i then <[Z.to_nat i := back]> vp.1 else vp.1),
       pset vp.2 back i)
  | None => vp
  end.

(** ** The move-entries delta set *)

(** Modelled from the spec: [EntrySet] of graph_blockmodel_util.hh (absent),
    spec 4.2: the block pairs a single vertex move touches, with their signed
    edge-count deltas. Covariate deltas are not carried: the model covers
    states whose [_rec_types] is empty. *)
Record EntrySet : Type := {
  rnr : N * N;
  entries : list (N * N * Z)
}.

(** Modelled from the spec: the key under which the block edge index (spec
    4.1, "an unordered/ordered pair of block identifiers") files a pair. *)
Definition edge_key (dir : bool) (r s : N) : N * N :=
  if dir then (r, s) else if N.leb r s then (r, s) else (s, r).

Fixpoint insert_delta_list (k : N * N) (d : Z) (l : list (N * N * Z)) : list (N * N * Z) :=
  match l with
  | [] => [(k.1, k.2, d)]
  | (r, s, d0) :: l' =>
      if N.eqb r k.1 && N.eqb s k.2 then (r, s, wrap32 (d0 + d)) :: l'
      else (r, s, d0) :: insert_delta_list k d l'
  end.

Definition insert_delta (dir : bool) (t s : N) (d : Z) (m : EntrySet) : EntrySet :=
  {| rnr := rnr m; entries := insert_delta_list (edge_key dir t s) d (entries m) |}.

Fixpoint get_delta_list (k : N * N) (l : list (N * N * Z)) : Z :=
  match l with
  | [] => 0
  | (r, s, d) :: l' => if N.eqb r k.1 && N.eqb s k.2 then d else get_delta_list k l'
  end.

Definition get_delta (dir : bool) (t s : N) (m : EntrySet) : Z :=
  get_delta_list (edge_key dir t s) (entries m).

(** Modelled from the spec: [move_entries] of graph_blockmodel_util.hh (absent),
    spec 4.2. For the move of [v] from [r] to [nr] (either may be
    [null_group]) every unfiltered incident edge takes its weight out of the
    pair of [r] with the neighbour's block and puts it into the pair of [nr]
    with the neighbour's block. Self-loops stay with the moved vertex: their
    weights are summed (halved in an undirected graph, where each is met
    twice) and moved from the pair (r, r) to the pair (nr, nr). *)
Definition take_and_put (dir : bool) (r nr : N) (pair_with : N -> N * N) (w : Z)
    (m : EntrySet) : EntrySet :=
  let m1 := if N.eqb r null_group then m
            else insert_delta dir (pair_with r).1 (pair_with r).2 (- w) m in
  if N.eqb nr null_group then m1
  else insert_delta dir (pair_with nr).1 (pair_with nr).2 w m1.

Definition entries_out_step (v r nr : N) (bm : gmap N Z) (dir : bool) (ew : N -> Z)
    (efilt : N -> bool) (m : EntrySet) (e : edge_t) : EntrySet :=
  if efilt (eidx e) || N.eqb (target e) v then m
  else take_and_put dir r nr (fun x => (x, size_t_of_int (pget bm (target e))))
         (ew (eidx e)) m.

Definition entries_in_step (v r nr : N) (bm : gmap N Z) (dir : bool) (ew : N -> Z)
    (efilt : N -> bool) (m : EntrySet) (e : edge_t) : EntrySet :=
  if efilt (eidx e) || N.eqb (source e) v then m
  else take_and_put dir r nr (fun x => (size_t_of_int (pget bm (source e)), x))
         (ew (eidx e)) m.

Definition move_entries (v r nr : N) (bm : gmap N Z) (gr : Graph) (ew : N -> Z)
    (efilt : N -> bool) : EntrySet :=
  let dir := directed gr in
  let loops := filter (fun e => negb (efilt (eidx e)) && N.eqb (target e) v)
                      (out_edges_range v gr) in
  let self_weight := foldr (fun e acc => ew (eidx e) + acc) 0 loops in
  let sw := if dir then self_weight else self_weight / 2 in
  let m0 := {| rnr := (r, nr); entries := [] |} in
  let m1 := foldl (entries_in_step v r nr bm dir ew efilt)
                  (foldl (entries_out_step v r nr bm dir ew efilt) m0 (out_edges_range v gr))
                  (in_edges_range v gr) in
  match loops with
  | [] => m1
  | _ :: _ => take_and_put dir r nr (fun x => (x, x)) sw m1
  end.

(** ** Entropy configuration *)

(** Modelled from the spec: [entropy_args_t] of graph_blockmodel_util.hh
    (absent), spec 3 "Entropy configuration"; the fields are those
    [virtual_move] reads. *)
Record entropy_args_t : Type := {
  adjacency : bool;
  dense : bool;
  multigraph : bool;
  exact : bool;
  partition_dl : bool;
  degree_dl : bool;
  edges_dl : bool;
  recs : bool;
  degree_dl_kind : Z
}.

(** ** Collaborators taken as parameters *)

(** The classes and numeric helpers of graph_blockmodel_util.hh that the
    partition state calls and whose source is absent: the edge-group sampler
    [EGroups], the partition statistics [partition_stats_t], the degree
    records, and the entropy terms. They are parameters of the development;
    nothing is assumed about them. *)
Class Externals : Type := {
  degs_t : Type;
  egroups_t : Type;
  egroups_empty : egroups_t -> bool;
  egroups_remove_vertex : N -> gmap N Z -> Graph -> egroups_t -> egroups_t;
  egroups_add_vertex : N -> gmap N Z -> (N -> Z) -> Graph -> egroups_t -> egroups_t;
  partition_stats_t : Type;
  ps_make : Graph -> gmap N Z -> list N -> N -> N -> (N -> Z) -> (N -> Z) -> degs_t ->
            gmap N Z -> list N -> bool -> partition_stats_t;
  ps_get_r : N -> partition_stats_t -> partition_stats_t;
  ps_remove_vertex : N -> N -> bool -> Graph -> (N -> Z) -> (N -> Z) -> degs_t ->
                     partition_stats_t -> partition_stats_t;
  ps_add_vertex : N -> N -> bool -> Graph -> (N -> Z) -> (N -> Z) -> degs_t ->
                  partition_stats_t -> partition_stats_t;
  ps_get_actual_B : partition_stats_t -> N;
  ps_get_delta_partition_dl : N -> N -> N -> (N -> Z) -> partition_stats_t -> float;
  ps_get_delta_deg_dl : N -> N -> N -> (N -> Z) -> (N -> Z) -> degs_t -> Graph -> Z ->
                        partition_stats_t -> float;
  ps_get_delta_edges_dl : N -> N -> N -> (N -> Z) -> N -> Graph -> partition_stats_t -> float;
  entries_dS : bool -> EntrySet -> gmap (N * N) Z -> bool -> float;
  vterm : Z -> Z -> Z -> bool -> bool -> float;
  vterm_exact : Z -> Z -> Z -> bool -> bool -> float;
  eterm_dense : N -> N -> Z -> Z -> Z -> bool -> bool -> float
}.

Section Model.
Context `{Ext : Externals}.

(** ** The state *)

(** The members of [BlockState] ([BLOCK_STATE_params] and the private
    members at the end of the class). The block graph [_bg], its edge index
    [_emat] and the edge property [_mrs] are one finite map [mrs] from block
    pairs to counts: a pair is in the map exactly when the block graph has
    the edge; [B] is [num_vertices(_bg)]. A property map is a handle on
    shared storage: [mrm_is_mrp] records that [_mrm] was built on the storage
    of [_mrp], which is how the totals of an undirected graph are kept. The
    covariate members ([_rec_types], [_rec], [_drec], [_brec], [_bdrec],
    [_brecsum], [_wparams]) are left out: the model covers states with no
    edge covariates. *)
Inductive BlockState : Type := mkBlockState {
  g : Graph;
  degs : degs_t;
  is_weighted : bool;
  eweight_map : gmap N Z;
  vweight_map : gmap N Z;
  B : N;
  mrs : gmap (N * N) Z;
  mrp : gmap N Z;
  mrm : gmap N Z;
  mrm_is_mrp : bool;
  wr : gmap N Z;
  b : gmap N Z;
  empty_blocks : list N;
  empty_pos : gmap N Z;
  candidate_blocks : list N;
  candidate_pos : gmap N Z;
  bclabel : gmap N Z;
  pclabel : gmap N Z;
  deg_corr : bool;
  ignore_degrees : gmap N Z;
  allow_empty : bool;
  egroups : egroups_t;
  egroups_enabled : bool;
  partition_stats : list partition_stats_t;
  bmap : list N;
  m_entries : EntrySet;
  coupled_state : option BlockState;
  coupled_entropy_args : entropy_args_t
}.

(** Field updates. *)

Definition with_vweight_map (x : gmap N Z) (st : BlockState) : BlockState :=
  {| g := g st;
     degs := degs st;
     is_weighted := is_weighted st;
     eweight_map := eweight_map st;
     vweight_map := x;
     B := B st;
     mrs := mrs st;
     mrp := mrp st;
     mrm := mrm st;
     mrm_is_mrp := mrm_is_mrp st;
     wr := wr st;
     b := b st;
     empty_blocks := empty_blocks st;
     empty_pos := empty_pos st;
     candidate_blocks := candidate_blocks st;
     candidate_pos := candidate_pos st;
     bclabel := bclabel st;
     pclabel := pclabel st;
     deg_corr := deg_corr st;
     ignore_degrees := ignore_degrees st;
     allow_empty := allow_empty st;
     egroups := egroups st;
     egroups_enabled := egroups_enabled st;
     partition_stats := partition_stats st;
     bmap := bmap st;
     m_entries := m_entries st;
     coupled_state := coupled_state st;
     coupled_entropy_args := coupled_entropy_args st |}.

Definition with_mrs (x : gmap (N * N) Z) (st : BlockState) : BlockState :=
  {| g := g st;
     degs := degs st;
     is_weighted := is_weighted st;
     eweight_map := eweight_map st;
     vweight_map := vweight_map st;
     B := B st;
     mrs := x;
     mrp := mrp st;
     mrm := mrm st;
     mrm_is_mrp := mrm_is_mrp st;
     wr := wr st;
     b := b st;
     empty_blocks := empty_blocks st;
     empty_pos := empty_pos st;
     candidate_blocks := candidate_blocks st;
     candidate_pos := candidate_pos st;
     bclabel := bclabel st;
     pclabel := pclabel st;
     deg_corr := deg_corr st;
     ignore_degrees := ignore_degrees st;
     allow_empty := allow_empty st;
     egroups := egroups st;
     egroups_enabled := egroups_enabled st;
     partition_stats := partition_stats st;
     bmap := bmap st;
     m_entries := m_entries st;
     coupled_state := coupled_state st;
     coupled_entropy_args := coupled_entropy_args st |}.

Definition with_mrp (x : gmap N Z) (st : BlockState) : BlockState :=
  {| g := g st;
     degs := degs st;
     is_weighted := is_weighted st;
     eweight_map := eweight_map st;
     vweight_map := vweight_map st;
     B := B st;
     mrs := mrs st;
     mrp := x;
     mrm := mrm st;
     mrm_is_mrp := mrm_is_mrp st;
     wr := wr st;
     b := b st;
     empty_blocks := empty_blocks st;
     empty_pos := empty_pos st;
     candidate_blocks := candidate_blocks st;
     candidate_pos := candidate_pos st;
     bclabel := bclabel st;
     pclabel := pclabel st;
     deg_corr := deg_corr st;
     ignore_degrees := ignore_degrees st;
     allow_empty := allow_empty st;
     egroups := egroups st;
     egroups_enabled := egroups_enabled st;
     partition_stats := partition_stats st;
     bmap := bmap st;
     m_entries := m_entries st;
     coupled_state := coupled_state st;
     coupled_entropy_args := coupled_entropy_args st |}.

Definition with_mrm (x : gmap N Z) (st : BlockState) : BlockState :=
  {| g := g st;
     degs := degs st;
     is_weighted := is_weighted st;
     eweight_map := eweight_map st;
     vweight_map := vweight_map st;
     B := B st;
     mrs := mrs st;
     mrp := mrp st;
     mrm := x;
     mrm_is_mrp := mrm_is_mrp st;
     wr := wr st;
     b := b st;
     empty_blocks := empty_blocks st;
     empty_pos := empty_pos st;
     candidate_blocks := candidate_blocks st;
     candidate_pos := candidate_pos st;
     bclabel := bclabel st;
     pclabel := pclabel st;
     deg_corr := deg_corr st;
     ignore_degrees := ignore_degrees st;
     allow_empty := allow_empty st;
     egroups := egroups st;
     egroups_enabled := egroups_enabled st;
     partition_stats := partition_stats st;
     bmap := bmap st;
     m_entries := m_entries st;
     coupled_state := coupled_state st;
     coupled_entropy_args := coupled_entropy_args st |}.

Definition with_wr (x : gmap N Z) (st : BlockState) : BlockState :=
  {| g := g st;
     degs := degs st;
     is_weighted := is_weighted st;
     eweight_map := eweight_map st;
     vweight_map := vweight_map st;
     B := B st;
     mrs := mrs st;
     mrp := mrp st;
     mrm := mrm st;
     mrm_is_mrp := mrm_is_mrp st;
     wr := x;
     b := b st;
     empty_blocks := empty_blocks st;
     empty_pos := empty_pos st;
     candidate_blocks := candidate_blocks st;
     candidate_pos := candidate_pos st;
     bclabel := bclabel st;
     pclabel := pclabel st;
     deg_corr := deg_corr st;
     ignore_degrees := ignore_degrees st;
     allow_empty := allow_empty st;
     egroups := egroups st;
     egroups_enabled := egroups_enabled st;
     partition_stats := partition_stats st;
     bmap := bmap st;
     m_entries := m_entries st;
     coupled_state := coupled_state st;
     coupled_entropy_args := coupled_entropy_args st |}.

Definition with_b (x : gmap N Z) (st : BlockState) : BlockState :=
  {| g := g st;
     degs := degs st;
     is_weighted := is_weighted st;
     eweight_map := eweight_map st;
     vweight_map := vweight_map st;
     B := B st;
     mrs := mrs st;
     mrp := mrp st;
     mrm := mrm st;
     mrm_is_mrp := mrm_is_mrp st;
     wr := wr st;
     b := x;
     empty_blocks := empty_blocks st;
     empty_pos := empty_pos st;
     candidate_blocks := candidate_blocks st;
     candidate_pos := candidate_pos st;
     bclabel := bclabel st;
     pclabel := pclabel st;
     deg_corr := deg_corr st;
     ignore_degrees := ignore_degrees st;
     allow_empty := allow_empty st;
     egroups := egroups st;
     egroups_enabled := egroups_enabled st;
     partition_stats := partition_stats st;
     bmap := bmap st;
     m_entries := m_entries st;
     coupled_state := coupled_state st;
     coupled_entropy_args := coupled_entropy_args st |}.

Definition with_empty_blocks (x : list N) (st : BlockState) : BlockState :=
  {| g := g st;
     degs := degs st;
     is_weighted := is_weighted st;
     eweight_map := eweight_map st;
     vweight_map := vweight_map st;
     B := B st;
     mrs := mrs st;
     mrp := mrp st;
     mrm := mrm st;
     mrm_is_mrp := mrm_is_mrp st;
     wr := wr st;
     b := b st;
     empty_blocks := x;
     empty_pos := empty_pos st;
     candidate_blocks := candidate_blocks st;
     candidate_pos := candidate_pos st;
     bclabel := bclabel st;
     pclabel := pclabel st;
     deg_corr := deg_corr st;
     ignore_degrees := ignore_degrees st;
     allow_empty := allow_empty st;
     egroups := egroups st;
     egroups_enabled := egroups_enabled st;
     partition_stats := partition_stats st;
     bmap := bmap st;
     m_entries := m_entries st;
     coupled_state := coupled_state st;
     coupled_entropy_args := coupled_entropy_args st |}.

Definition with_empty_pos (x : gmap N Z) (st : BlockState) : BlockState :=
  {| g := g st;
     degs := degs st;
     is_weighted := is_weighted st;
     eweight_map := eweight_map st;
     vweight_map := vweight_map st;
     B := B st;
     mrs := mrs st;
     mrp := mrp st;
     mrm := mrm st;
     mrm_is_mrp := mrm_is_mrp st;
     wr := wr st;
     b := b st;
     empty_blocks := empty_blocks st;
     empty_pos := x;
     candidate_blocks := candidate_blocks st;
     candidate_pos := candidate_pos st;
     bclabel := bclabel st;
     pclabel := pclabel st;
     deg_corr := deg_corr st;
     ignore_degrees := ignore_degrees st;
     allow_empty := allow_empty st;
     egroups := egroups st;
     egroups_enabled := egroups_enabled st;
     partition_stats := partition_stats st;
     bmap := bmap st;
     m_entries := m_entries st;
     coupled_state := coupled_state st;
     coupled_entropy_args := coupled_entropy_args st |}.

Definition with_candidate_blocks (x : list N) (st : BlockState) : BlockState :=
  {| g := g st;
     degs := degs st;
     is_weighted := is_weighted st;
     eweight_map := eweight_map st;
     vweight_map := vweight_map st;
     B := B st;
     mrs := mrs st;
     mrp := mrp st;
     mrm := mrm st;
     mrm_is_mrp := mrm_is_mrp st;
     wr := wr st;
     b := b st;
     empty_blocks := empty_blocks st;
     empty_pos := empty_pos st;
     candidate_blocks := x;
     candidate_pos := candidate_pos st;
     bclabel := bclabel st;
     pclabel := pclabel st;
     deg_corr := deg_corr st;
     ignore_degrees := ignore_degrees st;
     allow_empty := allow_empty st;
     egroups := egroups st;
     egroups_enabled := egroups_enabled st;
     partition_stats := partition_stats st;
     bmap := bmap st;
     m_entries := m_entries st;
     coupled_state := coupled_state st;
     coupled_entropy_args := coupled_entropy_args st |}.

Definition with_candidate_pos (x : gmap N Z) (st : BlockState) : BlockState :=
  {| g := g st;
     degs := degs st;
     is_weighted := is_weighted st;
     eweight_map := eweight_map st;
     vweight_map := vweight_map st;
     B := B st;
     mrs := mrs st;
     mrp := mrp st;
     mrm := mrm st;
     mrm_is_mrp := mrm_is_mrp st;
     wr := wr st;
     b := b st;
     empty_blocks := empty_blocks st;
     empty_pos := empty_pos st;
     candidate_blocks := candidate_blocks st;
     candidate_pos := x;
     bclabel := bclabel st;
     pclabel := pclabel st;
     deg_corr := deg_corr st;
     ignore_degrees := ignore_degrees st;
     allow_empty := allow_empty st;
     egroups := egroups st;
     egroups_enabled := egroups_enabled st;
     partition_stats := partition_stats st;
     bmap := bmap st;
     m_entries := m_entries st;
     coupled_state := coupled_state st;
     coupled_entropy_args := coupled_entropy_args st |}.

Definition with_bclabel (x : gmap N Z) (st : BlockState) : BlockState :=
  {| g := g st;
     degs := degs st;
     is_weighted := is_weighted st;
     eweight_map := eweight_map st;
     vweight_map := vweight_map st;
     B := B st;
     mrs := mrs st;
     mrp := mrp st;
     mrm := mrm st;
     mrm_is_mrp := mrm_is_mrp st;
     wr := wr st;
     b := b st;
     empty_blocks := empty_blocks st;
     empty_pos := empty_pos st;
     candidate_blocks := candidate_blocks st;
     candidate_pos := candidate_pos st;
     bclabel := x;
     pclabel := pclabel st;
     deg_corr := deg_corr st;
     ignore_degrees := ignore_degrees st;
     allow_empty := allow_empty st;
     egroups := egroups st;
     egroups_enabled := egroups_enabled st;
     partition_stats := partition_stats st;
     bmap := bmap st;
     m_entries := m_entries st;
     coupled_state := coupled_state st;
     coupled_entropy_args := coupled_entropy_args st |}.

Definition with_egroups (x : egroups_t) (st : BlockState) : BlockState :=
  {| g := g st;
     degs := degs st;
     is_weighted := is_weighted st;
     eweight_map := eweight_map st;
     vweight_map := vweight_map st;
     B := B st;
     mrs := mrs st;
     mrp := mrp st;
     mrm := mrm st;
     mrm_is_mrp := mrm_is_mrp st;
     wr := wr st;
     b := b st;
     empty_blocks := empty_blocks st;
     empty_pos := empty_pos st;
     candidate_blocks := candidate_blocks st;
     candidate_pos := candidate_pos st;
     bclabel := bclabel st;
     pclabel := pclabel st;
     deg_corr := deg_corr st;
     ignore_degrees := ignore_degrees st;
     allow_empty := allow_empty st;
     egroups := x;
     egroups_enabled := egroups_enabled st;
     partition_stats := partition_stats st;
     bmap := bmap st;
     m_entries := m_entries st;
     coupled_state := coupled_state st;
     coupled_entropy_args := coupled_entropy_args st |}.

Definition with_partition_stats (x : list partition_stats_t) (st : BlockState) : BlockState :=
  {| g := g st;
     degs := degs st;
     is_weighted := is_weighted st;
     eweight_map := eweight_map st;
     vweight_map := vweight_map st;
     B := B st;
     mrs := mrs st;
     mrp := mrp st;
     mrm := mrm st;
     mrm_is_mrp := mrm_is_mrp st;
     wr := wr st;
     b := b st;
     empty_blocks := empty_blocks st;
     empty_pos := empty_pos st;
     candidate_blocks := candidate_blocks st;
     candidate_pos := candidate_pos st;
     bclabel := bclabel st;
     pclabel := pclabel st;
     deg_corr := deg_corr st;
     ignore_degrees := ignore_degrees st;
     allow_empty := allow_empty st;
     egroups := egroups st;
     egroups_enabled := egroups_enabled st;
     partition_stats := x;
     bmap := bmap st;
     m_entries := m_entries st;
     coupled_state := coupled_state st;
     coupled_entropy_args := coupled_entropy_args st |}.

Definition with_m_entries (x : EntrySet) (st : BlockState) : BlockState :=
  {| g := g st;
     degs := degs st;
     is_weighted := is_weighted st;
     eweight_map := eweight_map st;
     vweight_map := vweight_map st;
     B := B st;
     mrs := mrs st;
     mrp := mrp st;
     mrm := mrm st;
     mrm_is_mrp := mrm_is_mrp st;
     wr := wr st;
     b := b st;
     empty_blocks := empty_blocks st;
     empty_pos := empty_pos st;
     candidate_blocks := candidate_blocks st;
     candidate_pos := candidate_pos st;
     bclabel := bclabel st;
     pclabel := pclabel st;
     deg_corr := deg_corr st;
     ignore_degrees := ignore_degrees st;
     allow_empty := allow_empty st;
     egroups := egroups st;
     egroups_enabled := egroups_enabled st;
     partition_stats := partition_stats st;
     bmap := bmap st;
     m_entries := x;
     coupled_state := coupled_state st;
     coupled_entropy_args := coupled_entropy_args st |}.

Definition with_coupled_state (x : option BlockState) (st : BlockState) : BlockState :=
  {| g := g st;
     degs := degs st;
     is_weighted := is_weighted st;
     eweight_map := eweight_map st;
     vweight_map := vweight_map st;
     B := B st;
     mrs := mrs st;
     mrp := mrp st;
     mrm := mrm st;
     mrm_is_mrp := mrm_is_mrp st;
     wr := wr st;
     b := b st;
     empty_blocks := empty_blocks st;
     empty_pos := empty_pos st;
     candidate_blocks := candidate_blocks st;
     candidate_pos := candidate_pos st;
     bclabel := bclabel st;
     pclabel := pclabel st;
     deg_corr := deg_corr st;
     ignore_degrees := ignore_degrees st;
     allow_empty := allow_empty st;
     egroups := egroups st;
     egroups_enabled := egroups_enabled st;
     partition_stats := partition_stats st;
     bmap := bmap st;
     m_entries := m_entries st;
     coupled_state := x;
     coupled_entropy_args := coupled_entropy_args st |}.

(** ** Reading the state *)

(** [_vweight[v]]: the vertex-weight map of a weighted state, the constant 1
    ([vcmap_t]) of an unweighted one. *)
Definition vweight (st : BlockState) (v : N) : Z :=
  if is_weighted st then pget (vweight_map st) v else 1.

(** [_eweight[e]], by edge index. *)
Definition eweight (st : BlockState) (e : N) : Z :=
  if is_weighted st then pget (eweight_map st) e else 1.

(** [_emat.get_me(r, s)]: the block edge of the pair, if the block graph has
    one. *)
Definition get_me (st : BlockState) (r s : N) : option (N * N) :=
  let k := edge_key (directed (g st)) r s in
  match mrs st !! k with
  | Some _ => Some k
  | None => None
  end.

(** [_mrs[me]] for a block edge, and [get_beprop(r, s, _mrs, _emat)]: the
    count of a pair, 0 when the block graph has no such edge. *)
Definition mrs_at (st : BlockState) (k : N * N) : Z := default 0 (mrs st !! k).

Definition get_beprop (st : BlockState) (r s : N) : Z :=
  mrs_at st (edge_key (directed (g st)) r s).

(** [_mrm[s]] and [_mrm[s] = z], through the storage [_mrm] stands on. *)
Definition get_mrm (st : BlockState) (s : N) : Z :=
  if mrm_is_mrp st then pget (mrp st) s else pget (mrm st) s.

Definition set_mrm (s : N) (z : Z) (st : BlockState) : BlockState :=
  if mrm_is_mrp st then with_mrp (pset (mrp st) s z) st
  else with_mrm (pset (mrm st) s z) st.

Definition is_partition_stats_enabled (st : BlockState) : bool :=
  match partition_stats st with [] => false | _ :: _ => true end.

(** [vec[i]] updated in place, for an [int] index [i]. *)
Definition alter_at {A : Type} (f : A -> A) (i : Z) (l : list A) : list A :=
  if 0 <=? i then alter f (Z.to_nat i) l else l.

(** ** State modification *)

(** [get_move_entries(v, r, nr, _m_entries, efilt)]: with no covariates the
    [switch] takes its default branch. *)
Definition get_move_entries (v r nr : N) (efilt : N -> bool) (st : BlockState) : BlockState :=
  with_m_entries (move_entries v r nr (b st) (g st) (eweight st) efilt) st.

(** [_mrs[me] += d] on the block edge of the pair [k]. *)
Definition bump_mrs (k : N * N) (d : Z) (st : BlockState) : BlockState :=
  with_mrs (<[k := wrap32 (mrs_at st k + d)]> (mrs st)) st.

(** [_mrp[r] += d; _mrm[s] += d]. *)
Definition bump_totals (r s : N) (d : Z) (st : BlockState) : BlockState :=
  let st1 := with_mrp (pset (mrp st) r (pget (mrp st) r + d)) st in
  set_mrm s (get_mrm st1 s + d) st1.

(** [_emat.remove_me(me, _bg)] when the count of the pair has reached 0. *)
Definition drop_if_zero (k : N * N) (st : BlockState) : BlockState :=
  if mrs_at st k =? 0 then with_mrs (delete k (mrs st)) st else st.

(** The body of the lambda [modify_vertex] hands to [entries_op], for one
    entry [(r, s, delta)]. An addition that meets a pair with no block edge
    creates the edge with count 0 first. When a removal meets such a pair the
    source writes through the null edge (undefined; its assertions exclude
    it); the model counts from 0. *)
Definition apply_entry (Add : bool) (e : N * N * Z) (st : BlockState) : BlockState :=
  let '(r, s, d) := e in
  if d =? 0 then st else
  let k := edge_key (directed (g st)) r s in
  let st1 := bump_totals r s d (bump_mrs k d st) in
  if negb Add then drop_if_zero k st1 else st1.

Definition remove_partition_node (v r : N) (st : BlockState) : BlockState :=
  let st1 := with_wr (pset (wr st) r (pget (wr st) r - vweight st v)) st in
  let st2 := if negb (egroups_empty (egroups st1)) && egroups_enabled st1
             then with_egroups (egroups_remove_vertex v (b st1) (g st1) (egroups st1)) st1
             else st1 in
  let st3 := if is_partition_stats_enabled st2
             then with_partition_stats
                    (alter_at (ps_remove_vertex v r (deg_corr st2) (g st2) (vweight st2)
                                 (eweight st2) (degs st2))
                              (pget (pclabel st2) v) (partition_stats st2)) st2
             else st2 in
  if (0 <? vweight st3 v) && (pget (wr st3) r =? 0) then
    let c := remove_element (candidate_blocks st3, candidate_pos st3) r in
    let e := add_element (empty_blocks st3, empty_pos st3) r in
    with_empty_pos e.2 (with_empty_blocks e.1
      (with_candidate_pos c.2 (with_candidate_blocks c.1 st3)))
  else st3.

Definition add_partition_node (v r : N) (st : BlockState) : BlockState :=
  let st1 := with_wr (pset (wr st) r (pget (wr st) r + vweight st v)) st in
  let st2 := if negb (egroups_empty (egroups st1)) && egroups_enabled st1
             then with_egroups
                    (egroups_add_vertex v (b st1) (eweight st1) (g st1) (egroups st1)) st1
             else st1 in
  let st3 := if is_partition_stats_enabled st2
             then with_partition_stats
                    (alter_at (ps_add_vertex v r (deg_corr st2) (g st2) (vweight st2)
                                 (eweight st2) (degs st2))
                              (pget (pclabel st2) v) (partition_stats st2)) st2
             else st2 in
  if (0 <? vweight st3 v) && (pget (wr st3) r =? vweight st3 v) then
    let e := remove_element (empty_blocks st3, empty_pos st3) r in
    let c := add_element (candidate_blocks st3, candidate_pos st3) r in
    with_candidate_pos c.2 (with_candidate_blocks c.1
      (with_empty_pos e.2 (with_empty_blocks e.1 st3)))
  else st3.

(** [modify_vertex<Add>(v, r, efilt)]. *)
Definition modify_vertex (Add : bool) (v r : N) (efilt : N -> bool) (st : BlockState)
  : BlockState :=
  let st1 := if Add then get_move_entries v null_group r efilt st
             else get_move_entries v r null_group efilt st in
  let st2 := foldl (fun s e => apply_entry Add e s) st1 (entries (m_entries st1)) in
  if Add then add_partition_node v r (with_b (pset (b st2) v (Z.of_N r)) st2)
  else remove_partition_node v r st2.

Definition remove_vertex_filt (v r : N) (efilt : N -> bool) : BlockState -> BlockState :=
  modify_vertex false v r efilt.

Definition remove_vertex (v r : N) : BlockState -> BlockState :=
  remove_vertex_filt v r (fun _ => false).

Definition add_vertex_filt (v r : N) (efilt : N -> bool) : BlockState -> BlockState :=
  modify_vertex true v r efilt.

Definition add_vertex (v r : N) : BlockState -> BlockState :=
  add_vertex_filt v r (fun _ => false).

Definition allow_move (st : BlockState) (r nr : N) (allow_empty_arg : bool) : bool :=
  if allow_empty_arg
  then (pget (bclabel st) r =? pget (bclabel st) nr) || (pget (wr st) nr =? 0)
  else pget (bclabel st) r =? pget (bclabel st) nr.

(** [set_vertex_weight(v, w)]: refused on an unweighted state. *)
Definition set_vertex_weight (v : N) (w : Z) : BlockState -> outcome BlockState unit :=
  fun st =>
    if is_weighted st then Ok tt (with_vweight_map (pset (vweight_map st) v w) st)
    else Throw (ValueException "Cannot set the weight of an unweighted state") st.

(** A block of statements run on the object [_coupled_state] points to. *)
Definition on_coupled (m : BlockState -> outcome BlockState unit)
  : BlockState -> outcome BlockState unit :=
  fun st =>
    match coupled_state st with
    | Some c =>
        match m c with
        | Ok a c' => Ok a (with_coupled_state (Some c') st)
        | Throw e c' => Throw e (with_coupled_state (Some c') st)
        end
    | None => Ok tt st
    end.

(** The two blocks of statements [move_vertex] runs on the coupled state. *)
Definition coupled_vacate (r lbl : N) : BlockState -> outcome BlockState unit :=
  let! _ := modify (remove_partition_node r lbl) in
  set_vertex_weight r 0.

Definition coupled_occupy (nr lbl : N) (lblz : Z) : BlockState -> outcome BlockState unit :=
  let! _ := set_vertex_weight nr 1 in
  let! _ := modify (add_partition_node nr lbl) in
  modify (fun c => with_b (pset (b c) nr lblz) c).

(** The tail of [move_vertex]: what the parent level is told when the move
    emptied [r] or occupied [nr]. *)
Definition propagate_move (v r nr : N) : BlockState -> outcome BlockState unit :=
  fun st =>
    match coupled_state st with
    | Some _ =>
        if 0 <? vweight st v then
          (let! _ := (if pget (wr st) r =? 0
                      then on_coupled (coupled_vacate r (size_t_of_int (pget (bclabel st) r)))
                      else ret tt) in
           if pget (wr st) nr =? vweight st v
           then let! _ := on_coupled (coupled_occupy nr (size_t_of_int (pget (bclabel st) r))
                                        (pget (bclabel st) r)) in
                modify (fun s => with_bclabel (pset (bclabel s) nr (pget (bclabel s) r)) s)
           else ret tt) st
        else Ok tt st
    | None => Ok tt st
    end.

(** [move_vertex(v, r, nr)]. *)
Definition move_vertex (v r nr : N) : BlockState -> outcome BlockState unit :=
  fun st =>
    if N.eqb r nr then Ok tt st
    else if negb (allow_move st r nr true)
    then Throw (ValueException "cannot move vertex across clabel barriers") st
    else propagate_move v r nr (add_vertex v nr (remove_vertex v r st)).

(** [move_vertex(v, nr)]: from the block [v] is in. *)
Definition move_vertex_from_b (v nr : N) : BlockState -> outcome BlockState unit :=
  fun st => move_vertex v (size_t_of_int (pget (b st) v)) nr st.

(** ** Bulk operations *)

(** The hash containers of the bulk operations ([gt_hash_set], [gt_hash_map])
    are iterated in an order the source does not fix; the model iterates
    them as lists without repetition, in one fixed order. *)
Definition edge_in (es : list edge_t) (i : N) : bool :=
  existsb (fun e => N.eqb (eidx e) i) es.

Definition eset_insert (es : list edge_t) (e : edge_t) : list edge_t :=
  if edge_in es (eidx e) then es else es ++ [e].

(** The edges with both ends in the batch:
    [for v in vset: for e in all_edges_range(v): if u in vset: eset.insert(e)]. *)
Definition batch_edges (gr : Graph) (vs : list N) : list edge_t :=
  foldl (fun es v =>
           foldl (fun es' e =>
                    let u := if N.eqb (source e) v then target e else source e in
                    if bool_decide (u ∈ vs) then eset_insert es' e else es')
                 es (all_edges_range v gr))
        [] vs.

(** One turn of the closing loop of [remove_vertices], for a batch edge [e]. *)
Definition remove_batch_edge (e : edge_t) (st : BlockState) : BlockState :=
  let r := size_t_of_int (pget (b st) (source e)) in
  let s := size_t_of_int (pget (b st) (target e)) in
  let k := edge_key (directed (g st)) r s in
  let ew := eweight st (eidx e) in
  drop_if_zero k (bump_totals r s (- ew) (bump_mrs k (- ew) st)).

(** [remove_vertices(vs)]. *)
Definition remove_vertices (vs : list N) (st : BlockState) : BlockState :=
  let vset := remove_dups vs in
  let eset := batch_edges (g st) vset in
  let st1 := foldl (fun s v =>
                      remove_vertex_filt v (size_t_of_int (pget (b s) v)) (edge_in eset) s)
                   st vset in
  foldl (fun s e => remove_batch_edge e s) st1 eset.

(** [vset[vs[i]] = rs[i]] for every [i]: a later pair overwrites an earlier
    one of the same vertex. *)
Fixpoint vset_of (vs rs : list N) (acc : list (N * N)) : list (N * N) :=
  match vs, rs with
  | v :: vs', r :: rs' =>
      vset_of vs' rs'
        (if bool_decide (v ∈ acc.*1)
         then map (fun p : N * N => if N.eqb p.1 v then (v, r) else p) acc
         else acc ++ [(v, r)])
  | _, _ => acc
  end.

Definition vset_find (vset : list (N * N)) (v : N) : N :=
  match find (fun p : N * N => N.eqb p.1 v) vset with
  | Some p => p.2
  | None => 0%N
  end.

(** One turn of the closing loop of [add_vertices], for a batch edge [e]. *)
Definition add_batch_edge (vset : list (N * N)) (e : edge_t) (st : BlockState) : BlockState :=
  let r := vset_find vset (source e) in
  let s := vset_find vset (target e) in
  let k := edge_key (directed (g st)) r s in
  let ew := eweight st (eidx e) in
  bump_totals r s ew (bump_mrs k ew st).

(** [add_vertices(vs, rs)], the template and, through it, the overload on
    flat arrays. *)
Definition add_vertices (vs rs : list N) : BlockState -> outcome BlockState unit :=
  fun st =>
    if negb (Nat.eqb (length vs) (length rs))
    then Throw (ValueException "vertex and group lists do not have the same size") st
    else
      let vset := vset_of vs rs [] in
      let eset := batch_edges (g st) vset.*1 in
      let st1 := foldl (fun s vr => add_vertex_filt vr.1 vr.2 (edge_in eset) s) st vset in
      Ok tt (foldl (fun s e => add_batch_edge vset e s) st1 eset).

(** [move_vertices(v, nr)], the template on two vectors: the loop runs to
    [std::min(v.size(), nr.size())]. *)
Fixpoint move_vertices (vs nrs : list N) : BlockState -> outcome BlockState unit :=
  match vs, nrs with
  | v :: vs', nr :: nrs' =>
      let! _ := move_vertex_from_b v nr in
      move_vertices vs' nrs'
  | _, _ => ret tt
  end.

(** [move_vertices(ovs, ors)], the overload on flat arrays. *)
Definition move_vertices_py (vs rs : list N) : BlockState -> outcome BlockState unit :=
  fun st =>
    if negb (Nat.eqb (length vs) (length rs))
    then Throw (ValueException "vertex and group lists do not have the same size") st
    else move_vertices vs rs st.

(** ** Construction *)

(** The range [vertices_range(_bg)]. *)
Definition block_range (n : N) : list N := map N.of_nat (seq 0 (N.to_nat n)).

(** The body of the constructor: the two pools are rebuilt from [_wr]. *)
Definition init_pools (st : BlockState) : BlockState :=
  let st0 := with_candidate_blocks [null_group] (with_empty_blocks [] st) in
  foldl (fun s r =>
           if pget (wr s) r =? 0 then
             let e := add_element (empty_blocks s, empty_pos s) r in
             with_empty_pos e.2 (with_empty_blocks e.1 s)
           else
             let c := add_element (candidate_blocks s, candidate_pos s) r in
             with_candidate_pos c.2 (with_candidate_blocks c.1 s))
        st0 (block_range (B st)).

(** ** Virtual state modification *)

(** [int] arithmetic. *)
Definition iadd (x y : Z) : Z := wrap32 (x + y).
Definition isub (x y : Z) : Z := wrap32 (x - y).

(** [virtual_move_sparse<exact>(v, r, nr, m_entries)]. The first two
    arguments of the vertex term are [size_t] expressions where the degree
    of [v] enters, [int] expressions otherwise. *)
Definition virtual_move_sparse (exact_ : bool) (v r nr : N) (m : EntrySet) (st : BlockState)
  : float :=
  if N.eqb r nr then 0%float else
  let dS := entries_dS exact_ m (mrs st) (directed (g st)) in
  let kout := wrap64 (out_degreeS v (g st) (eweight st)) in
  let kin := if directed (g st) then wrap64 (in_degreeS v (g st) (eweight st)) else kout in
  let dwr := vweight st v in
  let dwnr := if N.eqb r null_group && (dwr =? 0) then 1 else dwr in
  let vt (p m n : Z) : float :=
    if exact_ then vterm_exact p m n (deg_corr st) (directed (g st))
    else vterm p m n (deg_corr st) (directed (g st)) in
  let dS :=
    if negb (N.eqb r null_group) then
      (dS + vt (Z.of_N (wrap64 (pget (mrp st) r - Z.of_N kout)))
               (Z.of_N (wrap64 (get_mrm st r - Z.of_N kin)))
               (isub (pget (wr st) r) dwr)
          - vt (pget (mrp st) r) (get_mrm st r) (pget (wr st) r))%float
    else dS in
  if negb (N.eqb nr null_group) then
    (dS + vt (Z.of_N (wrap64 (pget (mrp st) nr + Z.of_N kout)))
             (Z.of_N (wrap64 (get_mrm st nr + Z.of_N kin)))
             (iadd (pget (wr st) nr) dwnr)
        - vt (pget (mrp st) nr) (get_mrm st nr) (pget (wr st) nr))%float
  else dS.

(** [Si += x; Sf += y]. *)
Definition acc2 (a : float * float) (x y : float) : float * float :=
  ((a.1 + x)%float, (a.2 + y)%float).

(** The body of the loop over the blocks [s] in [virtual_move_dense]. *)
Definition dense_step (st : BlockState) (mg : bool) (r nr : N) (dwr dwnr deltal : Z)
    (deltap deltam : gmap N Z) (acc : float * float) (s : N) : float * float :=
  let dir := directed (g st) in
  let et x y e wx wy := eterm_dense x y e wx wy mg dir in
  let w x := pget (wr st) x in
  let dp x := pget deltap x in
  let dm x := pget deltam x in
  let has_r := negb (N.eqb r null_group) in
  let has_nr := negb (N.eqb nr null_group) in
  let ers := if has_r then get_beprop st r s else 0 in
  let enrs := if has_nr then get_beprop st nr s else 0 in
  if negb dir then
    let a1 :=
      if negb (N.eqb s nr) && negb (N.eqb s r) then
        let a := if has_r
                 then acc2 acc (et r s ers (w r) (w s))
                               (et r s (isub ers (dp s)) (isub (w r) dwr) (w s))
                 else acc in
        if has_nr
        then acc2 a (et nr s enrs (w nr) (w s))
                    (et nr s (iadd enrs (dp s)) (iadd (w nr) dwnr) (w s))
        else a
      else acc in
    let a2 :=
      if N.eqb s r
      then acc2 a1 (et r r ers (w r) (w r))
                   (et r r (isub (isub ers (dp r)) deltal) (isub (w r) dwr) (isub (w r) dwr))
      else a1 in
    if N.eqb s nr then
      let a3 := acc2 a2 (et nr nr enrs (w nr) (w nr))
                        (et nr nr (iadd (iadd enrs (dp nr)) deltal)
                            (iadd (w nr) dwnr) (iadd (w nr) dwnr)) in
      if has_r
      then acc2 a3 (et r nr ers (w r) (w nr))
                   (et r nr (iadd (isub ers (dp nr)) (dp r)) (isub (w r) dwr) (iadd (w nr) dwnr))
      else a3
    else a2
  else
    let esr := if has_r then get_beprop st s r else 0 in
    let esnr := if has_nr then get_beprop st s nr else 0 in
    let a1 :=
      if negb (N.eqb s nr) && negb (N.eqb s r) then
        let a :=
          if has_r
          then acc2 (acc2 acc (et r s ers (w r) (w s))
                              (et r s (isub ers (dp s)) (isub (w r) dwr) (w s)))
                    (et s r esr (w s) (w r))
                    (et s r (isub esr (dm s)) (w s) (isub (w r) dwr))
          else acc in
        if has_nr
        then acc2 (acc2 a (et nr s enrs (w nr) (w s))
                          (et nr s (iadd enrs (dp s)) (iadd (w nr) dwnr) (w s)))
                  (et s nr esnr (w s) (w nr))
                  (et s nr (iadd esnr (dm s)) (w s) (iadd (w nr) dwnr))
        else a
      else acc in
    let a2 :=
      if N.eqb s r then
        let a := acc2 a1 (et r r ers (w r) (w r))
                         (et r r (isub (isub (isub ers (dp r)) (dm r)) deltal)
                             (isub (w r) dwr) (isub (w r) dwr)) in
        if has_nr
        then acc2 a (et r nr esnr (w r) (w nr))
                    (et r nr (iadd (isub esnr (dp nr)) (dm r)) (isub (w r) dwr) (iadd (w nr) dwnr))
        else a
      else a1 in
    if N.eqb s nr then
      let a := acc2 a2 (et nr nr esnr (w nr) (w nr))
                       (et nr nr (iadd (iadd (iadd esnr (dp nr)) (dm nr)) deltal)
                           (iadd (w nr) dwnr) (iadd (w nr) dwnr)) in
      if has_r
      then acc2 a (et nr r esr (w nr) (w r))
                  (et nr r (isub (iadd esr (dp r)) (dm nr)) (iadd (w nr) dwnr) (isub (w r) dwr))
      else a
    else a2.

(** [virtual_move_dense(v, r, nr, multigraph)]. The vectors [deltap] and
    [deltam] are maps reading 0 where nothing was added. *)
Definition virtual_move_dense (v r nr : N) (mg : bool) : BlockState -> outcome BlockState float :=
  fun st =>
    if deg_corr st
    then Throw (GraphException "Dense entropy for degree corrected model not implemented!") st
    else if N.eqb r nr then Ok 0%float st
    else
      let dl_dp :=
        foldl (fun (a : Z * gmap N Z) e =>
                 let u := target e in
                 let s := size_t_of_int (pget (b st) u) in
                 if N.eqb u v then (iadd a.1 (eweight st (eidx e)), a.2)
                 else (a.1, pset a.2 s (pget a.2 s + eweight st (eidx e))))
              (0, (∅ : gmap N Z)) (out_edges_range v (g st)) in
      let deltal := if negb (directed (g st)) then Z.quot dl_dp.1 2 else dl_dp.1 in
      let deltap := dl_dp.2 in
      let deltam :=
        foldl (fun (a : gmap N Z) e =>
                 let u := source e in
                 if N.eqb u v then a
                 else let s := size_t_of_int (pget (b st) u) in
                      pset a s (pget a s + eweight st (eidx e)))
              (∅ : gmap N Z) (in_edges_range v (g st)) in
      let dS := 0%float in
      let dwr := vweight st v in
      let dwnr := if N.eqb r null_group && (dwr =? 0) then 1 else dwr in
      let deltap := if N.eqb nr null_group then (∅ : gmap N Z) else deltap in
      let deltam := if N.eqb nr null_group then (∅ : gmap N Z) else deltam in
      let deltal := if N.eqb nr null_group then 0 else deltal in
      let SiSf := foldl (dense_step st mg r nr dwr dwnr deltal deltap deltam)
                        (0%float, 0%float) (block_range (B st)) in
      Ok (SiSf.2 - SiSf.1 + dS)%float st.

(** [enable_partition_stats()]. *)
Definition enable_partition_stats (st : BlockState) : BlockState :=
  match partition_stats st with
  | _ :: _ => st
  | [] =>
      let E := wrap64 (foldr (fun ie acc => eweight st ie.1 + acc) 0
                         (indexed 0%N (edge_list (g st)))) in
      let vs := block_range (num_vertices (g st)) in
      let top := foldl (fun m v => if m <? pget (pclabel st) v then pget (pclabel st) v else m)
                       (match vs with v0 :: _ => pget (pclabel st) v0 | [] => 0 end) vs in
      let C := size_t_of_int (iadd top 1) in
      let vcs (c : N) := filter (fun v => size_t_of_int (pget (pclabel st) v) = c) vs in
      let rc (r : N) :=
        foldl (fun a v => if N.eqb (size_t_of_int (pget (b st) v)) r
                          then size_t_of_int (pget (pclabel st) v) else a) 0%N vs in
      let made := map (fun c => ps_make (g st) (b st) (vcs c) E (B st) (vweight st) (eweight st)
                                  (degs st) (ignore_degrees st) (bmap st) (allow_empty st))
                      (block_range C) in
      with_partition_stats
        (foldl (fun ps r => alter (ps_get_r r) (N.to_nat (rc r)) ps) made (block_range (B st)))
        st
  end.

(** The part of [virtual_move] between the two early returns and the
    coupled state: the move entries, the adjacency term and the description
    length terms. With no covariates the loop under [ea.recs] has no turn.
    Where [get_partition_stats(v)] indexes outside the vector (undefined in
    the source) the model adds nothing. *)
Definition virtual_move_local (v r nr : N) (ea : entropy_args_t)
  : BlockState -> outcome BlockState float :=
  let! _ := modify (get_move_entries v r nr (fun _ => false)) in
  let! dS := (if adjacency ea then
                if dense ea then virtual_move_dense v r nr (multigraph ea)
                else fun st => Ok (virtual_move_sparse (exact ea) v r nr (m_entries st) st) st
              else ret 0%float) in
  if partition_dl ea || degree_dl ea || edges_dl ea then
    let! _ := modify enable_partition_stats in
    fun st =>
      let i := pget (pclabel st) v in
      match (if 0 <=? i then partition_stats st !! Z.to_nat i else None) with
      | None => Ok dS st
      | Some ps =>
          let dS1 := if partition_dl ea
                     then (dS + ps_get_delta_partition_dl v r nr (vweight st) ps)%float
                     else dS in
          let dS2 := if deg_corr st && degree_dl ea
                     then (dS1 + ps_get_delta_deg_dl v r nr (vweight st) (eweight st) (degs st)
                                   (g st) (degree_dl_kind ea) ps)%float
                     else dS1 in
          let dS3 := if edges_dl ea
                     then
                       let actual_B :=
                         foldl (fun a q => wrap64 (Z.of_N a + Z.of_N (ps_get_actual_B q)))
                               0%N (partition_stats st) in
                       (dS2 + ps_get_delta_edges_dl v r nr (vweight st) actual_B (g st) ps)%float
                     else dS2 in
          Ok dS3 st
      end
  else ret dS.

(** A call made on the object [_coupled_state] points to. *)
Definition call_coupled (m : BlockState -> outcome BlockState float)
  : BlockState -> outcome BlockState float :=
  fun st =>
    match coupled_state st with
    | Some c =>
        match m c with
        | Ok a c' => Ok a (with_coupled_state (Some c') st)
        | Throw e c' => Throw e (with_coupled_state (Some c') st)
        end
    | None => Ok 0%float st
    end.

(** The last block of [virtual_move]: the deltas of the parent level, added
    to [dS]. [parent] is [_coupled_state->virtual_move]. *)
Definition virtual_move_coupled
    (parent : N -> N -> N -> entropy_args_t -> BlockState -> outcome BlockState float)
    (v r nr : N) (dS : float) : BlockState -> outcome BlockState float :=
  fun st =>
    match coupled_state st with
    | Some _ =>
        if 0 <? vweight st v then
          let r_vacate := negb (N.eqb r null_group) && (pget (wr st) r =? vweight st v) in
          let nr_occupy := negb (N.eqb nr null_group) && (pget (wr st) nr =? 0) in
          if negb (Bool.eqb r_vacate nr_occupy) then
            (let! dS1 := (if r_vacate
                          then let! d := call_coupled
                                           (parent r (size_t_of_int (pget (bclabel st) r))
                                              null_group (coupled_entropy_args st)) in
                               ret (dS + d)%float
                          else ret dS) in
             if nr_occupy
             then let! d := call_coupled
                              (parent nr null_group (size_t_of_int (pget (bclabel st) r))
                                 (coupled_entropy_args st)) in
                  ret (dS1 + d)%float
             else ret dS1) st
          else Ok dS st
        else Ok dS st
    | None => Ok dS st
    end.

(** [virtual_move(v, r, nr, ea)], on the state's own [_m_entries]. The
    recursion follows the chain of coupled states; [depth] bounds the levels
    still to be entered. *)
Fixpoint virtual_move_at (depth : nat) (v r nr : N) (ea : entropy_args_t)
  : BlockState -> outcome BlockState float :=
  fun st =>
    if N.eqb r nr then Ok 0%float st
    else if negb (N.eqb r null_group) && negb (N.eqb nr null_group)
            && negb (allow_move st r nr true)
    then Ok infinity st
    else
      (let! dS := virtual_move_local v r nr ea in
       virtual_move_coupled
         (match depth with
          | O => fun _ _ _ _ => ret 0%float
          | S d => virtual_move_at d
          end) v r nr dS) st.

(** The number of levels above a state. *)
Fixpoint coupling_depth (st : BlockState) : nat :=
  match coupled_state st with
  | Some c => S (coupling_depth c)
  | None => O
  end.

Definition virtual_move (v r nr : N) (ea : entropy_args_t)
  : BlockState -> outcome BlockState float :=
  fun st => virtual_move_at (coupling_depth st) v r nr ea st.

(** ** Entropy *)

(** [dense_entropy(multigraph)]: over the edges of the block graph. *)
Definition dense_entropy (mg : bool) : BlockState -> outcome BlockState float :=
  fun st =>
    if deg_corr st
    then Throw (GraphException "Dense entropy for degree corrected model not implemented!") st
    else
      Ok (foldl (fun S (e : N * N * Z) =>
                   (S + eterm_dense e.1.1 e.1.2 e.2 (pget (wr st) e.1.1) (pget (wr st) e.1.2)
                          mg (directed (g st)))%float)
                0%float (map_to_list (mrs st)))
         st.

(** ** Move proposals *)

(** The block count [B] of the proposal: [_candidate_blocks.size() - 1] when
    there is no empty block, [_candidate_blocks.size()] otherwise. *)
Definition proposal_B (st : BlockState) : N :=
  match empty_blocks st with
  | [] => wrap64 (Z.of_nat (length (candidate_blocks st)) - 1)
  | _ :: _ => N.of_nat (length (candidate_blocks st))
  end.

(** The lambda [sum_prob(e, u)] of [get_move_prob]; the accumulators are
    the probability mass [p] and the weight [w]. *)
Definition sum_prob (st : BlockState) (m : EntrySet) (v r s : N) (c : float)
    (reverse : bool) (Bn kout kin : N) (acc : float * N) (e : edge_t) (u : N) : float * N :=
  let dir := directed (g st) in
  let t := if N.eqb u v then r else size_t_of_int (pget (b st) u) in
  let ew := wrap64 (eweight st (eidx e)) in
  let w := wrap64 (Z.of_N acc.2 + Z.of_N ew) in
  let mts := match get_me st t s with Some k => mrs_at st k | None => 0 end in
  let mtp := pget (mrp st) t in
  let mst := if dir then match get_me st s t with Some k => mrs_at st k | None => 0 end
             else mts in
  let mtm := if dir then get_mrm st t else mtp in
  let dts := get_delta dir t s m in
  let dst := if dir then get_delta dir s t m else dts in
  let mts := if reverse then iadd mts dts else mts in
  let mst := if reverse then iadd mst dst else mst in
  let mtp := if reverse && N.eqb t s then isub mtp (Z.of_N kout) else mtp in
  let mtm := if reverse && N.eqb t s then isub mtm (Z.of_N kin) else mtm in
  let mtp := if reverse && N.eqb t r then iadd mtp (Z.of_N kout) else mtp in
  let mtm := if reverse && N.eqb t r then iadd mtm (Z.of_N kin) else mtm in
  let dB := double_of_Z (Z.of_N Bn) in
  let dew := double_of_Z (Z.of_N ew) in
  if dir then
    ((acc.1 + dew * ((double_of_Z (iadd mts mst) + c)
                     / (double_of_Z (iadd mtp mtm) + c * dB)))%float, w)
  else
    let mts := if N.eqb t s then wrap32 (mts * 2) else mts in
    ((acc.1 + dew * (double_of_Z mts + c) / (double_of_Z mtp + c * dB))%float, w).

(** [get_move_prob(v, r, s, c, reverse, m_entries)]. *)
Definition get_move_prob_entries (v r s : N) (c : float) (reverse : bool) (m : EntrySet)
    (st : BlockState) : float :=
  let Bn := proposal_B st in
  let kout := wrap64 (out_degreeS v (g st) (eweight st)) in
  let kin := if directed (g st) then wrap64 (in_degreeS v (g st) (eweight st)) else kout in
  let step := sum_prob st m v r s c reverse Bn kout kin in
  let a1 := foldl (fun a e => if N.eqb (target e) v then a else step a e (target e))
                  (0%float, 0%N) (out_edges_range v (g st)) in
  let a2 := foldl (fun a e => if N.eqb (source e) v then a else step a e (source e))
                  a1 (in_edges_range v (g st)) in
  if (0 <? a2.2)%N then (a2.1 / double_of_Z (Z.of_N a2.2))%float
  else (1 / double_of_Z (Z.of_N Bn))%float.

(** [get_move_prob(v, r, s, c, reverse)]: the value and the state, whose
    [_m_entries] the call has refilled. *)
Definition get_move_prob (v r s : N) (c : float) (reverse : bool) (st : BlockState)
  : float * BlockState :=
  let st1 := get_move_entries v (size_t_of_int (pget (b st) v)) (if reverse then r else s)
               (fun _ => false) st in
  (get_move_prob_entries v r s c reverse (m_entries st1) st1, st1).

End Model.

(** ** The multicanonical sweep *)

(** The class [MulticanonicalState] (multicanonical.hh) and the random
    number helpers are absent from the inference sources. What
    [multicanonical_sweep] calls on them is a parameter: [inner_t] is
    whatever the member functions work on (the wrapped block state). *)
Class SweepExternals : Type := {
  inner_t : Type;
  rng_t : Type;
  uniform_sample : list N -> rng_t -> N * rng_t;
  a_sample : rng_t -> float * rng_t;
  exp : float -> float;
  get_bin : float -> float -> nat -> float -> Z;
  node_weight : N -> inner_t -> N;
  move_proposal : N -> rng_t -> inner_t -> N * rng_t * inner_t;
  virtual_move_dS : N -> N -> inner_t -> (float * float) * inner_t;
  perform_move : N -> N -> inner_t -> inner_t
}.

Section Sweep.
Context `{SExt : SweepExternals}.

(** Modelled from the spec: the members of [MulticanonicalState] the sweep
    reads and writes (spec 3, "Multicanonical state"): the entropy range, the
    visit histogram ([size_t] counts) and the density estimate, the
    increment [f] with its time, the target bin, the iteration budget and
    the vertex list. *)
Record MulticanonicalState : Type := {
  mc_inner : inner_t;
  mc_S : float;
  S_min : float;
  S_max : float;
  hist : list N;
  dens : list float;
  mc_f : float;
  mc_time : float;
  refine : bool;
  target_bin : Z;
  niter : N;
  vlist : list N
}.

(** The locals of the sweep that outlive an iteration, with the state and
    the generator. *)
Record sweep_vars : Type := {
  sv_state : MulticanonicalState;
  sv_rng : rng_t;
  sv_S : float;
  sv_nmoves : N;
  sv_i : Z
}.

(** The test the sweep applies to an entropy: [S < S_min || S >= S_max]. *)
Definition outside (st : MulticanonicalState) (S : float) : bool :=
  (S <? S_min st)%float || (S_max st <=? S)%float.

(** [dens[i]]; 0 where the index is outside the vector (undefined in the
    source). *)
Definition dens_at (l : list float) (i : Z) : float :=
  if 0 <=? i then default 0%float (l !! Z.to_nat i) else 0%float.

Definition with_inner (x : inner_t) (st : MulticanonicalState) : MulticanonicalState :=
  {| mc_inner := x; mc_S := mc_S st; S_min := S_min st; S_max := S_max st;
     hist := hist st; dens := dens st; mc_f := mc_f st; mc_time := mc_time st;
     refine := refine st; target_bin := target_bin st; niter := niter st;
     vlist := vlist st |}.

(** The increment [hist[i]++] of a [size_t] count. *)
Definition count_up (h : N) : N := wrap64 (Z.of_N h + 1).

(** [hist[i]++; dens[i] += state._f; state._time += 1./M;
     if (state._refine) state._f *= (state._time - 1. / M) / state._time]. *)
Definition record_visit (i : Z) (st : MulticanonicalState) : MulticanonicalState :=
  let M := double_of_Z (wrap32 (Z.of_nat (length (hist st)))) in
  let t := (mc_time st + 1 / M)%float in
  {| mc_inner := mc_inner st; mc_S := mc_S st; S_min := S_min st; S_max := S_max st;
     hist := alter_at count_up i (hist st);
     dens := alter_at (fun d => (d + mc_f st)%float) i (dens st);
     mc_f := if refine st then (mc_f st * ((t - 1 / M) / t))%float else mc_f st;
     mc_time := t;
     refine := refine st; target_bin := target_bin st; niter := niter st;
     vlist := vlist st |}.

(** The acceptance rule of a turn, for the current bin [i], the bin [j] of
    the proposed entropy, the current entropy [S] and the pair [dS] the
    state returned for the proposal. *)
Definition accept_move (st : MulticanonicalState) (i j : Z) (S : float) (dS : float * float)
    (rng : rng_t) : bool * rng_t :=
  let nS := (S + dS.1)%float in
  if outside st nS then (false, rng)
  else
    let a := ((dens_at (dens st) i - dens_at (dens st) j) + dS.2)%float in
    if (0 <? a)%float then (true, rng)
    else let '(sample, rng') := a_sample rng in ((sample <? exp a)%float, rng').

(** One turn of the loop; the boolean is [true] when the turn ends in
    [break]. *)
Definition sweep_iter (x : sweep_vars) : sweep_vars * bool :=
  let st := sv_state x in
  let '(v, rng1) := uniform_sample (vlist st) (sv_rng x) in
  if N.eqb (node_weight v (mc_inner st)) 0 then
    ({| sv_state := st; sv_rng := rng1; sv_S := sv_S x; sv_nmoves := sv_nmoves x;
        sv_i := sv_i x |}, false)
  else
    let '(s, rng2, in1) := move_proposal v rng1 (mc_inner st) in
    let '(dS, in2) := virtual_move_dS v s in1 in
    let j := get_bin (S_min st) (S_max st) (length (hist st)) (sv_S x + dS.1)%float in
    let '(accept, rng3) := accept_move st (sv_i x) j (sv_S x) dS rng2 in
    let in3 := if accept then perform_move v s in2 else in2 in
    let nmoves := if accept then wrap64 (Z.of_N (sv_nmoves x) + 1) else sv_nmoves x in
    let S := if accept then (sv_S x + dS.1)%float else sv_S x in
    let i := if accept then j else sv_i x in
    let st' := record_visit i (with_inner in3 st) in
    ({| sv_state := st'; sv_rng := rng3; sv_S := S; sv_nmoves := nmoves; sv_i := i |},
     Z.eqb i (target_bin st')).

(** [n] turns of the loop, or fewer when one of them breaks. *)
Fixpoint sweep_loop (n : nat) (x : sweep_vars) : sweep_vars :=
  match n with
  | O => x
  | S n' =>
      let '(x', stop) := sweep_iter x in
      if stop then x' else sweep_loop n' x'
  end.

(** The locals of the sweep on entry to its loop. *)
Definition sweep_start (st : MulticanonicalState) (rng : rng_t) : sweep_vars :=
  {| sv_state := st; sv_rng := rng; sv_S := mc_S st; sv_nmoves := 0%N;
     sv_i := get_bin (S_min st) (S_max st) (length (hist st)) (mc_S st) |}.

(** [multicanonical_sweep(state, rng)]: the pair it returns, with the state
    and the generator it leaves. *)
Definition multicanonical_sweep (st : MulticanonicalState) (rng : rng_t)
  : outcome (MulticanonicalState * rng_t) (float * N) :=
  if outside st (mc_S st)
  then Throw (ValueException "current state lies outside the allowed entropy range") (st, rng)
  else
    let x := sweep_loop (N.to_nat (niter st)) (sweep_start st rng) in
    Ok (sv_S x, sv_nmoves x) (sv_state x, sv_rng x).

End Sweep.

(** * Invariants and reachable states *)

(** ** Invariants of the block pools *)

(** From index [k0] on, the position map of a pool says where each element
    stands. *)
Definition pos_ok (k0 : nat) (vp : list N * gmap N Z) : Prop :=
  forall (i : nat) (x : N), (k0 <= i)%nat -> vp.1 !! i = Some x -> pget vp.2 x = Z.of_nat i.

(** Pool membership (spec 8): over the blocks [r < nB], [r] stands in the
    empty pool exactly when [w r = 0] and in the candidate pool exactly when
    [0 < w r]; the sentinel heads the candidate pool; the pools have no
    repetition, their position maps are right, and every weight is a non-negative
    [int32_t]. *)
Record pools_inv (nB : N) (w : gmap N Z) (ep cp : list N * gmap N Z) : Prop := {
  pi_B : Z.of_N nB < 2 ^ 31;
  pi_wr : forall r : N, (r < nB)%N -> 0 <= pget w r < 2 ^ 31;
  pi_head : cp.1 !! 0%nat = Some null_group;
  pi_cand_nodup : NoDup cp.1;
  pi_empty_nodup : NoDup ep.1;
  pi_cand_pos : pos_ok 1 cp;
  pi_empty_pos : pos_ok 0 ep;
  pi_length : (length ep.1 + length cp.1 = S (N.to_nat nB))%nat;
  pi_empty : forall r : N, r ∈ ep.1 <-> (r < nB)%N /\ pget w r = 0;
  pi_cand : forall r : N, r ∈ cp.1 <-> r = null_group \/ ((r < nB)%N /\ 0 < pget w r)
}.

(** Every edge joins two vertices of the graph. *)
Definition graph_ok (gr : Graph) : Prop :=
  Forall (fun e : N * N => (e.1 < num_vertices gr)%N /\ (e.2 < num_vertices gr)%N)
         (edge_list gr).

(** Every pair of a delta set satisfies [P] on both sides. *)
Definition entries_in (P : N -> Prop) (m : EntrySet) : Prop :=
  Forall (fun e : N * N * Z => P e.1.1 /\ P e.1.2) (entries m).

(** How many times the pair [(a, c)] counts in row [r]. *)
Definition hits (dir : bool) (a c r : N) : Z :=
  (if decide (r = a) then 1 else 0) + (if dir then 0 else if decide (r = c) then 1 else 0).

Section StateInvariants.
Context `{Ext : Externals}.

(** What no mutation of a level changes, what the weight bookkeeping
    owns, and what the edge bookkeeping owns. *)
Definition static_part (st : BlockState) :=
  (g st, is_weighted st, eweight_map st, vweight_map st, B st, mrm_is_mrp st).

Definition weight_part (st : BlockState) :=
  (wr st, (empty_blocks st, empty_pos st), (candidate_blocks st, candidate_pos st)).

Definition edge_part (st : BlockState) := (mrs st, mrp st, mrm st).

Definition pools_ok (st : BlockState) : Prop :=
  let '(w, ep, cp) := weight_part st in pools_inv (B st) w ep cp.

(** ** Invariants of the counters *)

(** The block a vertex is assigned to, [_b[v]] read as a block identifier,
    and the range [vertices_range(_g)]. *)
Definition blk (st : BlockState) (v : N) : N := size_t_of_int (pget (b st) v).

Definition vertices (st : BlockState) : list N := block_range (num_vertices (g st)).

Definition sumZ {A : Type} (f : A -> Z) (l : list A) : Z :=
  foldr (fun x acc => f x + acc) 0 l.

(** The weight vertex [v] gives to block [r]: its own weight when it is
    placed (not in the set [A] of removed vertices) in [r]. *)
Definition placed_in (st : BlockState) (A : gset N) (r v : N) : Z :=
  if bool_decide ((v ∉ A) ∧ blk st v = r) then vweight st v else 0.

Definition placed_weight (st : BlockState) (A : gset N) (r : N) : Z :=
  sumZ (placed_in st A r) (vertices st).



Definition total_vweight (st : BlockState) : Z := sumZ (vweight st) (vertices st).

(** The matrix [mrs[r,s]] of spec 3: the count filed under the ordered pair
    in a directed graph; "symmetrized for undirected graphs", where the pair
    is unordered and an edge inside a block is seen from both of its ends
    (the source doubles the stored count of [(t, t)] in [get_move_prob]). *)
Definition mrs_matrix (st : BlockState) (r s : N) : Z :=
  if N.eqb r s && negb (directed (g st)) then 2 * get_beprop st r r
  else get_beprop st r s.

Definition row_sum (st : BlockState) (r : N) : Z :=
  sumZ (mrs_matrix st r) (block_range (B st)).

(** [wr] counts the placed vertices, block by block (what
    [check_node_counts] asserts). *)
Definition counts_ok (A : gset N) (st : BlockState) : Prop :=
  Forall (fun r => pget (wr st) r = placed_weight st A r) (block_range (B st)).

(** [mrp] is the row sum of the matrix, as an [int32_t]. *)
Definition mrp_ok (st : BlockState) : Prop :=
  Forall (fun r => pget (mrp st) r = wrap32 (row_sum st r)) (block_range (B st)).

(** A consistent state, with [A] the set of vertices that were removed and
    not added back: the graph is well formed; no vertex weight is negative
    and their sum is an [int32_t]; every vertex is assigned a block of the
    block graph; the removed vertices are vertices; [wr] counts the placed
    vertices; the pools are right; [_mrm] stands on the storage of [_mrp]
    exactly in the undirected case; and [mrp] is the row sum of the matrix. *)
Record consistent (A : gset N) (st : BlockState) : Prop := {
  cs_graph : graph_ok (g st);
  cs_vweight : Forall (fun v => 0 <= vweight st v) (vertices st);
  cs_total : total_vweight st < 2 ^ 31;
  cs_blk : Forall (fun v => (blk st v < B st)%N) (vertices st);
  cs_absent : forall v : N, v ∈ A -> (v < num_vertices (g st))%N;
  cs_counts : counts_ok A st;
  cs_pools : pools_ok st;
  cs_shared : mrm_is_mrp st = negb (directed (g st));
  cs_mrp : mrp_ok st
}.

(** The mutation operations, as a reader of the state may apply them: a
    placed vertex is removed from, or moved out of, the block it is in; a
    removed vertex is added to a block of the block graph. The set of removed
    vertices is carried along. *)
Inductive step : gset N -> BlockState -> gset N -> BlockState -> Prop :=
| step_remove (A : gset N) (st : BlockState) (v : N) :
    (v < num_vertices (g st))%N -> v ∉ A ->
    step A st (A ∪ {[v]}) (remove_vertex v (blk st v) st)
| step_add (A : gset N) (st : BlockState) (v r : N) :
    v ∈ A -> (r < B st)%N ->
    step A st (A ∖ {[v]}) (add_vertex v r st)
| step_move (A : gset N) (st : BlockState) (v nr : N) :
    (v < num_vertices (g st))%N -> v ∉ A -> (nr < B st)%N ->
    step A st A (final_state (move_vertex v (blk st v) nr st))
| step_remove_vertices (A : gset N) (st : BlockState) (vs : list N) :
    Forall (fun v => (v < num_vertices (g st))%N ∧ v ∉ A) vs ->
    step A st (A ∪ list_to_set vs) (remove_vertices vs st)
| step_add_vertices (A : gset N) (st : BlockState) (vs rs : list N) :
    length vs = length rs ->
    Forall (fun v => v ∈ A) vs -> Forall (fun r => (r < B st)%N) rs ->
    step A st (A ∖ list_to_set vs) (final_state (add_vertices vs rs st))
| step_move_vertices (A : gset N) (st : BlockState) (vs nrs : list N) :
    Forall (fun v => (v < num_vertices (g st))%N ∧ v ∉ A) vs ->
    Forall (fun r => (r < B st)%N) nrs ->
    step A st A (final_state (move_vertices vs nrs st)).

Inductive reachable (A0 : gset N) (st0 : BlockState) : gset N -> BlockState -> Prop :=
| reach_init : reachable A0 st0 A0 st0
| reach_step (A A' : gset N) (st st' : BlockState) :
    reachable A0 st0 A st -> step A st A' st' -> reachable A0 st0 A' st'.

End StateInvariants.

(** An edge of the graph joins two of its vertices. *)
Definition edge_ok (gr : Graph) (e : edge_t) : Prop :=
  (source e < num_vertices gr)%N /\ (target e < num_vertices gr)%N.

Section MoveConditions.
Context `{Ext : Externals}.

(** The two conditions [virtual_move] computes for the coupled state:
    [r_vacate] and [nr_occupy]. *)
Definition vacates (st : BlockState) (v r : N) : bool :=
  negb (N.eqb r null_group) && (pget (wr st) r =? vweight st v).

Definition occupies (st : BlockState) (nr : N) : bool :=
  negb (N.eqb nr null_group) && (pget (wr st) nr =? 0).

(** The total weight of the edges [get_move_prob] does not skip: the
    incident edges of [v] that are not self-loops. *)
Definition nonloop_weight (st : BlockState) (v : N) : Z :=
  sumZ (fun e => if N.eqb (target e) v then 0 else eweight st (eidx e))
       (out_edges_range v (g st))
  + sumZ (fun e => if N.eqb (source e) v then 0 else eweight st (eidx e))
         (in_edges_range v (g st)).

End MoveConditions.

Section SweepConditions.
Context `{SExt : SweepExternals}.

(** Membership of an entropy in [[S_min, S_max)], by the comparisons of
    [double]. *)
Definition in_range (st : MulticanonicalState) (S : float) : bool :=
  (S_min st <=? S)%float && (S <? S_max st)%float.

(** Every count of the histogram is at least [n] increments away from the
    largest [size_t]. *)
Definition hist_room (n : nat) (l : list N) : bool :=
  forallb (fun h => Z.of_N h + Z.of_nat n <? 2 ^ 64) l.

(** Between a count [h] and what it is [n] turns later: it has not
    decreased and has grown by [n] at most, unless [n] increments can take a
    [size_t] that starts at [h] past its largest value. *)
Definition count_after (n : nat) (h h' : N) : Prop :=
  ((h <= h')%N /\ Z.of_N h' <= Z.of_N h + Z.of_nat n)
  \/ 2 ^ 64 <= Z.of_N h + Z.of_nat n.

(** What a sweep keeps from one turn to the next, against the state [st0]
    it started from, after [m] turns: the test of the range is false of the
    running entropy, the bounds are those of the start, and every count is
    what [m] turns can have made of it. *)
Definition turns_inv (st0 : MulticanonicalState) (m : nat) (x : sweep_vars) : Prop :=
  outside st0 (sv_S x) = false
  /\ S_min (sv_state x) = S_min st0 /\ S_max (sv_state x) = S_max st0
  /\ Forall2 (count_after m) (hist st0) (hist (sv_state x)).

End SweepConditions.

(** * Queries and whole-partition operations *)

Section Queries.
Context `{Ext : Externals}.

(** [virtual_remove_size(v)]: [_wr[_b[v]] - _vweight[v]], an [int]
    difference returned as a [size_t]. *)
Definition virtual_remove_size (st : BlockState) (v : N) : N :=
  size_t_of_int (isub (pget (wr st) (blk st v)) (vweight st v)).

(** [is_last(v)]. *)
Definition is_last (st : BlockState) (v : N) : bool :=
  pget (wr st) (blk st v) =? vweight st v.

(** A loop that runs a statement on every element of a range, in order; a
    throw ends it. *)
Fixpoint for_each {A : Type} (f : A -> BlockState -> outcome BlockState unit) (l : list A)
  : BlockState -> outcome BlockState unit :=
  match l with
  | [] => ret tt
  | x :: l' => let! _ := f x in for_each f l'
  end.

(** [set_partition(b)]: [move_vertex(v, b[v])] for every vertex of the
    graph. *)
Definition set_partition (bp : gmap N Z) : BlockState -> outcome BlockState unit :=
  fun st =>
    for_each (fun v => move_vertex_from_b v (size_t_of_int (pget bp v))) (vertices st) st.

(** The local vector [wr] of [check_node_counts]: [num_vertices(_bg)]
    zeros, then [wr[_b[v]] += _vweight[v]] for every vertex. An index
    outside the vector (undefined in the source) writes nothing. *)
Definition node_counts (st : BlockState) : list N :=
  foldl (fun w v =>
           alter (fun x => wrap64 (Z.of_N x + Z.of_N (size_t_of_int (vweight st v))))
                 (N.to_nat (blk st v)) w)
        (replicate (N.to_nat (B st)) 0%N) (vertices st).

(** [check_node_counts()]: whether every one of its assertions
    [size_t(_wr[r]) == wr[r]] holds. *)
Definition check_node_counts (st : BlockState) : bool :=
  forallb (fun r => N.eqb (size_t_of_int (pget (wr st) r))
                          (default 0%N (node_counts st !! N.to_nat r)))
          (block_range (B st)).

(** The local map [mrs] of [check_edge_counts]: for every edge of the graph
    the weight is added under the pair of the blocks of its ends, the
    smaller block first in an undirected graph. *)
Definition edge_counts (st : BlockState) : gmap (N * N) N :=
  foldl (fun (m : gmap (N * N) N) (ie : N * (N * N)) =>
           let r := blk st ie.2.1 in
           let s := blk st ie.2.2 in
           let k := if negb (directed (g st)) && (s <? r)%N then (s, r) else (r, s) in
           <[k := wrap64 (Z.of_N (default 0%N (m !! k))
                          + Z.of_N (size_t_of_int (eweight st ie.1)))]> m)
        ∅ (indexed 0%N (edge_list (g st))).

(** [check_edge_counts()]. *)
Definition check_edge_counts (st : BlockState) : bool :=
  forallb (fun kc : N * N * N =>
             if N.eqb kc.2 0 then true
             else match get_me st kc.1.1 kc.1.2 with
                  | None => false
                  | Some me => N.eqb (size_t_of_int (mrs_at st me)) kc.2
                  end)
          (map_to_list (edge_counts st)).

(** [couple_state(s, ea)] and [decouple_state()]. *)
Definition couple_state (s : BlockState) (ea : entropy_args_t) (st : BlockState) : BlockState :=
  {| g := g st; degs := degs st; is_weighted := is_weighted st;
     eweight_map := eweight_map st; vweight_map := vweight_map st; B := B st;
     mrs := mrs st; mrp := mrp st; mrm := mrm st; mrm_is_mrp := mrm_is_mrp st;
     wr := wr st; b := b st; empty_blocks := empty_blocks st; empty_pos := empty_pos st;
     candidate_blocks := candidate_blocks st; candidate_pos := candidate_pos st;
     bclabel := bclabel st; pclabel := pclabel st; deg_corr := deg_corr st;
     ignore_degrees := ignore_degrees st; allow_empty := allow_empty st;
     egroups := egroups st; egroups_enabled := egroups_enabled st;
     partition_stats := partition_stats st; bmap := bmap st; m_entries := m_entries st;
     coupled_state := Some s; coupled_entropy_args := ea |}.

Definition decouple_state (st : BlockState) : BlockState := with_coupled_state None st.

(** The counters of a level: what a reader of the partition sees. *)
Definition counters (st : BlockState) :=
  (weight_part st, edge_part st, b st, bclabel st, static_part st).

(** Two hierarchies with the same counters, level by level. *)
Fixpoint same_counters (st st' : BlockState) : Prop :=
  counters st = counters st'
  /\ match coupled_state st, coupled_state st' with
     | Some c, Some c' => same_counters c c'
     | None, None => True
     | _, _ => False
     end.

End Queries.

Section SweepQuantities.
Context `{SExt : SweepExternals}.

(** The number of visits a histogram records. *)
Definition visits (l : list N) : Z := sumZ Z.of_N l.

(** The members of the state a sweep only reads. *)
Definition sweep_constants (st : MulticanonicalState) :=
  (mc_S st, S_min st, S_max st, target_bin st, niter st, vlist st, refine st,
   length (hist st), length (dens st)).

End SweepQuantities.

(** * Block proposals *)

(** What [sample_block] and [random_neighbour] call and the sources do not
    hold: the random number generator with [uniform_sample] on a range of
    blocks and the unit real distribution, the neighbour sampler, and the
    two members of the edge groups that build them and draw an edge next to
    a block. *)
Class ProposalExternals `{Ext : Externals} : Type := {
  prng_t : Type;
  sampler_t : Type;
  uniform_block : list N -> prng_t -> N * prng_t;
  unit_real : prng_t -> float * prng_t;
  sampler_empty : sampler_t -> N -> bool;
  sampler_sample : sampler_t -> N -> prng_t -> N * prng_t;
  egroups_init : gmap N Z -> (N -> Z) -> Graph -> gmap (N * N) Z -> egroups_t;
  egroups_sample_edge : N -> egroups_t -> prng_t -> edge_t * prng_t
}.

Section Proposals.
Context `{PExt : ProposalExternals}.

(** [std::isinf(c)]. *)
Definition isinf (c : float) : bool := (c =? infinity)%float || (c =? neg_infinity)%float.

(** The first draw of [sample_block]: a candidate other than the sentinel
    when no block is empty, otherwise a candidate, replaced by an empty
    block when it is the sentinel. *)
Definition sample_random_block (rng : prng_t) (st : BlockState) : N * prng_t :=
  match empty_blocks st with
  | [] => uniform_block (tail (candidate_blocks st)) rng
  | _ :: _ =>
      let '(s, rng1) := uniform_block (candidate_blocks st) rng in
      if N.eqb s null_group then uniform_block (empty_blocks st) rng1 else (s, rng1)
  end.

(** [sample_block(v, c, rng)], with the neighbour sampler [ns] of the
    state: the block, the generator and the state, whose edge groups the
    call may have built. *)
Definition sample_block (ns : sampler_t) (v : N) (c : float) (rng : prng_t) (st : BlockState)
  : N * prng_t * BlockState :=
  let '(s, rng1) := sample_random_block rng st in
  if negb (isinf c) && negb (sampler_empty ns v) then
    let '(u, rng2) := sampler_sample ns v rng1 in
    let t := blk st u in
    let p_rand :=
      if (0 <? c)%float then
        let dB := double_of_Z (Z.of_N (proposal_B st)) in
        if directed (g st)
        then (c * dB / (double_of_Z (iadd (pget (mrp st) t) (get_mrm st t)) + c * dB))%float
        else (c * dB / (double_of_Z (pget (mrp st) t) + c * dB))%float
      else 0%float in
    let '(take, rng3) :=
      if (c =? 0)%float then (true, rng2)
      else let '(x, rng') := unit_real rng2 in ((p_rand <=? x)%float, rng') in
    if take then
      let st1 := if egroups_empty (egroups st)
                 then with_egroups (egroups_init (b st) (eweight st) (g st) (mrs st)) st
                 else st in
      let '(e, rng4) := egroups_sample_edge t (egroups st1) rng3 in
      let s1 := blk st1 (target e) in
      let s2 := if N.eqb s1 t then blk st1 (source e) else s1 in
      (s2, rng4, st1)
    else (s, rng3, st)
  else (s, rng1, st).

(** [random_neighbour(v, rng)]. *)
Definition random_neighbour (ns : sampler_t) (v : N) (rng : prng_t) : N * prng_t :=
  if sampler_empty ns v then (v, rng) else sampler_sample ns v rng.

End Proposals.

(** * Degree histograms *)

(** The degree map the second overload of [merge_degs] works on: for every
    vertex a vector of triples (in-degree, out-degree, count); a vertex
    with no vector reads as the empty one. *)
Abbreviation degs_map := (gmap N (list (N * N * N))).

Definition degs_at (d : degs_map) (u : N) : list (N * N * N) := default [] (d !! u).

(** [hist[make_tuple(get<0>(kn), get<1>(kn))] += get<2>(kn)], on [size_t]
    counts. *)
Definition hist_add (h : gmap (N * N) N) (kn : N * N * N) : gmap (N * N) N :=
  <[kn.1 := wrap64 (Z.of_N (default 0%N (h !! kn.1)) + Z.of_N kn.2)]> h.

(** [merge_degs(u, v, degs)]: the histogram of the two vectors becomes the
    vector of [v], and the vector of [u] is cleared. The hash map is
    iterated in an order the source does not fix; the model iterates it in
    one fixed order. *)
Definition merge_degs (u v : N) (d : degs_map) : degs_map :=
  let hist := foldl hist_add (foldl hist_add ∅ (degs_at d u)) (degs_at d v) in
  <[v := map_to_list hist]> (<[v := []]> (<[u := []]> d)).

(** How many vertices a vector counts with the degree pair [k]. *)
Definition deg_count (l : list (N * N * N)) (k : N * N) : Z :=
  sumZ (fun kn : N * N * N => if decide (kn.1 = k) then Z.of_N kn.2 else 0) l.

(** * Edge counts against the graph *)

(** The net change a delta set holds for the pair [k]. *)
Definition delta_sum (dir : bool) (k : N * N) (l : list (N * N * Z)) : Z :=
  sumZ (fun e : N * N * Z => if decide (edge_key dir e.1.1 e.1.2 = k) then e.2 else 0) l.

(** What [take_and_put] adds for the pair [k]. *)
Definition put_delta (dir : bool) (r nr : N) (pw : N -> N * N) (w : Z) (k : N * N) : Z :=
  (if bool_decide (r ≠ null_group ∧ edge_key dir (pw r).1 (pw r).2 = k) then - w else 0)
  + (if bool_decide (nr ≠ null_group ∧ edge_key dir (pw nr).1 (pw nr).2 = k) then w else 0).

Section EdgeCounts.
Context `{Ext : Externals}.

(** The pair of blocks an edge of the graph is filed under. *)
Definition edge_pair (st : BlockState) (e : N * N) : N * N :=
  edge_key (directed (g st)) (blk st e.1) (blk st e.2).

(** The total weight of the edges filed under the pair [k], leaving out the
    edges that meet a vertex of [X]. *)
Definition pair_weight (st : BlockState) (X : gset N) (k : N * N) : Z :=
  sumZ (fun ie : N * (N * N) =>
          if bool_decide ((ie.2.1 ∉ X) ∧ (ie.2.2 ∉ X) ∧ edge_pair st ie.2 = k)
          then eweight st ie.1 else 0)
       (indexed 0%N (edge_list (g st))).

(** The block edge counts are those of the graph, as [int32_t] values, the
    edges at the vertices of [X] left out. *)
Definition edges_ok (X : gset N) (st : BlockState) : Prop :=
  forall k : N * N, mrs_at st k = wrap32 (pair_weight st X k).

(** The same, decided: it is enough to look at the pairs of the edges of the
    graph and at the pairs the block graph has an edge for. *)
Definition edges_okb (st : BlockState) : bool :=
  forallb (fun k => mrs_at st k =? wrap32 (pair_weight st ∅ k))
          (map (edge_pair st) (edge_list (g st)) ++ (map_to_list (mrs st)).*1).

(** The weight of the edges at [v] filed under [k] when [v] is in block
    [r]. *)
Definition incident_weight (st : BlockState) (v r : N) (k : N * N) : Z :=
  sumZ (fun ie : N * (N * N) =>
          let bl (x : N) := if N.eqb x v then r else blk st x in
          if bool_decide ((ie.2.1 = v ∨ ie.2.2 = v)
                          ∧ edge_key (directed (g st)) (bl ie.2.1) (bl ie.2.2) = k)
          then eweight st ie.1 else 0)
       (indexed 0%N (edge_list (g st))).

(** The total weight of the edges of the graph. *)
Definition total_eweight (st : BlockState) : Z :=
  sumZ (fun ie : N * (N * N) => eweight st ie.1) (indexed 0%N (edge_list (g st))).

End EdgeCounts.

(** * Levels of a hierarchy *)

Section Levels.
Context `{Ext : Externals}.

(** The level [c] coupled above [st] is in step with it: [c] is weighted,
    its vertices are the blocks of [st], a block weighs 1 in [c] when it is
    occupied and 0 when it is empty, and the block [c] assigns to [r] is the
    label [_bclabel[r]]. *)
Definition linked (st c : BlockState) : Prop :=
  is_weighted c = true /\ num_vertices (g c) = B st
  /\ forall r : N, (r < B st)%N ->
       vweight c r = (if pget (wr st) r =? 0 then 0 else 1)
       /\ pget (b c) r = pget (bclabel st) r.

End Levels.

(** [hist[t]] for an [int] index; 0 outside the vector. *)
Definition bin_count (l : list N) (t : Z) : N :=
  if 0 <=? t then default 0%N (l !! Z.to_nat t) else 0%N.

(** * Partition statistics *)

Section Statistics.
Context `{Ext : Externals}.

(** [get_partition_stats(v)]: [_partition_stats[_pclabel[v]]]; nothing
    where the index is outside the vector (undefined in the source). *)
Definition get_partition_stats (st : BlockState) (v : N) : option partition_stats_t :=
  let i := pget (pclabel st) v in
  if 0 <=? i then partition_stats st !! Z.to_nat i else None.

(** [disable_partition_stats()]. *)
Definition disable_partition_stats (st : BlockState) : BlockState :=
  with_partition_stats [] st.

(** [get_delta_partition_dl(v, r, nr)]; 0 where [get_partition_stats] has
    nothing to return. *)
Definition get_delta_partition_dl (v r nr : N) : BlockState -> outcome BlockState float :=
  let! _ := modify enable_partition_stats in
  fun st =>
    match get_partition_stats st v with
    | Some ps => Ok (ps_get_delta_partition_dl v r nr (vweight st) ps) st
    | None => Ok 0%float st
    end.

End Statistics.

(** * Edge counts while a batch is taken out or put in *)

(** What the edge set of a batch holds: an edge of the graph once, under
    its index, when both of its ends are in the batch. *)
Definition batch_member (gr : Graph) (vs : list N) (e : edge_t) : Prop :=
  exists s t, (eidx e, (s, t)) ∈ indexed 0%N (edge_list gr) /\ s ∈ vs /\ t ∈ vs
    /\ ((source e = s /\ target e = t)
        \/ (directed gr = false /\ source e = t /\ target e = s)).

(** An edge set of the batch: no index twice, edges of the batch only. *)
Definition batch_set (gr : Graph) (vs : list N) (es : list edge_t) : Prop :=
  NoDup (eidx <$> es) /\ Forall (batch_member gr vs) es.

Section BatchCounts.
Context `{Ext : Externals}.

(** The total weight of the edges filed under the pair [k], among the
    edges [(i, (s, t))] that [P i s t] selects. *)
Definition counted_weight (st : BlockState) (P : N -> N -> N -> bool) (k : N * N) : Z :=
  sumZ (fun ie : N * (N * N) =>
          if P ie.1 ie.2.1 ie.2.2 && bool_decide (edge_pair st ie.2 = k)
          then eweight st ie.1 else 0)
       (indexed 0%N (edge_list (g st))).

(** The edges still counted while the batch is taken out: those of the
    batch's edge set [F], and those that meet no vertex of [X]. *)
Definition kept (F : N -> bool) (X : gset N) (i s t : N) : bool :=
  F i || (bool_decide (s ∉ X) && bool_decide (t ∉ X)).

(** The edges already counted while the batch is put in: those outside the
    batch's edge set that meet no vertex of [X]. *)
Definition entered (F : N -> bool) (X : gset N) (i s t : N) : bool :=
  negb (F i) && (bool_decide (s ∉ X) && bool_decide (t ∉ X)).

End BatchCounts.

Section Occupancy.
Context `{Ext : Externals}.

(** The blocks of the block graph that hold weight. *)
Definition occupied_blocks (st : BlockState) : list N :=
  filter (fun r => 0 < pget (wr st) r) (block_range (B st)).

End Occupancy.

(** * Concrete states *)

(** ** A concrete state: the scenario of spec 8 *)

(** Collaborators for the concrete states: no edge groups, one-point
    partition statistics, and entropy terms that are constants (1 for the
    edge term of the sparse evaluator, 0 elsewhere). *)
Definition demo_externals : Externals := {|
  degs_t := unit;
  egroups_t := unit;
  egroups_empty := fun _ => true;
  egroups_remove_vertex := fun _ _ _ e => e;
  egroups_add_vertex := fun _ _ _ _ e => e;
  partition_stats_t := unit;
  ps_make := fun _ _ _ _ _ _ _ _ _ _ _ => tt;
  ps_get_r := fun _ p => p;
  ps_remove_vertex := fun _ _ _ _ _ _ _ p => p;
  ps_add_vertex := fun _ _ _ _ _ _ _ p => p;
  ps_get_actual_B := fun _ => 0%N;
  ps_get_delta_partition_dl := fun _ _ _ _ _ => 0%float;
  ps_get_delta_deg_dl := fun _ _ _ _ _ _ _ _ _ => 0%float;
  ps_get_delta_edges_dl := fun _ _ _ _ _ _ _ => 0%float;
  entries_dS := fun _ _ _ _ => 1%float;
  vterm := fun _ _ _ _ _ => 0%float;
  vterm_exact := fun _ _ _ _ _ => 0%float;
  eterm_dense := fun _ _ _ _ _ _ _ => 0%float
|}.

(** The undirected path 0 - 1 - 2 - 3 with edges of weight 1. *)
Definition path4 : Graph :=
  {| directed := false; num_vertices := 4; edge_list := [(0, 1); (1, 2); (2, 3)]%N |}.

Definition no_terms : entropy_args_t :=
  {| adjacency := false; dense := false; multigraph := false; exact := false;
     partition_dl := false; degree_dl := false; edges_dl := false; recs := false;
     degree_dl_kind := 0 |}.

(** The state before any vertex is placed: two blocks, the assignment
    b = [0, 0, 1, 1], every counter 0. *)
Definition blank_state : @BlockState demo_externals :=
  {| g := path4; degs := (tt : @degs_t demo_externals); is_weighted := false; eweight_map := ∅; vweight_map := ∅;
     B := 2; mrs := ∅; mrp := ∅; mrm := ∅; mrm_is_mrp := true; wr := ∅;
     b := list_to_map [(0%N, 0); (1%N, 0); (2%N, 1); (3%N, 1)];
     empty_blocks := []; empty_pos := ∅; candidate_blocks := []; candidate_pos := ∅;
     bclabel := ∅; pclabel := ∅; deg_corr := false; ignore_degrees := ∅;
     allow_empty := true; egroups := (tt : @egroups_t demo_externals);
     egroups_enabled := true; partition_stats := [];
     bmap := []; m_entries := {| rnr := (0, 0)%N; entries := [] |};
     coupled_state := None; coupled_entropy_args := no_terms |}.

Definition all_vertices : gset N := list_to_set [0; 1; 2; 3]%N.

(** The bookkeeping of the scenario: the pools are built, then the four
    vertices are added to their blocks. *)
Definition scenario_state : @BlockState demo_externals :=
  final_state (add_vertices [0; 1; 2; 3]%N [0; 0; 1; 1]%N (init_pools blank_state)).

(** The scenario with a label barrier between its two blocks. *)
Definition barrier_state : @BlockState demo_externals :=
  with_bclabel (pset ∅ 1%N 1) scenario_state.

(** The scenario under the degree-corrected model. *)
Definition degree_corrected_state : @BlockState demo_externals :=
  {| g := g scenario_state; degs := degs scenario_state;
     is_weighted := is_weighted scenario_state; eweight_map := eweight_map scenario_state;
     vweight_map := vweight_map scenario_state; B := B scenario_state;
     mrs := mrs scenario_state; mrp := mrp scenario_state; mrm := mrm scenario_state;
     mrm_is_mrp := mrm_is_mrp scenario_state; wr := wr scenario_state;
     b := b scenario_state; empty_blocks := empty_blocks scenario_state;
     empty_pos := empty_pos scenario_state;
     candidate_blocks := candidate_blocks scenario_state;
     candidate_pos := candidate_pos scenario_state; bclabel := bclabel scenario_state;
     pclabel := pclabel scenario_state; deg_corr := true;
     ignore_degrees := ignore_degrees scenario_state;
     allow_empty := allow_empty scenario_state; egroups := egroups scenario_state;
     egroups_enabled := egroups_enabled scenario_state;
     partition_stats := partition_stats scenario_state; bmap := bmap scenario_state;
     m_entries := m_entries scenario_state; coupled_state := coupled_state scenario_state;
     coupled_entropy_args := coupled_entropy_args scenario_state |}.

Definition sparse_terms : entropy_args_t :=
  {| adjacency := true; dense := false; multigraph := false; exact := false;
     partition_dl := false; degree_dl := false; edges_dl := false; recs := false;
     degree_dl_kind := 0 |}.

Definition dense_terms : entropy_args_t :=
  {| adjacency := true; dense := true; multigraph := false; exact := false;
     partition_dl := false; degree_dl := false; edges_dl := false; recs := false;
     degree_dl_kind := 0 |}.

(** A two-level hierarchy. The lower level has two vertices of weight 1 and
    no edge, vertex 0 alone in block 0, vertex 1 alone in block 1, and block
    2 empty; the upper level has the three blocks as vertices, the two
    occupied ones of weight 1 in its only block, and prices a move by the
    sparse adjacency term. *)
Definition upper_level : @BlockState demo_externals :=
  {| g := {| directed := false; num_vertices := 3; edge_list := [] |};
     degs := (tt : @degs_t demo_externals); is_weighted := true; eweight_map := ∅;
     vweight_map := list_to_map [(0%N, 1); (1%N, 1)];
     B := 1; mrs := ∅; mrp := ∅; mrm := ∅; mrm_is_mrp := true;
     wr := list_to_map [(0%N, 2)]; b := ∅;
     empty_blocks := []; empty_pos := ∅; candidate_blocks := [null_group; 0%N];
     candidate_pos := list_to_map [(0%N, 1)];
     bclabel := ∅; pclabel := ∅; deg_corr := false; ignore_degrees := ∅;
     allow_empty := true; egroups := (tt : @egroups_t demo_externals);
     egroups_enabled := true; partition_stats := [];
     bmap := []; m_entries := {| rnr := (0, 0)%N; entries := [] |};
     coupled_state := None; coupled_entropy_args := no_terms |}.

Definition lower_level : @BlockState demo_externals :=
  {| g := {| directed := false; num_vertices := 2; edge_list := [] |};
     degs := (tt : @degs_t demo_externals); is_weighted := false; eweight_map := ∅;
     vweight_map := ∅;
     B := 3; mrs := ∅; mrp := ∅; mrm := ∅; mrm_is_mrp := true;
     wr := list_to_map [(0%N, 1); (1%N, 1)]; b := list_to_map [(1%N, 1)];
     empty_blocks := [2%N]; empty_pos := ∅; candidate_blocks := [null_group; 0%N; 1%N];
     candidate_pos := list_to_map [(0%N, 1); (1%N, 2)];
     bclabel := ∅; pclabel := ∅; deg_corr := false; ignore_degrees := ∅;
     allow_empty := true; egroups := (tt : @egroups_t demo_externals);
     egroups_enabled := true; partition_stats := [];
     bmap := []; m_entries := {| rnr := (0, 0)%N; entries := [] |};
     coupled_state := Some upper_level; coupled_entropy_args := sparse_terms |}.

(** A sweep on which every proposal raises the entropy by 1 and is accepted
    whenever the range allows it: one bin, one vertex, five turns. *)
Definition demo_sweep : SweepExternals :=
  {| inner_t := unit;
     rng_t := unit;
     uniform_sample := fun l r => (default 0%N (head l), r);
     a_sample := fun r => (0.5%float, r);
     exp := fun _ => 1%float;
     get_bin := fun _ _ _ _ => 0;
     node_weight := fun _ _ => 1%N;
     move_proposal := fun _ r i => (0%N, r, i);
     virtual_move_dS := fun _ _ i => ((1%float, 0%float), i);
     perform_move := fun _ _ i => i |}.

Definition demo_mc : @MulticanonicalState demo_sweep :=
  {| mc_inner := (tt : @inner_t demo_sweep); mc_S := 0%float; S_min := 0%float;
     S_max := 2.5%float; hist := [0%N]; dens := [0%float]; mc_f := 1%float;
     mc_time := 0%float; refine := false; target_bin := -1; niter := 5;
     vlist := [0%N] |}.

(** * More concrete states *)

(** The partition of the scenario with its two blocks exchanged. *)
Definition swapped_partition : gmap N Z :=
  list_to_map [(0%N, 1); (1%N, 1); (2%N, 0); (3%N, 0)].

(** Collaborators of the proposals for the scenario: the first element of
    a range, the first vertex, the first edge of the path. *)
Definition demo_proposals : @ProposalExternals demo_externals :=
  {| prng_t := unit;
     sampler_t := unit;
     uniform_block := fun l q => (default 0%N (head l), q);
     unit_real := fun q => (0.5%float, q);
     sampler_empty := fun _ _ => false;
     sampler_sample := fun _ _ q => (0%N, q);
     egroups_init := fun _ _ _ _ => (tt : @egroups_t demo_externals);
     egroups_sample_edge :=
       fun _ _ q => ({| eidx := 0; source := 0; target := 1 |}, q) |}.

(** The scenario after vertex 1 has moved to block 1, and after it has moved
    back. *)
Definition scenario_moved : @BlockState demo_externals :=
  final_state (move_vertex 1 0 1 scenario_state).

Definition scenario_returned : @BlockState demo_externals :=
  final_state (move_vertex 1 1 0 scenario_moved).

(** * A two-level hierarchy *)

(** The path with three blocks: the partition of the scenario and one empty
    block. *)
Definition blank_lower : @BlockState demo_externals :=
  {| g := path4; degs := (tt : @degs_t demo_externals); is_weighted := false;
     eweight_map := ∅; vweight_map := ∅;
     B := 3; mrs := ∅; mrp := ∅; mrm := ∅; mrm_is_mrp := true; wr := ∅;
     b := list_to_map [(0%N, 0); (1%N, 0); (2%N, 1); (3%N, 1)];
     empty_blocks := []; empty_pos := ∅; candidate_blocks := []; candidate_pos := ∅;
     bclabel := ∅; pclabel := ∅; deg_corr := false; ignore_degrees := ∅;
     allow_empty := true; egroups := (tt : @egroups_t demo_externals);
     egroups_enabled := true; partition_stats := [];
     bmap := []; m_entries := {| rnr := (0, 0)%N; entries := [] |};
     coupled_state := None; coupled_entropy_args := no_terms |}.

Definition lower3 : @BlockState demo_externals :=
  final_state (add_vertices [0; 1; 2; 3]%N [0; 0; 1; 1]%N (init_pools blank_lower)).

(** The level above: the three blocks as vertices of one block, the two
    occupied ones of weight 1. *)
Definition blank_upper : @BlockState demo_externals :=
  {| g := {| directed := false; num_vertices := 3; edge_list := [] |};
     degs := (tt : @degs_t demo_externals); is_weighted := true;
     eweight_map := ∅; vweight_map := list_to_map [(0%N, 1); (1%N, 1)];
     B := 1; mrs := ∅; mrp := ∅; mrm := ∅; mrm_is_mrp := true; wr := ∅;
     b := ∅;
     empty_blocks := []; empty_pos := ∅; candidate_blocks := []; candidate_pos := ∅;
     bclabel := ∅; pclabel := ∅; deg_corr := false; ignore_degrees := ∅;
     allow_empty := true; egroups := (tt : @egroups_t demo_externals);
     egroups_enabled := true; partition_stats := [];
     bmap := []; m_entries := {| rnr := (0, 0)%N; entries := [] |};
     coupled_state := None; coupled_entropy_args := no_terms |}.

Definition upper3 : @BlockState demo_externals :=
  final_state (add_vertices [0; 1; 2]%N [0; 0; 0]%N (init_pools blank_upper)).

(** The two levels coupled; and the lower level coupled to an unweighted
    state. *)
Definition levels3 : @BlockState demo_externals := couple_state upper3 no_terms lower3.

Definition levels3_flat : @BlockState demo_externals :=
  couple_state scenario_state no_terms lower3.

(** The lower level with a label barrier around its empty block. *)
Definition labelled3 : @BlockState demo_externals :=
  with_bclabel (pset ∅ 2%N 1) lower3.

(** * A sweep with nothing to move *)

(** The collaborators of [demo_sweep] with every vertex of weight 0. *)
Definition idle_sweep : SweepExternals :=
  {| inner_t := unit;
     rng_t := unit;
     uniform_sample := fun l r => (default 0%N (head l), r);
     a_sample := fun r => (0.5%float, r);
     exp := fun _ => 1%float;
     get_bin := fun _ _ _ _ => 0;
     node_weight := fun _ _ => 0%N;
     move_proposal := fun _ r i => (0%N, r, i);
     virtual_move_dS := fun _ _ i => ((1%float, 0%float), i);
     perform_move := fun _ _ i => i |}.

Definition idle_mc : @MulticanonicalState idle_sweep :=
  {| mc_inner := (tt : @inner_t idle_sweep); mc_S := 0%float; S_min := 0%float;
     S_max := 2.5%float; hist := [0%N]; dens := [0%float]; mc_f := 1%float;
     mc_time := 0%float; refine := false; target_bin := -1; niter := 5;
     vlist := [0%N] |}.

(** * A sweep whose proposals have no entropy *)

(** The collaborators of [demo_sweep] with a state whose [virtual_move_dS]
    returns NaN for the entropy difference, and 1 for the correction of the
    acceptance: one turn from entropy 0 in the range [[0, 2.5)]. *)
Definition nan_sweep : SweepExternals :=
  {| inner_t := unit;
     rng_t := unit;
     uniform_sample := fun l r => (default 0%N (head l), r);
     a_sample := fun r => (0.5%float, r);
     exp := fun _ => 1%float;
     get_bin := fun _ _ _ _ => 0;
     node_weight := fun _ _ => 1%N;
     move_proposal := fun _ r i => (0%N, r, i);
     virtual_move_dS := fun _ _ i => ((nan, 1%float), i);
     perform_move := fun _ _ i => i |}.

Definition nan_mc : @MulticanonicalState nan_sweep :=
  {| mc_inner := (tt : @inner_t nan_sweep); mc_S := 0%float; S_min := 0%float;
     S_max := 2.5%float; hist := [0%N]; dens := [0%float]; mc_f := 1%float;
     mc_time := 0%float; refine := false; target_bin := -1; niter := 1;
     vlist := [0%N] |}.

(** The sweep of [demo_sweep] on a histogram whose only count is the
    largest [size_t]. *)
Definition full_mc : @MulticanonicalState demo_sweep :=
  {| mc_inner := (tt : @inner_t demo_sweep); mc_S := 0%float; S_min := 0%float;
     S_max := 2.5%float; hist := [18446744073709551615%N]; dens := [0%float];
     mc_f := 1%float; mc_time := 0%float; refine := false; target_bin := -1; niter := 1;
     vlist := [0%N] |}.

(** * Proof automation *)

(** Case analysis on every test of the goal. *)
Ltac break_ifs :=
  repeat match goal with
         | |- context [if ?c then _ else _] => destruct c
         end.

(** * Properties *)

(** ** Machine integers *)

Lemma wrap32_id (z : Z) : int32_range z -> wrap32 z = z.
Proof.
  unfold int32_range, wrap32. intros H.
  rewrite Z.mod_small; lia.
Qed.

Lemma wrap32_range (z : Z) : int32_range (wrap32 z).
Proof.
  unfold int32_range, wrap32.
  pose proof (Z.mod_pos_bound (z + 2 ^ 31) (2 ^ 32) ltac:(lia)). lia.
Qed.

Lemma wrap32_add_l (x y : Z) : wrap32 (wrap32 x + y) = wrap32 (x + y).
Proof.
  unfold wrap32.
  replace ((x + 2 ^ 31) mod 2 ^ 32 - 2 ^ 31 + y + 2 ^ 31)
    with ((x + 2 ^ 31) mod 2 ^ 32 + y) by lia.
  rewrite Zplus_mod_idemp_l. f_equal. f_equal. lia.
Qed.

Lemma wrap32_congr (x y : Z) : x mod 2 ^ 32 = y mod 2 ^ 32 -> wrap32 x = wrap32 y.
Proof.
  intros H. unfold wrap32.
  rewrite (Z.add_mod x), (Z.add_mod y), H by lia. reflexivity.
Qed.

Lemma wrap32_mod (x : Z) : wrap32 x mod 2 ^ 32 = x mod 2 ^ 32.
Proof.
  unfold wrap32.
  rewrite Zminus_mod, Z.mod_mod by lia.
  rewrite <- Zminus_mod. f_equal. lia.
Qed.

(** ** Property maps *)

Lemma pget_pset_eq (m : gmap N Z) (k : N) (z : Z) : pget (pset m k z) k = wrap32 z.
Proof. unfold pget, pset. by rewrite lookup_insert_eq. Qed.

Lemma pget_pset_ne (m : gmap N Z) (k j : N) (z : Z) : k ≠ j -> pget (pset m k z) j = pget m j.
Proof. intros H. unfold pget, pset. by rewrite lookup_insert_ne. Qed.

Lemma pget_pset (m : gmap N Z) (k j : N) (z : Z) :
  pget (pset m k z) j = if decide (k = j) then wrap32 z else pget m j.
Proof.
  destruct (decide (k = j)) as [->|H]; [apply pget_pset_eq | by apply pget_pset_ne].
Qed.

(** ** Swap-removal *)

Lemma length_removelast {A : Type} (l : list A) : length (removelast l) = (length l - 1)%nat.
Proof.
  destruct l as [|a l] using rev_ind; [done|].
  rewrite removelast_last, length_app. simpl. lia.
Qed.

Section SwapRemove.
Variables (vec : list N) (pos : gmap N Z) (val : N) (i : nat).
Hypothesis Hnd : NoDup vec.
Hypothesis Hi : vec !! i = Some val.
Hypothesis Hpos : pget pos val = Z.of_nat i.

Local Abbreviation vec' := ((remove_element (vec, pos) val).1).
Local Abbreviation pos' := ((remove_element (vec, pos) val).2).

Lemma remove_element_lookup (j : nat) (x : N) :
  vec' !! j = Some x <->
  (j < length vec - 1)%nat /\
  ((j = i /\ last vec = Some x) \/ (j ≠ i /\ vec !! j = Some x)).
Proof.
  unfold remove_element. simpl. rewrite Hpos.
  assert (Hlt : (i < length vec)%nat) by (eapply lookup_lt_Some; eauto).
  destruct (last vec) as [back|] eqn:Hl.
  2: { apply last_None in Hl. subst vec. simpl in Hlt. lia. }
  apply last_Some in Hl as [pre ->]. simpl.
  replace (0 <=? Z.of_nat i) with true by (symmetry; apply Z.leb_le; lia).
  rewrite Nat2Z.id. rewrite length_app in *. simpl in *.
  destruct (decide (i = length pre)) as [->|Hne].
  - rewrite list_insert_id.
    2:{ rewrite lookup_app_r by lia. rewrite Nat.sub_diag. simpl.
        rewrite lookup_app_r in Hi by lia. rewrite Nat.sub_diag in Hi. simpl in Hi.
        congruence. }
    rewrite removelast_last. split.
    + intros Hj. assert (j < length pre)%nat by (eapply lookup_lt_Some; eauto).
      split; [lia|]. right. split; [lia|]. by rewrite lookup_app_l by lia.
    + intros [Hj [[-> _]|[_ Hx]]]; [lia|]. by rewrite lookup_app_l in Hx by lia.
  - assert (Hi' : (i < length pre)%nat) by lia.
    rewrite insert_app_l by lia. rewrite removelast_last. split.
    + intros Hj.
      assert (j < length pre)%nat.
      { apply lookup_lt_Some in Hj. by rewrite length_insert in Hj. }
      split; [lia|].
      destruct (decide (j = i)) as [->|Hji].
      * left. rewrite list_lookup_insert_eq in Hj by lia. split; congruence.
      * right. rewrite list_lookup_insert_ne in Hj by lia.
        split; [done|]. by rewrite lookup_app_l by lia.
    + intros [Hj [[-> Hx]|[Hji Hx]]].
      * rewrite list_lookup_insert_eq by lia. congruence.
      * rewrite list_lookup_insert_ne by lia. by rewrite lookup_app_l in Hx by lia.
Qed.

Lemma last_index (x : N) : last vec = Some x -> vec !! (length vec - 1)%nat = Some x.
Proof. rewrite last_lookup. by replace (pred (length vec)) with (length vec - 1)%nat by lia. Qed.

Lemma remove_element_elem (x : N) : x ∈ vec' <-> x ∈ vec /\ x ≠ val.
Proof.
  pose proof (proj1 (NoDup_alt vec) Hnd) as Hinj.
  rewrite !list_elem_of_lookup. split.
  - intros [j Hj]. apply remove_element_lookup in Hj as [Hlt [[-> Hx]|[Hji Hx]]].
    + apply last_index in Hx. split; [eauto|].
      intros ->. specialize (Hinj _ _ _ Hi Hx). lia.
    + split; [eauto|]. intros ->. specialize (Hinj _ _ _ Hi Hx). lia.
  - intros [[j Hj] Hne].
    assert (j ≠ i) by (intros ->; congruence).
    assert (j < length vec)%nat by (eapply lookup_lt_Some; eauto).
    assert (i < length vec)%nat by (eapply lookup_lt_Some; eauto).
    destruct (decide (j = length vec - 1)%nat) as [->|Hjl].
    + exists i. apply remove_element_lookup. split; [lia|]. left. split; [done|].
      rewrite last_lookup. by replace (pred (length vec)) with (length vec - 1)%nat by lia.
    + exists j. apply remove_element_lookup. split; [lia|]. by right.
Qed.

Lemma remove_element_NoDup : NoDup vec'.
Proof.
  pose proof (proj1 (NoDup_alt vec) Hnd) as Hinj.
  apply NoDup_alt. intros j k x Hj Hk.
  apply remove_element_lookup in Hj as [Hjl Hj], Hk as [Hkl Hk].
  destruct Hj as [[-> Hx]|[Hji Hx]], Hk as [[-> Hy]|[Hki Hy]]; try done.
  - apply last_index in Hx. specialize (Hinj _ _ _ Hx Hy). lia.
  - apply last_index in Hy. specialize (Hinj _ _ _ Hx Hy). lia.
  - eauto.
Qed.

Lemma remove_element_length : length vec' = (length vec - 1)%nat.
Proof.
  assert (Hlt : (i < length vec)%nat) by (eapply lookup_lt_Some; eauto).
  unfold remove_element. simpl.
  destruct (last vec) as [back|] eqn:Hl.
  2: { apply last_None in Hl. subst vec. simpl in Hlt. lia. }
  simpl. rewrite length_removelast.
  destruct (0 <=? pget pos val); [by rewrite length_insert|done].
Qed.

Lemma remove_element_head (h : N) :
  (1 <= i)%nat -> vec !! 0%nat = Some h -> vec' !! 0%nat = Some h.
Proof.
  intros H1 Hh. assert (Hlt : (i < length vec)%nat) by (eapply lookup_lt_Some; eauto).
  apply remove_element_lookup. split; [lia|]. right. split; [lia|done].
Qed.

Lemma remove_element_pos (k0 : nat) :
  Z.of_nat (length vec) <= 2 ^ 31 -> pos_ok k0 (vec, pos) ->
  pos_ok k0 (vec', pos').
Proof.
  intros Hlen Hok j x Hk Hj. simpl in *.
  pose proof (proj1 (NoDup_alt vec) Hnd) as Hinj.
  assert (Hlt : (i < length vec)%nat) by (eapply lookup_lt_Some; eauto).
  apply remove_element_lookup in Hj as [Hjl Hj].
  unfold remove_element. simpl.
  destruct (last vec) as [back|] eqn:Hl.
  2: { apply last_None in Hl. subst vec. simpl in Hlt. lia. }
  simpl. apply last_index in Hl. rewrite Hpos.
  destruct Hj as [[-> Hx]|[Hji Hx]].
  - injection Hx as <-. rewrite pget_pset_eq. apply wrap32_id. unfold int32_range. lia.
  - rewrite pget_pset_ne.
    + apply Hok; done.
    + intros <-. specialize (Hinj _ _ _ Hl Hx). lia.
Qed.

End SwapRemove.

(** ** Pushing at the back *)

Lemma add_element_elem (vec : list N) (pos : gmap N Z) (val x : N) :
  x ∈ (add_element (vec, pos) val).1 <-> x ∈ vec \/ x = val.
Proof. unfold add_element. simpl. rewrite elem_of_app, list_elem_of_singleton. tauto. Qed.

Lemma add_element_NoDup (vec : list N) (pos : gmap N Z) (val : N) :
  NoDup vec -> val ∉ vec -> NoDup (add_element (vec, pos) val).1.
Proof.
  intros Hnd Hni. unfold add_element. simpl. apply NoDup_app. split; [done|].
  split; [|apply NoDup_singleton].
  intros y Hy Hy'. apply list_elem_of_singleton in Hy'. by subst.
Qed.

Lemma add_element_pos (k0 : nat) (vec : list N) (pos : gmap N Z) (val : N) :
  Z.of_nat (length vec) < 2 ^ 31 -> val ∉ vec ->
  pos_ok k0 (vec, pos) -> pos_ok k0 (add_element (vec, pos) val).
Proof.
  intros Hlen Hni Hok j x Hk Hj. unfold add_element in *. simpl in *.
  apply lookup_app_Some in Hj as [Hj|[Hge Hj]].
  - rewrite pget_pset_ne; [by apply Hok|].
    intros <-. apply Hni. eapply list_elem_of_lookup_2; eauto.
  - destruct (j - length vec)%nat as [|n] eqn:Hd; simpl in Hj; [|done].
    injection Hj as <-. rewrite pget_pset_eq.
    rewrite wrap32_id; [lia|]. unfold int32_range. lia.
Qed.

Lemma add_element_length (vec : list N) (pos : gmap N Z) (val : N) :
  length (add_element (vec, pos) val).1 = S (length vec).
Proof. unfold add_element. simpl. rewrite length_app. simpl. lia. Qed.

Lemma add_element_head (vec : list N) (pos : gmap N Z) (val h : N) :
  vec !! 0%nat = Some h -> (add_element (vec, pos) val).1 !! 0%nat = Some h.
Proof. intros H. unfold add_element. simpl. by apply lookup_app_l_Some. Qed.

(** ** The pool invariant under a change of one block weight *)

Lemma null_group_not_block (nB r : N) : Z.of_N nB < 2 ^ 31 -> (r < nB)%N -> r ≠ null_group.
Proof. unfold null_group. intros H1 H2 ->. lia. Qed.

Lemma pools_inv_ext (nB : N) (w w' : gmap N Z) (ep cp : list N * gmap N Z) :
  (forall x, pget w' x = pget w x) -> pools_inv nB w ep cp -> pools_inv nB w' ep cp.
Proof.
  intros He [? ? ? ? ? ? ? ? ? ?]. split; try done.
  - intros r Hr. rewrite He. auto.
  - intros r. rewrite He. auto.
  - intros r. rewrite He. auto.
Qed.

Lemma pools_inv_positive (nB : N) (w w' : gmap N Z) (ep cp : list N * gmap N Z) (r : N) :
  (forall x, x ≠ r -> pget w' x = pget w x) -> 0 < pget w r -> 0 < pget w' r < 2 ^ 31 ->
  pools_inv nB w ep cp -> pools_inv nB w' ep cp.
Proof.
  intros He H0 H1 [? ? ? ? ? ? ? ? Hem Hca]. split; try done.
  - intros x Hx. destruct (decide (x = r)) as [->|Hne]; [lia|]. rewrite He by done. auto.
  - intros x. rewrite Hem. destruct (decide (x = r)) as [->|Hne]; [lia|]. by rewrite He.
  - intros x. rewrite Hca. destruct (decide (x = r)) as [->|Hne]; [tauto|]. by rewrite He.
Qed.

Lemma pools_inv_vacate (nB : N) (w w' : gmap N Z) (ep cp : list N * gmap N Z) (r : N) :
  (forall x, x ≠ r -> pget w' x = pget w x) -> (r < nB)%N -> 0 < pget w r -> pget w' r = 0 ->
  pools_inv nB w ep cp ->
  pools_inv nB w' (add_element ep r) (remove_element cp r).
Proof.
  intros He Hr H0 H1 [HB Hw Hhd Hcn Hen Hcp Hep Hlen Hem Hca].
  destruct ep as [ev epos], cp as [cv cpos]. simpl in *.
  assert (Hnull : r ≠ null_group) by (eapply null_group_not_block; eauto).
  assert (Hin : r ∈ cv) by (apply Hca; right; done).
  apply list_elem_of_lookup in Hin as [i Hi].
  assert (Hi1 : (1 <= i)%nat).
  { destruct i; [|lia]. rewrite Hhd in Hi. congruence. }
  assert (Hpos : pget cpos r = Z.of_nat i) by (apply (Hcp i r); done).
  assert (Hlt : (i < length cv)%nat) by (eapply lookup_lt_Some; eauto).
  assert (Hni : r ∉ ev) by (rewrite Hem; lia).
  split.
  - done.
  - intros x Hx. destruct (decide (x = r)) as [->|Hne]; [lia|]. rewrite He by done. auto.
  - eapply remove_element_head; eauto.
  - eapply remove_element_NoDup; eauto.
  - by apply add_element_NoDup.
  - destruct (remove_element (cv, cpos) r) as [cv' cpos'] eqn:Hre.
    pose proof (remove_element_pos cv cpos r i Hcn Hi Hpos 1%nat) as Hp.
    rewrite Hre in Hp. apply Hp; [lia|done].
  - apply add_element_pos; [lia|done|done].
  - rewrite add_element_length. erewrite remove_element_length by eauto. lia.
  - intros x. rewrite add_element_elem, Hem.
    destruct (decide (x = r)) as [->|Hne]; [tauto|]. rewrite He by done. tauto.
  - intros x. erewrite remove_element_elem by eauto. rewrite Hca.
    destruct (decide (x = r)) as [->|Hne]; [intuition lia|]. rewrite He by done. tauto.
Qed.

Lemma pools_inv_occupy (nB : N) (w w' : gmap N Z) (ep cp : list N * gmap N Z) (r : N) :
  (forall x, x ≠ r -> pget w' x = pget w x) -> (r < nB)%N -> pget w r = 0 ->
  0 < pget w' r < 2 ^ 31 ->
  pools_inv nB w ep cp ->
  pools_inv nB w' (remove_element ep r) (add_element cp r).
Proof.
  intros He Hr H0 H1 [HB Hw Hhd Hcn Hen Hcp Hep Hlen Hem Hca].
  destruct ep as [ev epos], cp as [cv cpos]. simpl in *.
  assert (Hnull : r ≠ null_group) by (eapply null_group_not_block; eauto).
  assert (Hin : r ∈ ev) by (apply Hem; done).
  apply list_elem_of_lookup in Hin as [i Hi].
  assert (Hpos : pget epos r = Z.of_nat i) by (apply (Hep i r); [lia|done]).
  assert (Hlt : (i < length ev)%nat) by (eapply lookup_lt_Some; eauto).
  assert (Hni : r ∉ cv) by (rewrite Hca; lia).
  split.
  - done.
  - intros x Hx. destruct (decide (x = r)) as [->|Hne]; [lia|]. rewrite He by done. auto.
  - by apply add_element_head.
  - by apply add_element_NoDup.
  - eapply remove_element_NoDup; eauto.
  - apply add_element_pos; [lia|done|done].
  - destruct (remove_element (ev, epos) r) as [ev' epos'] eqn:Hre.
    pose proof (remove_element_pos ev epos r i Hen Hi Hpos 0%nat) as Hp.
    rewrite Hre in Hp. apply Hp; [lia|done].
  - rewrite add_element_length. erewrite remove_element_length by eauto. lia.
  - intros x. erewrite remove_element_elem by eauto. rewrite Hem.
    destruct (decide (x = r)) as [->|Hne]; [intuition lia|]. rewrite He by done. tauto.
  - intros x. rewrite add_element_elem, Hca.
    destruct (decide (x = r)) as [->|Hne]; [tauto|]. rewrite He by done. tauto.
Qed.

Section Frames.
Context `{Ext : Externals}.

(** ** What each operation leaves alone *)

Lemma static_vweight (st st' : BlockState) (v : N) :
  static_part st' = static_part st -> vweight st' v = vweight st v.
Proof.
  unfold static_part, vweight. intros H. injection H as _ Hw _ Hm _ _.
  by rewrite Hw, Hm.
Qed.

Lemma static_eweight (st st' : BlockState) (e : N) :
  static_part st' = static_part st -> eweight st' e = eweight st e.
Proof.
  unfold static_part, eweight. intros H. injection H as _ Hw Hm _ _ _.
  by rewrite Hw, Hm.
Qed.

Lemma static_B (st st' : BlockState) : static_part st' = static_part st -> B st' = B st.
Proof. unfold static_part. intros H. injection H as ? ? ? ? ? ?. congruence. Qed.

Lemma static_g (st st' : BlockState) : static_part st' = static_part st -> g st' = g st.
Proof. unfold static_part. intros H. injection H as ? ? ? ? ? ?. congruence. Qed.

Lemma static_shared (st st' : BlockState) :
  static_part st' = static_part st -> mrm_is_mrp st' = mrm_is_mrp st.
Proof. unfold static_part. intros H. injection H as ? ? ? ? ? ?. congruence. Qed.

Lemma get_move_entries_frame (v r nr : N) (efilt : N -> bool) (st : BlockState) :
  let st' := get_move_entries v r nr efilt st in
  static_part st' = static_part st /\ weight_part st' = weight_part st /\
  edge_part st' = edge_part st /\ b st' = b st /\ bclabel st' = bclabel st /\
  coupled_state st' = coupled_state st.
Proof. done. Qed.

Lemma apply_entry_frame (Add : bool) (e : N * N * Z) (st : BlockState) :
  let st' := apply_entry Add e st in
  static_part st' = static_part st /\ weight_part st' = weight_part st /\
  b st' = b st /\ bclabel st' = bclabel st /\ coupled_state st' = coupled_state st.
Proof.
  destruct e as [[r s] d].
  unfold apply_entry, drop_if_zero, bump_totals, bump_mrs, set_mrm. simpl. break_ifs; done.
Qed.

Lemma apply_entries_frame (Add : bool) (l : list (N * N * Z)) (st : BlockState) :
  let st' := foldl (fun s e => apply_entry Add e s) st l in
  static_part st' = static_part st /\ weight_part st' = weight_part st /\
  b st' = b st /\ bclabel st' = bclabel st /\ coupled_state st' = coupled_state st.
Proof.
  revert st. induction l as [|e l IH]; intros st; simpl; [done|].
  destruct (IH (apply_entry Add e st)) as (? & ? & ? & ? & ?).
  destruct (apply_entry_frame Add e st) as (? & ? & ? & ? & ?).
  repeat split; congruence.
Qed.

Lemma remove_partition_node_frame (v r : N) (st : BlockState) :
  let st' := remove_partition_node v r st in
  static_part st' = static_part st /\ edge_part st' = edge_part st /\
  b st' = b st /\ bclabel st' = bclabel st /\ coupled_state st' = coupled_state st.
Proof. unfold remove_partition_node. simpl. break_ifs; done. Qed.

Lemma add_partition_node_frame (v r : N) (st : BlockState) :
  let st' := add_partition_node v r st in
  static_part st' = static_part st /\ edge_part st' = edge_part st /\
  b st' = b st /\ bclabel st' = bclabel st /\ coupled_state st' = coupled_state st.
Proof. unfold add_partition_node. simpl. break_ifs; done. Qed.

(** The weight bookkeeping of the two partition-node operations. *)
Lemma remove_partition_node_weight (v r : N) (st : BlockState) :
  weight_part (remove_partition_node v r st) =
  let w' := pset (wr st) r (pget (wr st) r - vweight st v) in
  if (0 <? vweight st v) && (pget w' r =? 0)
  then (w', add_element (empty_blocks st, empty_pos st) r,
        remove_element (candidate_blocks st, candidate_pos st) r)
  else (w', (empty_blocks st, empty_pos st), (candidate_blocks st, candidate_pos st)).
Proof.
  unfold remove_partition_node, weight_part, vweight. simpl.
  destruct (negb (egroups_empty (egroups st)) && egroups_enabled st);
    destruct (is_partition_stats_enabled _); simpl;
    destruct ((0 <? _) && (_ =? 0)); try reflexivity;
    destruct (remove_element _ r); reflexivity.
Qed.

Lemma add_partition_node_weight (v r : N) (st : BlockState) :
  weight_part (add_partition_node v r st) =
  let w' := pset (wr st) r (pget (wr st) r + vweight st v) in
  if (0 <? vweight st v) && (pget w' r =? vweight st v)
  then (w', remove_element (empty_blocks st, empty_pos st) r,
        add_element (candidate_blocks st, candidate_pos st) r)
  else (w', (empty_blocks st, empty_pos st), (candidate_blocks st, candidate_pos st)).
Proof.
  unfold add_partition_node, weight_part, vweight. simpl.
  destruct (negb (egroups_empty (egroups st)) && egroups_enabled st);
    destruct (is_partition_stats_enabled _); simpl;
    destruct ((0 <? _) && (_ =? _)); try reflexivity;
    destruct (remove_element _ r); reflexivity.
Qed.


Lemma pools_ok_parts (st st' : BlockState) :
  B st' = B st -> weight_part st' = weight_part st -> pools_ok st -> pools_ok st'.
Proof. unfold pools_ok. by intros -> ->. Qed.

(** ** The pool invariant under the partition-node operations *)

Lemma remove_partition_node_pools (v r : N) (st : BlockState) :
  pools_ok st -> (r < B st)%N -> 0 <= vweight st v <= pget (wr st) r ->
  pools_ok (remove_partition_node v r st).
Proof.
  intros Hok Hr Hv.
  destruct (remove_partition_node_frame v r st) as (Hs & _).
  apply static_B in Hs.
  unfold pools_ok. rewrite Hs, remove_partition_node_weight. cbv zeta.
  unfold pools_ok, weight_part in Hok.
  pose proof (pi_wr _ _ _ _ Hok r Hr) as Hrange.
  assert (Hnew : pget (pset (wr st) r (pget (wr st) r - vweight st v)) r
                 = pget (wr st) r - vweight st v).
  { rewrite pget_pset_eq. apply wrap32_id. unfold int32_range. lia. }
  assert (Hoth : forall x, x ≠ r ->
            pget (pset (wr st) r (pget (wr st) r - vweight st v)) x = pget (wr st) x).
  { intros x Hx. by apply pget_pset_ne. }
  rewrite Hnew.
  destruct ((0 <? vweight st v) && (pget (wr st) r - vweight st v =? 0)) eqn:Hc.
  - apply andb_true_iff in Hc as [Hc1 Hc2].
    apply Z.ltb_lt in Hc1. apply Z.eqb_eq in Hc2.
    eapply pools_inv_vacate; eauto; lia.
  - apply andb_false_iff in Hc.
    destruct (decide (vweight st v = 0)) as [H0|H0].
    + eapply pools_inv_ext; [|exact Hok].
      intros x. destruct (decide (x = r)) as [->|Hne]; [lia|]. by apply Hoth.
    + assert (0 < pget (wr st) r - vweight st v).
      { destruct Hc as [Hc|Hc]; [apply Z.ltb_ge in Hc; lia|apply Z.eqb_neq in Hc; lia]. }
      eapply (pools_inv_positive _ _ _ _ _ r); eauto; lia.
Qed.

Lemma add_partition_node_pools (v r : N) (st : BlockState) :
  pools_ok st -> (r < B st)%N -> 0 <= vweight st v ->
  pget (wr st) r + vweight st v < 2 ^ 31 ->
  pools_ok (add_partition_node v r st).
Proof.
  intros Hok Hr Hv Hb.
  destruct (add_partition_node_frame v r st) as (Hs & _).
  apply static_B in Hs.
  unfold pools_ok. rewrite Hs, add_partition_node_weight. cbv zeta.
  unfold pools_ok, weight_part in Hok.
  pose proof (pi_wr _ _ _ _ Hok r Hr) as Hrange.
  assert (Hnew : pget (pset (wr st) r (pget (wr st) r + vweight st v)) r
                 = pget (wr st) r + vweight st v).
  { rewrite pget_pset_eq. apply wrap32_id. unfold int32_range. lia. }
  assert (Hoth : forall x, x ≠ r ->
            pget (pset (wr st) r (pget (wr st) r + vweight st v)) x = pget (wr st) x).
  { intros x Hx. by apply pget_pset_ne. }
  rewrite Hnew.
  destruct ((0 <? vweight st v) && (pget (wr st) r + vweight st v =? vweight st v)) eqn:Hc.
  - apply andb_true_iff in Hc as [Hc1 Hc2].
    apply Z.ltb_lt in Hc1. apply Z.eqb_eq in Hc2.
    eapply pools_inv_occupy; eauto; lia.
  - apply andb_false_iff in Hc.
    destruct (decide (vweight st v = 0)) as [H0|H0].
    + eapply pools_inv_ext; [|exact Hok].
      intros x. destruct (decide (x = r)) as [->|Hne]; [lia|]. by apply Hoth.
    + assert (0 < pget (wr st) r).
      { destruct Hc as [Hc|Hc]; [apply Z.ltb_ge in Hc; lia|apply Z.eqb_neq in Hc; lia]. }
      eapply (pools_inv_positive _ _ _ _ _ r); eauto; lia.
Qed.

End Frames.

(** ** Ranges and sums *)

Lemma elem_of_block_range (n x : N) : x ∈ block_range n <-> (x < n)%N.
Proof.
  unfold block_range. rewrite list_elem_of_fmap. split.
  - intros [k [-> Hk]]. apply elem_of_seq in Hk. lia.
  - intros H. exists (N.to_nat x). split; [by rewrite N2Nat.id|].
    apply elem_of_seq. lia.
Qed.

Lemma NoDup_block_range (n : N) : NoDup (block_range n).
Proof.
  unfold block_range. apply NoDup_fmap_2; [|apply NoDup_seq].
  intros x y H. by apply Nat2N.inj.
Qed.

Lemma block_range_succ (k : nat) :
  block_range (N.of_nat (S k)) = block_range (N.of_nat k) ++ [N.of_nat k].
Proof.
  unfold block_range. rewrite !Nat2N.id, seq_S, map_app. reflexivity.
Qed.

Section Sums.
Context {A : Type}.
Implicit Types (f h : A -> Z) (l : list A).

Lemma sumZ_ext f h l : (forall x, x ∈ l -> f x = h x) -> sumZ f l = sumZ h l.
Proof.
  induction l as [|a l IH]; intros H; simpl; [done|].
  rewrite H by apply list_elem_of_here. rewrite IH; [done|].
  intros x Hx. apply H. by apply list_elem_of_further.
Qed.

Lemma sumZ_le f h l : (forall x, x ∈ l -> f x <= h x) -> sumZ f l <= sumZ h l.
Proof.
  induction l as [|a l IH]; intros H; simpl; [lia|].
  pose proof (H a (list_elem_of_here _ _)).
  assert (sumZ f l <= sumZ h l); [|lia].
  apply IH. intros x Hx. apply H. by apply list_elem_of_further.
Qed.

Lemma sumZ_nonneg f l : (forall x, x ∈ l -> 0 <= f x) -> 0 <= sumZ f l.
Proof.
  induction l as [|a l IH]; intros H; simpl; [lia|].
  pose proof (H a (list_elem_of_here _ _)).
  assert (0 <= sumZ f l); [|lia].
  apply IH. intros x Hx. apply H. by apply list_elem_of_further.
Qed.

Lemma sumZ_add f h l : sumZ (fun x => f x + h x) l = sumZ f l + sumZ h l.
Proof. induction l as [|a l IH]; simpl; lia. Qed.

Lemma sumZ_zero l : sumZ (fun _ : A => 0) l = 0.
Proof. induction l as [|a l IH]; simpl; lia. Qed.

Lemma sumZ_app f l1 l2 : sumZ f (l1 ++ l2) = sumZ f l1 + sumZ f l2.
Proof. induction l1 as [|a l IH]; simpl; lia. Qed.

(** A sum whose summand changes at one point. *)
Lemma sumZ_point `{EqDecision A} f h l (v : A) :
  NoDup l -> v ∈ l -> (forall x, x ∈ l -> x ≠ v -> h x = f x) ->
  sumZ h l = sumZ f l - f v + h v.
Proof.
  induction l as [|a l IH]; intros Hnd Hin H; simpl.
  - by apply elem_of_nil in Hin.
  - apply NoDup_cons in Hnd as [Hni Hnd].
    destruct (decide (a = v)) as [->|Hne].
    + rewrite (sumZ_ext h f l); [lia|].
      intros x Hx. apply H; [by apply list_elem_of_further|]. intros ->. done.
    + apply elem_of_cons in Hin as [->|Hin]; [done|].
      rewrite (H a) by (done || apply list_elem_of_here).
      rewrite IH; [lia|done|done|].
      intros x Hx. apply H. by apply list_elem_of_further.
Qed.

(** A sum whose summand vanishes away from one point. *)
Lemma sumZ_single `{EqDecision A} f l (v : A) :
  NoDup l -> v ∈ l -> (forall x, x ∈ l -> x ≠ v -> f x = 0) -> sumZ f l = f v.
Proof.
  intros Hnd Hin H.
  rewrite (sumZ_point (fun _ => 0) f l v Hnd Hin) by done.
  rewrite sumZ_zero. lia.
Qed.

End Sums.


Section Counts.
Context `{Ext : Externals}.

(** ** The node counts under the partition-node operations *)

Lemma remove_partition_node_wr (v r : N) (st : BlockState) :
  wr (remove_partition_node v r st) = pset (wr st) r (pget (wr st) r - vweight st v).
Proof.
  pose proof (remove_partition_node_weight v r st) as H. cbv zeta in H.
  unfold weight_part in H at 1.
  destruct ((0 <? vweight st v) && _); by injection H.
Qed.

Lemma add_partition_node_wr (v r : N) (st : BlockState) :
  wr (add_partition_node v r st) = pset (wr st) r (pget (wr st) r + vweight st v).
Proof.
  pose proof (add_partition_node_weight v r st) as H. cbv zeta in H.
  unfold weight_part in H at 1.
  destruct ((0 <? vweight st v) && _); by injection H.
Qed.

Lemma blk_parts (st st' : BlockState) (u : N) : b st' = b st -> blk st' u = blk st u.
Proof. intros H. unfold blk. by rewrite H. Qed.

Lemma placed_in_parts (st st' : BlockState) (A : gset N) (r v : N) :
  static_part st' = static_part st -> b st' = b st ->
  placed_in st' A r v = placed_in st A r v.
Proof.
  intros Hs Hb. unfold placed_in, blk. by rewrite Hb, (static_vweight _ _ _ Hs).
Qed.

Lemma vertices_parts (st st' : BlockState) :
  static_part st' = static_part st -> vertices st' = vertices st.
Proof. intros Hs. unfold vertices. by rewrite (static_g _ _ Hs). Qed.

Lemma placed_in_bounds (st : BlockState) (A : gset N) (r v : N) :
  0 <= vweight st v -> 0 <= placed_in st A r v <= vweight st v.
Proof. unfold placed_in. case_bool_decide; lia. Qed.

Lemma elem_of_vertices (st : BlockState) (v : N) :
  v ∈ vertices st <-> (v < num_vertices (g st))%N.
Proof. apply elem_of_block_range. Qed.

(** A placed vertex weighs no more than its block; a removed one fits next
    to any block within the total. *)
Lemma placed_weight_ge (st : BlockState) (A : gset N) (r v : N) :
  Forall (fun u => 0 <= vweight st u) (vertices st) ->
  v ∈ vertices st -> v ∉ A -> blk st v = r ->
  vweight st v <= placed_weight st A r.
Proof.
  intros Hvw Hin HA Hb. rewrite Forall_forall in Hvw. unfold placed_weight.
  rewrite (sumZ_point (fun u => if decide (u = v) then 0 else placed_in st A r u)
             (placed_in st A r) (vertices st) v (NoDup_block_range _) Hin).
  2:{ intros x _ Hx. by rewrite decide_False. }
  rewrite decide_True by done.
  assert (0 <= sumZ (fun u => if decide (u = v) then 0 else placed_in st A r u) (vertices st)).
  { apply sumZ_nonneg. intros x Hx. destruct (decide (x = v)); [lia|].
    apply placed_in_bounds. auto. }
  unfold placed_in at 2. rewrite bool_decide_eq_true_2 by done. lia.
Qed.

Lemma placed_weight_room (st : BlockState) (A : gset N) (r v : N) :
  Forall (fun u => 0 <= vweight st u) (vertices st) ->
  v ∈ vertices st -> v ∈ A ->
  placed_weight st A r + vweight st v <= total_vweight st.
Proof.
  intros Hvw Hin HA. rewrite Forall_forall in Hvw. unfold placed_weight, total_vweight.
  pose proof (sumZ_point (placed_in st A r)
                (fun u => if decide (u = v) then vweight st v else placed_in st A r u)
                (vertices st) v (NoDup_block_range _) Hin) as Hpt.
  cbv beta in Hpt. rewrite decide_True in Hpt by done.
  assert (placed_in st A r v = 0) as Hz.
  { unfold placed_in. rewrite bool_decide_eq_false_2; [done|]. tauto. }
  rewrite Hz in Hpt.
  assert (sumZ (fun u => if decide (u = v) then vweight st v else placed_in st A r u)
            (vertices st) <= sumZ (vweight st) (vertices st)).
  { apply sumZ_le. intros x Hx. destruct (decide (x = v)) as [->|]; [lia|].
    apply placed_in_bounds. auto. }
  rewrite Hpt in H; [lia|]. intros x _ Hx. by rewrite decide_False.
Qed.

Lemma remove_partition_node_counts (A : gset N) (st : BlockState) (v r : N) :
  Forall (fun u => 0 <= vweight st u) (vertices st) ->
  counts_ok A st -> pools_ok st ->
  v ∈ vertices st -> v ∉ A -> blk st v = r -> (r < B st)%N ->
  counts_ok (A ∪ {[v]}) (remove_partition_node v r st)
  /\ pools_ok (remove_partition_node v r st).
Proof.
  intros Hvw Hc Hp Hin HA Hb Hr.
  pose proof (placed_weight_ge st A r v Hvw Hin HA Hb) as Hge.
  unfold counts_ok in *. rewrite Forall_forall in Hc.
  pose proof (Hc r (proj2 (elem_of_block_range _ _) Hr)) as Hwr.
  assert (H0 : 0 <= vweight st v) by (rewrite Forall_forall in Hvw; auto).
  pose proof Hp as Hp'. unfold pools_ok, weight_part in Hp'.
  pose proof (pi_wr _ _ _ _ Hp' r Hr) as Hrange.
  split; [|apply remove_partition_node_pools; [done|done|lia]].
  destruct (remove_partition_node_frame v r st) as (Hs & _ & Hbb & _).
  rewrite (static_B _ _ Hs). apply Forall_forall. intros r' Hr'.
  rewrite remove_partition_node_wr, pget_pset.
  unfold placed_weight. rewrite (vertices_parts _ _ Hs).
  rewrite (sumZ_point (placed_in st A r')
             (placed_in (remove_partition_node v r st) (A ∪ {[v]}) r')
             (vertices st) v (NoDup_block_range _) Hin).
  2:{ intros x _ Hx. rewrite (placed_in_parts _ _ _ _ _ Hs Hbb).
      unfold placed_in. repeat case_bool_decide; try done; set_solver. }
  assert (placed_in (remove_partition_node v r st) (A ∪ {[v]}) r' v = 0) as ->.
  { unfold placed_in. rewrite bool_decide_eq_false_2; [done|]. set_solver. }
  fold (placed_weight st A r'). rewrite <- (Hc r' Hr').
  unfold placed_in. destruct (decide (r = r')) as [<-|Hne].
  - rewrite bool_decide_eq_true_2 by done. rewrite wrap32_id; [lia|].
    unfold int32_range. lia.
  - rewrite bool_decide_eq_false_2; [lia|]. intros [_ ?]. congruence.
Qed.

Lemma blk_with_b (st : BlockState) (v r u : N) :
  Z.of_N r < 2 ^ 31 ->
  blk (with_b (pset (b st) v (Z.of_N r)) st) u = if decide (v = u) then r else blk st u.
Proof.
  intros Hr. unfold blk. simpl. rewrite pget_pset.
  destruct (decide (v = u)); [|done].
  rewrite wrap32_id by (unfold int32_range; lia).
  unfold size_t_of_int, wrap64. rewrite Z.mod_small by lia. apply N2Z.id.
Qed.

Lemma add_partition_node_counts (A : gset N) (st : BlockState) (v r : N) :
  Forall (fun u => 0 <= vweight st u) (vertices st) -> total_vweight st < 2 ^ 31 ->
  counts_ok A st -> pools_ok st ->
  v ∈ vertices st -> v ∈ A -> (r < B st)%N ->
  let st1 := with_b (pset (b st) v (Z.of_N r)) st in
  counts_ok (A ∖ {[v]}) (add_partition_node v r st1)
  /\ pools_ok (add_partition_node v r st1).
Proof.
  intros Hvw Htot Hc Hp Hin HA Hr st1.
  pose proof (placed_weight_room st A r v Hvw Hin HA) as Hroom.
  unfold counts_ok in *. rewrite Forall_forall in Hc.
  pose proof (Hc r (proj2 (elem_of_block_range _ _) Hr)) as Hwr.
  assert (H0 : 0 <= vweight st v) by (rewrite Forall_forall in Hvw; auto).
  pose proof Hp as Hp'. unfold pools_ok, weight_part in Hp'.
  pose proof (pi_wr _ _ _ _ Hp' r Hr) as Hrange.
  pose proof (pi_B _ _ _ _ Hp') as HB.
  assert (Hblk : forall u, blk st1 u = if decide (v = u) then r else blk st u).
  { intros u. apply blk_with_b. lia. }
  assert (Hs1 : static_part st1 = static_part st) by done.
  assert (Hp1 : pools_ok st1) by (by apply (pools_ok_parts st)).
  split.
  2:{ apply add_partition_node_pools; try done. change (wr st1) with (wr st).
      change (vweight st1 v) with (vweight st v). lia. }
  destruct (add_partition_node_frame v r st1) as (Hs & _ & Hbb & _).
  rewrite (static_B _ _ Hs). change (B st1) with (B st).
  apply Forall_forall. intros r' Hr'.
  rewrite add_partition_node_wr, pget_pset.
  change (wr st1) with (wr st). change (vweight st1 v) with (vweight st v).
  unfold placed_weight. rewrite (vertices_parts _ _ Hs).
  change (vertices st1) with (vertices st).
  rewrite (sumZ_point (placed_in st A r')
             (placed_in (add_partition_node v r st1) (A ∖ {[v]}) r')
             (vertices st) v (NoDup_block_range _) Hin).
  2:{ intros x _ Hx. rewrite (placed_in_parts _ _ _ _ _ Hs Hbb).
      unfold placed_in. rewrite Hblk. rewrite decide_False by done.
      change (vweight st1 x) with (vweight st x).
      repeat case_bool_decide; try done; set_solver. }
  assert (placed_in st A r' v = 0) as ->.
  { unfold placed_in. rewrite bool_decide_eq_false_2; [done|]. tauto. }
  fold (placed_weight st A r'). rewrite <- (Hc r' Hr').
  rewrite (placed_in_parts _ _ _ _ _ Hs Hbb).
  unfold placed_in. rewrite Hblk. destruct (decide (v = v)) as [_|?]; [|done].
  change (vweight st1 v) with (vweight st v).
  destruct (decide (r = r')) as [<-|Hne].
  - rewrite bool_decide_eq_true_2 by set_solver. rewrite wrap32_id; [lia|].
    unfold int32_range. lia.
  - rewrite bool_decide_eq_false_2; [lia|]. intros [_ ?]. congruence.
Qed.

End Counts.

(** ** The block edge index *)

Lemma edge_key_undirected (r s a c : N) :
  edge_key false r s = edge_key false a c <-> (r = a /\ s = c) \/ (r = c /\ s = a).
Proof.
  unfold edge_key.
  destruct (N.leb_spec r s), (N.leb_spec a c); split;
    try (intros [= -> ->]); try (intros [[-> ->]|[-> ->]]); try tauto;
    try (f_equal; lia); try lia.
  all: try (left; split; lia); try (right; split; lia).
Qed.

Lemma edge_key_directed (r s a c : N) :
  edge_key true r s = edge_key true a c <-> r = a /\ s = c.
Proof. unfold edge_key. split; [by intros [= -> ->]|by intros [-> ->]]. Qed.

Lemma wrap32_shift (x d1 d2 : Z) :
  d1 mod 2 ^ 32 = d2 mod 2 ^ 32 -> wrap32 (x + d1) = wrap32 (wrap32 x + d2).
Proof.
  intros H. rewrite wrap32_add_l. apply wrap32_congr.
  rewrite (Z.add_mod x d1), (Z.add_mod x d2), H by lia. reflexivity.
Qed.

Section Edges.
Context `{Ext : Externals}.

Lemma mrs_at_bump_mrs (k k' : N * N) (d : Z) (st : BlockState) :
  mrs_at (bump_mrs k d st) k' =
  if decide (k = k') then wrap32 (mrs_at st k + d) else mrs_at st k'.
Proof.
  unfold bump_mrs, mrs_at. simpl.
  destruct (decide (k = k')) as [->|Hne].
  - by rewrite lookup_insert_eq.
  - by rewrite lookup_insert_ne.
Qed.

Lemma mrs_at_drop_if_zero (k k' : N * N) (st : BlockState) :
  mrs_at (drop_if_zero k st) k' = mrs_at st k'.
Proof.
  unfold drop_if_zero. destruct (mrs_at st k =? 0) eqn:Hz; [|done].
  apply Z.eqb_eq in Hz. unfold mrs_at in *. simpl.
  destruct (decide (k = k')) as [->|Hne].
  - by rewrite lookup_delete_eq.
  - by rewrite lookup_delete_ne.
Qed.

(** The row sums depend on the stored counts only. *)
Lemma row_sum_ext (st st' : BlockState) (r : N) :
  static_part st' = static_part st -> (forall k, mrs_at st' k = mrs_at st k) ->
  row_sum st' r = row_sum st r.
Proof.
  intros Hs Hm. unfold row_sum, mrs_matrix, get_beprop.
  rewrite (static_B _ _ Hs), (static_g _ _ Hs).
  apply sumZ_ext. intros s _. by rewrite !Hm.
Qed.

Lemma mrp_ok_ext (st st' : BlockState) :
  static_part st' = static_part st -> mrp st' = mrp st ->
  (forall k, mrs_at st' k = mrs_at st k) -> mrp_ok st -> mrp_ok st'.
Proof.
  intros Hs Hp Hm. unfold mrp_ok. rewrite (static_B _ _ Hs), Hp.
  intros H. eapply Forall_impl; [exact H|]. intros r ->. by rewrite (row_sum_ext st st').
Qed.

Lemma row_sum_bump_mrs (a c r : N) (d : Z) (st : BlockState) :
  (a < B st)%N -> (c < B st)%N ->
  let k := edge_key (directed (g st)) a c in
  row_sum (bump_mrs k d st) r =
  row_sum st r + hits (directed (g st)) a c r * (wrap32 (mrs_at st k + d) - mrs_at st k).
Proof.
  intros Ha Hc k. unfold row_sum. change (B (bump_mrs k d st)) with (B st).
  set (X := wrap32 (mrs_at st k + d) - mrs_at st k).
  assert (Hm : forall r' s', mrs_matrix (bump_mrs k d st) r' s' =
            mrs_matrix st r' s' +
            (if decide (edge_key (directed (g st)) r' s' = k)
             then (if N.eqb r' s' && negb (directed (g st)) then 2 else 1) * X else 0)).
  { intros r' s'. unfold mrs_matrix, get_beprop. change (g (bump_mrs k d st)) with (g st).
    rewrite !mrs_at_bump_mrs.
    destruct (N.eqb_spec r' s') as [->|Hne]; simpl.
    - destruct (directed (g st)); simpl;
        destruct (decide (k = _)) as [Hk|Hk];
        destruct (decide (_ = k)) as [Hk'|Hk']; try congruence; subst X; try lia.
      all: rewrite <- Hk; lia.
    - destruct (decide (k = _)) as [Hk|Hk];
        destruct (decide (_ = k)) as [Hk'|Hk']; try congruence; subst X; try lia.
      rewrite <- Hk. lia. }
  rewrite (sumZ_ext _ _ _ (fun s _ => Hm r s)). rewrite sumZ_add. f_equal.
  pose proof (NoDup_block_range (B st)) as Hnd.
  apply elem_of_block_range in Ha, Hc.
  unfold hits. subst k.
  destruct (directed (g st)) eqn:Hdir.
  - destruct (decide (r = a)) as [->|Hra].
    + rewrite (sumZ_single _ _ c Hnd Hc).
      * rewrite decide_True by done.
        destruct (N.eqb a c); simpl; lia.
      * intros x _ Hx. rewrite decide_False; [done|].
        rewrite edge_key_directed. tauto.
    + rewrite (sumZ_ext _ (fun _ => 0)); [rewrite sumZ_zero; lia|].
      intros x _. rewrite decide_False; [done|]. rewrite edge_key_directed. tauto.
  - destruct (decide (r = a)) as [->|Hra].
    + rewrite (sumZ_single _ _ c Hnd Hc).
      * rewrite decide_True by done.
        destruct (N.eqb_spec a c) as [->|Hne]; simpl.
        -- rewrite decide_True by done. lia.
        -- rewrite decide_False by done. lia.
      * intros x _ Hx. rewrite decide_False; [done|].
        rewrite edge_key_undirected. intros [[_ ?]|[? ?]]; congruence.
    + destruct (decide (r = c)) as [->|Hrc].
      * rewrite (sumZ_single _ _ a Hnd Ha).
        -- rewrite decide_True by (apply edge_key_undirected; tauto).
           destruct (N.eqb_spec c a) as [->|Hne]; [done|]. simpl. lia.
        -- intros x _ Hx. rewrite decide_False; [done|].
           rewrite edge_key_undirected. intros [[? ?]|[_ ?]]; congruence.
      * rewrite (sumZ_ext _ (fun _ => 0)); [rewrite sumZ_zero; lia|].
        intros x _. rewrite decide_False; [done|].
        rewrite edge_key_undirected. intros [[? ?]|[? ?]]; congruence.
Qed.

Lemma mrp_bump_totals (a c r : N) (d : Z) (st : BlockState) :
  mrm_is_mrp st = negb (directed (g st)) ->
  pget (mrp st) r = wrap32 (pget (mrp st) r) ->
  pget (mrp (bump_totals a c d st)) r =
  wrap32 (pget (mrp st) r + hits (directed (g st)) a c r * d).
Proof.
  intros Hsh Hint. unfold bump_totals, set_mrm, get_mrm. simpl. rewrite Hsh.
  destruct (directed (g st)); simpl;
    rewrite ?pget_pset; unfold hits;
    repeat case_decide; subst; try congruence;
    rewrite ?wrap32_add_l;
    first [ f_equal; lia | rewrite Hint at 1; f_equal; lia ].
Qed.

(** The two statements [_mrs[me] += d; _mrp[r] += d; _mrm[s] += d] keep the
    totals on the row sums. *)
Lemma mrp_ok_bump (a c : N) (d : Z) (st : BlockState) :
  mrm_is_mrp st = negb (directed (g st)) -> (a < B st)%N -> (c < B st)%N ->
  mrp_ok st ->
  mrp_ok (bump_totals a c d (bump_mrs (edge_key (directed (g st)) a c) d st)).
Proof.
  intros Hsh Ha Hc Hok. unfold mrp_ok in *. rewrite Forall_forall in Hok.
  set (k := edge_key (directed (g st)) a c).
  assert (Hs : static_part (bump_totals a c d (bump_mrs k d st)) = static_part st).
  { unfold bump_totals, set_mrm, bump_mrs. simpl. by destruct (mrm_is_mrp st). }
  rewrite (static_B _ _ Hs). apply Forall_forall. intros r Hr.
  rewrite (row_sum_ext (bump_mrs k d st)).
  2:{ unfold bump_totals, set_mrm, bump_mrs. simpl. by destruct (mrm_is_mrp st). }
  2:{ intros k'. unfold bump_totals, set_mrm, mrs_at. simpl. by destruct (mrm_is_mrp st). }
  subst k. rewrite row_sum_bump_mrs by done.
  rewrite mrp_bump_totals.
  2:{ done. }
  2:{ change (mrp (bump_mrs _ d st)) with (mrp st). rewrite (Hok r Hr).
      symmetry. apply wrap32_id, wrap32_range. }
  change (mrp (bump_mrs _ d st)) with (mrp st).
  change (g (bump_mrs _ d st)) with (g st).
  rewrite (Hok r Hr). symmetry. apply wrap32_shift.
  generalize (hits (directed (g st)) a c r). intros h.
  generalize (mrs_at st (edge_key (directed (g st)) a c)). intros m.
  rewrite Z.mul_sub_distr_l.
  rewrite <- Zminus_mod_idemp_l, <- Zmult_mod_idemp_r, wrap32_mod, Zmult_mod_idemp_r,
    Zminus_mod_idemp_l.
  f_equal. lia.
Qed.

Lemma mrp_ok_drop_if_zero (k : N * N) (st : BlockState) :
  mrp_ok st -> mrp_ok (drop_if_zero k st).
Proof.
  apply mrp_ok_ext.
  - unfold drop_if_zero. by destruct (_ =? _).
  - unfold drop_if_zero. by destruct (_ =? _).
  - intros k'. apply mrs_at_drop_if_zero.
Qed.

End Edges.

(** ** The delta set stays inside the block graph *)

Lemma foldl_invariant {A C : Type} (I : A -> Prop) (f : A -> C -> A) (l : list C) (a : A) :
  (forall a x, x ∈ l -> I a -> I (f a x)) -> I a -> I (foldl f a l).
Proof.
  revert a. induction l as [|x l IH]; intros a Hf Ha; simpl; [done|].
  apply IH.
  - intros a' y Hy. apply Hf. by apply list_elem_of_further.
  - apply Hf; [apply list_elem_of_here|done].
Qed.

Lemma insert_delta_in (P : N -> Prop) (dir : bool) (t s : N) (d : Z) (m : EntrySet) :
  P t -> P s -> entries_in P m -> entries_in P (insert_delta dir t s d m).
Proof.
  intros Ht Hs. unfold entries_in, insert_delta. simpl.
  assert (Hk : P (edge_key dir t s).1 /\ P (edge_key dir t s).2).
  { unfold edge_key. destruct dir; [done|]. by destruct (N.leb t s). }
  generalize (edge_key dir t s) Hk. intros k [Hk1 Hk2].
  induction (entries m) as [|[[r' s'] d'] l IH]; intros Hl; simpl.
  - by repeat constructor.
  - apply Forall_cons in Hl as [He Hl].
    destruct (N.eqb r' k.1 && N.eqb s' k.2); constructor; auto.
Qed.

Lemma out_edges_range_spec (v : N) (gr : Graph) (e : edge_t) :
  e ∈ out_edges_range v gr ->
  source e = v /\ ((source e, target e) ∈ edge_list gr \/ (target e, source e) ∈ edge_list gr).
Proof.
  unfold out_edges_range. rewrite list_elem_of_In, in_flat_map.
  intros [[i [s t]] [Hin He]]. rewrite <- list_elem_of_In in He.
  assert (Hst : (s, t) ∈ edge_list gr).
  { clear He. rewrite <- list_elem_of_In in Hin. revert Hin. generalize 0%N.
    induction (edge_list gr) as [|x l IH]; intros n Hin; simpl in *.
    - by apply elem_of_nil in Hin.
    - apply elem_of_cons in Hin as [[= _ <-]|Hin]; [apply list_elem_of_here|].
      apply list_elem_of_further. eauto. }
  apply elem_of_app in He as [He|He].
  - destruct (N.eqb_spec s v) as [->|]; [|by apply elem_of_nil in He].
    apply list_elem_of_singleton in He as ->. simpl. auto.
  - destruct (negb (directed gr) && N.eqb t v) eqn:Hc; [|by apply elem_of_nil in He].
    apply andb_true_iff in Hc as [_ Hc]. apply N.eqb_eq in Hc as ->.
    apply list_elem_of_singleton in He as ->. simpl. auto.
Qed.

Lemma in_edges_range_spec (v : N) (gr : Graph) (e : edge_t) :
  e ∈ in_edges_range v gr -> target e = v /\ (source e, target e) ∈ edge_list gr.
Proof.
  unfold in_edges_range. destruct (directed gr); [|by intros ?%elem_of_nil].
  rewrite list_elem_of_In, in_flat_map.
  intros [[i [s t]] [Hin He]]. rewrite <- list_elem_of_In in He.
  assert (Hst : (s, t) ∈ edge_list gr).
  { clear He. rewrite <- list_elem_of_In in Hin. revert Hin. generalize 0%N.
    induction (edge_list gr) as [|x l IH]; intros n Hin; simpl in *.
    - by apply elem_of_nil in Hin.
    - apply elem_of_cons in Hin as [[= _ <-]|Hin]; [apply list_elem_of_here|].
      apply list_elem_of_further. eauto. }
  destruct (N.eqb_spec t v) as [->|]; [|by apply elem_of_nil in He].
  apply list_elem_of_singleton in He as ->. simpl. auto.
Qed.

Lemma out_edges_range_ok (v : N) (gr : Graph) (e : edge_t) :
  graph_ok gr -> e ∈ out_edges_range v gr ->
  (source e < num_vertices gr)%N /\ (target e < num_vertices gr)%N.
Proof.
  intros Hg He. apply out_edges_range_spec in He as [_ [He|He]];
    eapply Forall_forall in He; eauto; simpl in He; tauto.
Qed.

Lemma in_edges_range_ok (v : N) (gr : Graph) (e : edge_t) :
  graph_ok gr -> e ∈ in_edges_range v gr ->
  (source e < num_vertices gr)%N /\ (target e < num_vertices gr)%N.
Proof.
  intros Hg He. apply in_edges_range_spec in He as [_ He].
  eapply Forall_forall in He; eauto; simpl in He; tauto.
Qed.

Lemma take_and_put_in (P : N -> Prop) (dir : bool) (r nr : N) (pw : N -> N * N) (w : Z)
    (m : EntrySet) :
  (r ≠ null_group -> P (pw r).1 /\ P (pw r).2) ->
  (nr ≠ null_group -> P (pw nr).1 /\ P (pw nr).2) ->
  entries_in P m -> entries_in P (take_and_put dir r nr pw w m).
Proof.
  intros Hr Hnr Hm. unfold take_and_put.
  destruct (N.eqb_spec nr null_group), (N.eqb_spec r null_group);
    repeat apply insert_delta_in; auto; try apply Hr; try apply Hnr; done.
Qed.

Lemma move_entries_in (P : N -> Prop) (v r nr : N) (bm : gmap N Z) (gr : Graph)
    (ew : N -> Z) (efilt : N -> bool) :
  (r ≠ null_group -> P r) -> (nr ≠ null_group -> P nr) ->
  (forall e, e ∈ out_edges_range v gr -> P (size_t_of_int (pget bm (target e)))) ->
  (forall e, e ∈ in_edges_range v gr -> P (size_t_of_int (pget bm (source e)))) ->
  entries_in P (move_entries v r nr bm gr ew efilt).
Proof.
  intros Hr Hnr Hout Hin. unfold move_entries. cbv zeta.
  assert (Hfold : entries_in P
    (foldl (entries_in_step v r nr bm (directed gr) ew efilt)
       (foldl (entries_out_step v r nr bm (directed gr) ew efilt)
          {| rnr := (r, nr); entries := [] |} (out_edges_range v gr))
       (in_edges_range v gr))).
  { apply foldl_invariant.
    - intros m e He Hm. unfold entries_in_step.
      destruct (efilt (eidx e) || N.eqb (source e) v); [done|].
      apply take_and_put_in; simpl; auto.
    - apply foldl_invariant.
      + intros m e He Hm. unfold entries_out_step.
        destruct (efilt (eidx e) || N.eqb (target e) v); [done|].
        apply take_and_put_in; simpl; auto.
      + constructor. }
  destruct (filter _ (out_edges_range v gr)); [exact Hfold|].
  apply take_and_put_in; simpl; auto.
Qed.

Section Consistency.
Context `{Ext : Externals}.

(** ** Consistency is a matter of the parts *)

Lemma total_vweight_parts (st st' : BlockState) :
  static_part st' = static_part st -> total_vweight st' = total_vweight st.
Proof.
  intros Hs. unfold total_vweight. rewrite (vertices_parts _ _ Hs).
  apply sumZ_ext. intros v _. by apply static_vweight.
Qed.

Lemma mrp_ok_parts (st st' : BlockState) :
  static_part st' = static_part st -> edge_part st' = edge_part st ->
  mrp_ok st -> mrp_ok st'.
Proof.
  intros Hs He. unfold edge_part in He. injection He as Hm Hp _.
  apply mrp_ok_ext; [done|done|]. intros k. unfold mrs_at. by rewrite Hm.
Qed.

Lemma counts_ok_parts (A : gset N) (st st' : BlockState) :
  static_part st' = static_part st -> weight_part st' = weight_part st -> b st' = b st ->
  counts_ok A st -> counts_ok A st'.
Proof.
  intros Hs Hw Hb. unfold counts_ok, weight_part in *. injection Hw as Hw _ _ _ _.
  rewrite (static_B _ _ Hs), Hw. intros H. eapply Forall_impl; [exact H|].
  intros r ->. unfold placed_weight. rewrite (vertices_parts _ _ Hs).
  apply sumZ_ext. intros v _. symmetry. by apply placed_in_parts.
Qed.

(** A state that differs from a consistent one only in what the
    invariants do not read, and in parts shown right, is consistent. *)
Lemma consistent_rebuild (A A' : gset N) (st st' : BlockState) :
  consistent A st -> static_part st' = static_part st ->
  Forall (fun v => (blk st' v < B st)%N) (vertices st) ->
  (forall v, v ∈ A' -> (v < num_vertices (g st))%N) ->
  counts_ok A' st' -> pools_ok st' -> mrp_ok st' ->
  consistent A' st'.
Proof.
  intros [Hg Hv Ht Hb Ha Hc Hp Hsh Hm] Hs Hb' Ha' Hc' Hp' Hm'.
  split; try done.
  - by rewrite (static_g _ _ Hs).
  - rewrite (vertices_parts _ _ Hs). eapply Forall_impl; [exact Hv|].
    intros v Hv'. by rewrite (static_vweight _ _ _ Hs).
  - by rewrite (total_vweight_parts _ _ Hs).
  - by rewrite (vertices_parts _ _ Hs), (static_B _ _ Hs).
  - by rewrite (static_g _ _ Hs).
  - by rewrite (static_shared _ _ Hs), (static_g _ _ Hs).
Qed.

Lemma consistent_parts (A : gset N) (st st' : BlockState) :
  consistent A st -> static_part st' = static_part st ->
  weight_part st' = weight_part st -> edge_part st' = edge_part st -> b st' = b st ->
  consistent A st'.
Proof.
  intros Hc Hs Hw He Hb. pose proof Hc as [Hg Hv Ht Hbl Ha Hcn Hp Hsh Hm].
  eapply consistent_rebuild; eauto.
  - unfold blk. by rewrite Hb.
  - by apply (counts_ok_parts A st).
  - apply (pools_ok_parts st); [by apply static_B|done|done].
  - by apply (mrp_ok_parts st).
Qed.

(** ** The edge bookkeeping of [modify_vertex] *)

Lemma apply_entry_mrp (Add : bool) (e : N * N * Z) (st : BlockState) :
  mrm_is_mrp st = negb (directed (g st)) -> (e.1.1 < B st)%N -> (e.1.2 < B st)%N ->
  mrp_ok st -> mrp_ok (apply_entry Add e st).
Proof.
  destruct e as [[r s] d]. simpl. intros Hsh Hr Hs Hok. unfold apply_entry.
  destruct (d =? 0); [done|].
  pose proof (mrp_ok_bump r s d st Hsh Hr Hs Hok) as H.
  destruct (negb Add); [by apply mrp_ok_drop_if_zero|done].
Qed.

Lemma apply_entries_mrp (Add : bool) (l : list (N * N * Z)) (st : BlockState) :
  mrm_is_mrp st = negb (directed (g st)) ->
  Forall (fun e : N * N * Z => (e.1.1 < B st)%N /\ (e.1.2 < B st)%N) l ->
  mrp_ok st -> mrp_ok (foldl (fun s e => apply_entry Add e s) st l).
Proof.
  revert st. induction l as [|e l IH]; intros st Hsh Hl Hok; simpl; [done|].
  apply Forall_cons in Hl as [[He1 He2] Hl].
  destruct (apply_entry_frame Add e st) as (Hs & _).
  apply IH.
  - by rewrite (static_shared _ _ Hs), (static_g _ _ Hs).
  - by rewrite (static_B _ _ Hs).
  - by apply apply_entry_mrp.
Qed.

Lemma neighbour_blocks (A : gset N) (st : BlockState) (v : N) :
  consistent A st ->
  (forall e, e ∈ out_edges_range v (g st) -> (blk st (target e) < B st)%N) /\
  (forall e, e ∈ in_edges_range v (g st) -> (blk st (source e) < B st)%N).
Proof.
  intros [Hg _ _ Hb _ _ _ _ _]. rewrite Forall_forall in Hb.
  split; intros e He; apply Hb, elem_of_vertices.
  - by apply (out_edges_range_ok v).
  - by apply (in_edges_range_ok v).
Qed.

(** After the entries of a move are applied, the state is as consistent as
    it was: the edge bookkeeping does not touch the weights. *)
Lemma apply_move_entries_consistent (A : gset N) (st : BlockState) (Add : bool)
    (v r nr : N) (efilt : N -> bool) :
  consistent A st -> (r ≠ null_group -> (r < B st)%N) -> (nr ≠ null_group -> (nr < B st)%N) ->
  let st1 := get_move_entries v r nr efilt st in
  let st2 := foldl (fun s e => apply_entry Add e s) st1 (entries (m_entries st1)) in
  consistent A st2 /\ static_part st2 = static_part st /\ weight_part st2 = weight_part st
  /\ b st2 = b st /\ bclabel st2 = bclabel st /\ coupled_state st2 = coupled_state st.
Proof.
  intros Hc Hr Hnr st1 st2.
  destruct (neighbour_blocks A st v Hc) as [Hout Hin].
  destruct (apply_entries_frame Add (entries (m_entries st1)) st1) as (Hs & Hw & Hb & Hl & Hcs).
  fold st2 in Hs, Hw, Hb, Hl, Hcs.
  destruct (get_move_entries_frame v r nr efilt st) as (Hs1 & Hw1 & He1 & Hb1 & Hl1 & Hcs1).
  fold st1 in Hs1, Hw1, He1, Hb1, Hl1, Hcs1.
  split; [|repeat split; congruence].
  pose proof Hc as [Hg Hv Ht Hbl Ha Hcn Hp Hsh Hm].
  apply (consistent_rebuild A A st st2 Hc).
  - congruence.
  - eapply Forall_impl; [exact Hbl|]. intros u Hu.
    by rewrite (blk_parts _ _ u Hb), (blk_parts _ _ u Hb1).
  - exact Ha.
  - apply (counts_ok_parts A st); congruence.
  - apply (pools_ok_parts st); [apply static_B; congruence|congruence|done].
  - apply apply_entries_mrp.
    + by rewrite (static_shared _ _ Hs1), (static_g _ _ Hs1).
    + rewrite (static_B _ _ Hs1).
      apply (move_entries_in (fun x => (x < B st)%N)); auto.
    + apply (mrp_ok_parts st); [done|done|done].
Qed.

(** ** The two elementary mutations *)

Lemma remove_vertex_filt_consistent (A : gset N) (st : BlockState) (v : N)
    (efilt : N -> bool) :
  consistent A st -> (v < num_vertices (g st))%N -> v ∉ A ->
  let st' := remove_vertex_filt v (blk st v) efilt st in
  consistent (A ∪ {[v]}) st' /\ static_part st' = static_part st /\ b st' = b st
  /\ bclabel st' = bclabel st /\ coupled_state st' = coupled_state st.
Proof.
  intros Hc Hv HA. unfold remove_vertex_filt, modify_vertex. cbv zeta.
  assert (Hin : v ∈ vertices st) by (by apply elem_of_vertices).
  assert (Hr : (blk st v < B st)%N).
  { destruct Hc as [_ _ _ Hb _ _ _ _ _]. rewrite Forall_forall in Hb. auto. }
  destruct (apply_move_entries_consistent A st false v (blk st v) null_group efilt Hc)
    as (Hc2 & Hs2 & Hw2 & Hb2 & Hl2 & Hcs2); [done|done|].
  set (st2 := foldl _ _ _) in *.
  destruct (remove_partition_node_frame v (blk st v) st2) as (Hs & He & Hb & Hl & Hcs).
  split; [|repeat split; congruence].
  pose proof Hc2 as [Hg Hvw Ht Hbl Ha Hcn Hp Hsh Hm].
  destruct (remove_partition_node_counts A st2 v (blk st v)) as [Hcn' Hp'];
    try done; try (by rewrite (vertices_parts _ _ Hs2)); try (by apply blk_parts);
    try (by rewrite (static_B _ _ Hs2)).
  apply (consistent_rebuild A (A ∪ {[v]}) st2 _ Hc2).
  - exact Hs.
  - eapply Forall_impl; [exact Hbl|]. intros u Hu. by rewrite (blk_parts _ _ u Hb).
  - intros u Hu. rewrite (static_g _ _ Hs2).
    apply elem_of_union in Hu as [Hu|Hu]; [|apply elem_of_singleton in Hu as ->; done].
    apply (cs_absent A st Hc u Hu).
  - exact Hcn'.
  - exact Hp'.
  - by apply (mrp_ok_parts st2).
Qed.

Lemma add_vertex_filt_consistent (A : gset N) (st : BlockState) (v r : N)
    (efilt : N -> bool) :
  consistent A st -> v ∈ A -> (r < B st)%N ->
  let st' := add_vertex_filt v r efilt st in
  consistent (A ∖ {[v]}) st' /\ static_part st' = static_part st
  /\ (forall u, blk st' u = if decide (v = u) then r else blk st u)
  /\ bclabel st' = bclabel st /\ coupled_state st' = coupled_state st.
Proof.
  intros Hc HA Hr. unfold add_vertex_filt, modify_vertex. cbv zeta.
  assert (Hv : (v < num_vertices (g st))%N) by (by apply (cs_absent A st Hc)).
  assert (Hin : v ∈ vertices st) by (by apply elem_of_vertices).
  destruct (apply_move_entries_consistent A st true v null_group r efilt Hc)
    as (Hc2 & Hs2 & Hw2 & Hb2 & Hl2 & Hcs2); [done|done|].
  set (st2 := foldl _ _ _) in *.
  set (st3 := with_b (pset (b st2) v (Z.of_N r)) st2).
  destruct (add_partition_node_frame v r st3) as (Hs & He & Hb & Hl & Hcs).
  pose proof Hc2 as [Hg Hvw Ht Hbl Ha Hcn Hp Hsh Hm].
  pose proof Hp as HB. unfold pools_ok, weight_part in HB. apply pi_B in HB.
  rewrite (static_B _ _ Hs2) in HB.
  assert (Hblk : forall u, blk (add_partition_node v r st3) u
                           = if decide (v = u) then r else blk st u).
  { intros u. unfold blk at 1. rewrite Hb. fold (blk st3 u). unfold st3.
    rewrite blk_with_b by lia. destruct (decide (v = u)); [done|].
    unfold blk. by rewrite Hb2. }
  assert (Hs3 : static_part st3 = static_part st2) by done.
  assert (Hl3 : bclabel st3 = bclabel st2) by done.
  assert (Hcs3 : coupled_state st3 = coupled_state st2) by done.
  assert (He3 : edge_part st3 = edge_part st2) by done.
  split; [|repeat split; try done; congruence].
  destruct (add_partition_node_counts A st2 v r) as [Hcn' Hp'];
    try done; try (by rewrite (vertices_parts _ _ Hs2));
    try (by rewrite (static_B _ _ Hs2)).
  fold st3 in Hcn', Hp'.
  apply (consistent_rebuild A (A ∖ {[v]}) st2 _ Hc2).
  - congruence.
  - apply Forall_forall. intros u Hu. rewrite Hblk.
    destruct (decide (v = u)); [by rewrite (static_B _ _ Hs2)|].
    rewrite (static_B _ _ Hs2).
    rewrite (vertices_parts _ _ Hs2) in Hu.
    pose proof (cs_blk A st Hc) as Hbl0. rewrite Forall_forall in Hbl0. auto.
  - intros u Hu. apply elem_of_difference in Hu as [Hu _]. auto.
  - exact Hcn'.
  - exact Hp'.
  - apply (mrp_ok_parts st2); [congruence|congruence|done].
Qed.

End Consistency.

Section Moves.
Context `{Ext : Externals}.

(** ** [move_vertex] *)

Lemma on_coupled_frame (m : BlockState -> outcome BlockState unit) (st : BlockState) :
  let st' := final_state (on_coupled m st) in
  static_part st' = static_part st /\ weight_part st' = weight_part st /\
  edge_part st' = edge_part st /\ b st' = b st /\ bclabel st' = bclabel st.
Proof.
  unfold on_coupled. destruct (coupled_state st) as [c|]; [|done].
  by destruct (m c).
Qed.

Lemma propagate_move_frame (v r nr : N) (st : BlockState) :
  let st' := final_state (propagate_move v r nr st) in
  static_part st' = static_part st /\ weight_part st' = weight_part st /\
  edge_part st' = edge_part st /\ b st' = b st.
Proof.
  unfold propagate_move.
  destruct (coupled_state st) as [c|]; [|done].
  destruct (0 <? vweight st v); [|done].
  unfold bind, ret, modify.
  set (m1 := if pget (wr st) r =? 0 then _ else _).
  assert (H1 : let st1 := final_state (m1 st) in
               static_part st1 = static_part st /\ weight_part st1 = weight_part st /\
               edge_part st1 = edge_part st /\ b st1 = b st /\ bclabel st1 = bclabel st).
  { subst m1. destruct (pget (wr st) r =? 0); [apply on_coupled_frame|done]. }
  destruct (m1 st) as [[] st1|e st1]; simpl in H1; [|tauto].
  destruct H1 as (Hs1 & Hw1 & He1 & Hb1 & Hl1).
  destruct (pget (wr st) nr =? vweight st v); [|simpl; tauto].
  pose proof (on_coupled_frame
                (coupled_occupy nr (size_t_of_int (pget (bclabel st) r)) (pget (bclabel st) r))
                st1) as H2.
  destruct (on_coupled _ st1) as [[] st2|e st2]; simpl in H2 |- *;
    destruct H2 as (Hs2 & Hw2 & He2 & Hb2 & Hl2);
    unfold static_part, weight_part, edge_part in *; simpl;
    repeat split; congruence.
Qed.

Lemma move_vertex_consistent (A : gset N) (st : BlockState) (v nr : N) :
  consistent A st -> (v < num_vertices (g st))%N -> v ∉ A -> (nr < B st)%N ->
  let st' := final_state (move_vertex v (blk st v) nr st) in
  consistent A st' /\ static_part st' = static_part st.
Proof.
  intros Hc Hv HA Hnr. unfold move_vertex.
  destruct (N.eqb (blk st v) nr); [done|].
  destruct (negb (allow_move st (blk st v) nr true)); [done|].
  destruct (remove_vertex_filt_consistent A st v (fun _ => false) Hc Hv HA)
    as (Hc1 & Hs1 & Hb1 & _).
  fold (remove_vertex v (blk st v)) in Hc1, Hs1, Hb1.
  set (st1 := remove_vertex v (blk st v) st) in *.
  destruct (add_vertex_filt_consistent (A ∪ {[v]}) st1 v nr (fun _ => false) Hc1)
    as (Hc2 & Hs2 & _); [set_solver|by rewrite (static_B _ _ Hs1)|].
  fold (add_vertex v nr) in Hc2, Hs2.
  set (st2 := add_vertex v nr st1) in *.
  replace ((A ∪ {[v]}) ∖ {[v]}) with A in Hc2 by set_solver.
  destruct (propagate_move_frame v (blk st v) nr st2) as (Hs3 & Hw3 & He3 & Hb3).
  split; [|congruence].
  by apply (consistent_parts A st2).
Qed.

Lemma move_vertices_consistent (A : gset N) (vs nrs : list N) (st : BlockState) :
  consistent A st ->
  Forall (fun v => (v < num_vertices (g st))%N ∧ v ∉ A) vs ->
  Forall (fun r => (r < B st)%N) nrs ->
  let st' := final_state (move_vertices vs nrs st) in
  consistent A st' /\ static_part st' = static_part st.
Proof.
  revert nrs st. induction vs as [|v vs IH]; intros nrs st Hc Hvs Hnrs; [done|].
  destruct nrs as [|nr nrs]; [done|].
  apply Forall_cons in Hvs as [[Hv HA] Hvs], Hnrs as [Hnr Hnrs].
  simpl. unfold bind, move_vertex_from_b. fold (blk st v).
  destruct (move_vertex_consistent A st v nr Hc Hv HA Hnr) as [Hc1 Hs1].
  destruct (move_vertex v (blk st v) nr st) as [[] st1|e st1]; simpl in *; [|done].
  destruct (IH nrs st1 Hc1) as [Hc2 Hs2].
  - eapply Forall_impl; [exact Hvs|]. intros u. by rewrite (static_g _ _ Hs1).
  - eapply Forall_impl; [exact Hnrs|]. intros u. by rewrite (static_B _ _ Hs1).
  - split; [done|congruence].
Qed.

End Moves.

(** ** Batches *)

Lemma batch_edges_ok (gr : Graph) (vs : list N) :
  graph_ok gr -> Forall (edge_ok gr) (batch_edges gr vs).
Proof.
  intros Hg. unfold batch_edges.
  apply (foldl_invariant (Forall (edge_ok gr))); [|constructor].
  intros es v _ Hes.
  apply (foldl_invariant (Forall (edge_ok gr))); [|done].
  intros es' e He Hes'.
  destruct (bool_decide _); [|done].
  unfold eset_insert. destruct (edge_in es' (eidx e)); [done|].
  apply Forall_app. split; [done|]. constructor; [|constructor].
  unfold all_edges_range in He. apply elem_of_app in He as [He|He].
  - by apply (out_edges_range_ok v).
  - by apply (in_edges_range_ok v).
Qed.

Lemma overwrite_keys (v r : N) (acc : list (N * N)) :
  (map (fun p : N * N => if N.eqb p.1 v then (v, r) else p) acc).*1 = acc.*1.
Proof.
  induction acc as [|[a c] acc IH]; [done|].
  rewrite map_cons, !fmap_cons, IH. f_equal.
  simpl. by destruct (N.eqb_spec a v) as [->|].
Qed.

Lemma vset_of_spec (vs rs : list N) (acc : list (N * N)) (P : N -> Prop) :
  length vs = length rs -> NoDup acc.*1 -> Forall (fun p : N * N => P p.2) acc ->
  Forall P rs ->
  let vset := vset_of vs rs acc in
  NoDup vset.*1 /\ Forall (fun p : N * N => P p.2) vset /\
  (forall v, v ∈ vset.*1 <-> v ∈ acc.*1 \/ v ∈ vs).
Proof.
  revert rs acc. induction vs as [|v vs IH]; intros rs acc Hlen Hnd Hacc Hrs.
  - destruct rs; [|done]. simpl. repeat split; try done; set_solver.
  - destruct rs as [|r rs]; [done|]. simpl in Hlen. injection Hlen as Hlen.
    apply Forall_cons in Hrs as [Hr Hrs]. simpl.
    set (acc' := if bool_decide (v ∈ acc.*1) then _ else _).
    assert (Hkeys : acc'.*1 = if bool_decide (v ∈ acc.*1) then acc.*1 else acc.*1 ++ [v]).
    { subst acc'. case_bool_decide; [apply overwrite_keys|by rewrite fmap_app]. }
    destruct (IH rs acc' Hlen) as (H1 & H2 & H3); try done.
    + rewrite Hkeys. case_bool_decide; [done|].
      apply NoDup_app. repeat split; [done| |apply NoDup_singleton].
      intros x Hx Hx'. apply list_elem_of_singleton in Hx'. by subst.
    + subst acc'. case_bool_decide.
      * apply Forall_fmap. eapply Forall_impl; [exact Hacc|].
        intros [a c] Hp. simpl. by destruct (N.eqb a v).
      * apply Forall_app. split; [done|]. by repeat constructor.
    + repeat split; try done.
      * intros Hv. apply H3 in Hv. rewrite Hkeys in Hv.
        case_bool_decide; set_solver.
      * intros Hv. apply H3. rewrite Hkeys. case_bool_decide; set_solver.
Qed.

Lemma vset_find_spec (vset : list (N * N)) (P : N -> Prop) (u : N) :
  Forall (fun p : N * N => P p.2) vset -> P 0%N -> P (vset_find vset u).
Proof.
  intros Hv H0. unfold vset_find.
  destruct (find _ vset) as [p|] eqn:Hf; [|done].
  apply find_some in Hf as [Hin _]. rewrite <- list_elem_of_In in Hin.
  rewrite Forall_forall in Hv. auto.
Qed.

Section Batches.
Context `{Ext : Externals}.

Lemma batch_edge_consistent (A : gset N) (st : BlockState) (r s : N) (d : Z) :
  consistent A st -> (r < B st)%N -> (s < B st)%N ->
  let st1 := bump_totals r s d (bump_mrs (edge_key (directed (g st)) r s) d st) in
  forall st', (st' = st1 \/ st' = drop_if_zero (edge_key (directed (g st)) r s) st1) ->
  consistent A st' /\ static_part st' = static_part st /\ b st' = b st.
Proof.
  intros Hc Hr Hs st1 st' Hst'.
  pose proof Hc as [Hg Hv Ht Hbl Ha Hcn Hp Hsh Hm].
  assert (Hm1 : mrp_ok st1) by (by apply mrp_ok_bump).
  assert (Hf1 : static_part st1 = static_part st /\ weight_part st1 = weight_part st
                /\ b st1 = b st).
  { subst st1. unfold bump_totals, set_mrm, bump_mrs. simpl. by destruct (mrm_is_mrp st). }
  destruct Hf1 as (Hs1 & Hw1 & Hb1).
  assert (Hf : static_part st' = static_part st1 /\ weight_part st' = weight_part st1
               /\ b st' = b st1 /\ mrp_ok st').
  { destruct Hst' as [->| ->]; [done|].
    unfold drop_if_zero. destruct (_ =? 0) eqn:Hz; [|done].
    repeat split; try done.
    apply (mrp_ok_drop_if_zero (edge_key (directed (g st)) r s)) in Hm1.
    unfold drop_if_zero in Hm1. by rewrite Hz in Hm1. }
  destruct Hf as (Hs' & Hw' & Hb' & Hm').
  split; [|split; congruence].
  apply (consistent_rebuild A A st st' Hc).
  - congruence.
  - eapply Forall_impl; [exact Hbl|]. intros u Hu.
    by rewrite (blk_parts _ _ u Hb'), (blk_parts _ _ u Hb1).
  - exact Ha.
  - apply (counts_ok_parts A st); congruence.
  - apply (pools_ok_parts st); [apply static_B; congruence|congruence|done].
  - exact Hm'.
Qed.

Lemma remove_batch_edge_consistent (A : gset N) (st : BlockState) (e : edge_t) :
  consistent A st -> edge_ok (g st) e ->
  let st' := remove_batch_edge e st in
  consistent A st' /\ static_part st' = static_part st /\ b st' = b st.
Proof.
  intros Hc [He1 He2]. unfold remove_batch_edge. cbv zeta.
  pose proof (cs_blk A st Hc) as Hbl. rewrite Forall_forall in Hbl.
  assert (H1 : (blk st (source e) < B st)%N) by (apply Hbl; by apply elem_of_vertices).
  assert (H2 : (blk st (target e) < B st)%N) by (apply Hbl; by apply elem_of_vertices).
  exact (batch_edge_consistent A st (blk st (source e)) (blk st (target e))
           (- eweight st (eidx e)) Hc H1 H2 _ (or_intror eq_refl)).
Qed.

Lemma add_batch_edge_consistent (A : gset N) (st : BlockState) (vset : list (N * N))
    (e : edge_t) :
  consistent A st -> (forall u, (vset_find vset u < B st)%N) ->
  let st' := add_batch_edge vset e st in
  consistent A st' /\ static_part st' = static_part st /\ b st' = b st.
Proof.
  intros Hc Hf. unfold add_batch_edge. cbv zeta.
  exact (batch_edge_consistent A st (vset_find vset (source e)) (vset_find vset (target e))
           (eweight st (eidx e)) Hc (Hf _) (Hf _) _ (or_introl eq_refl)).
Qed.

Lemma remove_fold_consistent (efilt : N -> bool) (l : list N) (A : gset N) (st : BlockState) :
  NoDup l -> Forall (fun v => (v < num_vertices (g st))%N ∧ v ∉ A) l -> consistent A st ->
  let st' := foldl (fun s v => remove_vertex_filt v (size_t_of_int (pget (b s) v)) efilt s)
                   st l in
  consistent (A ∪ list_to_set l) st' /\ static_part st' = static_part st.
Proof.
  revert A st. induction l as [|v l IH]; intros A st Hnd Hl Hc; simpl.
  - split; [|done]. by replace (A ∪ ∅) with A by set_solver.
  - apply NoDup_cons in Hnd as [Hni Hnd]. apply Forall_cons in Hl as [[Hv HA] Hl].
    destruct (remove_vertex_filt_consistent A st v efilt Hc Hv HA) as (Hc1 & Hs1 & _).
    fold (blk st v).
    destruct (IH (A ∪ {[v]}) (remove_vertex_filt v (blk st v) efilt st) Hnd)
      as [Hc2 Hs2]; [|exact Hc1|].
    + rewrite Forall_forall in Hl |- *. intros u Hu. destruct (Hl u Hu) as [Hu1 Hu2].
      rewrite (static_g _ _ Hs1). split; [done|]. set_solver.
    + split; [|congruence].
      by replace (A ∪ ({[v]} ∪ list_to_set l)) with (A ∪ {[v]} ∪ list_to_set l)
        by set_solver.
Qed.

Lemma batch_fold_consistent (A : gset N) (f : edge_t -> BlockState -> BlockState)
    (Q : BlockState -> Prop) (l : list edge_t) (st : BlockState) :
  (forall st0 e, consistent A st0 -> Q st0 -> e ∈ l -> static_part st0 = static_part st ->
     consistent A (f e st0) /\ static_part (f e st0) = static_part st0 /\ Q (f e st0)) ->
  consistent A st -> Q st ->
  let st' := foldl (fun s e => f e s) st l in
  consistent A st' /\ static_part st' = static_part st.
Proof.
  intros Hf Hc HQ.
  cut (let st' := foldl (fun s e => f e s) st l in
       consistent A st' /\ static_part st' = static_part st /\ Q st'); [simpl; tauto|].
  apply (foldl_invariant
           (fun s => consistent A s /\ static_part s = static_part st /\ Q s)); [|done].
  intros s e He (Hc1 & Hs1 & HQ1).
  destruct (Hf s e Hc1 HQ1 He Hs1) as (? & ? & ?). split; [done|split; [congruence|done]].
Qed.

Lemma remove_vertices_consistent (A : gset N) (vs : list N) (st : BlockState) :
  consistent A st -> Forall (fun v => (v < num_vertices (g st))%N ∧ v ∉ A) vs ->
  consistent (A ∪ list_to_set vs) (remove_vertices vs st).
Proof.
  intros Hc Hvs. unfold remove_vertices. cbv zeta.
  destruct (remove_fold_consistent (edge_in (batch_edges (g st) (remove_dups vs)))
              (remove_dups vs) A st) as [Hc1 Hs1]; [apply NoDup_remove_dups| |done|].
  { rewrite Forall_forall in Hvs |- *. intros u Hu. apply Hvs.
    by apply elem_of_remove_dups. }
  replace (list_to_set (remove_dups vs) : gset N) with (list_to_set vs : gset N) in Hc1.
  2:{ apply set_eq. intros x. rewrite !elem_of_list_to_set.
      by rewrite elem_of_remove_dups. }
  apply (batch_fold_consistent (A ∪ list_to_set vs) remove_batch_edge (fun _ => True)); try done.
  intros st0 e Hc0 _ He Hs0.
  destruct (remove_batch_edge_consistent (A ∪ list_to_set vs) st0 e Hc0) as (? & ? & ?);
    [|done].
  pose proof (batch_edges_ok (g st) (remove_dups vs) (cs_graph A st Hc)) as Hok.
  rewrite Forall_forall in Hok. unfold edge_ok in *.
  rewrite (static_g _ _ Hs0), (static_g _ _ Hs1). auto.
Qed.

Lemma add_fold_consistent (efilt : N -> bool) (l : list (N * N)) (A : gset N)
    (st : BlockState) :
  NoDup l.*1 -> Forall (fun p : N * N => p.1 ∈ A /\ (p.2 < B st)%N) l -> consistent A st ->
  let st' := foldl (fun s vr => add_vertex_filt vr.1 vr.2 efilt s) st l in
  consistent (A ∖ list_to_set l.*1) st' /\ static_part st' = static_part st.
Proof.
  revert A st. induction l as [|[v r] l IH]; intros A st Hnd Hl Hc.
  - simpl. split; [|done]. by replace (A ∖ ∅) with A by set_solver.
  - rewrite fmap_cons in Hnd. cbn [foldl fst snd].
    apply NoDup_cons in Hnd as [Hni Hnd]. apply Forall_cons in Hl as [[HA Hr] Hl].
    simpl in HA, Hr.
    destruct (add_vertex_filt_consistent A st v r efilt Hc HA Hr) as (Hc1 & Hs1 & _).
    destruct (IH (A ∖ {[v]}) (add_vertex_filt v r efilt st) Hnd) as [Hc2 Hs2];
      [|exact Hc1|].
    + rewrite Forall_forall in Hl |- *. intros p Hp. destruct (Hl p Hp) as [Hp1 Hp2].
      rewrite (static_B _ _ Hs1). split; [|done].
      apply elem_of_difference. split; [done|]. intros Heq%elem_of_singleton.
      apply Hni. rewrite <- Heq. apply list_elem_of_fmap. by exists p.
    + assert (Heq : A ∖ list_to_set ((v, r) :: l).*1 = A ∖ {[v]} ∖ list_to_set l.*1)
        by set_solver.
      split; [|congruence]. by rewrite Heq.
Qed.

Lemma add_vertices_consistent (A : gset N) (vs rs : list N) (st : BlockState) :
  consistent A st -> length vs = length rs ->
  Forall (fun v => v ∈ A) vs -> Forall (fun r => (r < B st)%N) rs ->
  consistent (A ∖ list_to_set vs) (final_state (add_vertices vs rs st)).
Proof.
  intros Hc Hlen Hvs Hrs. unfold add_vertices.
  rewrite (proj2 (Nat.eqb_eq _ _) Hlen). simpl.
  destruct (vset_of_spec vs rs [] (fun r => (r < B st)%N) Hlen) as (Hnd & Hval & Hkeys);
    [constructor|constructor|done|].
  set (vset := vset_of vs rs []) in *.
  assert (Hset : (list_to_set vset.*1 : gset N) = list_to_set vs).
  { apply set_eq. intros x. rewrite !elem_of_list_to_set, Hkeys. set_solver. }
  destruct (add_fold_consistent (edge_in (batch_edges (g st) vset.*1)) vset A st Hnd)
    as [Hc1 Hs1]; [|done|].
  { rewrite Forall_forall in Hval. rewrite Forall_forall in Hvs.
    rewrite Forall_forall. intros p Hp. split; [|auto].
    apply Hvs. assert (p.1 ∈ vset.*1) as Hin by (apply list_elem_of_fmap; by exists p).
    apply Hkeys in Hin. set_solver. }
  rewrite Hset in Hc1.
  destruct (batch_edges (g st) vset.*1) as [|e0 es] eqn:Hes; [done|].
  assert (HB : (0 < B st)%N).
  { destruct vset as [|p vset']; [by cbv in Hes|].
    apply Forall_cons in Hval as [Hp _]. lia. }
  apply (batch_fold_consistent (A ∖ list_to_set vs) (add_batch_edge vset) (fun _ => True));
    try done.
  intros st0 e Hc0 _ He Hs0.
  destruct (add_batch_edge_consistent (A ∖ list_to_set vs) st0 vset e Hc0) as (? & ? & ?);
    [|done].
  intros u. rewrite (static_B _ _ Hs0), (static_B _ _ Hs1).
  by apply (vset_find_spec vset (fun r => (r < B st)%N)).
Qed.

(** ** Every step keeps the state consistent *)

Lemma step_consistent (A A' : gset N) (st st' : BlockState) :
  consistent A st -> step A st A' st' -> consistent A' st'.
Proof.
  intros Hc Hstep. destruct Hstep.
  - by apply remove_vertex_filt_consistent.
  - by apply add_vertex_filt_consistent.
  - by apply move_vertex_consistent.
  - by apply remove_vertices_consistent.
  - by apply add_vertices_consistent.
  - by apply move_vertices_consistent.
Qed.

Lemma reachable_consistent (A0 A : gset N) (st0 st : BlockState) :
  consistent A0 st0 -> reachable A0 st0 A st -> consistent A st.
Proof.
  intros Hc Hr. induction Hr as [|A A' st st' _ IH Hstep]; [done|].
  eapply step_consistent; eauto.
Qed.

End Batches.

(** ** The pools the constructor builds *)

Lemma pools_inv_start (w : gmap N Z) (epos cpos : gmap N Z) :
  pools_inv 0 w ([], epos) ([null_group], cpos).
Proof.
  split; simpl.
  - done.
  - intros r Hr. lia.
  - done.
  - apply NoDup_singleton.
  - constructor.
  - intros i x Hi Hx. destruct i; [lia|done].
  - intros i x _ Hx. done.
  - done.
  - intros r. split; [by intros ?%elem_of_nil|lia].
  - intros r. rewrite list_elem_of_singleton. split; [auto|]. intros [?|[? _]]; [done|lia].
Qed.

Lemma pools_inv_grow (k : N) (w : gmap N Z) (ep cp : list N * gmap N Z) :
  Z.of_N k + 1 < 2 ^ 31 -> 0 <= pget w k < 2 ^ 31 ->
  pools_inv k w ep cp ->
  pools_inv (N.succ k) w
    (if pget w k =? 0 then add_element ep k else ep)
    (if pget w k =? 0 then cp else add_element cp k).
Proof.
  intros Hk Hw [HB Hwr Hhd Hcn Hen Hcp Hep Hlen Hem Hca].
  assert (Hnull : k ≠ null_group) by (unfold null_group; lia).
  assert (Hke : k ∉ ep.1) by (rewrite Hem; lia).
  assert (Hkc : k ∉ cp.1) by (rewrite Hca; intros [?|[? _]]; [done|lia]).
  destruct ep as [ev epos], cp as [cv cpos]. simpl in *.
  destruct (Z.eqb_spec (pget w k) 0) as [Hz|Hz].
  - split.
    + lia.
    + intros r Hr. destruct (decide (r = k)) as [->|]; [done|]. apply Hwr. lia.
    + done.
    + done.
    + by apply add_element_NoDup.
    + done.
    + apply add_element_pos; [lia|done|done].
    + rewrite add_element_length. simpl. lia.
    + intros r. rewrite add_element_elem, Hem. simpl.
      destruct (decide (r = k)) as [->|]; [intuition lia|]. intuition lia.
    + intros r. rewrite Hca. simpl.
      destruct (decide (r = k)) as [->|]; [intuition lia|]. intuition lia.
  - split.
    + lia.
    + intros r Hr. destruct (decide (r = k)) as [->|]; [done|]. apply Hwr. lia.
    + by apply add_element_head.
    + by apply add_element_NoDup.
    + done.
    + apply add_element_pos; [lia|done|done].
    + done.
    + rewrite add_element_length. simpl. lia.
    + intros r. rewrite Hem. simpl.
      destruct (decide (r = k)) as [->|]; [intuition lia|]. intuition lia.
    + intros r. rewrite add_element_elem, Hca. simpl.
      destruct (decide (r = k)) as [->|]; [intuition lia|]. intuition lia.
Qed.

Section Construction.
Context `{Ext : Externals}.

Lemma init_pools_ok (st : BlockState) :
  Z.of_N (B st) < 2 ^ 31 ->
  (forall r, (r < B st)%N -> 0 <= pget (wr st) r < 2 ^ 31) ->
  pools_ok (init_pools st)
  /\ static_part (init_pools st) = static_part st /\ wr (init_pools st) = wr st
  /\ edge_part (init_pools st) = edge_part st /\ b (init_pools st) = b st.
Proof.
  intros HB Hw. unfold init_pools. cbv zeta.
  set (st0 := with_candidate_blocks [null_group] (with_empty_blocks [] st)).
  set (step := fun (s : BlockState) (r : N) => if pget (wr s) r =? 0 then _ else _).
  assert (H : forall k : nat, (k <= N.to_nat (B st))%nat ->
            let s := foldl step st0 (block_range (N.of_nat k)) in
            pools_inv (N.of_nat k) (wr st) (empty_blocks s, empty_pos s)
                      (candidate_blocks s, candidate_pos s)
            /\ static_part s = static_part st /\ wr s = wr st
            /\ edge_part s = edge_part st /\ b s = b st).
  { induction k as [|k IH]; intros Hk.
    - simpl. split; [apply pools_inv_start|done].
    - rewrite block_range_succ, foldl_app. simpl.
      destruct IH as (Hp & Hs & Hwr & He & Hb); [lia|].
      set (s := foldl step st0 (block_range (N.of_nat k))) in *.
      pose proof (pools_inv_grow (N.of_nat k) (wr st) _ _ ltac:(lia)
                    (Hw (N.of_nat k) ltac:(lia)) Hp) as Hg.
      rewrite Nat2N.inj_succ. unfold step at 1 2 3 4 5 6 7 8. rewrite Hwr.
      destruct (pget (wr st) (N.of_nat k) =? 0); simpl; (split; [exact Hg|done]). }
  specialize (H (N.to_nat (B st)) (le_n _)). rewrite N2Nat.id in H. cbv zeta in H.
  destruct H as (Hp & Hs & Hwr & He & Hb).
  split; [|done].
  unfold pools_ok, weight_part. rewrite Hwr, (static_B _ _ Hs). exact Hp.
Qed.

(** ** The total block weight *)



End Construction.

(** ** The concrete state is consistent *)

Lemma blank_state_consistent : consistent all_vertices (init_pools blank_state).
Proof.
  destruct (init_pools_ok blank_state) as (Hp & Hs & Hw & He & Hb).
  { vm_compute. reflexivity. }
  { intros r _. vm_compute. split; [discriminate|reflexivity]. }
  split.
  - rewrite (static_g _ _ Hs). repeat constructor.
  - rewrite (vertices_parts _ _ Hs). repeat constructor; vm_compute; discriminate.
  - rewrite (total_vweight_parts _ _ Hs). vm_compute. reflexivity.
  - rewrite (vertices_parts _ _ Hs), (static_B _ _ Hs).
    repeat constructor; rewrite (blk_parts _ _ _ Hb); vm_compute; reflexivity.
  - intros v Hv. rewrite (static_g _ _ Hs). unfold all_vertices in Hv.
    rewrite elem_of_list_to_set in Hv. simpl.
    repeat (apply elem_of_cons in Hv as [->|Hv]; [lia|]). by apply elem_of_nil in Hv.
  - unfold counts_ok. rewrite (static_B _ _ Hs), Hw.
    repeat constructor; unfold placed_weight; rewrite (vertices_parts _ _ Hs);
      (erewrite sumZ_ext; [|intros v _; apply (placed_in_parts _ _ _ _ _ Hs Hb)]);
      vm_compute; reflexivity.
  - exact Hp.
  - by rewrite (static_shared _ _ Hs), (static_g _ _ Hs).
  - apply (mrp_ok_parts blank_state); [done|done|].
    repeat constructor.
Qed.

Lemma scenario_state_consistent : consistent ∅ scenario_state.
Proof.
  replace (∅ : gset N) with (all_vertices ∖ list_to_set [0; 1; 2; 3]%N) by set_solver.
  apply add_vertices_consistent.
  - apply blank_state_consistent.
  - reflexivity.
  - repeat constructor; set_solver.
  - destruct (init_pools_ok blank_state) as (_ & Hs & _).
    { vm_compute. reflexivity. }
    { intros r _. vm_compute. split; [discriminate|reflexivity]. }
    rewrite (static_B _ _ Hs). repeat constructor.
Qed.

Section PartitionInvariants.
Context `{Ext : Externals}.


(** C3. After every mutation operation ([add_vertex], [remove_vertex],
    [move_vertex] and their bulk variants) applied to a consistent state,
    the sentinel [null_group] stands at index 0 of [candidate_blocks], and
    every block [r] is in [empty_blocks] if and only if [wr[r] == 0] and in
    [candidate_blocks] if and only if [wr[r] > 0]. *)
Theorem pool_membership (A0 A : gset N) (st0 st : BlockState) :
  consistent A0 st0 -> reachable A0 st0 A st ->
  candidate_blocks st !! 0%nat = Some null_group
  /\ forall r, (r < B st)%N ->
       (r ∈ empty_blocks st <-> pget (wr st) r = 0)
       /\ (r ∈ candidate_blocks st <-> 0 < pget (wr st) r).
Proof.
  intros Hc0 Hr. pose proof (reachable_consistent A0 A st0 st Hc0 Hr) as Hc.
  pose proof (cs_pools A st Hc) as Hp. unfold pools_ok, weight_part in Hp.
  destruct Hp as [HB Hw Hhd _ _ _ _ _ Hem Hca]. simpl in *.
  split; [done|]. intros r Hlt. split.
  - rewrite Hem. tauto.
  - rewrite Hca. pose proof (null_group_not_block _ _ HB Hlt). tauto.
Qed.

End PartitionInvariants.

Lemma scenario_move_reachable :
  reachable ∅ scenario_state ∅ (final_state (move_vertex 1 0 1 scenario_state)).
Proof.
  eapply reach_step; [apply reach_init|].
  change 0%N with (blk scenario_state 1) at 1.
  apply step_move; [reflexivity|set_solver|reflexivity].
Qed.



Lemma pool_membership_witness :
  let st := final_state (move_vertex 1 0 1 scenario_state) in
  candidate_blocks st !! 0%nat = Some null_group
  /\ forall r, (r < B st)%N ->
       (r ∈ empty_blocks st <-> pget (wr st) r = 0)
       /\ (r ∈ candidate_blocks st <-> 0 < pget (wr st) r).
Proof.
  exact (pool_membership ∅ ∅ scenario_state _ scenario_state_consistent
           scenario_move_reachable).
Defined.

(** C6. On the path 0 - 1 - 2 - 3 with unit weights and the
    partition b = [0, 0, 1, 1], the bookkeeping of the four additions gives
    mrs[0,1] = 1, wr[0] = 2 and wr[1] = 2; [move_vertex(1, 0, 1)] succeeds
    and gives mrs[0,1] = 1 (the edge (1,2) has become internal to block 1 and
    the edge (0,1) now crosses), mrs[1,1] = 2 (up from 1), mrs[0,0] = 0,
    wr[0] = 1 and wr[1] = 3. *)
Theorem scenario_counters :
  get_beprop scenario_state 0 1 = 1
  /\ pget (wr scenario_state) 0 = 2 /\ pget (wr scenario_state) 1 = 2
  /\ get_beprop scenario_state 1 1 = 1
  /\ exists st', move_vertex 1 0 1 scenario_state = Ok tt st'
       /\ get_beprop st' 0 1 = 1 /\ get_beprop st' 1 1 = 2 /\ get_beprop st' 0 0 = 0
       /\ pget (wr st') 0 = 1 /\ pget (wr st') 1 = 3.
Proof.
  repeat split; try (vm_compute; reflexivity).
  eexists. split; [vm_compute; reflexivity|].
  repeat split; vm_compute; reflexivity.
Qed.

(** C6, as stated, fails: after the move the pair (0, 1) still counts one
    edge. *)
Lemma scenario_counters_counterexample :
  get_beprop (final_state (move_vertex 1 0 1 scenario_state)) 0 1 = 1
  /\ get_beprop (final_state (move_vertex 1 0 1 scenario_state)) 0 1 ≠ 0.
Proof. split; [vm_compute; reflexivity|vm_compute; discriminate]. Qed.

Section VirtualMoves.
Context `{Ext : Externals}.

(** ** Virtual moves *)

(** What [allow_move] decides, in terms of the labels and the weight of the
    target. *)
Lemma allow_move_forbidden (st : BlockState) (r nr : N) :
  pget (bclabel st) r ≠ pget (bclabel st) nr -> pget (wr st) nr ≠ 0 ->
  allow_move st r nr true = false.
Proof.
  intros Hl Hw. unfold allow_move. simpl.
  destruct (pget (wr st) nr =? 0) eqn:E; [lia|].
  destruct (pget (bclabel st) r =? pget (bclabel st) nr) eqn:E'; [lia|reflexivity].
Qed.

(** The dense evaluation leaves the state as it found it. *)
Lemma virtual_move_dense_state (v r nr : N) (mg : bool) (st : BlockState) :
  final_state (virtual_move_dense v r nr mg st) = st.
Proof.
  unfold virtual_move_dense. destruct (deg_corr st); [reflexivity|].
  destruct (N.eqb r nr); reflexivity.
Qed.

(** The local part of a virtual move writes the move entries and the
    partition statistics, nothing else. *)
Lemma virtual_move_local_frame (v r nr : N) (ea : entropy_args_t) (st : BlockState) :
  let st' := final_state (virtual_move_local v r nr ea st) in
  static_part st' = static_part st /\ weight_part st' = weight_part st /\
  edge_part st' = edge_part st /\ b st' = b st /\ bclabel st' = bclabel st /\
  coupled_state st' = coupled_state st /\
  coupled_entropy_args st' = coupled_entropy_args st.
Proof.
  assert (Hps : forall s : BlockState,
             let s' := enable_partition_stats s in
             static_part s' = static_part s /\ weight_part s' = weight_part s /\
             edge_part s' = edge_part s /\ b s' = b s /\ bclabel s' = bclabel s /\
             coupled_state s' = coupled_state s /\
             coupled_entropy_args s' = coupled_entropy_args s).
  { intros s. unfold enable_partition_stats. destruct (partition_stats s); done. }
  unfold virtual_move_local, bind, modify, ret.
  set (st0 := get_move_entries v r nr (fun _ => false) st).
  assert (H0 : static_part st0 = static_part st /\ weight_part st0 = weight_part st /\
               edge_part st0 = edge_part st /\ b st0 = b st /\ bclabel st0 = bclabel st /\
               coupled_state st0 = coupled_state st /\
               coupled_entropy_args st0 = coupled_entropy_args st) by done.
  clearbody st0.
  assert (Htail : forall dS : float,
            let st' := final_state
              ((if partition_dl ea || degree_dl ea || edges_dl ea
                then fun s : BlockState =>
                       (fun st1 : BlockState =>
                          let i := pget (pclabel st1) v in
                          match (if 0 <=? i then partition_stats st1 !! Z.to_nat i else None) with
                          | None => Ok dS st1
                          | Some ps =>
                              let dS1 := if partition_dl ea
                                         then (dS + ps_get_delta_partition_dl v r nr (vweight st1) ps)%float
                                         else dS in
                              let dS2 := if deg_corr st1 && degree_dl ea
                                         then (dS1 + ps_get_delta_deg_dl v r nr (vweight st1) (eweight st1) (degs st1)
                                                       (g st1) (degree_dl_kind ea) ps)%float
                                         else dS1 in
                              let dS3 := if edges_dl ea
                                         then
                                           let actual_B :=
                                             foldl (fun a q => wrap64 (Z.of_N a + Z.of_N (ps_get_actual_B q)))
                                                   0%N (partition_stats st1) in
                                           (dS2 + ps_get_delta_edges_dl v r nr (vweight st1) actual_B (g st1) ps)%float
                                         else dS2 in
                              Ok dS3 st1
                          end) (enable_partition_stats s)
                else fun s => Ok dS s) st0) in
            static_part st' = static_part st /\ weight_part st' = weight_part st /\
            edge_part st' = edge_part st /\ b st' = b st /\ bclabel st' = bclabel st /\
            coupled_state st' = coupled_state st /\
            coupled_entropy_args st' = coupled_entropy_args st).
  { intros dS. destruct (partition_dl ea || degree_dl ea || edges_dl ea); simpl; [|exact H0].
    destruct (Hps st0) as (? & ? & ? & ? & ? & ? & ?).
    destruct H0 as (? & ? & ? & ? & ? & ? & ?).
    destruct (if 0 <=? pget (pclabel (enable_partition_stats st0)) v
              then partition_stats (enable_partition_stats st0)
                   !! Z.to_nat (pget (pclabel (enable_partition_stats st0)) v)
              else None); simpl; repeat split; congruence. }
  destruct (adjacency ea).
  - destruct (dense ea).
    + pose proof (virtual_move_dense_state v r nr (multigraph ea) st0) as Hd.
      destruct (virtual_move_dense v r nr (multigraph ea) st0) as [dS s|e s];
        simpl in Hd; subst s.
      * apply Htail.
      * exact H0.
    + apply Htail.
  - apply Htail.
Qed.

Lemma call_coupled_parent (c st1 : BlockState) (a r1 r2 : N) (ea : entropy_args_t) :
  coupled_state st1 = Some c ->
  call_coupled (virtual_move_at (coupling_depth c) a r1 r2 ea) st1 =
  call_coupled (virtual_move a r1 r2 ea) st1.
Proof. intros H. unfold call_coupled, virtual_move. rewrite H. reflexivity. Qed.

Lemma virtual_move_at_eq (depth : nat) (v r nr : N) (ea : entropy_args_t) (st : BlockState) :
  virtual_move_at depth v r nr ea st =
  if N.eqb r nr then Ok 0%float st
  else if negb (N.eqb r null_group) && negb (N.eqb nr null_group)
          && negb (allow_move st r nr true)
  then Ok infinity st
  else
    (let! dS := virtual_move_local v r nr ea in
     virtual_move_coupled
       (match depth with
        | O => fun _ _ _ _ => ret 0%float
        | S d => virtual_move_at d
        end) v r nr dS) st.
Proof. destruct depth; reflexivity. Qed.

(** C1. [virtual_move(v, r, nr, ea)] returns 0 when [r == nr], and returns
    +infinity when [r] and [nr] are both real blocks, their labels differ
    and [nr] is not empty; in both cases the state is the one it was called
    on, move entries included. *)
Theorem virtual_move_early_returns (st : BlockState) (v r nr : N) (ea : entropy_args_t) :
  (r = nr -> virtual_move v r nr ea st = Ok 0%float st)
  /\ (r ≠ null_group -> nr ≠ null_group ->
      pget (bclabel st) r ≠ pget (bclabel st) nr -> pget (wr st) nr ≠ 0 ->
      virtual_move v r nr ea st = Ok infinity st).
Proof.
  unfold virtual_move. rewrite virtual_move_at_eq. split.
  - intros ->. rewrite N.eqb_refl. reflexivity.
  - intros Hr Hnr Hl Hw.
    assert (Hne : N.eqb r nr = false).
    { apply N.eqb_neq. intros ->. by apply Hl. }
    apply N.eqb_neq in Hr, Hnr.
    pose proof (allow_move_forbidden st r nr Hl Hw) as Ha.
    rewrite Hne, Hr, Hnr, Ha. reflexivity.
Qed.

(** C8. Under the degree-corrected model the dense virtual-move evaluation
    and the dense entropy throw [GraphException], whatever their arguments;
    so does [virtual_move] with a dense adjacency term, for distinct blocks
    between which the move is allowed. The state is left as it was, but for
    the move entries [virtual_move] had refilled. *)
Theorem dense_degree_corrected_throws (st : BlockState) (v r nr : N) (mg : bool)
    (ea : entropy_args_t) :
  deg_corr st = true ->
  let err := GraphException "Dense entropy for degree corrected model not implemented!" in
  virtual_move_dense v r nr mg st = Throw err st
  /\ dense_entropy mg st = Throw err st
  /\ (r ≠ nr -> allow_move st r nr true = true ->
      adjacency ea = true -> dense ea = true ->
      virtual_move v r nr ea st = Throw err (get_move_entries v r nr (fun _ => false) st)).
Proof.
  intros Hd err. split; [|split].
  - unfold virtual_move_dense. rewrite Hd. reflexivity.
  - unfold dense_entropy. rewrite Hd. reflexivity.
  - intros Hne Ha Hadj Hdense. apply N.eqb_neq in Hne.
    assert (Hl : virtual_move_local v r nr ea st =
                 Throw err (get_move_entries v r nr (fun _ => false) st)).
    { unfold virtual_move_local, bind, modify. rewrite Hadj, Hdense.
      unfold virtual_move_dense. simpl. rewrite Hd. reflexivity. }
    unfold virtual_move. rewrite virtual_move_at_eq, Hne, Ha, andb_false_r.
    unfold bind. rewrite Hl. reflexivity.
Qed.

(** C5. With a coupled state attached and [vweight[v] > 0], a
    virtual move that passes the two early tests adds to its local delta
    the parent-level delta of [r] when the move vacates [r] and does not
    occupy [nr], adds the parent-level delta of [nr] when it occupies [nr]
    and does not vacate [r], and adds nothing when both conditions hold or
    neither does. *)
Theorem coupled_virtual_move (st c st1 : BlockState) (v r nr : N) (ea : entropy_args_t)
    (dS : float) :
  coupled_state st = Some c -> 0 < vweight st v -> r ≠ nr ->
  r = null_group \/ nr = null_group \/ allow_move st r nr true = true ->
  virtual_move_local v r nr ea st = Ok dS st1 ->
  let lbl := size_t_of_int (pget (bclabel st) r) in
  let cea := coupled_entropy_args st in
  virtual_move v r nr ea st =
  match vacates st v r, occupies st nr with
  | true, false =>
      (let! d := call_coupled (virtual_move r lbl null_group cea) in ret (dS + d)%float) st1
  | false, true =>
      (let! d := call_coupled (virtual_move nr null_group lbl cea) in ret (dS + d)%float) st1
  | _, _ => Ok dS st1
  end.
Proof.
  intros Hc Hw Hne Hallow Hl lbl cea.
  pose proof (virtual_move_local_frame v r nr ea st) as Hf. rewrite Hl in Hf. simpl in Hf.
  destruct Hf as (Hst & Hwp & _ & _ & Hbl & Hcs & Hcea).
  assert (Hwr : wr st1 = wr st).
  { unfold weight_part in Hwp. injection Hwp as ? ? ? ? ?. assumption. }
  assert (Hvw : vweight st1 v = vweight st v) by (by apply static_vweight).
  assert (Hdistinct : N.eqb r nr = false) by (by apply N.eqb_neq).
  assert (Hallowed : negb (N.eqb r null_group) && negb (N.eqb nr null_group)
                   && negb (allow_move st r nr true) = false).
  { destruct Hallow as [-> | [-> | ->]].
    - rewrite N.eqb_refl. reflexivity.
    - rewrite N.eqb_refl. apply andb_false_iff. left. apply andb_false_r.
    - apply andb_false_r. }
  unfold virtual_move at 1.
  assert (Hd : coupling_depth st = S (coupling_depth c)).
  { destruct st. simpl in *. rewrite Hc. reflexivity. }
  rewrite Hd, virtual_move_at_eq, Hdistinct, Hallowed. unfold bind at 1. rewrite Hl.
  unfold virtual_move_coupled. rewrite Hcs, Hc, Hvw, Hwr, Hbl, Hcea.
  assert (Hw' : (0 <? vweight st v) = true) by (apply Z.ltb_lt; lia).
  rewrite Hw'. fold (vacates st v r). fold (occupies st nr). fold lbl. fold cea.
  rewrite Hc in Hcs.
  destruct (vacates st v r), (occupies st nr); simpl.
  - reflexivity.
  - unfold bind. rewrite (call_coupled_parent c st1 r lbl null_group cea Hcs).
    destruct (call_coupled (virtual_move r lbl null_group cea) st1); reflexivity.
  - unfold bind, ret. rewrite (call_coupled_parent c st1 nr null_group lbl cea Hcs).
    reflexivity.
  - reflexivity.
Qed.

End VirtualMoves.

(** ** Arithmetic of [size_t] *)

Lemma wrap64_of_N (z : Z) : Z.of_N (wrap64 z) = z mod 2 ^ 64.
Proof.
  unfold wrap64. rewrite Z2N.id; [reflexivity|].
  apply Z.mod_pos_bound. lia.
Qed.

Lemma wrap64_add (x y : Z) : wrap64 (Z.of_N (wrap64 x) + Z.of_N (wrap64 y)) = wrap64 (x + y).
Proof.
  unfold wrap64 at 1. rewrite !wrap64_of_N, <- Z.add_mod by lia. reflexivity.
Qed.

Lemma wrap64_small (z : Z) : 0 <= z < 2 ^ 64 -> wrap64 z = Z.to_N z.
Proof. intros H. unfold wrap64. by rewrite Z.mod_small. Qed.

Section BulkAndProposals.
Context `{Ext : Externals}.

(** ** Bulk operations *)

Lemma move_vertices_prefix (vs rs : list N) (st : BlockState) :
  let n := Nat.min (length vs) (length rs) in
  move_vertices vs rs st = move_vertices (take n vs) (take n rs) st.
Proof.
  revert rs st. induction vs as [|v vs IH]; intros [|r rs] st; simpl; try reflexivity.
  unfold bind. destruct (move_vertex_from_b v r st) as [[] st'|e st']; [|reflexivity].
  apply IH.
Qed.

(** C7. On lists of different lengths [add_vertices] and the
    array overload of [move_vertices] throw [ValueException] and leave the
    state alone; the template overload of [move_vertices] does what the
    array overload does on the common prefix of the two lists. *)
Theorem bulk_length_mismatch (st : BlockState) (vs rs : list N) :
  length vs ≠ length rs ->
  let err := ValueException "vertex and group lists do not have the same size" in
  let n := Nat.min (length vs) (length rs) in
  add_vertices vs rs st = Throw err st
  /\ move_vertices_py vs rs st = Throw err st
  /\ move_vertices vs rs st = move_vertices_py (take n vs) (take n rs) st.
Proof.
  intros Hlen err n. apply Nat.eqb_neq in Hlen. split; [|split].
  - unfold add_vertices. rewrite Hlen. reflexivity.
  - unfold move_vertices_py. rewrite Hlen. reflexivity.
  - unfold move_vertices_py.
    assert (Heq : Nat.eqb (length (take n vs)) (length (take n rs)) = true).
    { apply Nat.eqb_eq. rewrite !length_take. unfold n. lia. }
    rewrite Heq. apply move_vertices_prefix.
Qed.

(** ** Move proposals *)

Lemma sum_prob_weight (st : BlockState) (m : EntrySet) (v r s : N) (c : float)
    (reverse : bool) (Bn kout kin : N) (acc : float * N) (e : edge_t) (u : N) :
  (sum_prob st m v r s c reverse Bn kout kin acc e u).2 =
  wrap64 (Z.of_N acc.2 + Z.of_N (wrap64 (eweight st (eidx e)))).
Proof. unfold sum_prob. destruct (directed (g st)); reflexivity. Qed.

(** The weight the two loops of [get_move_prob] accumulate. *)
Lemma sum_prob_fold_weight (st : BlockState) (m : EntrySet) (v r s : N) (c : float)
    (reverse : bool) (Bn kout kin : N) (skip : edge_t -> bool) (nbr : edge_t -> N)
    (l : list edge_t) (acc : float * N) (S0 : Z) :
  acc.2 = wrap64 S0 ->
  (foldl (fun a e => if skip e then a
                     else sum_prob st m v r s c reverse Bn kout kin a e (nbr e)) acc l).2 =
  wrap64 (S0 + sumZ (fun e => if skip e then 0 else eweight st (eidx e)) l).
Proof.
  revert acc S0. induction l as [|e l IH]; intros acc S0 Hacc; simpl.
  - by rewrite Z.add_0_r.
  - destruct (skip e).
    + rewrite (IH acc S0 Hacc). reflexivity.
    + rewrite (IH _ (S0 + eweight st (eidx e))).
      * f_equal. lia.
      * rewrite sum_prob_weight, Hacc. apply wrap64_add.
Qed.

Lemma get_move_prob_entries_weight (v r s : N) (c : float) (reverse : bool) (m : EntrySet)
    (st : BlockState) :
  wrap64 (nonloop_weight st v) = 0%N ->
  get_move_prob_entries v r s c reverse m st = (1 / double_of_Z (Z.of_N (proposal_B st)))%float.
Proof.
  intros Hw. unfold get_move_prob_entries.
  set (step := sum_prob st m v r s c reverse (proposal_B st) _ _).
  set (a1 := foldl _ (0%float, 0%N) (out_edges_range v (g st))).
  set (a2 := foldl _ a1 (in_edges_range v (g st))).
  assert (H1 : a1.2 = wrap64 (0 + sumZ (fun e => if N.eqb (target e) v then 0
                                                  else eweight st (eidx e))
                                        (out_edges_range v (g st)))).
  { apply (sum_prob_fold_weight st m v r s c reverse _ _ _
             (fun e => N.eqb (target e) v) target). reflexivity. }
  assert (H2 : a2.2 = wrap64 (nonloop_weight st v)).
  { unfold nonloop_weight.
    apply (sum_prob_fold_weight st m v r s c reverse _ _ _
             (fun e => N.eqb (source e) v) source). exact H1. }
  rewrite H2, Hw. reflexivity.
Qed.

(** C10. For a vertex whose incident edges other than self-loops have total
    weight zero, [get_move_prob(v, r, s, c, reverse)] is [1. / B] for every
    [r], [s], [c] and [reverse], with [B] one less than the number of
    candidate entries when there is no empty block and that number
    otherwise. *)
Theorem get_move_prob_uniform (st : BlockState) (v r s : N) (c : float) (reverse : bool) :
  nonloop_weight st v = 0 ->
  (get_move_prob v r s c reverse st).1 =
  (1 / double_of_Z (Z.of_N
         (match empty_blocks st with
          | [] => wrap64 (Z.of_nat (length (candidate_blocks st)) - 1)
          | _ :: _ => N.of_nat (length (candidate_blocks st))
          end)))%float.
Proof.
  intros Hw. unfold get_move_prob. cbn [fst].
  rewrite get_move_prob_entries_weight; [reflexivity|].
  change (nonloop_weight (get_move_entries v (size_t_of_int (pget (b st) v))
                            (if reverse then r else s) (fun _ => false) st) v)
    with (nonloop_weight st v).
  rewrite Hw. reflexivity.
Qed.

End BulkAndProposals.

(** ** Comparisons of [double] *)

Lemma SFcompare_swap (x y : spec_float) :
  SFcompare y x = option_map CompOpp (SFcompare x y).
Proof.
  destruct x as [sx|sx| |sx mx ex], y as [sy|sy| |sy my ey]; simpl; try reflexivity;
    try (destruct sx; reflexivity); try (destruct sy; reflexivity);
    try (destruct sx, sy; reflexivity).
  destruct sx, sy; simpl; try reflexivity.
  - rewrite (Z.compare_antisym ex ey).
    destruct (ex ?= ey); simpl; try reflexivity.
    change (PosDef.Pos.compare_cont Eq my mx) with (Pos.compare my mx).
    change (PosDef.Pos.compare_cont Eq mx my) with (Pos.compare mx my).
    rewrite (Pos.compare_antisym mx my). reflexivity.
  - rewrite (Z.compare_antisym ex ey).
    destruct (ex ?= ey); simpl; try reflexivity.
    change (PosDef.Pos.compare_cont Eq my mx) with (Pos.compare my mx).
    change (PosDef.Pos.compare_cont Eq mx my) with (Pos.compare mx my).
    rewrite (Pos.compare_antisym mx my). reflexivity.
Qed.

Lemma not_nan_compare (x y : float) :
  is_nan x = false -> is_nan y = false ->
  exists c, SFcompare (Prim2SF x) (Prim2SF y) = Some c.
Proof.
  unfold is_nan. rewrite !FloatAxioms.eqb_spec. unfold SFeqb. intros Hx Hy.
  destruct (Prim2SF x), (Prim2SF y); simpl in *; try discriminate; eauto.
Qed.

(** Away from NaN, [x < y] is the negation of [y <= x]. *)
Lemma ltb_negb_leb (x y : float) :
  is_nan x = false -> is_nan y = false -> (x <? y)%float = negb (y <=? x)%float.
Proof.
  intros Hx Hy. rewrite ltb_spec, leb_spec. unfold SFltb, SFleb.
  rewrite (SFcompare_swap (Prim2SF x) (Prim2SF y)).
  destruct (not_nan_compare x y Hx Hy) as [c ->]. destruct c; reflexivity.
Qed.

(** A comparison that holds has no NaN on either side. *)
Lemma leb_not_nan (x y : float) :
  (x <=? y)%float = true -> is_nan x = false /\ is_nan y = false.
Proof.
  unfold is_nan. rewrite leb_spec, !FloatAxioms.eqb_spec. unfold SFleb, SFeqb.
  destruct (Prim2SF x) as [[]|[]| |[] mx ex], (Prim2SF y) as [[]|[]| |[] my ey];
    simpl; try discriminate; intros _; rewrite ?Z.compare_refl, ?Pos.compare_cont_refl;
    split; reflexivity.
Qed.

Lemma ltb_not_nan (x y : float) :
  (x <? y)%float = true -> is_nan x = false /\ is_nan y = false.
Proof.
  unfold is_nan. rewrite ltb_spec, !FloatAxioms.eqb_spec. unfold SFltb, SFeqb.
  destruct (Prim2SF x) as [[]|[]| |[] mx ex], (Prim2SF y) as [[]|[]| |[] my ey];
    simpl; try discriminate; intros _; rewrite ?Z.compare_refl, ?Pos.compare_cont_refl;
    split; reflexivity.
Qed.

Section SweepProofs.
Context `{SExt : SweepExternals}.

(** ** The multicanonical sweep *)

Lemma outside_in_range (st : MulticanonicalState) (S : float) :
  is_nan S = false -> is_nan (S_min st) = false -> is_nan (S_max st) = false ->
  in_range st S = negb (outside st S).
Proof.
  intros HS Hmin Hmax. unfold in_range, outside.
  rewrite (ltb_negb_leb S (S_min st) HS Hmin), (ltb_negb_leb S (S_max st) HS Hmax).
  destruct (S_min st <=? S)%float, (S_max st <=? S)%float; reflexivity.
Qed.

Lemma accept_move_outside (st : MulticanonicalState) (i j : Z) (S : float)
    (dS : float * float) (rng : rng_t) :
  outside st (S + dS.1)%float = true -> accept_move st i j S dS rng = (false, rng).
Proof. intros H. unfold accept_move. rewrite H. reflexivity. Qed.

Lemma accept_move_inside (st : MulticanonicalState) (i j : Z) (S : float)
    (dS : float * float) (rng rng' : rng_t) :
  accept_move st i j S dS rng = (true, rng') -> outside st (S + dS.1)%float = false.
Proof.
  unfold accept_move. destruct (outside st (S + dS.1)%float); [discriminate|reflexivity].
Qed.

Lemma count_up_room (n : nat) (h : N) :
  Z.of_N h + Z.of_nat (S n) < 2 ^ 64 ->
  count_up h = (h + 1)%N /\ Z.of_N (count_up h) + Z.of_nat n < 2 ^ 64.
Proof.
  intros H. unfold count_up. rewrite wrap64_small by lia. split; lia.
Qed.

Lemma hist_room_cons (n : nat) (h : N) (l : list N) :
  hist_room n (h :: l) = true <-> Z.of_N h + Z.of_nat n < 2 ^ 64 /\ hist_room n l = true.
Proof.
  unfold hist_room. simpl. rewrite andb_true_iff, Z.ltb_lt. reflexivity.
Qed.

Lemma hist_room_weaken (n : nat) (l : list N) :
  hist_room (S n) l = true -> hist_room n l = true.
Proof.
  induction l as [|h l IH]; [reflexivity|].
  rewrite !hist_room_cons. intros [H1 H2]. split; [lia|auto].
Qed.

(** One visit, with room for it: the counts do not decrease, the count of
    the visited bin goes up by one, and there is room for one visit less. *)
Lemma visit_counts (n : nat) (i : Z) (l : list N) :
  hist_room (S n) l = true ->
  Forall2 N.le l (alter_at count_up i l)
  /\ hist_room n (alter_at count_up i l) = true
  /\ (forall h, 0 <= i -> l !! Z.to_nat i = Some h ->
        alter_at count_up i l !! Z.to_nat i = Some (h + 1)%N).
Proof.
  intros Hroom. unfold alter_at. destruct (0 <=? i) eqn:Hi.
  - generalize (Z.to_nat i). clear Hi. intros k. revert k.
    induction l as [|h l IH]; intros k.
    + repeat split; [constructor|]. intros h _ Hk. destruct k; discriminate.
    + apply hist_room_cons in Hroom as [Hh Hl]. destruct k as [|k]; simpl.
      * destruct (count_up_room n h Hh) as [Hc Hr]. split; [|split].
        -- constructor; [rewrite Hc; lia|]. clear. induction l; constructor; [lia|assumption].
        -- apply hist_room_cons. split; [exact Hr|by apply hist_room_weaken].
        -- intros h' _ [= <-]. by rewrite Hc.
      * destruct (IH Hl k) as (H1 & H2 & H3). split; [|split].
        -- constructor; [lia|exact H1].
        -- apply hist_room_cons. split; [lia|exact H2].
        -- intros h' H0 Hk. by apply H3.
  - split; [|split].
    + clear. induction l; constructor; [lia|assumption].
    + by apply hist_room_weaken.
    + intros h H0. apply Z.leb_gt in Hi. lia.
Qed.

End SweepProofs.

Section SweepBounds.
Context `{SExt : SweepExternals}.

(** One turn of the loop on the entropy: it keeps the entropy and the
    number of moves, or it accepts a move to an entropy that passes the
    test of the range. *)
Lemma sweep_iter_accept (y : sweep_vars) :
  let y' := (sweep_iter y).1 in
  (sv_S y' = sv_S y /\ sv_nmoves y' = sv_nmoves y)
  \/ (outside (sv_state y) (sv_S y') = false
      /\ sv_nmoves y' = wrap64 (Z.of_N (sv_nmoves y) + 1)).
Proof.
  unfold sweep_iter.
  destruct (uniform_sample (vlist (sv_state y)) (sv_rng y)) as [v rng1].
  destruct (N.eqb (node_weight v (mc_inner (sv_state y))) 0); [by left|].
  destruct (move_proposal v rng1 (mc_inner (sv_state y))) as [[s rng2] in1].
  destruct (virtual_move_dS v s in1) as [dS in2].
  destruct (accept_move (sv_state y) (sv_i y) _ (sv_S y) dS rng2) as [accept rng3] eqn:Ha.
  cbn [fst sv_S sv_nmoves]. destruct accept; [right|by left].
  split; [|reflexivity]. by apply accept_move_inside in Ha.
Qed.

(** An entropy in the range is no NaN, and neither bound is. *)
Lemma in_range_not_nan (st : MulticanonicalState) (S : float) :
  in_range st S = true ->
  is_nan S = false /\ is_nan (S_min st) = false /\ is_nan (S_max st) = false.
Proof.
  unfold in_range. rewrite andb_true_iff. intros [H1 H2].
  apply leb_not_nan in H1 as [? ?]. apply ltb_not_nan in H2 as [? ?]. auto.
Qed.

Lemma in_range_inside (st : MulticanonicalState) (S : float) :
  in_range st S = true -> outside st S = false.
Proof.
  intros H. destruct (in_range_not_nan st S H) as (HS & Hmin & Hmax).
  rewrite (outside_in_range st S HS Hmin Hmax) in H. by destruct (outside st S).
Qed.

(** With bounds that are no NaN, the test of the sweep is false of the
    entropies of the range and of NaN, and of nothing else. *)
Lemma inside_in_range (st : MulticanonicalState) (S : float) :
  is_nan (S_min st) = false -> is_nan (S_max st) = false ->
  outside st S = false -> in_range st S = true \/ is_nan S = true.
Proof.
  intros Hmin Hmax Ho. destruct (is_nan S) eqn:HS; [by right|left].
  rewrite (outside_in_range st S HS Hmin Hmax). by rewrite Ho.
Qed.

Lemma count_up_cases (h : N) :
  count_up h = if Z.of_N h + 1 <? 2 ^ 64 then (h + 1)%N else wrap64 (Z.of_N h + 1).
Proof.
  unfold count_up. destruct (Z.ltb_spec (Z.of_N h + 1) (2 ^ 64)); [|reflexivity].
  rewrite wrap64_small by lia. lia.
Qed.

Lemma count_after_next (n : nat) (h h' : N) :
  count_after n h h' -> count_after (S n) h h' /\ count_after (S n) h (count_up h').
Proof.
  unfold count_after. intros [[H1 H2]|H]; [|split; right; lia].
  split; [left; lia|]. rewrite count_up_cases.
  destruct (Z.ltb_spec (Z.of_N h' + 1) (2 ^ 64)); [left; lia|right; lia].
Qed.

Lemma count_after_le (n m : nat) (h h' : N) :
  (n <= m)%nat -> count_after n h h' -> count_after m h h'.
Proof. unfold count_after. intros Hle [[H1 H2]|H]; [left|right]; lia. Qed.

Lemma counts_after_visit (n : nat) (i : Z) (l0 l : list N) :
  Forall2 (count_after n) l0 l -> Forall2 (count_after (S n)) l0 (alter_at count_up i l).
Proof.
  intros H.
  assert (Hnext : Forall2 (count_after (S n)) l0 l).
  { eapply Forall2_impl; [exact H|]. intros a c Ha. by apply (count_after_next n a c). }
  unfold alter_at. destruct (0 <=? i); [|exact Hnext].
  generalize (Z.to_nat i). clear Hnext.
  induction H as [|h h' l0 l Hh Ht IH]; intros k.
  - destruct k; constructor.
  - destruct (count_after_next n h h' Hh) as [H1 H2].
    destruct k as [|k].
    + apply Forall2_cons. split; [exact H2|].
      eapply Forall2_impl; [exact Ht|]. intros a c Ha. by apply (count_after_next n a c).
    + apply Forall2_cons. split; [exact H1|apply IH].
Qed.

Lemma counts_after_le (n m : nat) (l0 l : list N) :
  (n <= m)%nat -> Forall2 (count_after n) l0 l -> Forall2 (count_after m) l0 l.
Proof.
  intros Hle H. eapply Forall2_impl; [exact H|]. intros a c. by apply count_after_le.
Qed.

Lemma sweep_iter_turns (st0 : MulticanonicalState) (m : nat) (x : sweep_vars) :
  turns_inv st0 m x -> turns_inv st0 (S m) (sweep_iter x).1.
Proof.
  intros (HS & Hmin & Hmax & Hh). unfold sweep_iter.
  destruct (uniform_sample (vlist (sv_state x)) (sv_rng x)) as [v rng1].
  destruct (N.eqb (node_weight v (mc_inner (sv_state x))) 0).
  { cbn [fst sv_S sv_state]. split; [exact HS|]. split; [exact Hmin|]. split; [exact Hmax|].
    apply (counts_after_le m); [lia|exact Hh]. }
  destruct (move_proposal v rng1 (mc_inner (sv_state x))) as [[s rng2] in1].
  destruct (virtual_move_dS v s in1) as [dS in2].
  destruct (accept_move (sv_state x) (sv_i x) _ (sv_S x) dS rng2) as [accept rng3] eqn:Ha.
  cbn [fst sv_S sv_state]. split; [|split; [|split]].
  - destruct accept; [|exact HS].
    apply accept_move_inside in Ha. unfold outside in *. by rewrite <- Hmin, <- Hmax.
  - exact Hmin.
  - exact Hmax.
  - simpl. by apply counts_after_visit.
Qed.

Lemma sweep_loop_turns (st0 : MulticanonicalState) (n m : nat) (x : sweep_vars) :
  turns_inv st0 m x -> turns_inv st0 (m + n) (sweep_loop n x).
Proof.
  revert m x. induction n as [|n IH]; intros m x Hx; simpl.
  { by rewrite Nat.add_0_r. }
  pose proof (sweep_iter_turns st0 m x Hx) as Hi.
  destruct (sweep_iter x) as [x' stop]. simpl in Hi. destruct stop.
  - destruct Hi as (? & ? & ? & Hh). repeat split; try assumption.
    apply (counts_after_le (S m)); [lia|exact Hh].
  - replace (m + S n)%nat with (S m + n)%nat by lia. by apply IH.
Qed.

Lemma counts_after_start (l : list N) : Forall2 (count_after 0) l l.
Proof. induction l; constructor; [left; lia|assumption]. Qed.

(** One turn of the loop on the histogram, whatever the counts are. *)
Lemma sweep_iter_count (y : sweep_vars) :
  node_weight (uniform_sample (vlist (sv_state y)) (sv_rng y)).1 (mc_inner (sv_state y)) ≠ 0%N ->
  let y' := (sweep_iter y).1 in
  hist (sv_state y') = alter_at count_up (sv_i y') (hist (sv_state y)).
Proof.
  unfold sweep_iter.
  destruct (uniform_sample (vlist (sv_state y)) (sv_rng y)) as [v rng1]. cbn [fst].
  destruct (N.eqb_spec (node_weight v (mc_inner (sv_state y))) 0) as [Hw|Hw]; [done|].
  intros _.
  destruct (move_proposal v rng1 (mc_inner (sv_state y))) as [[s rng2] in1].
  destruct (virtual_move_dS v s in1) as [dS in2].
  destruct (accept_move (sv_state y) (sv_i y) _ (sv_S y) dS rng2) as [accept rng3].
  reflexivity.
Qed.

Lemma alter_at_lookup {A : Type} (f : A -> A) (i : Z) (l : list A) (a : A) :
  0 <= i -> l !! Z.to_nat i = Some a -> alter_at f i l !! Z.to_nat i = Some (f a).
Proof.
  intros Hi Hl. unfold alter_at. rewrite (proj2 (Z.leb_le 0 i) Hi).
  rewrite list_lookup_alter. destruct (decide (Z.to_nat i = Z.to_nat i)); [|done].
  by rewrite Hl.
Qed.

(** A turn whose proposal fails the test of the range: the move is not
    performed, and the entropy and the number of moves stay. *)
Lemma sweep_iter_reject (y : sweep_vars) :
  let v := (uniform_sample (vlist (sv_state y)) (sv_rng y)).1 in
  let p := move_proposal v (uniform_sample (vlist (sv_state y)) (sv_rng y)).2
             (mc_inner (sv_state y)) in
  let d := virtual_move_dS v p.1.1 p.2 in
  node_weight v (mc_inner (sv_state y)) ≠ 0%N ->
  outside (sv_state y) (sv_S y + d.1.1)%float = true ->
  let y' := (sweep_iter y).1 in
  sv_S y' = sv_S y /\ sv_nmoves y' = sv_nmoves y /\ sv_i y' = sv_i y
  /\ mc_inner (sv_state y') = d.2.
Proof.
  unfold sweep_iter.
  destruct (uniform_sample (vlist (sv_state y)) (sv_rng y)) as [v rng1]. cbn [fst snd].
  destruct (N.eqb_spec (node_weight v (mc_inner (sv_state y))) 0) as [Hw|Hw]; [done|].
  intros _.
  destruct (move_proposal v rng1 (mc_inner (sv_state y))) as [[s rng2] in1]. cbn [fst snd].
  destruct (virtual_move_dS v s in1) as [dS in2]. cbn [fst snd]. intros Ho.
  rewrite (accept_move_outside _ _ _ _ _ _ Ho). done.
Qed.

(** C9. In a sweep started with [S] in [[S_min, S_max)], a proposal whose
    entropy [S + dS.first] is a number outside [[S_min, S_max)] is rejected:
    the turn performs no move and keeps the entropy, the number of moves and
    the bin. A turn changes the entropy only by accepting a move to an
    entropy of which the test [nS < S_min || nS >= S_max] is false, so after
    any number of turns the running entropy is in [[S_min, S_max)] or is
    NaN, which that test lets through. Every turn that does not skip its
    vertex runs [hist[i]++] on the bin it ends in, accepted or not; over [n]
    turns a count does not decrease and grows by [n] at most, unless it
    started within [n] of the largest [size_t]. The sweep returns, and what
    it returns is the entropy and the state its loop ends with. *)
Theorem multicanonical_bounded (st : MulticanonicalState) (rng : rng_t) :
  in_range st (mc_S st) = true ->
  (forall (st' : MulticanonicalState) (i j : Z) (S : float) (dS : float * float) (q : rng_t),
      S_min st' = S_min st -> S_max st' = S_max st ->
      is_nan (S + dS.1)%float = false -> in_range st (S + dS.1)%float = false ->
      accept_move st' i j S dS q = (false, q))
  /\ (forall y : sweep_vars,
        S_min (sv_state y) = S_min st -> S_max (sv_state y) = S_max st ->
        let v := (uniform_sample (vlist (sv_state y)) (sv_rng y)).1 in
        let p := move_proposal v (uniform_sample (vlist (sv_state y)) (sv_rng y)).2
                   (mc_inner (sv_state y)) in
        let d := virtual_move_dS v p.1.1 p.2 in
        node_weight v (mc_inner (sv_state y)) ≠ 0%N ->
        is_nan (sv_S y + d.1.1)%float = false ->
        in_range st (sv_S y + d.1.1)%float = false ->
        let y' := (sweep_iter y).1 in
        sv_S y' = sv_S y /\ sv_nmoves y' = sv_nmoves y /\ sv_i y' = sv_i y
        /\ mc_inner (sv_state y') = d.2)
  /\ (forall y : sweep_vars,
        let y' := (sweep_iter y).1 in
        (sv_S y' = sv_S y /\ sv_nmoves y' = sv_nmoves y)
        \/ (outside (sv_state y) (sv_S y') = false
            /\ sv_nmoves y' = wrap64 (Z.of_N (sv_nmoves y) + 1)))
  /\ (forall n : nat,
        let x := sweep_loop n (sweep_start st rng) in
        (in_range st (sv_S x) = true \/ is_nan (sv_S x) = true)
        /\ Forall2 (fun h h' : N =>
                      ((h <= h')%N /\ Z.of_N h' <= Z.of_N h + Z.of_nat n)
                      \/ 2 ^ 64 <= Z.of_N h + Z.of_nat n)
                   (hist st) (hist (sv_state x)))
  /\ (forall y : sweep_vars,
        node_weight (uniform_sample (vlist (sv_state y)) (sv_rng y)).1
          (mc_inner (sv_state y)) ≠ 0%N ->
        let y' := (sweep_iter y).1 in
        hist (sv_state y') = alter_at count_up (sv_i y') (hist (sv_state y))
        /\ forall h, 0 <= sv_i y' ->
             hist (sv_state y) !! Z.to_nat (sv_i y') = Some h ->
             hist (sv_state y') !! Z.to_nat (sv_i y') = Some (count_up h)
             /\ (Z.of_N h + 1 < 2 ^ 64 -> count_up h = (h + 1)%N))
  /\ (let x := sweep_loop (N.to_nat (niter st)) (sweep_start st rng) in
      multicanonical_sweep st rng = Ok (sv_S x, sv_nmoves x) (sv_state x, sv_rng x)).
Proof.
  intros HS. destruct (in_range_not_nan st _ HS) as (_ & Hmin & Hmax).
  pose proof (in_range_inside st _ HS) as Ho.
  assert (Hout : forall (st' : MulticanonicalState) (S : float),
             S_min st' = S_min st -> S_max st' = S_max st ->
             is_nan S = false -> in_range st S = false -> outside st' S = true).
  { intros st' S Hmin' Hmax' Hn Hr.
    rewrite (outside_in_range st _ Hn Hmin Hmax) in Hr. apply negb_false_iff in Hr.
    unfold outside in Hr |- *. by rewrite Hmin', Hmax'. }
  split; [|split; [|split; [|split; [|split]]]].
  - intros st' i j S dS q Hmin' Hmax' Hn Hr. apply accept_move_outside. by apply Hout.
  - intros y Hmin' Hmax' v p d Hw Hn Hr. apply sweep_iter_reject; [exact Hw|].
    by apply Hout.
  - intros y. apply sweep_iter_accept.
  - intros n x.
    assert (Hinv : turns_inv st 0 (sweep_start st rng)).
    { split; [exact Ho|]. split; [reflexivity|]. split; [reflexivity|].
      apply counts_after_start. }
    destruct (sweep_loop_turns st n 0 _ Hinv) as (Hx & _ & _ & Hh).
    split; [by apply inside_in_range|exact Hh].
  - intros y Hw y'. pose proof (sweep_iter_count y Hw) as Hc. cbv zeta in Hc. fold y' in Hc.
    split; [exact Hc|]. intros h Hi Hl. rewrite Hc. split.
    + by apply alter_at_lookup.
    + intros Hroom. rewrite count_up_cases. by rewrite (proj2 (Z.ltb_lt _ _) Hroom).
  - unfold multicanonical_sweep. rewrite Ho. reflexivity.
Qed.

End SweepBounds.

(** ** The virtual moves, on the scenario and on the two-level hierarchy *)

Lemma virtual_move_early_returns_witness :
  virtual_move 0 0 0 sparse_terms scenario_state = Ok 0%float scenario_state
  /\ virtual_move 1 0 1 sparse_terms barrier_state = Ok infinity barrier_state.
Proof.
  split.
  - apply (proj1 (virtual_move_early_returns scenario_state 0 0 0 sparse_terms)).
    reflexivity.
  - apply (proj2 (virtual_move_early_returns barrier_state 1 0 1 sparse_terms));
      vm_compute; congruence.
Defined.

Lemma dense_degree_corrected_throws_witness :
  deg_corr degree_corrected_state = true
  /\ result_of (virtual_move_dense 1 0 1 false degree_corrected_state) = None
  /\ result_of (dense_entropy false degree_corrected_state) = None
  /\ result_of (virtual_move 1 0 1 dense_terms degree_corrected_state) = None.
Proof.
  split; [reflexivity|].
  destruct (dense_degree_corrected_throws degree_corrected_state 1 0 1 false dense_terms
              eq_refl) as (H1 & H2 & H3).
  rewrite H1, H2, H3; [split; [|split]; reflexivity| | | |]; vm_compute; congruence.
Defined.

Lemma coupled_virtual_move_witness :
  coupled_state lower_level = Some upper_level
  /\ 0 < vweight lower_level 0
  /\ vacates lower_level 0 0 = true /\ occupies lower_level 1 = false
  /\ result_of (virtual_move 0 0 1 no_terms lower_level) = Some 1%float.
Proof.
  split; [reflexivity|]. split; [reflexivity|]. split; [reflexivity|].
  split; [reflexivity|].
  rewrite (coupled_virtual_move lower_level upper_level
             (get_move_entries 0 0 1 (fun _ => false) lower_level) 0 0 1 no_terms 0%float).
  - vm_compute. reflexivity.
  - reflexivity.
  - reflexivity.
  - vm_compute. congruence.
  - right. right. reflexivity.
  - reflexivity.
Defined.

(** The only vertex of block 0 moves to the empty block 2: the move
    vacates one and occupies the other, each parent-level delta is 1, and
    the virtual move returns the local delta 0. *)
Lemma coupled_virtual_move_counterexample :
  coupled_state lower_level = Some upper_level
  /\ 0 < vweight lower_level 0
  /\ vacates lower_level 0 0 = true /\ occupies lower_level 2 = true
  /\ result_of (virtual_move_local 0 0 2 no_terms lower_level) = Some 0%float
  /\ result_of (call_coupled (virtual_move 0 (size_t_of_int (pget (bclabel lower_level) 0))
                                null_group (coupled_entropy_args lower_level))
                             lower_level) = Some 1%float
  /\ result_of (call_coupled (virtual_move 2 null_group
                                (size_t_of_int (pget (bclabel lower_level) 0))
                                (coupled_entropy_args lower_level))
                             lower_level) = Some 1%float
  /\ result_of (virtual_move 0 0 2 no_terms lower_level) = Some 0%float.
Proof.
  split; [vm_compute; reflexivity|]. split; [vm_compute; reflexivity|].
  split; [vm_compute; reflexivity|]. split; [vm_compute; reflexivity|].
  split; [vm_compute; reflexivity|]. split; [vm_compute; reflexivity|].
  split; vm_compute; reflexivity.
Qed.

(** ** The bulk operations *)

Lemma bulk_length_mismatch_witness :
  length [1%N; 2%N] ≠ length [1%N]
  /\ result_of (add_vertices [1%N; 2%N] [1%N] scenario_state) = None
  /\ result_of (move_vertices_py [1%N; 2%N] [1%N] scenario_state) = None.
Proof.
  assert (H : length [1%N; 2%N] ≠ length [1%N]) by (simpl; lia).
  split; [exact H|].
  destruct (bulk_length_mismatch scenario_state [1%N; 2%N] [1%N] H) as (H1 & H2 & _).
  rewrite H1, H2. split; reflexivity.
Defined.

(** The template overload, on two vertices and one block: vertex 1 is
    moved, vertex 2 is not looked at, and the call returns. *)
Lemma bulk_length_mismatch_counterexample :
  Nat.eqb (length [1%N; 2%N]) (length [1%N]) = false
  /\ move_vertices [1%N; 2%N] [1%N] scenario_state =
     Ok tt (final_state (move_vertex 1 0 1 scenario_state))
  /\ pget (b (final_state (move_vertices [1%N; 2%N] [1%N] scenario_state))) 1 = 1.
Proof.
  split; [vm_compute; reflexivity|]. split; vm_compute; reflexivity.
Qed.

(** ** Move proposals *)

Lemma get_move_prob_uniform_witness :
  nonloop_weight lower_level 0 = 0
  /\ (get_move_prob 0 0 1 0.5%float false lower_level).1 = (1 / 3)%float.
Proof.
  split; [reflexivity|].
  etrans; [apply (get_move_prob_uniform lower_level 0 0 1 0.5%float false); reflexivity|].
  vm_compute. reflexivity.
Defined.

(** ** The multicanonical sweep *)

Lemma multicanonical_bounded_witness :
  in_range demo_mc (mc_S demo_mc) = true
  /\ (in_range demo_mc (sv_S (sweep_loop 5 (sweep_start demo_mc tt))) = true
      \/ is_nan (sv_S (sweep_loop 5 (sweep_start demo_mc tt))) = true)
  /\ result_of (multicanonical_sweep demo_mc tt) = Some (2%float, 2%N).
Proof.
  split; [reflexivity|].
  destruct (multicanonical_bounded demo_mc tt eq_refl) as (_ & _ & _ & Hloop & _ & Hret).
  split.
  - exact (proj1 (Hloop 5%nat)).
  - rewrite Hret. vm_compute. reflexivity.
Defined.

(** C9, as stated, fails: from entropy 0 in the range [[0, 2.5)] a proposal
    whose entropy difference is NaN passes the test of the range and is
    accepted, and the sweep returns NaN, which is not in the range, with one
    move. *)
Lemma multicanonical_bounded_counterexample :
  in_range nan_mc (mc_S nan_mc) = true
  /\ (mc_S nan_mc + (virtual_move_dS 0 0 (mc_inner nan_mc)).1.1 = nan)%float
  /\ in_range nan_mc nan = false
  /\ accept_move nan_mc 0 0 (mc_S nan_mc) (virtual_move_dS 0 0 (mc_inner nan_mc)).1 tt
     = (true, tt)
  /\ result_of (multicanonical_sweep nan_mc tt) = Some (nan, 1%N).
Proof. repeat split; vm_compute; reflexivity. Qed.

(** A count at the largest [size_t] is 0 after its next visit. *)
Lemma histogram_wraps :
  hist (sv_state (sweep_loop 1 (sweep_start full_mc tt))) = [0%N].
Proof. vm_compute. reflexivity. Qed.

Section QueryProofs.
Context `{Ext : Externals}.

(** ** The size queries *)

(** The weight of the block of a placed vertex, between the weight of the
    vertex and the largest [int32_t]. *)
Lemma placed_block_weight (A : gset N) (st : BlockState) (v : N) :
  consistent A st -> (v < num_vertices (g st))%N -> v ∉ A ->
  (blk st v < B st)%N
  /\ 0 <= vweight st v <= pget (wr st) (blk st v) /\ pget (wr st) (blk st v) < 2 ^ 31.
Proof.
  intros Hc Hv HA.
  assert (Hin : v ∈ vertices st) by (by apply elem_of_vertices).
  pose proof (cs_blk A st Hc) as Hb. rewrite Forall_forall in Hb. specialize (Hb v Hin).
  pose proof (cs_vweight A st Hc) as Hw. rewrite Forall_forall in Hw.
  pose proof (cs_counts A st Hc) as Hn. unfold counts_ok in Hn. rewrite Forall_forall in Hn.
  specialize (Hn (blk st v) (proj2 (elem_of_block_range _ _) Hb)).
  pose proof (cs_pools A st Hc) as Hp. unfold pools_ok, weight_part in Hp.
  destruct Hp as [_ Hr _ _ _ _ _ _ _ _]. specialize (Hr (blk st v) Hb).
  split; [exact Hb|]. split; [|lia]. split; [by apply Hw|].
  rewrite Hn. apply placed_weight_ge; try done.
  apply Forall_forall. exact Hw.
Qed.

(** The weight of the block a vertex was removed from. *)
Lemma remove_vertex_wr (A : gset N) (st : BlockState) (v : N) :
  consistent A st -> (v < num_vertices (g st))%N -> v ∉ A ->
  forall x, pget (wr (remove_vertex v (blk st v) st)) x
            = if decide (x = blk st v) then pget (wr st) x - vweight st v
              else pget (wr st) x.
Proof.
  intros Hc Hv HA x.
  destruct (placed_block_weight A st v Hc Hv HA) as (Hb & Hw & Hlt).
  unfold remove_vertex, remove_vertex_filt, modify_vertex.
  set (st1 := get_move_entries v (blk st v) null_group (fun _ => false) st).
  set (st2 := foldl _ st1 _).
  destruct (apply_move_entries_consistent A st false v (blk st v) null_group
              (fun _ => false) Hc) as (_ & Hs & Hwp & _); [done|done|].
  fold st1 in Hs, Hwp. fold st2 in Hs, Hwp.
  rewrite remove_partition_node_wr.
  assert (Hwr : wr st2 = wr st).
  { unfold weight_part in Hwp. injection Hwp as ? ? ? ? ?. assumption. }
  rewrite Hwr, (static_vweight _ _ v Hs).
  destruct (decide (x = blk st v)) as [->|Hne].
  - rewrite pget_pset_eq. apply wrap32_id. unfold int32_range. lia.
  - by rewrite pget_pset_ne.
Qed.

(** X1. For a placed vertex of a consistent state, [virtual_remove_size(v)]
    is the weight its block has after [remove_vertex(v)], which is the
    weight of the block less the weight of the vertex; and [is_last(v)]
    holds exactly when that size is 0, which is exactly when the removal
    leaves the block in [empty_blocks]. *)
Theorem virtual_remove_size_spec (A : gset N) (st : BlockState) (v : N) :
  consistent A st -> (v < num_vertices (g st))%N -> v ∉ A ->
  let r := blk st v in
  let st' := remove_vertex v r st in
  Z.of_N (virtual_remove_size st v) = pget (wr st') r
  /\ Z.of_N (virtual_remove_size st v) = pget (wr st) r - vweight st v
  /\ (is_last st v = true <-> virtual_remove_size st v = 0%N)
  /\ (is_last st v = true <-> r ∈ empty_blocks st').
Proof.
  intros Hc Hv HA r st'.
  destruct (placed_block_weight A st v Hc Hv HA) as (Hb & Hw & Hlt). fold r in Hb, Hw, Hlt.
  assert (Hsize : Z.of_N (virtual_remove_size st v) = pget (wr st) r - vweight st v).
  { unfold virtual_remove_size, isub, size_t_of_int. fold r.
    rewrite wrap32_id by (unfold int32_range; lia).
    rewrite wrap64_small, Z2N.id by lia. reflexivity. }
  assert (Hwr' : pget (wr st') r = pget (wr st) r - vweight st v).
  { unfold st', r. rewrite (remove_vertex_wr A st v Hc Hv HA).
    by destruct (decide (blk st v = blk st v)). }
  assert (Hlast : is_last st v = true <-> pget (wr st) r - vweight st v = 0).
  { unfold is_last. fold r. rewrite Z.eqb_eq. lia. }
  split; [by rewrite Hwr'|]. split; [exact Hsize|]. split.
  - rewrite Hlast. lia.
  - rewrite Hlast.
    destruct (remove_vertex_filt_consistent A st v (fun _ => false) Hc Hv HA)
      as (Hc' & Hs' & _).
    pose proof (cs_pools _ _ Hc') as Hp. unfold pools_ok, weight_part in Hp.
    destruct Hp as [_ _ _ _ _ _ _ _ Hem _]. simpl in Hem.
    fold (remove_vertex v (blk st v) st) in Hem, Hs'. fold r in Hem, Hs'. fold st' in Hem, Hs'.
    rewrite (Hem r), (static_B _ _ Hs'), Hwr'. tauto.
Qed.

End QueryProofs.

Section PartitionProofs.
Context `{Ext : Externals}.

(** ** Whole-partition operations *)

(** What a move does to the assignment: the moved vertex is in its new
    block when the move returns, and no other vertex changes block, also
    when the move throws. *)
Lemma move_vertex_blk (A : gset N) (st : BlockState) (v nr : N) :
  consistent A st -> (v < num_vertices (g st))%N -> v ∉ A -> (nr < B st)%N ->
  let o := move_vertex v (blk st v) nr st in
  (forall u, u ≠ v -> blk (final_state o) u = blk st u)
  /\ (result_of o = Some tt -> blk (final_state o) v = nr).
Proof.
  intros Hc Hv HA Hnr. unfold move_vertex.
  destruct (N.eqb_spec (blk st v) nr) as [Heq|Hne]; [by simpl|].
  destruct (allow_move st (blk st v) nr true); simpl; [|by split].
  destruct (remove_vertex_filt_consistent A st v (fun _ => false) Hc Hv HA)
    as (Hc1 & Hs1 & Hb1 & _).
  fold (remove_vertex v (blk st v) st) in Hc1, Hs1, Hb1.
  set (st1 := remove_vertex v (blk st v) st) in *.
  destruct (add_vertex_filt_consistent (A ∪ {[v]}) st1 v nr (fun _ => false) Hc1)
    as (_ & _ & Hb2 & _); [set_solver|rewrite (static_B _ _ Hs1); exact Hnr|].
  fold (add_vertex v nr st1) in Hb2. set (st2 := add_vertex v nr st1) in *.
  destruct (propagate_move_frame v (blk st v) nr st2) as (_ & _ & _ & Hb3).
  split.
  - intros u Hu. rewrite (blk_parts _ _ u Hb3), Hb2.
    destruct (decide (v = u)); [congruence|]. by apply blk_parts.
  - intros _. rewrite (blk_parts _ _ v Hb3), Hb2. by destruct (decide (v = v)).
Qed.

Lemma for_each_moves (A : gset N) (tgt : N -> N) (l : list N) (st : BlockState) :
  consistent A st -> NoDup l ->
  Forall (fun v => (v < num_vertices (g st))%N /\ (v ∉ A) /\ (tgt v < B st)%N) l ->
  let o := for_each (fun v => move_vertex_from_b v (tgt v)) l st in
  consistent A (final_state o)
  /\ static_part (final_state o) = static_part st
  /\ (forall u, u ∉ l -> blk (final_state o) u = blk st u)
  /\ (result_of o = Some tt -> Forall (fun v => blk (final_state o) v = tgt v) l).
Proof.
  revert st. induction l as [|x l IH]; intros st Hc Hnd Hl; simpl.
  - split; [exact Hc|]. split; [reflexivity|]. split; [reflexivity|]. constructor.
  - apply NoDup_cons in Hnd as [Hx Hnd]. apply Forall_cons in Hl as [(Hv & HA & Ht) Hl].
    unfold bind.
    change (move_vertex_from_b x (tgt x) st) with (move_vertex x (blk st x) (tgt x) st).
    destruct (move_vertex_consistent A st x (tgt x) Hc Hv HA Ht) as [Hc1 Hs1].
    destruct (move_vertex_blk A st x (tgt x) Hc Hv HA Ht) as [Hf1 Hx1].
    destruct (move_vertex x (blk st x) (tgt x) st) as [[] st1|e st1];
      cbn [final_state result_of] in Hc1, Hs1, Hf1, Hx1; cbv beta iota zeta.
    + destruct (IH st1 Hc1 Hnd) as (Hc2 & Hs2 & Hf2 & Hx2).
      { eapply Forall_impl; [exact Hl|]. intros u (? & ? & ?).
        by rewrite (static_g _ _ Hs1), (static_B _ _ Hs1). }
      split; [exact Hc2|]. split; [etrans; [exact Hs2|exact Hs1]|]. split.
      * intros u Hu. apply not_elem_of_cons in Hu as [Hux Hul].
        rewrite (Hf2 u Hul). by apply Hf1.
      * intros Hok. constructor; [|by apply Hx2].
        rewrite (Hf2 x Hx). by apply Hx1.
    + split; [exact Hc1|]. split; [exact Hs1|]. split; [|done].
      intros u Hu. apply not_elem_of_cons in Hu as [Hux _]. by apply Hf1.
Qed.

(** X2. On a consistent state with no vertex removed, [set_partition(b)]
    with every [b[v]] a block of the block graph leaves a consistent state,
    also when one of its moves throws; when it returns, every vertex [v] is
    in block [b[v]]. *)
Theorem set_partition_installs (st : BlockState) (bp : gmap N Z) :
  consistent ∅ st ->
  Forall (fun v => (size_t_of_int (pget bp v) < B st)%N) (vertices st) ->
  let o := set_partition bp st in
  consistent ∅ (final_state o)
  /\ static_part (final_state o) = static_part st
  /\ (result_of o = Some tt ->
      Forall (fun v => blk (final_state o) v = size_t_of_int (pget bp v)) (vertices st)).
Proof.
  intros Hc Hb. unfold set_partition.
  destruct (for_each_moves ∅ (fun v => size_t_of_int (pget bp v)) (vertices st) st Hc)
    as (H1 & H2 & _ & H4).
  - apply NoDup_block_range.
  - rewrite Forall_forall in Hb. apply Forall_forall. intros v Hv.
    split; [by apply elem_of_vertices|]. split; [set_solver|by apply Hb].
  - exact (conj H1 (conj H2 H4)).
Qed.

(** X3. [set_partition] with the partition the state already has changes
    nothing and never throws, whatever the labels of the blocks are: every
    one of its moves is a move of a vertex to its own block. *)
Theorem set_partition_same (st : BlockState) :
  set_partition (b st) st = Ok tt st.
Proof.
  unfold set_partition. induction (vertices st) as [|v l IH]; [reflexivity|].
  simpl. unfold bind, move_vertex_from_b, move_vertex at 1.
  rewrite N.eqb_refl. exact IH.
Qed.

End PartitionProofs.

Section CheckProofs.
Context `{Ext : Externals}.

(** ** The node-count check *)

Lemma mod_add_twice (x a s : Z) :
  ((x + a mod 2 ^ 64) mod 2 ^ 64 + s) mod 2 ^ 64 = (x + (a + s)) mod 2 ^ 64.
Proof.
  rewrite Zplus_mod_idemp_l.
  replace (x + a mod 2 ^ 64 + s) with (a mod 2 ^ 64 + (x + s)) by lia.
  rewrite Zplus_mod_idemp_l. f_equal. lia.
Qed.

(** The entry of a block in the vector [check_node_counts] builds, after
    the vertices of [l]. *)
Lemma node_counts_fold (st : BlockState) (r : N) (l : list N) (w : list N) (x : N) :
  w !! N.to_nat r = Some x -> Z.of_N x < 2 ^ 64 ->
  exists y,
    foldl (fun w v =>
             alter (fun x => wrap64 (Z.of_N x + Z.of_N (size_t_of_int (vweight st v))))
                   (N.to_nat (blk st v)) w) w l !! N.to_nat r = Some y
    /\ Z.of_N y
       = (Z.of_N x + sumZ (fun v => if decide (blk st v = r) then vweight st v else 0) l)
         mod 2 ^ 64.
Proof.
  revert w x. induction l as [|v l IH]; intros w x Hw Hx; simpl.
  - exists x. split; [exact Hw|]. rewrite Z.add_0_r, Z.mod_small; lia.
  - destruct (decide (blk st v = r)) as [Heq|Hne].
    + destruct (IH (alter (fun x => wrap64 (Z.of_N x + Z.of_N (size_t_of_int (vweight st v))))
                          (N.to_nat (blk st v)) w)
                   (wrap64 (Z.of_N x + Z.of_N (size_t_of_int (vweight st v)))))
        as (y & Hy & Hsum).
      * rewrite Heq, list_lookup_alter_eq, Hw. reflexivity.
      * rewrite wrap64_of_N. apply Z.mod_pos_bound. lia.
      * exists y. split; [exact Hy|]. rewrite Hsum, wrap64_of_N.
        unfold size_t_of_int. rewrite wrap64_of_N. apply mod_add_twice.
    + destruct (IH (alter (fun x => wrap64 (Z.of_N x + Z.of_N (size_t_of_int (vweight st v))))
                          (N.to_nat (blk st v)) w) x)
        as (y & Hy & Hsum).
      * rewrite list_lookup_alter_ne by (intros H; apply Hne; by apply N2Nat.inj).
        exact Hw.
      * exact Hx.
      * exists y. split; [exact Hy|]. rewrite Hsum. f_equal; lia.
Qed.

Lemma node_counts_lookup (st : BlockState) (r : N) :
  (r < B st)%N ->
  exists y, node_counts st !! N.to_nat r = Some y
            /\ Z.of_N y = placed_weight st ∅ r mod 2 ^ 64.
Proof.
  intros Hr. unfold node_counts.
  destruct (node_counts_fold st r (vertices st) (replicate (N.to_nat (B st)) 0%N) 0%N)
    as (y & Hy & Hsum).
  - apply lookup_replicate. split; [reflexivity|lia].
  - lia.
  - exists y. split; [exact Hy|]. rewrite Hsum. f_equal. simpl. unfold placed_weight.
    apply sumZ_ext. intros v _. unfold placed_in.
    destruct (decide (blk st v = r)); case_bool_decide; try reflexivity; set_solver.
Qed.

(** The weight a block would have with every vertex placed. *)
Lemma placed_weight_all_bounds (st : BlockState) (A : gset N) (r : N) :
  Forall (fun v => 0 <= vweight st v) (vertices st) ->
  0 <= placed_weight st A r <= placed_weight st ∅ r
  /\ placed_weight st ∅ r <= total_vweight st.
Proof.
  intros Hw. rewrite Forall_forall in Hw. unfold placed_weight, total_vweight.
  split; [split|].
  - apply sumZ_nonneg. intros v Hv. apply placed_in_bounds. by apply Hw.
  - apply sumZ_le. intros v Hv. unfold placed_in. specialize (Hw v Hv).
    repeat case_bool_decide; try lia. set_solver.
  - apply sumZ_le. intros v Hv. apply placed_in_bounds. by apply Hw.
Qed.

Lemma placed_weight_removed (st : BlockState) (A : gset N) (v : N) :
  Forall (fun u => 0 <= vweight st u) (vertices st) ->
  v ∈ vertices st -> v ∈ A ->
  placed_weight st A (blk st v) + vweight st v <= placed_weight st ∅ (blk st v).
Proof.
  intros Hw Hv HA. rewrite Forall_forall in Hw.
  assert (Hs : sumZ (fun u => if decide (u = v) then vweight st v else 0) (vertices st)
               = vweight st v).
  { rewrite (sumZ_single _ (vertices st) v).
    - by destruct (decide (v = v)).
    - apply NoDup_block_range.
    - exact Hv.
    - intros u _ Hne. by destruct (decide (u = v)). }
  unfold placed_weight. rewrite <- Hs at 1. rewrite <- sumZ_add. apply sumZ_le.
  intros u Hu. unfold placed_in. specialize (Hw u Hu).
  destruct (decide (u = v)) as [->|Hne]; repeat case_bool_decide; try lia; set_solver.
Qed.

Lemma placed_weight_none_removed (st : BlockState) (A : gset N) (r : N) :
  (forall v, v ∈ A -> vweight st v = 0) ->
  placed_weight st A r = placed_weight st ∅ r.
Proof.
  intros H0. unfold placed_weight. apply sumZ_ext. intros v _. unfold placed_in.
  repeat case_bool_decide; try reflexivity.
  - set_solver.
  - destruct (decide (v ∈ A)) as [HA|HA]; [symmetry; by apply H0|]. tauto.
Qed.

(** X4. On a consistent state the assertions of [check_node_counts] hold
    exactly when no vertex of positive weight is removed: they hold after
    every sequence of operations that leaves every vertex placed, and one of
    them fails as soon as [remove_vertex] has taken out a vertex that
    weighs. *)
Theorem check_node_counts_spec (A : gset N) (st : BlockState) :
  consistent A st ->
  (check_node_counts st = true <-> forall v, v ∈ A -> vweight st v = 0).
Proof.
  intros Hc.
  pose proof (cs_vweight A st Hc) as Hw.
  pose proof (cs_total A st Hc) as Htot.
  pose proof (cs_counts A st Hc) as Hn. unfold counts_ok in Hn. rewrite Forall_forall in Hn.
  assert (Hentry : forall r, (r < B st)%N ->
            N.eqb (size_t_of_int (pget (wr st) r))
                  (default 0%N (node_counts st !! N.to_nat r)) = true
            <-> placed_weight st A r = placed_weight st ∅ r).
  { intros r Hr. destruct (node_counts_lookup st r Hr) as (y & Hy & Hsum).
    destruct (placed_weight_all_bounds st A r Hw) as [[H0 H1] H2].
    rewrite Hy. simpl. rewrite (Hn r (proj2 (elem_of_block_range _ _) Hr)).
    rewrite Z.mod_small in Hsum by lia.
    unfold size_t_of_int. rewrite wrap64_small by lia. rewrite N.eqb_eq. lia. }
  unfold check_node_counts. rewrite forallb_forall. split.
  - intros Hall v HA.
    pose proof (cs_absent A st Hc v HA) as Hv. apply elem_of_vertices in Hv.
    pose proof (cs_blk A st Hc) as Hb. rewrite Forall_forall in Hb. specialize (Hb v Hv).
    assert (Hin : In (blk st v) (block_range (B st))).
    { apply list_elem_of_In. by apply elem_of_block_range. }
    apply Hall, (Hentry _ Hb) in Hin.
    pose proof (placed_weight_removed st A v Hw Hv HA).
    rewrite Forall_forall in Hw. specialize (Hw v Hv). lia.
  - intros H0 r Hin. apply list_elem_of_In, elem_of_block_range in Hin.
    apply (Hentry r Hin). by apply placed_weight_none_removed.
Qed.

End CheckProofs.

Section VirtualFrame.
Context `{Ext : Externals}.

(** ** A virtual move changes no counter *)

Lemma same_counters_eq (st st' : BlockState) :
  same_counters st st' <->
  counters st = counters st'
  /\ match coupled_state st, coupled_state st' with
     | Some c, Some c' => same_counters c c'
     | None, None => True
     | _, _ => False
     end.
Proof. destruct st. reflexivity. Qed.

Lemma coupling_depth_eq (st : BlockState) :
  coupling_depth st = match coupled_state st with
                      | Some c => S (coupling_depth c)
                      | None => O
                      end.
Proof. destruct st. reflexivity. Qed.

Lemma same_counters_refl (st : BlockState) : same_counters st st.
Proof.
  remember (coupling_depth st) as n eqn:Hn. revert st Hn.
  induction n as [|n IH]; intros st Hn; rewrite coupling_depth_eq in Hn;
    apply same_counters_eq; (split; [reflexivity|]);
    destruct (coupled_state st) as [c|]; try discriminate; try exact I.
  apply IH. by injection Hn.
Qed.

Lemma same_counters_trans (st1 st2 st3 : BlockState) :
  same_counters st1 st2 -> same_counters st2 st3 -> same_counters st1 st3.
Proof.
  remember (coupling_depth st1) as n eqn:Hn. revert st1 st2 st3 Hn.
  induction n as [|n IH]; intros st1 st2 st3 Hn H12 H23;
    rewrite coupling_depth_eq in Hn;
    apply same_counters_eq in H12 as [Ha Hb], H23 as [Hc Hd];
    apply same_counters_eq; (split; [congruence|]);
    destruct (coupled_state st1) as [c1|]; try discriminate;
    destruct (coupled_state st2) as [c2|]; try done;
    destruct (coupled_state st3) as [c3|]; try done.
  apply (IH c1 c2 c3); [by injection Hn|done|done].
Qed.

(** A state and one that differs from it in its coupled state only. *)
Lemma same_counters_coupled (st st' : BlockState) (c c' : BlockState) :
  counters st' = counters st -> coupled_state st = Some c -> coupled_state st' = Some c' ->
  same_counters c c' -> same_counters st st'.
Proof.
  intros Hcnt Hc Hc' Hs. apply same_counters_eq. split; [done|]. by rewrite Hc, Hc'.
Qed.

Lemma same_counters_level (st st' : BlockState) :
  counters st' = counters st -> coupled_state st' = coupled_state st ->
  same_counters st st'.
Proof.
  intros Hcnt Hc. apply same_counters_eq. split; [done|]. rewrite Hc.
  destruct (coupled_state st); [apply same_counters_refl|exact I].
Qed.

Lemma call_coupled_counters (m : BlockState -> outcome BlockState float) (st : BlockState) :
  (forall c, same_counters c (final_state (m c))) ->
  same_counters st (final_state (call_coupled m st)).
Proof.
  intros Hm. unfold call_coupled. destruct (coupled_state st) as [c|] eqn:Hc.
  - specialize (Hm c).
    destruct (m c) as [a c'|e c']; simpl in *;
      by apply (same_counters_coupled st _ c c').
  - apply same_counters_refl.
Qed.

Lemma virtual_move_coupled_counters
    (parent : N -> N -> N -> entropy_args_t -> BlockState -> outcome BlockState float)
    (v r nr : N) (dS : float) (st : BlockState) :
  (forall a r1 r2 ea c, same_counters c (final_state (parent a r1 r2 ea c))) ->
  same_counters st (final_state (virtual_move_coupled parent v r nr dS st)).
Proof.
  intros Hp. unfold virtual_move_coupled.
  destruct (coupled_state st) as [c0|] eqn:Hc0; [|apply same_counters_refl].
  destruct (0 <? vweight st v); [|apply same_counters_refl].
  destruct (negb _); [|apply same_counters_refl].
  unfold bind, ret.
  set (m1 := call_coupled (parent r (size_t_of_int (pget (bclabel st) r)) null_group
                             (coupled_entropy_args st))).
  set (m2 := call_coupled (parent nr null_group (size_t_of_int (pget (bclabel st) r))
                             (coupled_entropy_args st))).
  assert (H1 : forall s, same_counters s (final_state (m1 s))).
  { intros s. apply call_coupled_counters. intros c. apply Hp. }
  assert (H2 : forall s, same_counters s (final_state (m2 s))).
  { intros s. apply call_coupled_counters. intros c. apply Hp. }
  destruct (negb (N.eqb r null_group) && (pget (wr st) r =? vweight st v)).
  - specialize (H1 st). destruct (m1 st) as [d s1|e s1]; simpl in *; [|exact H1].
    destruct (negb (N.eqb nr null_group) && (pget (wr st) nr =? 0)); [|exact H1].
    specialize (H2 s1). apply (same_counters_trans st s1); [exact H1|].
    destruct (m2 s1); exact H2.
  - destruct (negb (N.eqb nr null_group) && (pget (wr st) nr =? 0));
      [|apply same_counters_refl].
    specialize (H2 st). destruct (m2 st); exact H2.
Qed.

Lemma virtual_move_at_counters (depth : nat) (v r nr : N) (ea : entropy_args_t)
    (st : BlockState) :
  same_counters st (final_state (virtual_move_at depth v r nr ea st)).
Proof.
  revert v r nr ea st. induction depth as [|d IH]; intros v r nr ea st;
    rewrite virtual_move_at_eq;
    (destruct (N.eqb r nr); [apply same_counters_refl|]);
    (destruct (_ && negb (allow_move st r nr true)); [apply same_counters_refl|]);
    unfold bind;
    pose proof (virtual_move_local_frame v r nr ea st) as (H1 & H2 & H3 & H4 & H5 & H6 & _);
    (assert (Hl : same_counters st (final_state (virtual_move_local v r nr ea st)))
       by (apply same_counters_level; [unfold counters; congruence|exact H6]));
    (destruct (virtual_move_local v r nr ea st) as [dS st1|e st1]; simpl in Hl; [|exact Hl]);
    apply (same_counters_trans st st1); try exact Hl;
    apply virtual_move_coupled_counters.
  - intros. apply same_counters_refl.
  - intros. apply IH.
Qed.

(** X5. A virtual move is virtual: whatever [virtual_move(v, r, nr, ea)]
    returns or throws, it leaves [wr], the two pools, [mrs], [mrp], [mrm],
    [b], [bclabel], the graph and the weights as they were, on the level it
    is called on and on every level coupled above it. *)
Theorem virtual_move_is_virtual (st : BlockState) (v r nr : N) (ea : entropy_args_t) :
  same_counters st (final_state (virtual_move v r nr ea st)).
Proof. unfold virtual_move. apply virtual_move_at_counters. Qed.

End VirtualFrame.

Section SweepMore.
Context `{SExt : SweepExternals}.

(** ** What a sweep leaves alone, and what it counts *)

Lemma alter_at_length {A : Type} (f : A -> A) (i : Z) (l : list A) :
  length (alter_at f i l) = length l.
Proof. unfold alter_at. destruct (0 <=? i); [apply length_alter|reflexivity]. Qed.

Lemma record_visit_constants (i : Z) (st : MulticanonicalState) :
  sweep_constants (record_visit i st) = sweep_constants st
  /\ (refine st = false -> mc_f (record_visit i st) = mc_f st).
Proof.
  unfold sweep_constants. simpl. rewrite !alter_at_length. split; [reflexivity|].
  by intros ->.
Qed.

Lemma sweep_iter_constants (x : sweep_vars) :
  sweep_constants (sv_state (sweep_iter x).1) = sweep_constants (sv_state x)
  /\ (refine (sv_state x) = false ->
      mc_f (sv_state (sweep_iter x).1) = mc_f (sv_state x)).
Proof.
  unfold sweep_iter.
  destruct (uniform_sample (vlist (sv_state x)) (sv_rng x)) as [v rng1].
  destruct (N.eqb (node_weight v (mc_inner (sv_state x))) 0); [done|].
  destruct (move_proposal v rng1 (mc_inner (sv_state x))) as [[s rng2] in1].
  destruct (virtual_move_dS v s in1) as [dS in2].
  destruct (accept_move (sv_state x) (sv_i x) _ (sv_S x) dS rng2) as [accept rng3].
  cbn [fst sv_state].
  match goal with
  | |- context [record_visit ?i ?s] => destruct (record_visit_constants i s) as [H1 H2]
  end.
  split; [exact H1|exact H2].
Qed.

(** X6. A sweep reads [_S], the entropy range, the target bin, the
    iteration budget and the vertex list of the state and never writes
    them (the entropy it ends with is returned, not stored); the histogram
    and the density keep their lengths; and without [_refine] the increment
    [_f] stays as it was. *)
Theorem sweep_constants_kept (n : nat) (x : sweep_vars) :
  sweep_constants (sv_state (sweep_loop n x)) = sweep_constants (sv_state x)
  /\ (refine (sv_state x) = false ->
      mc_f (sv_state (sweep_loop n x)) = mc_f (sv_state x)).
Proof.
  revert x. induction n as [|n IH]; intros x; simpl; [done|].
  destruct (sweep_iter_constants x) as [H1 H2].
  destruct (sweep_iter x) as [x' stop]. simpl in H1, H2.
  destruct stop; [done|].
  destruct (IH x') as [H3 H4]. split; [congruence|].
  intros Hr. rewrite H4, H2; [reflexivity|exact Hr|].
  unfold sweep_constants in H1. injection H1 as _ _ _ _ _ _ Hrf _ _. congruence.
Qed.

(** The visits one increment adds. *)
Lemma visits_alter_at (n : nat) (i : Z) (l : list N) :
  hist_room (S n) l = true ->
  visits (alter_at count_up i l)
  = visits l + (if bool_decide (0 <= i < Z.of_nat (length l)) then 1 else 0).
Proof.
  intros Hroom. unfold alter_at, visits. destruct (Z.leb_spec 0 i) as [Hi|Hi].
  - assert (Hk : forall (k : nat) (l : list N), hist_room (S n) l = true ->
               sumZ Z.of_N (alter count_up k l)
               = sumZ Z.of_N l + (if bool_decide (k < length l)%nat then 1 else 0)).
    { clear. intros k l. revert k. induction l as [|h l IH]; intros k Hroom.
      - rewrite bool_decide_eq_false_2 by (simpl; lia). reflexivity.
      - apply hist_room_cons in Hroom as [Hh Hl]. destruct k as [|k].
        + change (alter count_up 0%nat (h :: l)) with (count_up h :: l).
          change (sumZ Z.of_N (count_up h :: l)) with (Z.of_N (count_up h) + sumZ Z.of_N l).
          change (sumZ Z.of_N (h :: l)) with (Z.of_N h + sumZ Z.of_N l).
          destruct (count_up_room n h Hh) as [-> _].
          rewrite bool_decide_eq_true_2 by (simpl; lia). lia.
        + change (alter count_up (S k) (h :: l)) with (h :: alter count_up k l).
          change (sumZ Z.of_N (h :: alter count_up k l))
            with (Z.of_N h + sumZ Z.of_N (alter count_up k l)).
          change (sumZ Z.of_N (h :: l)) with (Z.of_N h + sumZ Z.of_N l).
          rewrite (IH k Hl).
          destruct (decide (k < length l)%nat) as [Hk|Hk].
          * rewrite !bool_decide_eq_true_2 by (simpl; lia). lia.
          * rewrite !bool_decide_eq_false_2 by (simpl; lia). lia. }
    rewrite (Hk _ _ Hroom). repeat case_bool_decide; lia.
  - case_bool_decide; lia.
Qed.

(** One turn of the loop on the two counts: at most one move and one visit
    more; with every bin a bin, no move without a visit. *)
Lemma sweep_iter_counts (n : nat) (x : sweep_vars) :
  hist_room (S n) (hist (sv_state x)) = true ->
  Z.of_N (sv_nmoves x) + 1 < 2 ^ 64 ->
  let x1 := (sweep_iter x).1 in
  let M := length (hist (sv_state x)) in
  length (hist (sv_state x1)) = M
  /\ hist_room n (hist (sv_state x1)) = true
  /\ 0 <= Z.of_N (sv_nmoves x1) - Z.of_N (sv_nmoves x) <= 1
  /\ 0 <= visits (hist (sv_state x1)) - visits (hist (sv_state x)) <= 1
  /\ ((forall a b S, 0 <= get_bin a b M S < Z.of_nat M) ->
      0 <= sv_i x < Z.of_nat M ->
      0 <= sv_i x1 < Z.of_nat M
      /\ Z.of_N (sv_nmoves x1) - Z.of_N (sv_nmoves x)
         <= visits (hist (sv_state x1)) - visits (hist (sv_state x))).
Proof.
  intros Hroom Hnm. unfold sweep_iter.
  destruct (uniform_sample (vlist (sv_state x)) (sv_rng x)) as [v rng1].
  destruct (N.eqb (node_weight v (mc_inner (sv_state x))) 0).
  { cbn [fst sv_state sv_nmoves sv_i]. split; [reflexivity|].
    split; [by apply hist_room_weaken|]. repeat split; try lia; tauto. }
  destruct (move_proposal v rng1 (mc_inner (sv_state x))) as [[s rng2] in1].
  destruct (virtual_move_dS v s in1) as [dS in2].
  destruct (accept_move (sv_state x) (sv_i x) _ (sv_S x) dS rng2) as [accept rng3].
  cbn [fst sv_state sv_nmoves sv_i record_visit with_inner hist].
  set (i := if accept then _ else sv_i x).
  destruct (visit_counts n i (hist (sv_state x)) Hroom) as (_ & Hr & _).
  pose proof (visits_alter_at n i (hist (sv_state x)) Hroom) as Hv.
  split; [apply alter_at_length|]. split; [exact Hr|].
  assert (Hm : 0 <= Z.of_N (if accept then wrap64 (Z.of_N (sv_nmoves x) + 1)
                            else sv_nmoves x) - Z.of_N (sv_nmoves x)
               <= if accept then 1 else 0).
  { destruct accept; [|lia]. rewrite wrap64_small by lia. lia. }
  split; [destruct accept; lia|].
  split; [rewrite Hv; case_bool_decide; lia|].
  intros Hbin Hi.
  assert (Hi' : 0 <= i < Z.of_nat (length (hist (sv_state x)))).
  { unfold i. destruct accept; [apply Hbin|exact Hi]. }
  split; [exact Hi'|]. rewrite Hv, bool_decide_eq_true_2 by exact Hi'.
  destruct accept; lia.
Qed.

Lemma sweep_loop_counts (n : nat) (x : sweep_vars) :
  hist_room n (hist (sv_state x)) = true ->
  Z.of_N (sv_nmoves x) + Z.of_nat n < 2 ^ 64 ->
  let x' := sweep_loop n x in
  let M := length (hist (sv_state x)) in
  0 <= Z.of_N (sv_nmoves x') - Z.of_N (sv_nmoves x) <= Z.of_nat n
  /\ 0 <= visits (hist (sv_state x')) - visits (hist (sv_state x)) <= Z.of_nat n
  /\ ((forall a b S, 0 <= get_bin a b M S < Z.of_nat M) ->
      0 <= sv_i x < Z.of_nat M ->
      Z.of_N (sv_nmoves x') - Z.of_N (sv_nmoves x)
      <= visits (hist (sv_state x')) - visits (hist (sv_state x))).
Proof.
  revert x. induction n as [|n IH]; intros x Hroom Hnm; simpl.
  - repeat split; lia.
  - destruct (sweep_iter_counts n x Hroom) as (HM & Hr & Hm & Hv & Hb); [lia|].
    destruct (sweep_iter x) as [x1 stop]. cbn [fst] in HM, Hr, Hm, Hv, Hb.
    destruct stop.
    + split; [lia|]. split; [lia|]. intros H1 H2. destruct (Hb H1 H2). lia.
    + destruct (IH x1 Hr) as (Hm' & Hv' & Hb'); [lia|]. rewrite HM in Hb'.
      split; [lia|]. split; [lia|]. intros H1 H2. destruct (Hb H1 H2) as [H3 H4].
      specialize (Hb' H1 H3). lia.
Qed.

(** X7. A sweep of [niter] turns on a histogram no count of which can
    overflow accepts at most [niter] moves and records at most [niter]
    visits; when [get_bin] always returns a bin of the histogram, every
    accepted move is a recorded visit, so the number of moves returned is
    at most the number of visits added. *)
Theorem sweep_counts (st : MulticanonicalState) (rng : rng_t) :
  hist_room (N.to_nat (niter st)) (hist st) = true ->
  Z.of_N (niter st) < 2 ^ 64 ->
  let x := sweep_loop (N.to_nat (niter st)) (sweep_start st rng) in
  let M := length (hist st) in
  (sv_nmoves x <= niter st)%N
  /\ 0 <= visits (hist (sv_state x)) - visits (hist st) <= Z.of_N (niter st)
  /\ ((forall a b S, 0 <= get_bin a b M S < Z.of_nat M) ->
      Z.of_N (sv_nmoves x) <= visits (hist (sv_state x)) - visits (hist st)).
Proof.
  intros Hroom Hn.
  destruct (sweep_loop_counts (N.to_nat (niter st)) (sweep_start st rng) Hroom)
    as (Hm & Hv & Hb).
  { simpl. lia. }
  simpl in Hm, Hv, Hb. split; [lia|]. split; [lia|].
  intros Hbin. specialize (Hb Hbin (Hbin _ _ _)). lia.
Qed.

End SweepMore.

Section ProposalProofs.
Context `{PExt : ProposalExternals}.

(** ** Block proposals *)

Lemma sample_random_block_valid (A : gset N) (st : BlockState) (rng : prng_t) :
  consistent A st -> (0 < B st)%N ->
  (forall l q, l ≠ [] -> (uniform_block l q).1 ∈ l) ->
  ((sample_random_block rng st).1 < B st)%N.
Proof.
  intros Hc HB Hu.
  pose proof (cs_pools A st Hc) as Hp. unfold pools_ok, weight_part in Hp.
  destruct Hp as [HBr _ Hhd Hnd _ _ _ Hlen Hem Hca]. simpl in *.
  assert (Hreal : forall s, s ∈ candidate_blocks st -> s ≠ null_group -> (s < B st)%N).
  { intros s Hs Hne. apply Hca in Hs as [?|[? _]]; done. }
  unfold sample_random_block.
  destruct (candidate_blocks st) as [|h tl] eqn:Hcp; [discriminate|].
  injection Hhd as ->.
  destruct (empty_blocks st) as [|e el] eqn:Hep.
  - simpl in Hlen. assert (Htl : tl ≠ []) by (destruct tl; [simpl in Hlen; lia|done]).
    pose proof (Hu tl rng Htl) as Hin. simpl.
    apply NoDup_cons in Hnd as [Hnin _].
    apply Hreal; [by right|]. intros Heq. rewrite Heq in Hin. done.
  - pose proof (Hu (null_group :: tl) rng) as Hin.
    destruct (uniform_block (null_group :: tl) rng) as [s rng1]. simpl in Hin.
    destruct (N.eqb_spec s null_group) as [->|Hne].
    + pose proof (Hu (e :: el) rng1) as Hin'.
      destruct (uniform_block (e :: el) rng1) as [s' rng2]. simpl in *.
      apply Hem, Hin'. done.
    + simpl. apply Hreal; [by apply Hin|done].
Qed.

(** X8. On a consistent state with at least one block, and with
    [uniform_sample] returning an element of the range it is given and
    [sample_edge] an edge of the graph, [sample_block(v, c, rng)] returns
    a block of the block graph, never the sentinel, whatever [c] is; and it
    changes no counter of the state. *)
Theorem sample_block_valid (A : gset N) (st : BlockState) (ns : sampler_t) (v : N)
    (c : float) (rng : prng_t) :
  consistent A st -> (0 < B st)%N ->
  (forall l q, l ≠ [] -> (uniform_block l q).1 ∈ l) ->
  (forall t eg q, edge_ok (g st) (egroups_sample_edge t eg q).1) ->
  let res := sample_block ns v c rng st in
  (res.1.1 < B st)%N /\ res.1.1 ≠ null_group
  /\ counters res.2 = counters st /\ coupled_state res.2 = coupled_state st.
Proof.
  intros Hc HB Hu He.
  assert (Hnull : forall s, (s < B st)%N -> s ≠ null_group).
  { intros s Hs. apply (null_group_not_block (B st)); [|done].
    pose proof (cs_pools A st Hc) as Hp. unfold pools_ok, weight_part in Hp.
    by destruct Hp. }
  assert (Hgoal : let res := sample_block ns v c rng st in
                  (res.1.1 < B st)%N
                  /\ counters res.2 = counters st /\ coupled_state res.2 = coupled_state st).
  { pose proof (sample_random_block_valid A st rng Hc HB Hu) as Hrand.
    unfold sample_block.
    destruct (sample_random_block rng st) as [s rng1]. simpl in Hrand.
    destruct (negb (isinf c) && negb (sampler_empty ns v)); [|by simpl].
    destruct (sampler_sample ns v rng1) as [u rng2].
    set (p_rand := if (0 <? c)%float then _ else 0%float).
    destruct (if (c =? 0)%float then (true, rng2)
              else let '(x, rng') := unit_real rng2 in ((p_rand <=? x)%float, rng'))
      as [take rng3].
    destruct take; [|by simpl].
    set (st1 := if egroups_empty (egroups st) then _ else st).
    assert (Hst1 : b st1 = b st /\ counters st1 = counters st
                   /\ coupled_state st1 = coupled_state st).
    { unfold st1. by destruct (egroups_empty (egroups st)). }
    destruct Hst1 as (Hb1 & Hc1 & Hcs1).
    specialize (He (blk st u) (egroups st1) rng3).
    destruct (egroups_sample_edge (blk st u) (egroups st1) rng3) as [e rng4].
    simpl in He. destruct He as [Hsrc Htgt]. cbn [fst snd].
    pose proof (cs_blk A st Hc) as Hblk. rewrite Forall_forall in Hblk.
    split; [|by split].
    rewrite !(blk_parts _ _ _ Hb1).
    destruct (N.eqb (blk st (target e)) (blk st u)); apply Hblk, elem_of_vertices; done. }
  destruct Hgoal as (H1 & H2 & H3). split; [exact H1|]. split; [by apply Hnull|by split].
Qed.

End ProposalProofs.

(** ** Merging degree histograms *)

Lemma hist_add_fold (l : list (N * N * N)) (h : gmap (N * N) N) (k : N * N) :
  Z.of_N (default 0%N (h !! k)) < 2 ^ 64 ->
  Z.of_N (default 0%N (foldl hist_add h l !! k)) < 2 ^ 64
  /\ Z.of_N (default 0%N (foldl hist_add h l !! k))
     = (Z.of_N (default 0%N (h !! k)) + deg_count l k) mod 2 ^ 64.
Proof.
  revert h. induction l as [|kn l IH]; intros h Hh; simpl.
  - split; [exact Hh|]. unfold deg_count. simpl. rewrite Z.add_0_r, Z.mod_small; lia.
  - assert (Hstep : Z.of_N (default 0%N (hist_add h kn !! k)) < 2 ^ 64
                    /\ Z.of_N (default 0%N (hist_add h kn !! k))
                       = (Z.of_N (default 0%N (h !! k))
                          + (if decide (kn.1 = k) then Z.of_N kn.2 else 0)) mod 2 ^ 64).
    { unfold hist_add. destruct (decide (kn.1 = k)) as [->|Hne].
      - rewrite lookup_insert_eq. simpl. rewrite wrap64_of_N.
        split; [apply Z.mod_pos_bound; lia|reflexivity].
      - rewrite lookup_insert_ne by done. split; [exact Hh|].
        rewrite Z.add_0_r, Z.mod_small; lia. }
    destruct Hstep as [Hlt Hval].
    destruct (IH (hist_add h kn) Hlt) as [Hlt' Hval']. split; [exact Hlt'|].
    rewrite Hval', Hval. unfold deg_count. simpl.
    rewrite Zplus_mod_idemp_l. f_equal. lia.
Qed.

(** The count a histogram, written out as a vector, gives a degree pair. *)
Lemma deg_count_map_to_list (h : gmap (N * N) N) (k : N * N) :
  deg_count (map_to_list h) k = Z.of_N (default 0%N (h !! k)).
Proof.
  unfold deg_count. destruct (h !! k) as [c|] eqn:Hk; simpl.
  - rewrite (sumZ_single _ (map_to_list h) (k, c)).
    + simpl. by destruct (decide (k = k)).
    + apply NoDup_map_to_list.
    + by apply elem_of_map_to_list.
    + intros [k' c'] Hin Hne. simpl. destruct (decide (k' = k)) as [->|]; [|reflexivity].
      apply elem_of_map_to_list in Hin. congruence.
  - etrans; [|apply (sumZ_zero (map_to_list h))]. apply sumZ_ext.
    intros [k' c'] Hin. simpl. destruct (decide (k' = k)) as [->|]; [|reflexivity].
    apply elem_of_map_to_list in Hin. congruence.
Qed.

(** X9. [merge_degs(u, v, degs)] conserves the degree histogram: in the
    vector it leaves for [v] every degree pair stands once, with the sum (a
    [size_t]) of the counts the two vectors gave it; the vector of [u] is
    empty when [u] is another vertex, and no other vertex is touched. Called
    with [u == v] it doubles every count. *)
Theorem merge_degs_conserves (u v : N) (d : degs_map) :
  let d' := merge_degs u v d in
  (forall k, deg_count (degs_at d' v) k
             = (deg_count (degs_at d u) k + deg_count (degs_at d v) k) mod 2 ^ 64)
  /\ NoDup (degs_at d' v).*1
  /\ (u ≠ v -> degs_at d' u = [])
  /\ (forall w, w ≠ u -> w ≠ v -> degs_at d' w = degs_at d w).
Proof.
  unfold merge_degs. set (hist := foldl hist_add _ _).
  assert (Hv : degs_at (<[v := map_to_list hist]> (<[v := []]> (<[u := []]> d))) v
               = map_to_list hist).
  { unfold degs_at. by rewrite lookup_insert_eq. }
  cbv zeta. rewrite Hv. split; [|split; [|split]].
  - intros k. rewrite deg_count_map_to_list. unfold hist.
    destruct (hist_add_fold (degs_at d u) ∅ k) as [Hlt Hval].
    { rewrite lookup_empty. simpl. lia. }
    destruct (hist_add_fold (degs_at d v) (foldl hist_add ∅ (degs_at d u)) k Hlt)
      as [_ Hval'].
    rewrite Hval', Hval, lookup_empty. simpl. rewrite Zplus_mod_idemp_l. reflexivity.
  - apply NoDup_fst_map_to_list.
  - intros Hne. unfold degs_at.
    rewrite lookup_insert_ne, lookup_insert_ne, lookup_insert_eq by done. reflexivity.
  - intros w Hu Hw. unfold degs_at.
    rewrite !lookup_insert_ne by done. reflexivity.
Qed.

Section Congruences.

(** ** The deltas of a move, against the graph *)

(** Congruence of [int32_t] values. *)
Local Notation "x ≡ y" := (x mod 2 ^ 32 = y mod 2 ^ 32) (at level 70, no associativity).

Lemma cong_refl (x : Z) : x ≡ x.
Proof. reflexivity. Qed.

Lemma cong_add (x x' y y' : Z) : x ≡ x' -> y ≡ y' -> x + y ≡ x' + y'.
Proof. intros H1 H2. rewrite Z.add_mod, H1, H2, <- Z.add_mod by lia. reflexivity. Qed.

Lemma cong_trans (x y z : Z) : x ≡ y -> y ≡ z -> x ≡ z.
Proof. congruence. Qed.

Lemma cong_wrap32 (x : Z) : wrap32 x ≡ x.
Proof. apply wrap32_mod. Qed.

Lemma cong_opp (x y : Z) : x ≡ y -> - x ≡ - y.
Proof.
  intros H. replace (- x) with (0 - x) by lia. replace (- y) with (0 - y) by lia.
  rewrite Zminus_mod, H, <- Zminus_mod. reflexivity.
Qed.

Lemma edge_key_idem (dir : bool) (r s : N) :
  edge_key dir (edge_key dir r s).1 (edge_key dir r s).2 = edge_key dir r s.
Proof.
  unfold edge_key. destruct dir; [reflexivity|].
  destruct (N.leb_spec r s) as [H|H]; simpl.
  - by rewrite (proj2 (N.leb_le _ _) H).
  - rewrite (proj2 (N.leb_le s r)) by lia. reflexivity.
Qed.

Lemma edge_key_sym (r s : N) : edge_key false r s = edge_key false s r.
Proof. apply edge_key_undirected. by right. Qed.

Lemma delta_sum_cons (dir : bool) (k : N * N) (e : N * N * Z) (l : list (N * N * Z)) :
  delta_sum dir k (e :: l)
  = (if decide (edge_key dir e.1.1 e.1.2 = k) then e.2 else 0) + delta_sum dir k l.
Proof. reflexivity. Qed.

Lemma delta_sum_insert (dir : bool) (t s : N) (d : Z) (l : list (N * N * Z)) (k : N * N) :
  delta_sum dir k (insert_delta_list (edge_key dir t s) d l)
  ≡ delta_sum dir k l + (if decide (edge_key dir t s = k) then d else 0).
Proof.
  induction l as [|[[a c] d0] l IH].
  - change (insert_delta_list (edge_key dir t s) d [])
      with [((edge_key dir t s).1, (edge_key dir t s).2, d)].
    rewrite delta_sum_cons. cbn [fst snd]. rewrite edge_key_idem.
    change (delta_sum dir k []) with 0. f_equal. lia.
  - cbn [insert_delta_list].
    assert (Hkeep : delta_sum dir k ((a, c, d0) :: insert_delta_list (edge_key dir t s) d l)
                    ≡ delta_sum dir k ((a, c, d0) :: l)
                      + (if decide (edge_key dir t s = k) then d else 0)).
    { rewrite !delta_sum_cons. cbn [fst snd]. rewrite <- Z.add_assoc.
      apply cong_add; [reflexivity|exact IH]. }
    destruct (N.eqb_spec a (edge_key dir t s).1) as [Ha|Ha];
      [destruct (N.eqb_spec c (edge_key dir t s).2) as [Hc|Hc]|];
      cbn [andb]; try exact Hkeep.
    rewrite !delta_sum_cons. cbn [fst snd]. rewrite Ha, Hc, edge_key_idem.
    destruct (decide (edge_key dir t s = k)).
    + replace (d0 + delta_sum dir k l + d) with ((d0 + d) + delta_sum dir k l) by lia.
      apply cong_add; [apply cong_wrap32|reflexivity].
    + rewrite Z.add_0_r. reflexivity.
Qed.

Lemma delta_sum_take_and_put (dir : bool) (r nr : N) (pw : N -> N * N) (w : Z)
    (m : EntrySet) (k : N * N) :
  delta_sum dir k (entries (take_and_put dir r nr pw w m))
  ≡ delta_sum dir k (entries m) + put_delta dir r nr pw w k.
Proof.
  unfold take_and_put, put_delta.
  set (m1 := if N.eqb r null_group then m else _).
  assert (H1 : delta_sum dir k (entries m1)
               ≡ delta_sum dir k (entries m)
                 + (if bool_decide (r ≠ null_group ∧ edge_key dir (pw r).1 (pw r).2 = k)
                    then - w else 0)).
  { unfold m1. destruct (N.eqb_spec r null_group) as [Hr|Hr].
    - rewrite bool_decide_eq_false_2 by tauto. by rewrite Z.add_0_r.
    - simpl. eapply cong_trans; [apply delta_sum_insert|].
      apply cong_add; [reflexivity|].
      destruct (decide (edge_key dir (pw r).1 (pw r).2 = k)).
      + by rewrite bool_decide_eq_true_2.
      + rewrite bool_decide_eq_false_2 by tauto. reflexivity. }
  destruct (N.eqb_spec nr null_group) as [Hn|Hn].
  - rewrite (bool_decide_eq_false_2 (nr ≠ null_group ∧ _)) by tauto.
    by rewrite Z.add_0_r.
  - simpl. eapply cong_trans; [apply delta_sum_insert|].
    rewrite Z.add_assoc. apply cong_add; [exact H1|].
    destruct (decide (edge_key dir (pw nr).1 (pw nr).2 = k)).
    + by rewrite bool_decide_eq_true_2.
    + rewrite bool_decide_eq_false_2 by tauto. reflexivity.
Qed.

Lemma entries_out_fold (v r nr : N) (bm : gmap N Z) (dir : bool) (ew : N -> Z)
    (efilt : N -> bool) (k : N * N) (l : list edge_t) (m : EntrySet) :
  delta_sum dir k (entries (foldl (entries_out_step v r nr bm dir ew efilt) m l))
  ≡ delta_sum dir k (entries m)
    + sumZ (fun e => if efilt (eidx e) || N.eqb (target e) v then 0
                     else put_delta dir r nr
                            (fun x => (x, size_t_of_int (pget bm (target e))))
                            (ew (eidx e)) k) l.
Proof.
  revert m. induction l as [|e l IH]; intros m.
  - simpl. by rewrite Z.add_0_r.
  - cbn [foldl]. eapply cong_trans; [apply IH|].
    change (sumZ ?f (e :: l)) with (f e + sumZ f l). cbv beta.
    rewrite Z.add_assoc. apply cong_add; [|reflexivity].
    unfold entries_out_step. destruct (efilt (eidx e) || N.eqb (target e) v).
    + by rewrite Z.add_0_r.
    + apply delta_sum_take_and_put.
Qed.

Lemma entries_in_fold (v r nr : N) (bm : gmap N Z) (dir : bool) (ew : N -> Z)
    (efilt : N -> bool) (k : N * N) (l : list edge_t) (m : EntrySet) :
  delta_sum dir k (entries (foldl (entries_in_step v r nr bm dir ew efilt) m l))
  ≡ delta_sum dir k (entries m)
    + sumZ (fun e => if efilt (eidx e) || N.eqb (source e) v then 0
                     else put_delta dir r nr
                            (fun x => (size_t_of_int (pget bm (source e)), x))
                            (ew (eidx e)) k) l.
Proof.
  revert m. induction l as [|e l IH]; intros m.
  - simpl. by rewrite Z.add_0_r.
  - cbn [foldl]. eapply cong_trans; [apply IH|].
    change (sumZ ?f (e :: l)) with (f e + sumZ f l). cbv beta.
    rewrite Z.add_assoc. apply cong_add; [|reflexivity].
    unfold entries_in_step. destruct (efilt (eidx e) || N.eqb (source e) v).
    + by rewrite Z.add_0_r.
    + apply delta_sum_take_and_put.
Qed.

Lemma sumZ_flat_map {A C : Type} (f : C -> Z) (F : A -> list C) (l : list A) :
  sumZ f (flat_map F l) = sumZ (fun x => sumZ f (F x)) l.
Proof.
  induction l as [|x l IH]; [reflexivity|].
  simpl. rewrite sumZ_app, IH. reflexivity.
Qed.

Lemma sumZ_filter {A : Type} (f : A -> Z) (P : A -> bool) (l : list A) :
  sumZ f (List.filter P l) = sumZ (fun x => if P x then f x else 0) l.
Proof.
  induction l as [|x l IH]; [reflexivity|].
  simpl. destruct (P x); simpl; rewrite IH; reflexivity.
Qed.

Lemma sumZ_scale {A : Type} (c : Z) (f : A -> Z) (l : list A) :
  sumZ (fun x => c * f x) l = c * sumZ f l.
Proof. induction l as [|x l IH]; simpl; [lia|]. rewrite IH. lia. Qed.

Lemma sumZ_opp {A : Type} (f : A -> Z) (l : list A) :
  sumZ (fun x => - f x) l = - sumZ f l.
Proof. induction l as [|x l IH]; simpl; [lia|]. rewrite IH. lia. Qed.

Lemma foldr_sumZ {A : Type} (f : A -> Z) (l : list A) :
  foldr (fun e acc => f e + acc) 0 l = sumZ f l.
Proof. reflexivity. Qed.

Lemma put_delta_sum {A : Type} (dir : bool) (r nr : N) (pw : N -> N * N) (k : N * N)
    (w : A -> Z) (l : list A) :
  put_delta dir r nr pw (sumZ w l) k = sumZ (fun x => put_delta dir r nr pw (w x) k) l.
Proof.
  unfold put_delta. induction l as [|x l IH]; simpl.
  - repeat case_bool_decide; lia.
  - rewrite <- IH. repeat case_bool_decide; lia.
Qed.

Lemma put_delta_zero (dir : bool) (r nr : N) (pw : N -> N * N) (k : N * N) :
  put_delta dir r nr pw 0 k = 0.
Proof. unfold put_delta. repeat case_bool_decide; lia. Qed.

Lemma sumZ_filter_bool {A : Type} (f : A -> Z) (p : A -> bool) (l : list A) :
  sumZ f (filter p l) = sumZ (fun x => if p x then f x else 0) l.
Proof.
  induction l as [|x l IH]; [reflexivity|].
  rewrite filter_cons. change (sumZ ?h (x :: l)) with (h x + sumZ h l). cbv beta.
  destruct (decide (p x)) as [Hp|Hp].
  - apply Is_true_true in Hp. rewrite Hp.
    change (sumZ f (x :: filter p l)) with (f x + sumZ f (filter p l)). by rewrite IH.
  - apply Is_true_false in Hp. rewrite Hp. by rewrite IH.
Qed.

(** The pair an edge at [v] is filed under when [v] is in block [x]. *)
Local Abbreviation pair_at bm v s t :=
  (fun x : N => (if N.eqb s v then x else size_t_of_int (pget bm s),
                 if N.eqb t v then x else size_t_of_int (pget bm t))).

(** The deltas [move_entries] collects, edge by edge of the graph: every
    edge at [v] the filter lets through leaves the pair it is filed under
    with [v] in [r] and enters the pair it is filed under with [v] in
    [nr]. *)
Lemma move_entries_delta_filt (v r nr : N) (bm : gmap N Z) (gr : Graph) (ew : N -> Z)
    (efilt : N -> bool) (k : N * N) :
  delta_sum (directed gr) k (entries (move_entries v r nr bm gr ew efilt))
  ≡ sumZ (fun ie : N * (N * N) =>
            if bool_decide (ie.2.1 = v ∨ ie.2.2 = v) && negb (efilt ie.1)
            then put_delta (directed gr) r nr (pair_at bm v ie.2.1 ie.2.2) (ew ie.1) k
            else 0)
         (indexed 0%N (edge_list gr)).
Proof.
  unfold move_entries.
  set (dir := directed gr).
  set (loops := filter _ (out_edges_range v gr)).
  set (self_weight := foldr _ 0 loops).
  set (sw := if dir then self_weight else self_weight / 2).
  set (m0 := {| rnr := (r, nr); entries := [] |}).
  set (m1 := foldl _ (foldl _ m0 _) _).
  (* the self-loops *)
  assert (Hsw : sw = sumZ (fun ie : N * (N * N) =>
                             if N.eqb ie.2.1 v && N.eqb ie.2.2 v && negb (efilt ie.1)
                             then ew ie.1 else 0)
                          (indexed 0%N (edge_list gr))).
  { unfold sw, self_weight, loops. rewrite foldr_sumZ, sumZ_filter_bool.
    unfold out_edges_range. rewrite sumZ_flat_map. fold dir.
    assert (Hc : sumZ (fun x : N * (N * N) =>
                         sumZ (fun e : edge_t =>
                                 if negb (efilt (eidx e)) && N.eqb (target e) v
                                 then ew (eidx e) else 0)
                              (let '(i, (s, t)) := x in
                               (if N.eqb s v then [{| eidx := i; source := v; target := t |}]
                                else [])
                               ++ (if negb dir && N.eqb t v
                                   then [{| eidx := i; source := v; target := s |}] else [])))
                      (indexed 0%N (edge_list gr))
                 = (if dir then 1 else 2)
                   * sumZ (fun ie : N * (N * N) =>
                             if N.eqb ie.2.1 v && N.eqb ie.2.2 v && negb (efilt ie.1)
                             then ew ie.1 else 0)
                          (indexed 0%N (edge_list gr))).
    { rewrite <- sumZ_scale. apply sumZ_ext. intros [i [s t]] _. cbn [fst snd].
      rewrite sumZ_app.
      destruct (N.eqb s v) eqn:Hs, (N.eqb t v) eqn:Ht, dir, (efilt i) eqn:Hf; simpl;
        rewrite ?Hs, ?Ht, ?Hf; simpl; lia. }
    rewrite Hc. destruct dir; [lia|].
    rewrite Z.mul_comm, Z.div_mul by lia. reflexivity. }
  (* the last step of [move_entries] *)
  assert (Hlast : delta_sum dir k (entries (match loops with
                                            | [] => m1
                                            | _ :: _ =>
                                                take_and_put dir r nr (fun x => (x, x)) sw m1
                                            end))
                  ≡ delta_sum dir k (entries m1)
                    + put_delta dir r nr (fun x => (x, x)) sw k).
  { destruct loops as [|e0 loops'] eqn:Hl; [|apply delta_sum_take_and_put].
    assert (sw = 0) as ->.
    { unfold sw, self_weight. simpl. by destruct dir. }
    by rewrite put_delta_zero, Z.add_0_r. }
  eapply cong_trans; [exact Hlast|]. clear Hlast.
  (* the two loops over the edges of [v] *)
  assert (Hm1 : delta_sum dir k (entries m1)
                ≡ sumZ (fun e => if efilt (eidx e) || N.eqb (target e) v then 0
                                 else put_delta dir r nr
                                        (fun x => (x, size_t_of_int (pget bm (target e))))
                                        (ew (eidx e)) k) (out_edges_range v gr)
                  + sumZ (fun e => if efilt (eidx e) || N.eqb (source e) v then 0
                                   else put_delta dir r nr
                                          (fun x => (size_t_of_int (pget bm (source e)), x))
                                          (ew (eidx e)) k) (in_edges_range v gr)).
  { unfold m1. eapply cong_trans; [apply entries_in_fold|].
    apply cong_add; [|reflexivity].
    eapply cong_trans; [apply entries_out_fold|]. reflexivity. }
  eapply cong_trans; [apply cong_add; [exact Hm1|reflexivity]|]. clear Hm1.
  rewrite Hsw, put_delta_sum.
  unfold out_edges_range, in_edges_range. fold dir.
  assert (Hin : sumZ (fun e => if efilt (eidx e) || N.eqb (source e) v then 0
                               else put_delta dir r nr
                                      (fun x => (size_t_of_int (pget bm (source e)), x))
                                      (ew (eidx e)) k)
                     (if dir
                      then flat_map (fun ie : N * (N * N) =>
                                       let '(i, (s, t)) := ie in
                                       if N.eqb t v
                                       then [{| eidx := i; source := s; target := v |}]
                                       else [])
                                    (indexed 0%N (edge_list gr))
                      else [])
                = sumZ (fun ie : N * (N * N) =>
                          if dir && N.eqb ie.2.2 v && negb (N.eqb ie.2.1 v)
                             && negb (efilt ie.1)
                          then put_delta dir r nr
                                 (fun x => (size_t_of_int (pget bm ie.2.1), x)) (ew ie.1) k
                          else 0)
                       (indexed 0%N (edge_list gr))).
  { destruct dir.
    - rewrite sumZ_flat_map. apply sumZ_ext. intros [i [s t]] _. cbn [fst snd].
      destruct (N.eqb t v), (N.eqb s v) eqn:Hs, (efilt i) eqn:Hf; simpl;
        rewrite ?Hs, ?Hf; simpl; lia.
    - simpl. symmetry. apply sumZ_zero. }
  rewrite Hin, sumZ_flat_map, <- !sumZ_add. clear Hin.
  apply f_equal2; [|reflexivity]. apply sumZ_ext. intros [i [s t]] _. cbn [fst snd].
  rewrite sumZ_app.
  destruct (N.eqb_spec s v) as [Hs|Hs], (N.eqb_spec t v) as [Ht|Ht], dir eqn:Hd,
    (efilt i) eqn:Hf;
    cbn [negb andb orb sumZ foldr eidx source target];
    rewrite ?Hf;
    try rewrite (proj2 (N.eqb_eq _ _) Hs); try rewrite (proj2 (N.eqb_eq _ _) Ht);
    try rewrite (proj2 (N.eqb_neq _ _) Hs); try rewrite (proj2 (N.eqb_neq _ _) Ht);
    cbn [negb andb orb];
    try (rewrite bool_decide_eq_true_2 by tauto);
    try (rewrite bool_decide_eq_false_2 by tauto);
    cbn [negb andb orb];
    rewrite ?put_delta_zero; try lia.
  (* undirected, an edge into [v] *)
  unfold put_delta. cbv beta. cbn [fst snd].
  rewrite (edge_key_sym r), (edge_key_sym nr). lia.
Qed.

Lemma move_entries_delta (v r nr : N) (bm : gmap N Z) (gr : Graph) (ew : N -> Z)
    (k : N * N) :
  delta_sum (directed gr) k (entries (move_entries v r nr bm gr ew (fun _ => false)))
  ≡ sumZ (fun ie : N * (N * N) =>
            if bool_decide (ie.2.1 = v ∨ ie.2.2 = v)
            then put_delta (directed gr) r nr (pair_at bm v ie.2.1 ie.2.2) (ew ie.1) k
            else 0)
         (indexed 0%N (edge_list gr)).
Proof.
  rewrite move_entries_delta_filt. f_equal. apply sumZ_ext. intros ie _.
  cbn [negb]. by rewrite andb_true_r.
Qed.

End Congruences.

Section EdgeProofs.
Context `{Ext : Externals}.

(** ** The block edge counts follow the graph *)

Lemma mrs_at_bump_totals (r s : N) (d : Z) (st : BlockState) (k : N * N) :
  mrs_at (bump_totals r s d st) k = mrs_at st k.
Proof. unfold bump_totals, set_mrm, mrs_at. simpl. by destruct (mrm_is_mrp st). Qed.

Lemma mrs_at_apply_entry (Add : bool) (e : N * N * Z) (st : BlockState) (k : N * N) :
  int32_range (mrs_at st k) ->
  mrs_at (apply_entry Add e st) k
  = wrap32 (mrs_at st k
            + (if decide (edge_key (directed (g st)) e.1.1 e.1.2 = k) then e.2 else 0)).
Proof.
  intros Hr. destruct e as [[r s] d]. unfold apply_entry. cbn [fst snd].
  destruct (Z.eqb_spec d 0) as [->|Hd].
  - destruct (decide _); by rewrite Z.add_0_r, wrap32_id.
  - assert (H : mrs_at (bump_totals r s d (bump_mrs (edge_key (directed (g st)) r s) d st)) k
                = wrap32 (mrs_at st k
                          + (if decide (edge_key (directed (g st)) r s = k) then d else 0))).
    { rewrite mrs_at_bump_totals, mrs_at_bump_mrs.
      destruct (decide _) as [->|]; [reflexivity|]. by rewrite Z.add_0_r, wrap32_id. }
    destruct Add; cbn [negb]; [exact H|]. by rewrite mrs_at_drop_if_zero.
Qed.

Lemma mrs_at_apply_entries (Add : bool) (l : list (N * N * Z)) (st : BlockState)
    (k : N * N) :
  int32_range (mrs_at st k) ->
  mrs_at (foldl (fun s e => apply_entry Add e s) st l) k
  = wrap32 (mrs_at st k + delta_sum (directed (g st)) k l).
Proof.
  revert st. induction l as [|e l IH]; intros st Hr.
  - simpl. change (delta_sum _ k []) with 0. by rewrite Z.add_0_r, wrap32_id.
  - cbn [foldl]. rewrite IH.
    + destruct (apply_entry_frame Add e st) as (Hs & _).
      rewrite (static_g _ _ Hs), mrs_at_apply_entry by exact Hr.
      rewrite delta_sum_cons, wrap32_add_l. f_equal. lia.
    + rewrite mrs_at_apply_entry by exact Hr. apply wrap32_range.
Qed.

(** The counts depend on the pair map, the partition, the graph and the
    weights only. *)
Lemma pair_weight_parts (X : gset N) (st st' : BlockState) (k : N * N) :
  static_part st' = static_part st -> (forall u, blk st' u = blk st u) ->
  pair_weight st' X k = pair_weight st X k.
Proof.
  intros Hs Hb. unfold pair_weight. rewrite (static_g _ _ Hs).
  apply sumZ_ext. intros [i [s t]] _. cbn [fst snd].
  unfold edge_pair. cbn [fst snd]. rewrite (static_g _ _ Hs), !Hb, (static_eweight _ _ i Hs).
  reflexivity.
Qed.

Lemma edges_ok_parts (X : gset N) (st st' : BlockState) :
  static_part st' = static_part st -> mrs st' = mrs st -> b st' = b st ->
  edges_ok X st -> edges_ok X st'.
Proof.
  intros Hs Hm Hb Hok k. unfold mrs_at. rewrite Hm.
  rewrite (pair_weight_parts X st st' k Hs); [apply Hok|].
  intros u. by apply blk_parts.
Qed.

(** The edges filed under a pair: those away from [v] and those at [v]. *)
Lemma pair_weight_split (st : BlockState) (v : N) (k : N * N) :
  pair_weight st ∅ k = pair_weight st {[v]} k + incident_weight st v (blk st v) k.
Proof.
  unfold pair_weight, incident_weight. rewrite <- sumZ_add.
  apply sumZ_ext. intros [i [s t]] _. cbn [fst snd]. unfold edge_pair. cbn [fst snd].
  assert (Hs : (if N.eqb s v then blk st v else blk st s) = blk st s).
  { destruct (N.eqb_spec s v) as [->|]; reflexivity. }
  assert (Ht : (if N.eqb t v then blk st v else blk st t) = blk st t).
  { destruct (N.eqb_spec t v) as [->|]; reflexivity. }
  rewrite Hs, Ht.
  destruct (decide (s = v)), (decide (t = v));
    repeat case_bool_decide; try lia; set_solver.
Qed.

(** The deltas of a removal and of an addition, in terms of the weight at
    the vertex. *)
Lemma put_delta_remove (dir : bool) (r : N) (pw : N -> N * N) (w : Z) (k : N * N) :
  r ≠ null_group ->
  put_delta dir r null_group pw w k
  = - (if bool_decide (edge_key dir (pw r).1 (pw r).2 = k) then w else 0).
Proof.
  intros Hr. unfold put_delta.
  rewrite (bool_decide_eq_false_2 (null_group ≠ null_group ∧ _)) by tauto.
  repeat case_bool_decide; try lia; tauto.
Qed.

Lemma put_delta_add (dir : bool) (r : N) (pw : N -> N * N) (w : Z) (k : N * N) :
  r ≠ null_group ->
  put_delta dir null_group r pw w k
  = (if bool_decide (edge_key dir (pw r).1 (pw r).2 = k) then w else 0).
Proof.
  intros Hr. unfold put_delta.
  rewrite (bool_decide_eq_false_2 (null_group ≠ null_group ∧ _)) by tauto.
  repeat case_bool_decide; try lia; tauto.
Qed.

Lemma incident_weight_entries (st : BlockState) (v r : N) (k : N * N) :
  incident_weight st v r k
  = sumZ (fun ie : N * (N * N) =>
            if bool_decide (ie.2.1 = v ∨ ie.2.2 = v)
            then (if bool_decide
                       (edge_key (directed (g st))
                          (if N.eqb ie.2.1 v then r else size_t_of_int (pget (b st) ie.2.1))
                          (if N.eqb ie.2.2 v then r else size_t_of_int (pget (b st) ie.2.2))
                        = k)
                  then eweight st ie.1 else 0)
            else 0)
         (indexed 0%N (edge_list (g st))).
Proof.
  unfold incident_weight. apply sumZ_ext. intros [i [s t]] _. cbn [fst snd].
  fold (blk st s). fold (blk st t). repeat case_bool_decide; try reflexivity; tauto.
Qed.

Lemma remove_entries_delta (st : BlockState) (v r : N) (k : N * N) :
  r ≠ null_group ->
  delta_sum (directed (g st)) k
    (entries (move_entries v r null_group (b st) (g st) (eweight st) (fun _ => false)))
  mod 2 ^ 32 = (- incident_weight st v r k) mod 2 ^ 32.
Proof.
  intros Hr. rewrite move_entries_delta, incident_weight_entries, <- sumZ_opp.
  f_equal. apply sumZ_ext. intros [i [s t]] _. cbn [fst snd].
  case_bool_decide; [|reflexivity]. by rewrite put_delta_remove.
Qed.

Lemma add_entries_delta (st : BlockState) (v r : N) (k : N * N) :
  r ≠ null_group ->
  delta_sum (directed (g st)) k
    (entries (move_entries v null_group r (b st) (g st) (eweight st) (fun _ => false)))
  mod 2 ^ 32 = incident_weight st v r k mod 2 ^ 32.
Proof.
  intros Hr. rewrite move_entries_delta, incident_weight_entries.
  f_equal. apply sumZ_ext. intros [i [s t]] _. cbn [fst snd].
  case_bool_decide; [|reflexivity]. by rewrite put_delta_add.
Qed.

End EdgeProofs.

Section EdgeInvariant.
Context `{Ext : Externals}.

Lemma pair_weight_off (X : gset N) (st st' : BlockState) (k : N * N) :
  static_part st' = static_part st -> (forall u, u ∉ X -> blk st' u = blk st u) ->
  pair_weight st' X k = pair_weight st X k.
Proof.
  intros Hs Hb. unfold pair_weight. rewrite (static_g _ _ Hs).
  apply sumZ_ext. intros [i [s t]] _. cbn [fst snd].
  rewrite (static_eweight _ _ i Hs). unfold edge_pair. cbn [fst snd].
  rewrite (static_g _ _ Hs).
  destruct (decide (s ∈ X)); [repeat case_bool_decide; try reflexivity; tauto|].
  destruct (decide (t ∈ X)); [repeat case_bool_decide; try reflexivity; tauto|].
  by rewrite !Hb.
Qed.

Lemma incident_weight_off (st st' : BlockState) (v r : N) (k : N * N) :
  static_part st' = static_part st -> (forall u, u ≠ v -> blk st' u = blk st u) ->
  incident_weight st' v r k = incident_weight st v r k.
Proof.
  intros Hs Hb. unfold incident_weight. rewrite (static_g _ _ Hs).
  apply sumZ_ext. intros [i [s t]] _. cbn [fst snd].
  rewrite (static_eweight _ _ i Hs).
  assert (Hbl : forall x, (if N.eqb x v then r else blk st' x)
                          = (if N.eqb x v then r else blk st x)).
  { intros x. destruct (N.eqb_spec x v); [reflexivity|by apply Hb]. }
  by rewrite !Hbl.
Qed.

Lemma modify_vertex_remove_parts (v r : N) (efilt : N -> bool) (st : BlockState) :
  let st1 := get_move_entries v r null_group efilt st in
  let st2 := foldl (fun s e => apply_entry false e s) st1 (entries (m_entries st1)) in
  let st' := modify_vertex false v r efilt st in
  static_part st' = static_part st /\ b st' = b st /\ mrs st' = mrs st2.
Proof.
  intros st1 st2 st'.
  destruct (apply_entries_frame false (entries (m_entries st1)) st1) as (Hs2 & _ & Hb2 & _).
  fold st2 in Hs2, Hb2.
  destruct (remove_partition_node_frame v r st2) as (Hs3 & He3 & Hb3 & _).
  unfold st', modify_vertex. fold st1. fold st2.
  split; [by rewrite Hs3, Hs2|]. split; [by rewrite Hb3, Hb2|].
  unfold edge_part in He3. by injection He3.
Qed.

Lemma remove_vertex_edges (st : BlockState) (v : N) :
  edges_ok ∅ st -> blk st v ≠ null_group ->
  edges_ok {[v]} (remove_vertex v (blk st v) st).
Proof.
  intros Hok Hr k.
  destruct (modify_vertex_remove_parts v (blk st v) (fun _ => false) st) as (Hs & Hb & Hm).
  fold (remove_vertex_filt v (blk st v) (fun _ => false) st) in Hs, Hb, Hm.
  fold (remove_vertex v (blk st v) st) in Hs, Hb, Hm.
  unfold mrs_at at 1. rewrite Hm. fold (mrs_at (foldl (fun s e => apply_entry false e s)
    (get_move_entries v (blk st v) null_group (fun _ => false) st)
    (entries (m_entries (get_move_entries v (blk st v) null_group (fun _ => false) st)))) k).
  rewrite mrs_at_apply_entries.
  2:{ change (mrs_at (get_move_entries v (blk st v) null_group (fun _ => false) st) k)
        with (mrs_at st k). rewrite Hok. apply wrap32_range. }
  change (mrs_at (get_move_entries v (blk st v) null_group (fun _ => false) st) k)
    with (mrs_at st k).
  change (directed (g (get_move_entries v (blk st v) null_group (fun _ => false) st)))
    with (directed (g st)).
  change (entries (m_entries (get_move_entries v (blk st v) null_group (fun _ => false) st)))
    with (entries (move_entries v (blk st v) null_group (b st) (g st) (eweight st)
                     (fun _ => false))).
  rewrite Hok, <- (wrap32_shift _ (- incident_weight st v (blk st v) k))
    by (symmetry; by apply remove_entries_delta).
  f_equal. rewrite (pair_weight_split st v k).
  rewrite (pair_weight_off {[v]} st (remove_vertex v (blk st v) st) k Hs).
  - lia.
  - intros u _. by apply blk_parts.
Qed.

Lemma modify_vertex_add_parts (v r : N) (efilt : N -> bool) (st : BlockState) :
  Z.of_N r < 2 ^ 31 ->
  let st1 := get_move_entries v null_group r efilt st in
  let st2 := foldl (fun s e => apply_entry true e s) st1 (entries (m_entries st1)) in
  let st' := modify_vertex true v r efilt st in
  static_part st' = static_part st
  /\ (forall u, blk st' u = if decide (v = u) then r else blk st u)
  /\ mrs st' = mrs st2.
Proof.
  intros Hr st1 st2 st'.
  destruct (apply_entries_frame true (entries (m_entries st1)) st1) as (Hs2 & _ & Hb2 & _).
  fold st2 in Hs2, Hb2.
  destruct (add_partition_node_frame v r (with_b (pset (b st2) v (Z.of_N r)) st2))
    as (Hs3 & He3 & Hb3 & _).
  unfold st', modify_vertex. fold st1. fold st2.
  split; [by rewrite Hs3|]. split.
  - intros u. rewrite (blk_parts _ _ u Hb3), blk_with_b by exact Hr.
    destruct (decide (v = u)); [reflexivity|]. by apply blk_parts.
  - unfold edge_part in He3. by injection He3.
Qed.

Lemma add_vertex_edges (st : BlockState) (v r : N) :
  edges_ok {[v]} st -> Z.of_N r < 2 ^ 31 ->
  edges_ok ∅ (add_vertex v r st).
Proof.
  intros Hok Hr k.
  assert (Hnull : r ≠ null_group) by (unfold null_group; intros ->; lia).
  destruct (modify_vertex_add_parts v r (fun _ => false) st Hr) as (Hs & Hb & Hm).
  fold (add_vertex_filt v r (fun _ => false) st) in Hs, Hb, Hm.
  fold (add_vertex v r st) in Hs, Hb, Hm.
  unfold mrs_at at 1. rewrite Hm. fold (mrs_at (foldl (fun s e => apply_entry true e s)
    (get_move_entries v null_group r (fun _ => false) st)
    (entries (m_entries (get_move_entries v null_group r (fun _ => false) st)))) k).
  rewrite mrs_at_apply_entries.
  2:{ change (mrs_at (get_move_entries v null_group r (fun _ => false) st) k)
        with (mrs_at st k). rewrite Hok. apply wrap32_range. }
  change (mrs_at (get_move_entries v null_group r (fun _ => false) st) k)
    with (mrs_at st k).
  change (directed (g (get_move_entries v null_group r (fun _ => false) st)))
    with (directed (g st)).
  change (entries (m_entries (get_move_entries v null_group r (fun _ => false) st)))
    with (entries (move_entries v null_group r (b st) (g st) (eweight st)
                     (fun _ => false))).
  rewrite Hok, <- (wrap32_shift _ (incident_weight st v r k))
    by (symmetry; by apply add_entries_delta).
  f_equal. rewrite (pair_weight_split (add_vertex v r st) v k).
  assert (Hbv : blk (add_vertex v r st) v = r).
  { rewrite Hb. by destruct (decide (v = v)). }
  rewrite Hbv. f_equal.
  - symmetry. apply pair_weight_off; [exact Hs|].
    intros u Hu. rewrite Hb. destruct (decide (v = u)); [set_solver|reflexivity].
  - symmetry. apply incident_weight_off; [exact Hs|].
    intros u Hu. rewrite Hb. destruct (decide (v = u)); [congruence|reflexivity].
Qed.

(** One move keeps the block edge counts equal to those of the graph,
    whether it returns or throws. *)
Lemma move_vertex_edges_ok (st : BlockState) (v nr : N) :
  edges_ok ∅ st -> blk st v ≠ null_group -> Z.of_N nr < 2 ^ 31 ->
  edges_ok ∅ (final_state (move_vertex v (blk st v) nr st)).
Proof.
  intros Hok Hr Hnr. unfold move_vertex.
  destruct (N.eqb (blk st v) nr); [exact Hok|].
  destruct (allow_move st (blk st v) nr true); [|exact Hok]. cbn [negb].
  pose proof (add_vertex_edges _ v nr (remove_vertex_edges st v Hok Hr) Hnr) as Hok1.
  destruct (propagate_move_frame v (blk st v) nr
              (add_vertex v nr (remove_vertex v (blk st v) st))) as (Hs & _ & He & Hb).
  apply (edges_ok_parts ∅ _ _ Hs); [|exact Hb|exact Hok1].
  unfold edge_part in He. by injection He.
Qed.

End EdgeInvariant.

Section EdgeChecks.
Context `{Ext : Externals}.

(** ** The edge-count check *)

Lemma edge_counts_key (st : BlockState) (e : N * N) :
  (if negb (directed (g st)) && (blk st e.2 <? blk st e.1)%N
   then (blk st e.2, blk st e.1) else (blk st e.1, blk st e.2))
  = edge_pair st e.
Proof.
  unfold edge_pair, edge_key. destruct (directed (g st)); [reflexivity|]. simpl.
  destruct (N.ltb_spec (blk st e.2) (blk st e.1)) as [H|H];
    destruct (N.leb_spec (blk st e.1) (blk st e.2)) as [H'|H']; try reflexivity; lia.
Qed.

Lemma edge_counts_fold (st : BlockState) (k : N * N) (l : list (N * (N * N)))
    (m : gmap (N * N) N) :
  Z.of_N (default 0%N (m !! k)) < 2 ^ 64 ->
  let m' := foldl (fun (m : gmap (N * N) N) (ie : N * (N * N)) =>
                     let r := blk st ie.2.1 in
                     let s := blk st ie.2.2 in
                     let k := if negb (directed (g st)) && (s <? r)%N then (s, r)
                              else (r, s) in
                     <[k := wrap64 (Z.of_N (default 0%N (m !! k))
                                    + Z.of_N (size_t_of_int (eweight st ie.1)))]> m)
                  m l in
  Z.of_N (default 0%N (m' !! k)) < 2 ^ 64
  /\ Z.of_N (default 0%N (m' !! k))
     = (Z.of_N (default 0%N (m !! k))
        + sumZ (fun ie : N * (N * N) =>
                  if decide (edge_pair st ie.2 = k) then eweight st ie.1 else 0) l)
       mod 2 ^ 64.
Proof.
  revert m. induction l as [|ie l IH]; intros m Hm; cbn [foldl].
  - split; [exact Hm|]. simpl. rewrite Z.add_0_r, Z.mod_small; lia.
  - cbv zeta in IH. cbv zeta. rewrite (edge_counts_key st ie.2).
    set (m1 := <[edge_pair st ie.2 := _]> m).
    assert (H1 : Z.of_N (default 0%N (m1 !! k)) < 2 ^ 64
                 /\ Z.of_N (default 0%N (m1 !! k))
                    = (Z.of_N (default 0%N (m !! k))
                       + (if decide (edge_pair st ie.2 = k) then eweight st ie.1 else 0))
                      mod 2 ^ 64).
    { unfold m1. destruct (decide (edge_pair st ie.2 = k)) as [->|Hne].
      - rewrite lookup_insert_eq. simpl. rewrite wrap64_of_N.
        split; [apply Z.mod_pos_bound; lia|].
        unfold size_t_of_int. rewrite wrap64_of_N, Zplus_mod_idemp_r. reflexivity.
      - rewrite lookup_insert_ne by done. split; [exact Hm|].
        rewrite Z.add_0_r, Z.mod_small; lia. }
    destruct H1 as [Hlt Hval]. destruct (IH m1 Hlt) as [Hlt' Hval'].
    split; [exact Hlt'|]. rewrite Hval', Hval.
    change (sumZ ?f (ie :: l)) with (f ie + sumZ f l). cbv beta.
    rewrite Zplus_mod_idemp_l. f_equal. lia.
Qed.

Lemma pair_weight_all (st : BlockState) (k : N * N) :
  pair_weight st ∅ k
  = sumZ (fun ie : N * (N * N) =>
            if decide (edge_pair st ie.2 = k) then eweight st ie.1 else 0)
         (indexed 0%N (edge_list (g st))).
Proof.
  unfold pair_weight. apply sumZ_ext. intros [i [s t]] _. cbn [fst snd].
  destruct (decide _); case_bool_decide; try reflexivity; set_solver.
Qed.

Lemma edge_counts_lookup (st : BlockState) (k : N * N) :
  Z.of_N (default 0%N (edge_counts st !! k)) = pair_weight st ∅ k mod 2 ^ 64.
Proof.
  destruct (edge_counts_fold st k (indexed 0%N (edge_list (g st))) ∅) as [_ H].
  - rewrite lookup_empty. simpl. lia.
  - unfold edge_counts. cbv zeta in H. rewrite H, lookup_empty, pair_weight_all.
    reflexivity.
Qed.

Lemma pair_weight_bounds (st : BlockState) (X : gset N) (k : N * N) :
  Forall (fun ie : N * (N * N) => 0 <= eweight st ie.1) (indexed 0%N (edge_list (g st))) ->
  0 <= pair_weight st X k <= total_eweight st.
Proof.
  intros Hw. rewrite Forall_forall in Hw. unfold pair_weight, total_eweight. split.
  - apply sumZ_nonneg. intros ie Hie. specialize (Hw ie Hie). case_bool_decide; lia.
  - apply sumZ_le. intros ie Hie. specialize (Hw ie Hie). case_bool_decide; lia.
Qed.

(** A pair some weight is filed under is a pair as the block graph files
    them. *)
Lemma pair_weight_key (st : BlockState) (X : gset N) (k : N * N) :
  pair_weight st X k ≠ 0 -> edge_key (directed (g st)) k.1 k.2 = k.
Proof.
  intros Hne. destruct (decide (edge_key (directed (g st)) k.1 k.2 = k)) as [|Hk]; [done|].
  exfalso. apply Hne. unfold pair_weight.
  etrans; [|apply (sumZ_zero (indexed 0%N (edge_list (g st))))].
  apply sumZ_ext. intros [i [s t]] _. cbn [fst snd].
  case_bool_decide as H; [|reflexivity]. destruct H as (_ & _ & H).
  exfalso. apply Hk. rewrite <- H. unfold edge_pair. apply edge_key_idem.
Qed.

(** X11. When every [mrs[r,s]] is the total weight of the edges of the
    graph between the blocks [r] and [s], no edge weight is negative and
    their sum is an [int32_t], [check_edge_counts()] returns true. *)
Theorem check_edge_counts_passes (st : BlockState) :
  edges_ok ∅ st ->
  Forall (fun ie : N * (N * N) => 0 <= eweight st ie.1) (indexed 0%N (edge_list (g st))) ->
  total_eweight st < 2 ^ 31 ->
  check_edge_counts st = true.
Proof.
  intros Hok Hw Htot. unfold check_edge_counts. apply forallb_forall.
  intros [k c] Hin. apply list_elem_of_In, elem_of_map_to_list in Hin. cbn [fst snd].
  pose proof (edge_counts_lookup st k) as Hc. rewrite Hin in Hc. simpl in Hc.
  pose proof (pair_weight_bounds st ∅ k Hw) as Hb.
  rewrite Z.mod_small in Hc by lia.
  destruct (N.eqb_spec c 0) as [|Hc0]; [reflexivity|].
  assert (Hpw : pair_weight st ∅ k ≠ 0) by lia.
  pose proof (Hok k) as Hm. rewrite wrap32_id in Hm by (unfold int32_range; lia).
  unfold get_me. rewrite (pair_weight_key st ∅ k Hpw).
  destruct (mrs st !! k) as [x|] eqn:Hx.
  - apply N.eqb_eq. unfold size_t_of_int. rewrite Hm, wrap64_small by lia. lia.
  - exfalso. apply Hpw. rewrite <- Hm. unfold mrs_at. by rewrite Hx.
Qed.

(** The decided form of the invariant is sound. *)
Lemma edges_okb_sound (st : BlockState) : edges_okb st = true -> edges_ok ∅ st.
Proof.
  unfold edges_okb. rewrite forallb_forall. intros Hall k.
  destruct (decide (k ∈ map (edge_pair st) (edge_list (g st))
                        ++ (map_to_list (mrs st)).*1)) as [Hin|Hnin].
  - apply list_elem_of_In, Hall in Hin. by apply Z.eqb_eq.
  - apply not_elem_of_app in Hnin as [Hne Hnm].
    assert (Hpw : pair_weight st ∅ k = 0).
    { rewrite pair_weight_all.
      etrans; [|apply (sumZ_zero (indexed 0%N (edge_list (g st))))].
      apply sumZ_ext. intros [i e] Hie. cbn [fst snd].
      destruct (decide (edge_pair st e = k)) as [<-|]; [|reflexivity].
      exfalso. apply Hne. apply list_elem_of_fmap. exists e. split; [reflexivity|].
      clear -Hie. revert Hie. generalize 0%N. induction (edge_list (g st)) as [|x l IH];
        intros n Hie; simpl in Hie; [by apply elem_of_nil in Hie|].
      apply elem_of_cons in Hie as [[= _ ->]|Hie]; [by left|right; by apply (IH _ Hie)]. }
    rewrite Hpw. unfold mrs_at. destruct (mrs st !! k) as [x|] eqn:Hx; [|reflexivity].
    exfalso. apply Hnm. apply list_elem_of_fmap. exists (k, x).
    split; [reflexivity|by apply elem_of_map_to_list].
Qed.

End EdgeChecks.

Section Sequences.
Context `{Ext : Externals}.

(** ** Sequences of moves *)

Lemma consistent_block (A : gset N) (st : BlockState) (v : N) :
  consistent A st -> (v < num_vertices (g st))%N ->
  (blk st v < B st)%N /\ blk st v ≠ null_group /\ Z.of_N (B st) < 2 ^ 31.
Proof.
  intros Hc Hv.
  pose proof (cs_blk A st Hc) as Hb. rewrite Forall_forall in Hb.
  specialize (Hb v (proj2 (elem_of_vertices st v) Hv)).
  pose proof (cs_pools A st Hc) as Hp. unfold pools_ok, weight_part in Hp.
  destruct Hp as [HB _ _ _ _ _ _ _ _ _].
  split; [exact Hb|]. split; [|exact HB]. by apply (null_group_not_block (B st)).
Qed.

Lemma for_each_edges (A : gset N) (tgt : N -> N) (l : list N) (st : BlockState) :
  consistent A st -> edges_ok ∅ st ->
  Forall (fun v => (v < num_vertices (g st))%N /\ (v ∉ A) /\ (tgt v < B st)%N) l ->
  edges_ok ∅ (final_state (for_each (fun v => move_vertex_from_b v (tgt v)) l st)).
Proof.
  revert st. induction l as [|x l IH]; intros st Hc Hok Hl; [exact Hok|].
  apply Forall_cons in Hl as [(Hv & HA & Ht) Hl].
  cbn [for_each]. unfold bind.
  change (move_vertex_from_b x (tgt x) st) with (move_vertex x (blk st x) (tgt x) st).
  destruct (consistent_block A st x Hc Hv) as (_ & Hnull & HB).
  destruct (move_vertex_consistent A st x (tgt x) Hc Hv HA Ht) as [Hc1 Hs1].
  pose proof (move_vertex_edges_ok st x (tgt x) Hok Hnull) as Hok1.
  destruct (move_vertex x (blk st x) (tgt x) st) as [[] st1|e st1];
    cbn [final_state] in Hc1, Hs1, Hok1; cbv beta iota.
  - apply IH; [exact Hc1|apply Hok1; lia|].
    eapply Forall_impl; [exact Hl|]. intros u (? & ? & ?).
    by rewrite (static_g _ _ Hs1), (static_B _ _ Hs1).
  - apply Hok1. lia.
Qed.

Lemma move_vertices_edges (A : gset N) (vs nrs : list N) (st : BlockState) :
  consistent A st -> edges_ok ∅ st ->
  Forall (fun v => (v < num_vertices (g st))%N ∧ v ∉ A) vs ->
  Forall (fun r => (r < B st)%N) nrs ->
  edges_ok ∅ (final_state (move_vertices vs nrs st)).
Proof.
  revert nrs st. induction vs as [|v vs IH]; intros [|nr nrs] st Hc Hok Hvs Hnrs;
    try exact Hok.
  apply Forall_cons in Hvs as [[Hv HA] Hvs]. apply Forall_cons in Hnrs as [Hnr Hnrs].
  cbn [move_vertices]. unfold bind.
  change (move_vertex_from_b v nr st) with (move_vertex v (blk st v) nr st).
  destruct (consistent_block A st v Hc Hv) as (_ & Hnull & HB).
  destruct (move_vertex_consistent A st v nr Hc Hv HA Hnr) as [Hc1 Hs1].
  pose proof (move_vertex_edges_ok st v nr Hok Hnull) as Hok1.
  destruct (move_vertex v (blk st v) nr st) as [[] st1|e st1];
    cbn [final_state] in Hc1, Hs1, Hok1; cbv beta iota.
  - apply IH; [exact Hc1|apply Hok1; lia| |].
    + eapply Forall_impl; [exact Hvs|]. intros u [? ?]. by rewrite (static_g _ _ Hs1).
    + eapply Forall_impl; [exact Hnrs|]. intros r ?. by rewrite (static_B _ _ Hs1).
  - apply Hok1. lia.
Qed.

(** X10. The moves keep the block edge counts equal to the edge counts of
    the graph. If every [mrs[r,s]] of a consistent state is the total
    weight of the edges between the blocks [r] and [s], it is so after
    [move_vertex(v, nr)], after [move_vertices(vs, nrs)] and after
    [set_partition(b)] to blocks of the block graph, whether the call
    returns or throws. *)
Theorem moves_keep_edge_counts (st : BlockState) :
  consistent ∅ st -> edges_ok ∅ st ->
  (forall v nr, (v < num_vertices (g st))%N -> (nr < B st)%N ->
     edges_ok ∅ (final_state (move_vertex_from_b v nr st)))
  /\ (forall vs nrs,
        Forall (fun v => (v < num_vertices (g st))%N) vs ->
        Forall (fun r => (r < B st)%N) nrs ->
        edges_ok ∅ (final_state (move_vertices vs nrs st)))
  /\ (forall bp,
        Forall (fun v => (size_t_of_int (pget bp v) < B st)%N) (vertices st) ->
        edges_ok ∅ (final_state (set_partition bp st))).
Proof.
  intros Hc Hok. split; [|split].
  - intros v nr Hv Hnr. destruct (consistent_block ∅ st v Hc Hv) as (_ & Hnull & HB).
    apply (move_vertex_edges_ok st v nr Hok Hnull). lia.
  - intros vs nrs Hvs Hnrs. apply (move_vertices_edges ∅); try done.
    eapply Forall_impl; [exact Hvs|]. intros v Hv. split; [exact Hv|set_solver].
  - intros bp Hbp. unfold set_partition. apply (for_each_edges ∅); try done.
    rewrite Forall_forall in Hbp. apply Forall_forall. intros v Hv.
    split; [by apply elem_of_vertices|]. split; [set_solver|by apply Hbp].
Qed.

(** ** Round trips *)

Lemma placed_weight_blk (st st' : BlockState) (A : gset N) (r : N) :
  static_part st' = static_part st -> (forall u, blk st' u = blk st u) ->
  placed_weight st' A r = placed_weight st A r.
Proof.
  intros Hs Hb. unfold placed_weight. rewrite (vertices_parts _ _ Hs).
  apply sumZ_ext. intros v _. unfold placed_in.
  by rewrite Hb, (static_vweight _ _ v Hs).
Qed.

(** In consistent states whose edge counts are those of the graph, the
    counters are determined by the graph, the weights and the partition. *)
Lemma counters_determined (A : gset N) (st st' : BlockState) :
  consistent A st -> consistent A st' -> edges_ok ∅ st -> edges_ok ∅ st' ->
  static_part st' = static_part st -> (forall u, blk st' u = blk st u) ->
  (forall k, mrs_at st' k = mrs_at st k)
  /\ forall r, (r < B st)%N ->
       pget (wr st') r = pget (wr st) r
       /\ pget (mrp st') r = pget (mrp st) r
       /\ (r ∈ empty_blocks st' <-> r ∈ empty_blocks st)
       /\ (r ∈ candidate_blocks st' <-> r ∈ candidate_blocks st).
Proof.
  intros Hc Hc' Hok Hok' Hs Hb.
  assert (Hm : forall k, mrs_at st' k = mrs_at st k).
  { intros k. rewrite Hok, Hok'. f_equal. by apply pair_weight_parts. }
  split; [exact Hm|]. intros r Hr.
  assert (Hr' : (r < B st')%N) by (by rewrite (static_B _ _ Hs)).
  assert (Hw : pget (wr st') r = pget (wr st) r).
  { pose proof (cs_counts A st Hc) as H1. pose proof (cs_counts A st' Hc') as H2.
    unfold counts_ok in H1, H2. rewrite Forall_forall in H1, H2.
    rewrite (H1 r), (H2 r) by (by apply elem_of_block_range).
    by apply placed_weight_blk. }
  split; [exact Hw|]. split.
  - pose proof (cs_mrp A st Hc) as H1. pose proof (cs_mrp A st' Hc') as H2.
    unfold mrp_ok in H1, H2. rewrite Forall_forall in H1, H2.
    rewrite (H1 r), (H2 r) by (by apply elem_of_block_range).
    f_equal. by apply row_sum_ext.
  - pose proof (cs_pools A st Hc) as H1. pose proof (cs_pools A st' Hc') as H2.
    unfold pools_ok, weight_part in H1, H2.
    destruct H1 as [HB _ _ _ _ _ _ _ He1 Hc1], H2 as [_ _ _ _ _ _ _ _ He2 Hc2].
    simpl in *. rewrite He1, He2, Hc1, Hc2, Hw.
    pose proof (null_group_not_block _ _ HB Hr). tauto.
Qed.

(** X12. Taking a vertex out of its block and putting it back is a round
    trip: on a consistent state whose edge counts are those of the graph,
    [remove_vertex(v, r)] followed by [add_vertex(v, r)], with [r] the block
    of [v], leaves a consistent state with the same partition, the same
    [mrs] counts, and for every block the same [wr], the same [mrp] and the
    same place in the two pools. *)
Theorem remove_add_round_trip (st : BlockState) (v : N) :
  consistent ∅ st -> edges_ok ∅ st -> (v < num_vertices (g st))%N ->
  let st' := add_vertex v (blk st v) (remove_vertex v (blk st v) st) in
  consistent ∅ st' /\ edges_ok ∅ st'
  /\ (forall u, blk st' u = blk st u)
  /\ (forall k, mrs_at st' k = mrs_at st k)
  /\ forall r, (r < B st)%N ->
       pget (wr st') r = pget (wr st) r
       /\ pget (mrp st') r = pget (mrp st) r
       /\ (r ∈ empty_blocks st' <-> r ∈ empty_blocks st)
       /\ (r ∈ candidate_blocks st' <-> r ∈ candidate_blocks st).
Proof.
  intros Hc Hok Hv st'.
  destruct (consistent_block ∅ st v Hc Hv) as (Hb & Hnull & HB).
  destruct (remove_vertex_filt_consistent ∅ st v (fun _ => false) Hc Hv)
    as (Hc1 & Hs1 & Hb1 & _); [set_solver|].
  fold (remove_vertex v (blk st v) st) in Hc1, Hs1, Hb1.
  destruct (add_vertex_filt_consistent (∅ ∪ {[v]}) (remove_vertex v (blk st v) st) v
              (blk st v) (fun _ => false) Hc1) as (Hc2 & Hs2 & Hb2 & _).
  { set_solver. }
  { by rewrite (static_B _ _ Hs1). }
  fold (add_vertex v (blk st v) (remove_vertex v (blk st v) st)) in Hc2, Hs2, Hb2.
  fold st' in Hc2, Hs2, Hb2.
  replace ((∅ ∪ {[v]}) ∖ {[v]} : gset N) with (∅ : gset N) in Hc2 by set_solver.
  assert (Hok2 : edges_ok ∅ st').
  { apply add_vertex_edges; [by apply remove_vertex_edges|lia]. }
  assert (Hblk : forall u, blk st' u = blk st u).
  { intros u. rewrite Hb2. destruct (decide (v = u)) as [->|]; [reflexivity|].
    by apply blk_parts. }
  assert (Hs : static_part st' = static_part st) by (by rewrite Hs2).
  split; [exact Hc2|]. split; [exact Hok2|]. split; [exact Hblk|].
  by apply (counters_determined ∅).
Qed.

(** X13. A move and the move back are a round trip: on a consistent state
    whose edge counts are those of the graph, when [move_vertex(v, r, nr)]
    and then [move_vertex(v, nr, r)] both return, the partition, the [mrs]
    counts, and for every block [wr], [mrp] and the place in the two pools
    are as they were before the first move. *)
Theorem move_vertex_back (st st1 st2 : BlockState) (v nr : N) :
  consistent ∅ st -> edges_ok ∅ st -> (v < num_vertices (g st))%N -> (nr < B st)%N ->
  move_vertex v (blk st v) nr st = Ok tt st1 ->
  move_vertex v nr (blk st v) st1 = Ok tt st2 ->
  consistent ∅ st2 /\ edges_ok ∅ st2
  /\ (forall u, blk st2 u = blk st u)
  /\ (forall k, mrs_at st2 k = mrs_at st k)
  /\ forall r, (r < B st)%N ->
       pget (wr st2) r = pget (wr st) r
       /\ pget (mrp st2) r = pget (mrp st) r
       /\ (r ∈ empty_blocks st2 <-> r ∈ empty_blocks st)
       /\ (r ∈ candidate_blocks st2 <-> r ∈ candidate_blocks st).
Proof.
  intros Hc Hok Hv Hnr H1 H2.
  destruct (consistent_block ∅ st v Hc Hv) as (Hb & Hnull & HB).
  destruct (move_vertex_consistent ∅ st v nr Hc Hv) as [Hc1 Hs1]; [set_solver|exact Hnr|].
  destruct (move_vertex_blk ∅ st v nr Hc Hv) as [Hf1 Hx1]; [set_solver|exact Hnr|].
  pose proof (move_vertex_edges_ok st v nr Hok Hnull) as Hok1.
  rewrite H1 in Hc1, Hs1, Hf1, Hx1, Hok1. cbn [final_state result_of] in *.
  specialize (Hx1 eq_refl). specialize (Hok1 ltac:(lia)).
  assert (Hv1 : (v < num_vertices (g st1))%N) by (by rewrite (static_g _ _ Hs1)).
  assert (Hr1 : (blk st v < B st1)%N) by (by rewrite (static_B _ _ Hs1)).
  rewrite <- Hx1 in H2 at 1.
  destruct (move_vertex_consistent ∅ st1 v (blk st v) Hc1 Hv1) as [Hc2 Hs2];
    [set_solver|exact Hr1|].
  destruct (move_vertex_blk ∅ st1 v (blk st v) Hc1 Hv1) as [Hf2 Hx2];
    [set_solver|exact Hr1|].
  pose proof (move_vertex_edges_ok st1 v (blk st v) Hok1) as Hok2.
  rewrite H2 in Hc2, Hs2, Hf2, Hx2, Hok2. cbn [final_state result_of] in *.
  specialize (Hx2 eq_refl).
  assert (Hok2' : edges_ok ∅ st2).
  { apply Hok2; [|lia]. rewrite Hx1. apply (null_group_not_block (B st)); [exact HB|exact Hnr]. }
  assert (Hblk : forall u, blk st2 u = blk st u).
  { intros u. destruct (decide (u = v)) as [->|Hne]; [exact Hx2|].
    rewrite (Hf2 u Hne). by apply Hf1. }
  assert (Hs : static_part st2 = static_part st) by (by rewrite Hs2).
  split; [exact Hc2|]. split; [exact Hok2'|]. split; [exact Hblk|].
  by apply (counters_determined ∅).
Qed.

(** ** The constructor *)

(** X14. The body of the constructor builds the two pools from [wr]: with
    [B] blocks of weights that are non-negative [int32_t] values, the
    sentinel stands at index 0 of [candidate_blocks], no pool lists a block
    twice, every block is in exactly the pool its weight calls for, and
    [wr] is left as it was. *)
Theorem constructor_pools (st : BlockState) :
  Z.of_N (B st) < 2 ^ 31 ->
  (forall r, (r < B st)%N -> 0 <= pget (wr st) r < 2 ^ 31) ->
  let st' := init_pools st in
  candidate_blocks st' !! 0%nat = Some null_group
  /\ NoDup (candidate_blocks st') /\ NoDup (empty_blocks st')
  /\ (length (empty_blocks st') + length (candidate_blocks st') = S (N.to_nat (B st)))%nat
  /\ wr st' = wr st
  /\ forall r, (r < B st)%N ->
       (r ∈ empty_blocks st' <-> pget (wr st) r = 0)
       /\ (r ∈ candidate_blocks st' <-> pget (wr st) r ≠ 0).
Proof.
  intros HB Hw st'. destruct (init_pools_ok st HB Hw) as (Hp & Hs & Hwr & _).
  fold st' in Hp, Hs, Hwr. unfold pools_ok, weight_part in Hp.
  rewrite (static_B _ _ Hs), Hwr in Hp.
  destruct Hp as [_ _ Hhd Hnc Hne _ _ Hlen Hem Hca]. simpl in *.
  split; [exact Hhd|]. split; [exact Hnc|]. split; [exact Hne|]. split; [exact Hlen|].
  split; [exact Hwr|]. intros r Hr. specialize (Hw r Hr). split.
  - rewrite Hem. tauto.
  - rewrite Hca. pose proof (null_group_not_block _ _ HB Hr). split; [|intros ?; right]; lia.
Qed.

End Sequences.

Section LevelProofs.
Context `{Ext : Externals}.

(** ** The level above follows a move *)

Lemma vweight_set (c : BlockState) (r u : N) (w : Z) :
  is_weighted c = true ->
  vweight (with_vweight_map (pset (vweight_map c) r w) c) u
  = if decide (u = r) then wrap32 w else vweight c u.
Proof.
  intros Hw. unfold vweight. cbn [is_weighted vweight_map with_vweight_map]. rewrite Hw.
  rewrite pget_pset. destruct (decide (r = u)), (decide (u = r)); congruence.
Qed.

Lemma static_weighted (st st' : BlockState) :
  static_part st' = static_part st -> is_weighted st' = is_weighted st.
Proof. unfold static_part. intros H. by injection H. Qed.

Lemma sumZ_ones {A : Type} (l : list A) : sumZ (fun _ => 1) l = Z.of_nat (length l).
Proof. induction l as [|x l IH]; [reflexivity|]. cbn [sumZ foldr length] in *. unfold sumZ in IH. lia. Qed.

Lemma length_block_range (n : N) : length (block_range n) = N.to_nat n.
Proof. unfold block_range. by rewrite length_map, length_seq. Qed.

(** A level whose vertex [r] gives up its weight. *)
Lemma vacate_parent (c : BlockState) (r : N) :
  consistent ∅ c -> is_weighted c = true -> (r < num_vertices (g c))%N ->
  exists c', coupled_vacate r (blk c r) c = Ok tt c'
    /\ consistent ∅ c' /\ is_weighted c' = true /\ g c' = g c /\ B c' = B c
    /\ b c' = b c
    /\ forall u, vweight c' u = if decide (u = r) then 0 else vweight c u.
Proof.
  intros Hc Hw Hr.
  assert (Hin : r ∈ vertices c) by (by apply elem_of_vertices).
  destruct (consistent_block ∅ c r Hc Hr) as (Hb & _ & _).
  set (c1 := remove_partition_node r (blk c r) c).
  destruct (remove_partition_node_frame r (blk c r) c) as (Hs1 & He1 & Hb1 & _).
  fold c1 in Hs1, He1, Hb1.
  assert (Hw1 : is_weighted c1 = true) by (by rewrite (static_weighted _ _ Hs1)).
  destruct (remove_partition_node_counts ∅ c r (blk c r)) as [Hn1 Hp1];
    [apply Hc|apply Hc|apply Hc|exact Hin|set_solver|reflexivity|exact Hb|].
  fold c1 in Hn1, Hp1.
  set (c2 := with_vweight_map (pset (vweight_map c1) r 0) c1).
  assert (Hvw : forall u, vweight c2 u = if decide (u = r) then 0 else vweight c u).
  { intros u. unfold c2. rewrite vweight_set by exact Hw1.
    rewrite (static_vweight _ _ u Hs1). destruct (decide _); reflexivity. }
  exists c2. split.
  { unfold coupled_vacate, bind, modify, set_vertex_weight. fold c1. by rewrite Hw1. }
  split; [|split; [exact Hw1|split; [exact (static_g _ _ Hs1)|
           split; [exact (static_B _ _ Hs1)|split; [exact Hb1|exact Hvw]]]]].
  pose proof (cs_vweight ∅ c Hc) as Hpos. rewrite Forall_forall in Hpos.
  assert (Hvs : vertices c2 = vertices c) by (exact (vertices_parts _ _ Hs1)).
  constructor.
  - change (graph_ok (g c1)). rewrite (static_g _ _ Hs1). apply Hc.
  - rewrite Hvs. apply Forall_forall. intros u Hu. rewrite Hvw.
    destruct (decide _); [lia|by apply Hpos].
  - eapply Z.le_lt_trans; [|apply (cs_total ∅ c Hc)].
    unfold total_vweight. rewrite Hvs. apply sumZ_le. intros u Hu. rewrite Hvw.
    destruct (decide _); [by apply Hpos|lia].
  - rewrite Hvs. change (B c2) with (B c1). rewrite (static_B _ _ Hs1).
    pose proof (cs_blk ∅ c Hc) as Hk. rewrite Forall_forall in Hk |- *.
    intros u Hu. change (blk c2 u) with (blk c1 u). rewrite (blk_parts _ _ u Hb1).
    by apply Hk.
  - set_solver.
  - unfold counts_ok in Hn1 |- *. change (B c2) with (B c1).
    rewrite Forall_forall in Hn1 |- *. intros q Hq. change (wr c2) with (wr c1).
    rewrite (Hn1 q Hq). unfold placed_weight. rewrite Hvs, (vertices_parts _ _ Hs1).
    apply sumZ_ext. intros u Hu. unfold placed_in. change (blk c2 u) with (blk c1 u).
    rewrite Hvw, (static_vweight _ _ u Hs1).
    destruct (decide (u = r)) as [->|Hne];
      repeat case_bool_decide; try reflexivity; set_solver.
  - exact Hp1.
  - change (mrm_is_mrp c1 = negb (directed (g c1))).
    rewrite (static_shared _ _ Hs1), (static_g _ _ Hs1). apply Hc.
  - change (mrp_ok c1). apply (mrp_ok_parts c); [exact Hs1|exact He1|apply Hc].
Qed.

Lemma size_t_wrap32 (z : Z) :
  Z.of_N (size_t_of_int z) < 2 ^ 31 -> size_t_of_int (wrap32 z) = size_t_of_int z.
Proof.
  unfold size_t_of_int. rewrite wrap64_of_N. intros Hz.
  assert (H32 : z mod 2 ^ 32 = z mod 2 ^ 64).
  { change (2 ^ 64) with (2 ^ 32 * 2 ^ 32) in Hz |- *.
    rewrite Z.rem_mul_r in Hz |- * by lia.
    pose proof (Z.mod_pos_bound z (2 ^ 32) ltac:(lia)).
    pose proof (Z.mod_pos_bound (z / 2 ^ 32) (2 ^ 32) ltac:(lia)). nia. }
  assert (Hw : wrap32 z = z mod 2 ^ 64).
  { rewrite <- H32. unfold wrap32.
    assert (Hs : (z + 2 ^ 31) mod 2 ^ 32 = z mod 2 ^ 32 + 2 ^ 31).
    { rewrite <- Zplus_mod_idemp_l. apply Z.mod_small.
      pose proof (Z.mod_pos_bound z (2 ^ 32) ltac:(lia)). lia. }
    lia. }
  rewrite Hw. unfold wrap64. by rewrite Z.mod_mod by lia.
Qed.

Lemma placed_weight_le_total (st : BlockState) (A : gset N) (r : N) :
  Forall (fun u => 0 <= vweight st u) (vertices st) ->
  placed_weight st A r <= total_vweight st.
Proof.
  rewrite Forall_forall. intros Hpos. unfold placed_weight, total_vweight.
  apply sumZ_le. intros u Hu. apply placed_in_bounds. by apply Hpos.
Qed.

(** A level whose vertex [nr] takes weight 1 in the block of the label. *)
Lemma occupy_parent (c : BlockState) (nr : N) (lblz : Z) :
  consistent ∅ c -> is_weighted c = true -> (nr < num_vertices (g c))%N ->
  vweight c nr = 0 -> (size_t_of_int lblz < B c)%N ->
  total_vweight c + 1 < 2 ^ 31 ->
  exists c', coupled_occupy nr (size_t_of_int lblz) lblz c = Ok tt c'
    /\ consistent ∅ c' /\ is_weighted c' = true /\ g c' = g c /\ B c' = B c
    /\ (forall u, pget (b c') u = if decide (u = nr) then wrap32 lblz else pget (b c) u)
    /\ forall u, vweight c' u = if decide (u = nr) then 1 else vweight c u.
Proof.
  intros Hc Hw Hnr Hz Hl Htot.
  set (lbl := size_t_of_int lblz) in *.
  assert (Hin : nr ∈ vertices c) by (by apply elem_of_vertices).
  pose proof (cs_vweight ∅ c Hc) as Hpos.
  pose proof (cs_pools ∅ c Hc) as Hp. 
  assert (HB : Z.of_N (B c) < 2 ^ 31).
  { unfold pools_ok, weight_part in Hp. by destruct Hp. }
  assert (Hwl : 0 <= pget (wr c) lbl <= total_vweight c).
  { pose proof (cs_counts ∅ c Hc) as Hn. unfold counts_ok in Hn.
    rewrite Forall_forall in Hn.
    rewrite (Hn lbl (proj2 (elem_of_block_range _ _) Hl)). split.
    - apply sumZ_nonneg. intros u Hu. apply placed_in_bounds.
      rewrite Forall_forall in Hpos. by apply Hpos.
    - by apply placed_weight_le_total. }
  set (c3 := with_vweight_map (pset (vweight_map c) nr 1) c).
  assert (Hv3 : forall u, vweight c3 u = if decide (u = nr) then 1 else vweight c u).
  { intros u. unfold c3. by rewrite vweight_set by exact Hw. }
  set (c4 := add_partition_node nr lbl c3).
  destruct (add_partition_node_frame nr lbl c3) as (Hs4 & He4 & Hb4 & _).
  fold c4 in Hs4, He4, Hb4.
  set (c5 := with_b (pset (b c4) nr lblz) c4).
  assert (Hv5 : forall u, vweight c5 u = if decide (u = nr) then 1 else vweight c u).
  { intros u. change (vweight c5 u) with (vweight c4 u).
    by rewrite (static_vweight _ _ u Hs4). }
  assert (Hb5 : forall u, pget (b c5) u
                          = if decide (u = nr) then wrap32 lblz else pget (b c) u).
  { intros u. change (b c5) with (pset (b c4) nr lblz). rewrite pget_pset, Hb4.
    change (b c3) with (b c).
    destruct (decide (nr = u)), (decide (u = nr)); congruence. }
  assert (Hk5 : forall u, blk c5 u = if decide (u = nr) then lbl else blk c u).
  { intros u. unfold blk. rewrite Hb5. destruct (decide _); [|reflexivity].
    apply size_t_wrap32. fold lbl. lia. }
  assert (Hp4 : pools_ok c4).
  { apply add_partition_node_pools.
    - exact Hp.
    - exact Hl.
    - rewrite Hv3. by destruct (decide _).
    - rewrite Hv3. destruct (decide _); [|done]. change (wr c3) with (wr c). lia. }
  assert (Hwr5 : forall q, pget (wr c5) q
                           = if decide (q = lbl) then pget (wr c) q + 1 else pget (wr c) q).
  { intros q. change (wr c5) with (wr c4). unfold c4. rewrite add_partition_node_wr.
    rewrite pget_pset, Hv3. change (wr c3) with (wr c).
    destruct (decide (nr = nr)); [|done].
    destruct (decide (lbl = q)) as [Hq|Hq], (decide (q = lbl)); try congruence.
    rewrite <- Hq. apply wrap32_id. unfold int32_range. lia. }
  assert (Hvs : vertices c5 = vertices c).
  { change (vertices c5) with (vertices c4). exact (vertices_parts _ _ Hs4). }
  exists c5. split.
  { unfold coupled_occupy, bind, modify, set_vertex_weight. rewrite Hw. reflexivity. }
  split; [|split; [change (is_weighted c4 = true);
                   rewrite (static_weighted _ _ Hs4); exact Hw|
           split; [exact (static_g _ _ Hs4)|
           split; [exact (static_B _ _ Hs4)|split; [exact Hb5|exact Hv5]]]]].
  rewrite Forall_forall in Hpos.
  constructor.
  - change (graph_ok (g c4)). rewrite (static_g _ _ Hs4). apply Hc.
  - rewrite Hvs. apply Forall_forall. intros u Hu. rewrite Hv5.
    destruct (decide _); [lia|by apply Hpos].
  - unfold total_vweight. rewrite Hvs.
    rewrite (sumZ_point (vweight c) (vweight c5) (vertices c) nr).
    + rewrite Hv5, Hz. destruct (decide (nr = nr)); [|done]. fold (total_vweight c). lia.
    + apply NoDup_block_range.
    + exact Hin.
    + intros u _ Hu. rewrite Hv5. by destruct (decide _).
  - rewrite Hvs. change (B c5) with (B c4). rewrite (static_B _ _ Hs4).
    pose proof (cs_blk ∅ c Hc) as Hk. rewrite Forall_forall in Hk |- *.
    intros u Hu. rewrite Hk5. destruct (decide _); [exact Hl|by apply Hk].
  - set_solver.
  - pose proof (cs_counts ∅ c Hc) as Hn. unfold counts_ok in Hn |- *.
    change (B c5) with (B c4). rewrite (static_B _ _ Hs4). change (B c3) with (B c).
    rewrite Forall_forall in Hn |- *. intros q Hq. rewrite Hwr5, (Hn q Hq).
    unfold placed_weight. rewrite Hvs.
    rewrite (sumZ_point (placed_in c ∅ q) (placed_in c5 ∅ q) (vertices c) nr).
    + unfold placed_in. rewrite Hk5, Hv5, Hz.
      destruct (decide (nr = nr)); [|done].
      destruct (decide (q = lbl)); repeat case_bool_decide; try lia;
        try (exfalso; set_solver).
    + apply NoDup_block_range.
    + exact Hin.
    + intros u _ Hu. unfold placed_in. rewrite Hk5, Hv5. by destruct (decide _).
  - exact Hp4.
  - change (mrm_is_mrp c4 = negb (directed (g c4))).
    rewrite (static_shared _ _ Hs4), (static_g _ _ Hs4). apply Hc.
  - change (mrp_ok c4). apply (mrp_ok_parts c3); [exact Hs4|exact He4|]. apply Hc.
Qed.

(** The block weights after a vertex has changed block. *)
Lemma moved_wr (st st' : BlockState) (v nr : N) :
  consistent ∅ st -> consistent ∅ st' -> static_part st' = static_part st ->
  (forall u, blk st' u = if decide (v = u) then nr else blk st u) ->
  (v < num_vertices (g st))%N ->
  forall x, (x < B st)%N ->
    pget (wr st') x
    = pget (wr st) x - (if decide (x = blk st v) then vweight st v else 0)
      + (if decide (x = nr) then vweight st v else 0).
Proof.
  intros Hc Hc' Hs Hb Hv x Hx.
  pose proof (cs_counts ∅ st Hc) as Hn. pose proof (cs_counts ∅ st' Hc') as Hn'.
  unfold counts_ok in Hn, Hn'. rewrite (static_B _ _ Hs) in Hn'.
  rewrite Forall_forall in Hn, Hn'.
  rewrite (Hn x), (Hn' x) by (by apply elem_of_block_range).
  unfold placed_weight. rewrite (vertices_parts _ _ Hs).
  rewrite (sumZ_point (placed_in st ∅ x) (placed_in st' ∅ x) (vertices st) v).
  - unfold placed_in. rewrite Hb, (static_vweight _ _ v Hs).
    destruct (decide (v = v)); [|done].
    destruct (decide (x = blk st v)), (decide (x = nr));
      repeat case_bool_decide; try lia; exfalso; set_solver.
  - apply NoDup_block_range.
  - by apply elem_of_vertices.
  - intros u _ Hu. unfold placed_in. rewrite Hb, (static_vweight _ _ u Hs).
    by destruct (decide (v = u)); [congruence|].
Qed.

(** The weights of a level in step with the one below sum to less than
    the number of blocks below when one of them is empty. *)
Lemma level_total (c : BlockState) (nB nr : N) (w : N -> Z) :
  num_vertices (g c) = nB -> (nr < nB)%N ->
  (forall q, (q < nB)%N -> vweight c q = (if w q =? 0 then 0 else 1)) ->
  w nr = 0 ->
  total_vweight c + 1 <= Z.of_N nB.
Proof.
  intros Hg Hnr Hv Hz. unfold total_vweight, vertices. rewrite Hg.
  assert (Hle : sumZ (vweight c) (block_range nB)
                <= sumZ (fun u => if decide (u = nr) then 0 else 1) (block_range nB)).
  { apply sumZ_le. intros u Hu. apply elem_of_block_range in Hu. rewrite (Hv u Hu).
    destruct (decide (u = nr)) as [->|]; [by rewrite Hz|]. destruct (w u =? 0); lia. }
  rewrite (sumZ_point (fun _ => 1) (fun u => if decide (u = nr) then 0 else 1)
             (block_range nB) nr) in Hle.
  - rewrite sumZ_ones, length_block_range in Hle.
    destruct (decide (nr = nr)); [lia|done].
  - apply NoDup_block_range.
  - by apply elem_of_block_range.
  - intros u _ Hu. by destruct (decide (u = nr)).
Qed.

(** The tail of [move_vertex] on a level whose weights [wr] have just
    changed from [w] by the weight [x] of the vertex that left [r] for
    [nr]: it returns, and the level above is consistent and in step
    again. *)
Lemma propagate_move_levels (st2 c : BlockState) (v r nr : N) (w : N -> Z) :
  coupled_state st2 = Some c -> consistent ∅ c ->
  is_weighted c = true -> num_vertices (g c) = B st2 ->
  Z.of_N (B st2) < 2 ^ 31 -> (r < B st2)%N -> (nr < B st2)%N -> r ≠ nr ->
  0 <= vweight st2 v <= w r -> (forall q, (q < B st2)%N -> 0 <= w q) ->
  (forall q, (q < B st2)%N ->
     pget (wr st2) q = w q - (if decide (q = r) then vweight st2 v else 0)
                       + (if decide (q = nr) then vweight st2 v else 0)) ->
  (forall q, (q < B st2)%N ->
     vweight c q = (if w q =? 0 then 0 else 1) /\ pget (b c) q = pget (bclabel st2) q) ->
  exists st' c', propagate_move v r nr st2 = Ok tt st'
    /\ coupled_state st' = Some c' /\ consistent ∅ c' /\ linked st' c'.
Proof.
  intros Hcs Hc Hw Hg HB Hr Hnr Hne Hx Hwpos Hwr Hlink.
  set (x := vweight st2 v) in *.
  assert (Hlbl : size_t_of_int (pget (bclabel st2) r) = blk c r).
  { unfold blk. by rewrite (proj2 (Hlink r Hr)). }
  assert (Hrc : (r < num_vertices (g c))%N) by (by rewrite Hg).
  assert (Hnrc : (nr < num_vertices (g c))%N) by (by rewrite Hg).
  unfold propagate_move. rewrite Hcs. fold x.
  destruct (Z.ltb_spec 0 x) as [Hpos|Hzero].
  2:{ exists st2, c. split; [reflexivity|]. split; [exact Hcs|]. split; [exact Hc|].
      split; [exact Hw|]. split; [exact Hg|]. intros q Hq.
      destruct (Hlink q Hq) as [Hv Hb]. split; [|exact Hb].
      rewrite Hv, (Hwr q Hq). assert (x = 0) as -> by lia.
      destruct (decide (q = r)), (decide (q = nr)); by rewrite Z.sub_0_r, Z.add_0_r. }
  (* the block [r] *)
  assert (Hwr_r : pget (wr st2) r = w r - x).
  { rewrite (Hwr r Hr). destruct (decide (r = r)), (decide (r = nr)); try done. lia. }
  assert (Hwr_nr : pget (wr st2) nr = w nr + x).
  { rewrite (Hwr nr Hnr). destruct (decide (nr = r)), (decide (nr = nr)); try done. lia. }
  pose proof (Hwpos nr Hnr) as Hwnr.
  assert (H1 : exists stA cA,
             (if pget (wr st2) r =? 0
              then on_coupled (coupled_vacate r (size_t_of_int (pget (bclabel st2) r)))
              else ret tt) st2 = Ok tt stA
             /\ coupled_state stA = Some cA /\ wr stA = wr st2 /\ bclabel stA = bclabel st2
             /\ B stA = B st2
             /\ consistent ∅ cA /\ is_weighted cA = true /\ g cA = g c /\ B cA = B c
             /\ b cA = b c
             /\ forall u, vweight cA u
                          = if decide (u = r) then (if w r - x =? 0 then 0 else 1)
                            else vweight c u).
  { rewrite Hwr_r. destruct (Z.eqb_spec (w r - x) 0) as [Hv|Hv].
    - destruct (vacate_parent c r Hc Hw Hrc)
        as (cA & HeA & HcA & HwA & HgA & HBA & HbA & HvA).
      exists (with_coupled_state (Some cA) st2), cA.
      split; [unfold on_coupled; by rewrite Hcs, Hlbl, HeA|].
      repeat (split; [done|]). exact HvA.
    - exists st2, c. split; [reflexivity|]. repeat (split; [done|]).
      intros u. destruct (decide (u = r)) as [->|]; [|reflexivity].
      rewrite (proj1 (Hlink r Hr)). destruct (Z.eqb_spec (w r) 0); [lia|reflexivity]. }
  destruct H1 as (stA & cA & HeA & HcsA & HwrA & HlA & HBsA & HcA & HwA & HgA & HBA & HbA & HvA).
  unfold bind. rewrite HeA.
  assert (HtotA : total_vweight cA <= total_vweight c).
  { unfold total_vweight, vertices. rewrite HgA. apply sumZ_le. intros u Hu.
    rewrite HvA. destruct (decide (u = r)) as [->|]; [|lia].
    rewrite (proj1 (Hlink r Hr)). destruct (w r - x =? 0), (Z.eqb_spec (w r) 0); lia. }
  rewrite Hwr_nr.
  destruct (Z.eqb_spec (w nr + x) x) as [Ho|Ho].
  - (* the block [nr] was empty *)
    assert (Hwz : w nr = 0) by lia.
    assert (Hvz : vweight cA nr = 0).
    { rewrite HvA. destruct (decide (nr = r)); [congruence|].
      rewrite (proj1 (Hlink nr Hnr)), Hwz. reflexivity. }
    assert (Hlt : (size_t_of_int (pget (bclabel st2) r) < B cA)%N).
    { rewrite Hlbl, HBA. by destruct (consistent_block ∅ c r Hc Hrc). }
    assert (Htot : total_vweight cA + 1 < 2 ^ 31).
    { pose proof (level_total c (B st2) nr w Hg Hnr (fun q Hq => proj1 (Hlink q Hq)) Hwz).
      lia. }
    destruct (occupy_parent cA nr (pget (bclabel st2) r) HcA HwA
                ltac:(by rewrite HgA) Hvz Hlt Htot)
      as (cB & HeB & HcB & HwB & HgB & HBB & HbB & HvB).
    unfold on_coupled. rewrite HcsA, HeB. unfold modify.
    eexists _, cB. split; [reflexivity|].
    split; [reflexivity|]. split; [exact HcB|].
    split; [exact HwB|]. split; [cbn; by rewrite HgB, HgA, Hg, HBsA|].
    intros q Hq. cbn [B wr bclabel with_bclabel with_coupled_state] in Hq |- *.
    rewrite HBsA in Hq. rewrite HwrA, HlA, (Hwr q Hq), HvB, HbB, HvA, HbA, pget_pset.
    destruct (Hlink q Hq) as [Hvq Hbq]. rewrite Hvq, Hbq. pose proof (Hwpos q Hq).
    destruct (decide (q = nr)) as [->|Hqn].
    + destruct (decide (nr = r)); [congruence|]. destruct (decide (nr = nr)); [|done].
      split; [|reflexivity]. destruct (Z.eqb_spec (w nr - 0 + x) 0); [lia|reflexivity].
    + destruct (decide (nr = q)); [congruence|]. split; [|reflexivity].
      destruct (decide (q = r)) as [->|]; [|by rewrite Z.sub_0_r, Z.add_0_r].
      by rewrite Z.add_0_r.
  - (* the block [nr] was occupied *)
    exists stA, cA. split; [reflexivity|]. split; [exact HcsA|]. split; [exact HcA|].
    split; [exact HwA|]. split; [by rewrite HgA, Hg, HBsA|].
    intros q Hq. rewrite HBsA in Hq. rewrite HwrA, HlA, (Hwr q Hq), HvA, HbA.
    destruct (Hlink q Hq) as [Hvq Hbq]. rewrite Hvq, Hbq. pose proof (Hwpos q Hq).
    split; [|reflexivity].
    destruct (decide (q = r)) as [->|Hqr].
    + destruct (decide (r = nr)); [congruence|]. by rewrite Z.add_0_r.
    + destruct (decide (q = nr)) as [->|]; [|by rewrite Z.sub_0_r, Z.add_0_r].
      destruct (Z.eqb_spec (w nr) 0); [lia|].
      destruct (Z.eqb_spec (w nr - 0 + x) 0); [lia|reflexivity].
Qed.

(** An allowed move to another block returns and leaves the level above
    consistent and in step. *)
Lemma move_vertex_coupled (st c : BlockState) (v nr : N) :
  consistent ∅ st -> coupled_state st = Some c -> consistent ∅ c -> linked st c ->
  (v < num_vertices (g st))%N -> (nr < B st)%N -> blk st v ≠ nr ->
  exists st' c',
    propagate_move v (blk st v) nr (add_vertex v nr (remove_vertex v (blk st v) st))
    = Ok tt st'
    /\ coupled_state st' = Some c' /\ consistent ∅ c' /\ linked st' c'.
Proof.
  intros Hc Hcs Hcc (Hw & Hg & Hlink) Hv Hnr Hne.
  destruct (placed_block_weight ∅ st v Hc Hv ltac:(set_solver)) as (Hr & Hx & _).
  destruct (remove_vertex_filt_consistent ∅ st v (fun _ => false) Hc Hv)
    as (Hc1 & Hs1 & Hb1 & Hl1 & Hcs1); [set_solver|].
  fold (remove_vertex v (blk st v) st) in Hc1, Hs1, Hb1, Hl1, Hcs1.
  destruct (add_vertex_filt_consistent (∅ ∪ {[v]}) (remove_vertex v (blk st v) st) v nr
              (fun _ => false) Hc1) as (Hc2 & Hs2 & Hb2 & Hl2 & Hcs2);
    [set_solver|by rewrite (static_B _ _ Hs1)|].
  fold (add_vertex v nr (remove_vertex v (blk st v) st)) in Hc2, Hs2, Hb2, Hl2, Hcs2.
  set (st2 := add_vertex v nr (remove_vertex v (blk st v) st)) in *.
  replace ((∅ ∪ {[v]}) ∖ {[v]} : gset N) with (∅ : gset N) in Hc2 by set_solver.
  assert (Hs : static_part st2 = static_part st) by (by rewrite Hs2).
  pose proof (cs_pools ∅ st Hc) as Hp. unfold pools_ok, weight_part in Hp.
  destruct Hp as [HB Hwr _ _ _ _ _ _ _ _].
  apply (propagate_move_levels st2 c v (blk st v) nr (pget (wr st)));
    rewrite ?(static_B _ _ Hs), ?(static_vweight _ _ v Hs); try done.
  - congruence.
  - intros q Hq. by apply Hwr.
  - apply (moved_wr st st2 v nr Hc Hc2 Hs); [|exact Hv].
    intros u. rewrite Hb2. destruct (decide (v = u)); [reflexivity|by apply blk_parts].
  - intros q Hq. rewrite Hl2, Hl1. by apply Hlink.
Qed.

(** X15. A move keeps the level above in step. On a consistent level whose
    coupled state is weighted, consistent and in step with it (an occupied
    block weighs 1 above, an empty block 0, and the block of [r] above is
    [_bclabel[r]]), [move_vertex(v, r, nr)] either refuses the move at the
    label barrier, changing nothing, or returns; it never throws from the
    coupled state; and after it both levels are consistent and in step. *)
Theorem move_vertex_levels (st c : BlockState) (v nr : N) :
  consistent ∅ st -> coupled_state st = Some c -> consistent ∅ c -> linked st c ->
  (v < num_vertices (g st))%N -> (nr < B st)%N ->
  let o := move_vertex v (blk st v) nr st in
  (o = Throw (ValueException "cannot move vertex across clabel barriers") st
   \/ result_of o = Some tt)
  /\ consistent ∅ (final_state o)
  /\ exists c', coupled_state (final_state o) = Some c'
       /\ consistent ∅ c' /\ linked (final_state o) c'.
Proof.
  intros Hc Hcs Hcc Hl Hv Hnr o.
  assert (Hco : consistent ∅ (final_state o)).
  { apply (move_vertex_consistent ∅ st v nr Hc Hv); [set_solver|exact Hnr]. }
  split; [|split; [exact Hco|]]; clear Hco; unfold o, move_vertex.
  - destruct (N.eqb_spec (blk st v) nr) as [Heq|Hne]; [by right|].
    destruct (allow_move st (blk st v) nr true); cbn [negb]; [|by left].
    destruct (move_vertex_coupled st c v nr Hc Hcs Hcc Hl Hv Hnr Hne) as (st' & c' & He & _).
    rewrite He. by right.
  - destruct (N.eqb_spec (blk st v) nr) as [Heq|Hne]; [by exists c|].
    destruct (allow_move st (blk st v) nr true); cbn [negb]; [|by exists c].
    destruct (move_vertex_coupled st c v nr Hc Hcs Hcc Hl Hv Hnr Hne)
      as (st' & c' & He & Hcs' & Hc' & Hl').
    rewrite He. by exists c'.
Qed.

End LevelProofs.

Section LabelProofs.
Context `{Ext : Externals}.

(** ** Labels and the refusal of the level above *)

(** The state a move has reached when its tail starts. *)
Lemma move_vertex_middle (st : BlockState) (v nr : N) :
  consistent ∅ st -> (v < num_vertices (g st))%N -> (nr < B st)%N ->
  let st2 := add_vertex v nr (remove_vertex v (blk st v) st) in
  consistent ∅ st2 /\ static_part st2 = static_part st
  /\ blk st2 v = nr /\ bclabel st2 = bclabel st /\ coupled_state st2 = coupled_state st
  /\ pget (wr st2) (blk st v)
     = pget (wr st) (blk st v) - vweight st v
       + (if decide (blk st v = nr) then vweight st v else 0)
  /\ pget (wr st2) nr
     = pget (wr st) nr - (if decide (nr = blk st v) then vweight st v else 0)
       + vweight st v.
Proof.
  intros Hc Hv Hnr st2.
  destruct (placed_block_weight ∅ st v Hc Hv ltac:(set_solver)) as (Hr & _).
  destruct (remove_vertex_filt_consistent ∅ st v (fun _ => false) Hc Hv)
    as (Hc1 & Hs1 & Hb1 & Hl1 & Hcs1); [set_solver|].
  fold (remove_vertex v (blk st v) st) in Hc1, Hs1, Hb1, Hl1, Hcs1.
  destruct (add_vertex_filt_consistent (∅ ∪ {[v]}) (remove_vertex v (blk st v) st) v nr
              (fun _ => false) Hc1) as (Hc2 & Hs2 & Hb2 & Hl2 & Hcs2);
    [set_solver|by rewrite (static_B _ _ Hs1)|].
  fold (add_vertex v nr (remove_vertex v (blk st v) st)) in Hc2, Hs2, Hb2, Hl2, Hcs2.
  fold st2 in Hc2, Hs2, Hb2, Hl2, Hcs2.
  replace ((∅ ∪ {[v]}) ∖ {[v]} : gset N) with (∅ : gset N) in Hc2 by set_solver.
  assert (Hs : static_part st2 = static_part st) by (by rewrite Hs2).
  assert (Hb : forall u, blk st2 u = if decide (v = u) then nr else blk st u).
  { intros u. rewrite Hb2. destruct (decide (v = u)); [reflexivity|by apply blk_parts]. }
  split; [exact Hc2|]. split; [exact Hs|].
  split; [rewrite Hb; by destruct (decide (v = v))|].
  split; [congruence|]. split; [congruence|].
  rewrite (moved_wr st st2 v nr Hc Hc2 Hs Hb Hv (blk st v) Hr).
  rewrite (moved_wr st st2 v nr Hc Hc2 Hs Hb Hv nr Hnr).
  destruct (decide (blk st v = blk st v)), (decide (nr = nr)); done.
Qed.

(** X16. The refusal of the level above comes after the move. On a
    consistent level coupled to an unweighted state, an allowed
    [move_vertex(v, r, nr)] of a vertex that weighs to another block throws
    the exception of [set_vertex_weight] whenever it empties [r] or occupies
    an empty [nr]; the exception leaves the level changed: [v] is in [nr],
    and [wr] already counts it there. *)
Theorem move_vertex_unweighted_parent (st c : BlockState) (v nr : N) :
  consistent ∅ st -> coupled_state st = Some c -> is_weighted c = false ->
  (v < num_vertices (g st))%N -> (nr < B st)%N -> blk st v ≠ nr ->
  allow_move st (blk st v) nr true = true -> 0 < vweight st v ->
  pget (wr st) (blk st v) = vweight st v \/ pget (wr st) nr = 0 ->
  let o := move_vertex v (blk st v) nr st in
  o = Throw (ValueException "Cannot set the weight of an unweighted state") (final_state o)
  /\ blk (final_state o) v = nr
  /\ pget (wr (final_state o)) (blk st v) = pget (wr st) (blk st v) - vweight st v
  /\ pget (wr (final_state o)) nr = pget (wr st) nr + vweight st v.
Proof.
  intros Hc Hcs Hw Hv Hnr Hne Hal Hpos Hcase o.
  destruct (move_vertex_middle st v nr Hc Hv Hnr) as (Hc2 & Hs & Hb & Hl & Hcs2 & Hwr & Hwnr).
  set (st2 := add_vertex v nr (remove_vertex v (blk st v) st)) in *.
  destruct (decide (blk st v = nr)); [done|]. destruct (decide (nr = blk st v)); [done|].
  rewrite Z.add_0_r in Hwr. rewrite Z.sub_0_r in Hwnr.
  assert (Ho : o = propagate_move v (blk st v) nr st2).
  { unfold o, move_vertex. rewrite (proj2 (N.eqb_neq _ _) Hne), Hal. reflexivity. }
  destruct (propagate_move_frame v (blk st v) nr st2) as (_ & Hwp & _ & Hbp).
  rewrite <- Ho in Hwp, Hbp.
  assert (Hwr' : wr (final_state o) = wr st2).
  { unfold weight_part in Hwp. by injection Hwp. }
  split; [|split; [by rewrite (blk_parts _ _ v Hbp)|by rewrite Hwr']].
  rewrite Ho. unfold propagate_move. rewrite Hcs2, Hcs, (static_vweight _ _ v Hs).
  rewrite (proj2 (Z.ltb_lt _ _) Hpos). unfold bind.
  assert (Hset : forall (u : N) (z : Z) (x : BlockState),
             is_weighted x = false ->
             set_vertex_weight u z x
             = Throw (ValueException "Cannot set the weight of an unweighted state") x).
  { intros u z x Hx. unfold set_vertex_weight. by rewrite Hx. }
  destruct (Z.eqb_spec (pget (wr st2) (blk st v)) 0) as [Hv0|Hv0].
  - unfold on_coupled. rewrite Hcs2, Hcs. unfold coupled_vacate, bind, modify.
    rewrite Hset; [reflexivity|].
    destruct (remove_partition_node_frame (blk st v)
                (size_t_of_int (pget (bclabel st2) (blk st v))) c) as (Hsc & _).
    by rewrite (static_weighted _ _ Hsc).
  - unfold ret. assert (Hz : pget (wr st) nr = 0) by lia.
    rewrite (proj2 (Z.eqb_eq (pget (wr st2) nr) (vweight st v))) by lia.
    unfold on_coupled. rewrite Hcs2, Hcs. unfold coupled_occupy, bind.
    rewrite Hset by exact Hw. reflexivity.
Qed.

(** X17. The label a moved vertex ends under. When [move_vertex(v, r, nr)]
    returns on a consistent level, [v] is in [nr]. With no coupled state,
    or for a vertex of weight 0, no label is written, so a move into an
    empty block of another label puts the vertex under that label. With a
    coupled state and a vertex that weighs, or when [nr] was occupied, the
    label of [nr] is the label [r] had: the vertex keeps its label. *)
Theorem move_vertex_label (st st' : BlockState) (v nr : N) :
  consistent ∅ st -> (v < num_vertices (g st))%N -> (nr < B st)%N ->
  int32_range (pget (bclabel st) (blk st v)) ->
  move_vertex v (blk st v) nr st = Ok tt st' ->
  blk st' v = nr
  /\ (coupled_state st = None \/ vweight st v = 0 -> bclabel st' = bclabel st)
  /\ ((coupled_state st <> None /\ 0 < vweight st v) \/ pget (wr st) nr ≠ 0 ->
      pget (bclabel st') nr = pget (bclabel st) (blk st v)).
Proof.
  intros Hc Hv Hnr Hrange Hmove.
  destruct (move_vertex_blk ∅ st v nr Hc Hv) as [_ Hblk]; [set_solver|exact Hnr|].
  rewrite Hmove in Hblk. specialize (Hblk eq_refl). cbn [final_state] in Hblk.
  split; [exact Hblk|].
  unfold move_vertex in Hmove.
  destruct (N.eqb_spec (blk st v) nr) as [Heq|Hne].
  { injection Hmove as <-. split; [done|]. intros _. by rewrite Heq. }
  destruct (allow_move st (blk st v) nr true) eqn:Hal; cbn [negb] in Hmove; [|done].
  destruct (move_vertex_middle st v nr Hc Hv Hnr) as (Hc2 & Hs & Hb & Hl & Hcs2 & Hwr & Hwnr).
  set (st2 := add_vertex v nr (remove_vertex v (blk st v) st)) in *.
  destruct (decide (nr = blk st v)); [done|]. rewrite Z.sub_0_r in Hwnr.
  destruct (placed_block_weight ∅ st v Hc Hv ltac:(set_solver)) as (_ & Hx & _).
  pose proof (cs_pools ∅ st Hc) as Hp. unfold pools_ok, weight_part in Hp.
  destruct Hp as [_ Hwpos _ _ _ _ _ _ _ _]. specialize (Hwpos nr Hnr).
  assert (Hsame : pget (wr st) nr ≠ 0 ->
                  pget (bclabel st) nr = pget (bclabel st) (blk st v)).
  { intros Hnz. unfold allow_move in Hal. apply orb_prop in Hal as [Hal|Hal].
    - symmetry. by apply Z.eqb_eq.
    - apply Z.eqb_eq in Hal. done. }
  unfold propagate_move in Hmove. rewrite Hcs2, (static_vweight _ _ v Hs) in Hmove.
  destruct (coupled_state st) as [c|] eqn:Hcs.
  2:{ injection Hmove as <-. split; [by rewrite Hl|].
      intros [[? _]|Hnz]; [done|]. rewrite Hl. by apply Hsame. }
  destruct (Z.ltb_spec 0 (vweight st v)) as [Hpos|Hzero].
  2:{ injection Hmove as <-. split; [by rewrite Hl|].
      intros [[_ ?]|Hnz]; [lia|]. rewrite Hl. by apply Hsame. }
  split; [intros [?|?]; [done|lia]|]. intros _.
  unfold bind in Hmove.
  set (m1 := if pget (wr st2) (blk st v) =? 0 then _ else _) in Hmove.
  assert (H1 : bclabel (final_state (m1 st2)) = bclabel st2
               /\ coupled_state (final_state (m1 st2)) <> None).
  { subst m1. destruct (pget (wr st2) (blk st v) =? 0).
    - split; [apply on_coupled_frame|].
      unfold on_coupled. rewrite Hcs2. by destruct (coupled_vacate _ _ c).
    - split; [reflexivity|]. unfold ret. cbn [final_state]. by rewrite Hcs2. }
  destruct (m1 st2) as [[] stA|e stA]; [|done]. cbn [final_state] in H1.
  destruct H1 as [HlA HcsA].
  destruct (Z.eqb_spec (pget (wr st2) nr) (vweight st v)) as [Ho|Ho].
  - pose proof (on_coupled_frame
                  (coupled_occupy nr (size_t_of_int (pget (bclabel st2) (blk st v)))
                     (pget (bclabel st2) (blk st v))) stA) as HfB.
    destruct (on_coupled _ stA) as [[] stB|e stB]; [|done].
    cbn [final_state] in HfB. destruct HfB as (_ & _ & _ & _ & HlB).
    unfold modify in Hmove. injection Hmove as <-.
    cbn [bclabel with_bclabel]. rewrite pget_pset_eq, HlB, HlA, Hl.
    by apply wrap32_id.
  - unfold ret in Hmove. injection Hmove as <-. rewrite HlA, Hl. apply Hsame. lia.
Qed.

End LabelProofs.

Section MoveCases.
Context `{Ext : Externals}.

(** ** What the level above is told *)






End MoveCases.

Section Fresh.
Context `{Ext : Externals}.

(** ** States built from nothing *)

(** The constructor on a state whose counters are all zero: a consistent
    state with every vertex still to be added. *)
Lemma fresh_consistent (st : BlockState) :
  graph_ok (g st) -> Forall (fun v => 0 <= vweight st v) (vertices st) ->
  total_vweight st < 2 ^ 31 -> Forall (fun v => (blk st v < B st)%N) (vertices st) ->
  Z.of_N (B st) < 2 ^ 31 -> wr st = ∅ -> mrs st = ∅ -> mrp st = ∅ ->
  mrm_is_mrp st = negb (directed (g st)) ->
  consistent (list_to_set (vertices st)) (init_pools st).
Proof.
  intros Hg Hv Ht Hb HB Hwr Hmrs Hmrp Hsh.
  destruct (init_pools_ok st HB) as (Hp & Hs & Hw & He & Hbb).
  { intros r _. rewrite Hwr. unfold pget. rewrite lookup_empty. simpl. lia. }
  split.
  - by rewrite (static_g _ _ Hs).
  - rewrite (vertices_parts _ _ Hs). rewrite Forall_forall in Hv |- *.
    intros v Hin. rewrite (static_vweight _ _ v Hs). by apply Hv.
  - by rewrite (total_vweight_parts _ _ Hs).
  - rewrite (vertices_parts _ _ Hs), (static_B _ _ Hs). rewrite Forall_forall in Hb |- *.
    intros v Hin. rewrite (blk_parts _ _ v Hbb). by apply Hb.
  - intros v Hin. rewrite (static_g _ _ Hs). apply elem_of_vertices.
    by apply elem_of_list_to_set in Hin.
  - unfold counts_ok. rewrite (static_B _ _ Hs), Hw, Hwr. apply Forall_forall.
    intros r _. unfold pget at 1. rewrite lookup_empty. simpl. symmetry.
    unfold placed_weight. rewrite (vertices_parts _ _ Hs).
    etrans; [|apply (sumZ_zero (vertices st))]. apply sumZ_ext. intros v Hin.
    unfold placed_in. rewrite bool_decide_eq_false_2; [reflexivity|].
    intros [Hout _]. apply Hout. by apply elem_of_list_to_set.
  - exact Hp.
  - by rewrite (static_shared _ _ Hs), (static_g _ _ Hs).
  - apply (mrp_ok_parts st); [exact Hs|exact He|].
    unfold mrp_ok. apply Forall_forall. intros r _. rewrite Hmrp.
    unfold pget at 1. rewrite lookup_empty. simpl.
    assert (Hz : row_sum st r = 0).
    { unfold row_sum. etrans; [|apply (sumZ_zero (block_range (B st)))].
      apply sumZ_ext. intros s _. unfold mrs_matrix, get_beprop, mrs_at.
      rewrite Hmrs, !lookup_empty. simpl. by destruct (_ && _). }
    by rewrite Hz.
Qed.

End Fresh.

Section SweepEdges.
Context `{SExt : SweepExternals}.

(** ** Turns that propose nothing, and the target bin *)

Lemma sweep_loop_weightless (st : MulticanonicalState) (n : nat) (x : sweep_vars) :
  (forall q, node_weight (uniform_sample (vlist st) q).1 (mc_inner st) = 0%N) ->
  sv_state x = st ->
  let x' := sweep_loop n x in
  sv_state x' = st /\ sv_S x' = sv_S x /\ sv_nmoves x' = sv_nmoves x.
Proof.
  intros Hw. revert x. induction n as [|n IH]; intros x Hx; [done|].
  cbn [sweep_loop]. unfold sweep_iter. rewrite Hx.
  specialize (Hw (sv_rng x)).
  destruct (uniform_sample (vlist st) (sv_rng x)) as [v rng1]. cbn [fst] in Hw.
  rewrite Hw. cbn [N.eqb]. cbv zeta.
  match goal with |- context [sweep_loop n ?y] => destruct (IH y eq_refl) as (H1 & H2 & H3) end.
  cbn [sv_S sv_nmoves] in H2, H3. done.
Qed.

(** X18. A sweep over vertices of weight 0 proposes nothing. When the
    entropy of the state is inside the range and every vertex the sampler
    draws from the vertex list has [node_weight] 0, the sweep returns the
    entropy it started from with 0 moves, and leaves the state as it was:
    no visit is recorded and the time does not advance. *)
Theorem sweep_weightless (st : MulticanonicalState) (rng : rng_t) :
  outside st (mc_S st) = false ->
  (forall q, node_weight (uniform_sample (vlist st) q).1 (mc_inner st) = 0%N) ->
  exists rng', multicanonical_sweep st rng = Ok (mc_S st, 0%N) (st, rng').
Proof.
  intros Hin Hw. unfold multicanonical_sweep. rewrite Hin.
  destruct (sweep_loop_weightless st (N.to_nat (niter st)) (sweep_start st rng) Hw eq_refl)
    as (H1 & H2 & H3).
  rewrite H1, H2, H3. by eexists.
Qed.

Lemma bin_count_alter (i t : Z) (l : list N) :
  bin_count (alter_at count_up i l) t
  = if bool_decide (i = t /\ 0 <= t < Z.of_nat (length l))
    then count_up (bin_count l t) else bin_count l t.
Proof.
  unfold bin_count, alter_at.
  destruct (Z.leb_spec 0 i) as [Hi|Hi], (Z.leb_spec 0 t) as [Ht|Ht];
    try (rewrite bool_decide_eq_false_2 by lia; reflexivity).
  destruct (decide (i = t)) as [->|Hne].
  - rewrite list_lookup_alter.
    destruct (decide (Z.to_nat t = Z.to_nat t)) as [_|]; [|done]. case_bool_decide as Hb.
    + destruct (lookup_lt_is_Some_2 l (Z.to_nat t)) as [h Hh]; [lia|]. rewrite Hh. reflexivity.
    + rewrite lookup_ge_None_2 by lia. reflexivity.
  - rewrite list_lookup_alter.
    destruct (decide (Z.to_nat i = Z.to_nat t)) as [|_]; [lia|].
    by rewrite bool_decide_eq_false_2 by lia.
Qed.

(** One turn on the count of the target bin: a turn that does not end the
    loop leaves it alone; the turn that ends it adds one visit. *)
Lemma sweep_iter_target (x : sweep_vars) :
  let t := target_bin (sv_state x) in
  let c := bin_count (hist (sv_state x)) t in
  let x1 := (sweep_iter x).1 in
  target_bin (sv_state x1) = t
  /\ (if (sweep_iter x).2
      then bin_count (hist (sv_state x1)) t = c
           \/ bin_count (hist (sv_state x1)) t = count_up c
      else bin_count (hist (sv_state x1)) t = c).
Proof.
  unfold sweep_iter.
  destruct (uniform_sample (vlist (sv_state x)) (sv_rng x)) as [v rng1].
  destruct (N.eqb (node_weight v (mc_inner (sv_state x))) 0); [done|].
  destruct (move_proposal v rng1 (mc_inner (sv_state x))) as [[s rng2] in1].
  destruct (virtual_move_dS v s in1) as [dS in2].
  destruct (accept_move (sv_state x) (sv_i x) _ (sv_S x) dS rng2) as [accept rng3].
  cbn [fst snd sv_state record_visit with_inner hist target_bin].
  set (i := if accept then _ else sv_i x).
  split; [reflexivity|]. rewrite bin_count_alter.
  destruct (Z.eqb_spec i (target_bin (sv_state x))) as [Hi|Hi].
  - case_bool_decide; [by right|by left].
  - rewrite bool_decide_eq_false_2 by tauto. reflexivity.
Qed.

(** X19. A sweep records at most one visit in the target bin: the turn
    whose visit falls in [_target_bin] is the last one. Whatever the
    number of turns, the count of the target bin after the sweep is the
    count before it, or one more. *)
Theorem sweep_target_once (n : nat) (x : sweep_vars) :
  let t := target_bin (sv_state x) in
  let c := bin_count (hist (sv_state x)) t in
  bin_count (hist (sv_state (sweep_loop n x))) t = c
  \/ bin_count (hist (sv_state (sweep_loop n x))) t = count_up c.
Proof.
  revert x. induction n as [|n IH]; intros x; [by left|].
  cbn [sweep_loop]. destruct (sweep_iter_target x) as [Ht Hc].
  destruct (sweep_iter x) as [x1 stop]. cbn [fst snd] in Ht, Hc.
  destruct stop; [exact Hc|].
  specialize (IH x1). cbv zeta in IH. rewrite Ht, Hc in IH. exact IH.
Qed.

End SweepEdges.

Section StatisticsProofs.
Context `{Ext : Externals}.

(** ** One statistics object for every label *)

Lemma top_label (f : N -> Z) (l : list N) (m0 : Z) :
  let top := foldl (fun m v => if m <? f v then f v else m) m0 l in
  m0 <= top /\ Forall (fun v => f v <= top) l
  /\ (top = m0 \/ Exists (fun v => top = f v) l).
Proof.
  revert m0. induction l as [|x l IH]; intros m0; cbn [foldl].
  - split; [lia|]. split; [constructor|by left].
  - destruct (IH (if m0 <? f x then f x else m0)) as (H1 & H2 & H3).
    destruct (Z.ltb_spec m0 (f x)) as [Hlt|Hge].
    + split; [lia|]. split; [constructor; [lia|exact H2]|].
      right. destruct H3 as [->|H3]; [by left|by right].
    + split; [lia|]. split; [constructor; [lia|exact H2]|].
      destruct H3 as [->|H3]; [by left|right; by right].
Qed.

Lemma foldl_alter_length {A C : Type} (f : C -> A -> A) (k : C -> nat) (l : list C)
    (a : list A) :
  length (foldl (fun ps r => alter (f r) (k r) ps) a l) = length a.
Proof.
  revert a. induction l as [|x l IH]; intros a; [reflexivity|].
  cbn [foldl]. by rewrite IH, length_alter.
Qed.

(** X20. [enable_partition_stats()] on a state with at least one vertex
    and constraint labels that are non-negative [int] values below the
    largest builds, when the statistics are disabled, one object for every
    label from 0 to the largest one: the statistics are enabled after it,
    [get_partition_stats(v)] finds an object for every vertex [v], and so
    does [get_delta_partition_dl]. It writes nothing but the statistics:
    the counters are as they were, and a second call changes nothing. *)
Theorem enable_partition_stats_covers (st : BlockState) :
  (0 < num_vertices (g st))%N ->
  Forall (fun v => 0 <= pget (pclabel st) v < 2 ^ 31 - 1) (vertices st) ->
  partition_stats st = [] ->
  let st' := enable_partition_stats st in
  is_partition_stats_enabled st' = true
  /\ (forall v, (v < num_vertices (g st))%N ->
        exists ps, get_partition_stats st' v = Some ps
          /\ forall r nr, get_delta_partition_dl v r nr st
                          = Ok (ps_get_delta_partition_dl v r nr (vweight st) ps) st')
  /\ counters st' = counters st /\ coupled_state st' = coupled_state st
  /\ enable_partition_stats st' = st'.
Proof.
  intros Hn Hl Hps st'.
  assert (Hlen : exists (top : Z) (X : list partition_stats_t),
             Forall (fun v => pget (pclabel st) v <= top) (vertices st)
             /\ 0 <= top < 2 ^ 31 - 1
             /\ length X = Z.to_nat (top + 1)
             /\ enable_partition_stats st = with_partition_stats X st).
  { unfold enable_partition_stats. rewrite Hps. cbv zeta.
    fold (vertices st).
    set (m0 := match vertices st with v0 :: _ => pget (pclabel st) v0 | [] => 0 end).
    destruct (top_label (pget (pclabel st)) (vertices st) m0) as (H1 & H2 & H3).
    set (top := foldl _ m0 (vertices st)) in *.
    assert (Hm0 : 0 <= m0 < 2 ^ 31 - 1).
    { unfold m0. destruct (vertices st) as [|v0 l] eqn:Hv; [lia|].
      by apply Forall_cons in Hl as [? _]. }
    assert (Htop : 0 <= top < 2 ^ 31 - 1).
    { destruct H3 as [->|H3]; [exact Hm0|].
      apply Exists_exists in H3 as (v & Hv & ->).
      rewrite Forall_forall in Hl. by apply Hl. }
    exists top. eexists. split; [exact H2|]. split; [exact Htop|].
    split; [|reflexivity].
    rewrite foldl_alter_length, length_map, length_block_range.
    unfold size_t_of_int, iadd. rewrite wrap32_id by (unfold int32_range; lia).
    rewrite wrap64_small by lia. lia. }
  destruct Hlen as (top & X & Hle & Htop & Hlen & Hst). unfold st'. rewrite Hst.
  assert (Hen : is_partition_stats_enabled (with_partition_stats X st) = true).
  { unfold is_partition_stats_enabled. cbn [partition_stats with_partition_stats].
    destruct X; [|reflexivity]. simpl in Hlen. lia. }
  split; [exact Hen|].
  split; [|split; [reflexivity|split; [reflexivity|]]].
  - intros v Hv. rewrite Forall_forall in Hle, Hl.
    specialize (Hle v (proj2 (elem_of_vertices st v) Hv)).
    specialize (Hl v (proj2 (elem_of_vertices st v) Hv)).
    destruct (lookup_lt_is_Some_2 X (Z.to_nat (pget (pclabel st) v))) as [ps Hps'];
      [lia|].
    assert (Hg : get_partition_stats (with_partition_stats X st) v = Some ps).
    { unfold get_partition_stats. cbn [pclabel partition_stats with_partition_stats].
      rewrite (proj2 (Z.leb_le 0 _)) by lia. exact Hps'. }
    exists ps. split; [exact Hg|]. intros r nr.
    unfold get_delta_partition_dl, bind, modify.
    rewrite Hst, Hg. reflexivity.
  - unfold enable_partition_stats at 1.
    unfold is_partition_stats_enabled in Hen.
    by destruct (partition_stats (with_partition_stats X st)).
Qed.

End StatisticsProofs.

(** ** The edge set of a batch *)

Lemma sumZ_perm {A : Type} (f : A -> Z) (l l' : list A) :
  l ≡ₚ l' -> sumZ f l = sumZ f l'.
Proof.
  induction 1 as [|x l l' _ IH|x y l|l l' l'' _ IH1 _ IH2]; simpl; lia.
Qed.

Lemma sumZ_fmap {A C : Type} (f : C -> Z) (h : A -> C) (l : list A) :
  sumZ f (h <$> l) = sumZ (fun x => f (h x)) l.
Proof.
  induction l as [|x l IH]; [reflexivity|].
  rewrite fmap_cons. change (sumZ ?F (?a :: ?m)) with (F a + sumZ F m). by rewrite IH.
Qed.

Lemma elem_of_indexed {A : Type} (n i : N) (x : A) (l : list A) :
  (i, x) ∈ indexed n l <-> (n <= i)%N /\ l !! N.to_nat (i - n) = Some x.
Proof.
  revert n. induction l as [|y l IH]; intros n; cbn [indexed].
  - rewrite elem_of_nil. split; [done|]. by intros [_ ?].
  - rewrite elem_of_cons, IH. split.
    + intros [[= -> ->]|[Hle Hl]].
      * split; [lia|]. by rewrite N.sub_diag.
      * split; [lia|]. replace (N.to_nat (i - n)) with (S (N.to_nat (i - N.succ n))) by lia.
        exact Hl.
    + intros [Hle Hl]. destruct (N.eq_dec i n) as [->|Hne].
      * left. rewrite N.sub_diag in Hl. simpl in Hl. congruence.
      * right. split; [lia|].
        replace (N.to_nat (i - n)) with (S (N.to_nat (i - N.succ n))) in Hl by lia.
        exact Hl.
Qed.

Lemma indexed_fst_NoDup {A : Type} (n : N) (l : list A) : NoDup (indexed n l).*1.
Proof.
  revert n. induction l as [|y l IH]; intros n; cbn [indexed]; [constructor|].
  rewrite fmap_cons. constructor; [|apply IH].
  intros Hin. apply list_elem_of_fmap in Hin as [[i x] [Hi Hin]]. cbn in Hi. subst i.
  apply elem_of_indexed in Hin as [Hle _]. lia.
Qed.

Lemma indexed_functional {A : Type} (n i : N) (x y : A) (l : list A) :
  (i, x) ∈ indexed n l -> (i, y) ∈ indexed n l -> x = y.
Proof. rewrite !elem_of_indexed. intros [_ H1] [_ H2]. congruence. Qed.

Lemma edge_in_spec (es : list edge_t) (i : N) :
  edge_in es i = true <-> i ∈ eidx <$> es.
Proof.
  unfold edge_in. rewrite existsb_exists. split.
  - intros [e [He Hi]]. apply N.eqb_eq in Hi. apply list_elem_of_fmap.
    exists e. split; [done|]. by apply list_elem_of_In.
  - intros Hin. apply list_elem_of_fmap in Hin as [e [-> He]].
    exists e. split; [by apply list_elem_of_In|apply N.eqb_refl].
Qed.


Lemma out_edges_range_elem (v : N) (gr : Graph) (e : edge_t) :
  e ∈ out_edges_range v gr <->
  exists s t, (eidx e, (s, t)) ∈ indexed 0%N (edge_list gr) /\ source e = v
    /\ ((s = v /\ target e = t) \/ (directed gr = false /\ t = v /\ target e = s)).
Proof.
  unfold out_edges_range. rewrite list_elem_of_In, in_flat_map. split.
  - intros [[i [s t]] [Hin He]]. rewrite <- list_elem_of_In in Hin. rewrite <- list_elem_of_In in He.
    apply elem_of_app in He as [He|He].
    + destruct (N.eqb_spec s v) as [->|]; [|by apply elem_of_nil in He].
      apply list_elem_of_singleton in He as ->. exists v, t. cbn. naive_solver.
    + destruct (directed gr) eqn:Hd; [by apply elem_of_nil in He|]. cbn [negb andb] in He.
      destruct (N.eqb_spec t v) as [->|]; [|by apply elem_of_nil in He].
      apply list_elem_of_singleton in He as ->. exists s, v. cbn. naive_solver.
  - intros (s & t & Hin & Hs & Hc). exists (eidx e, (s, t)).
    split; [by apply list_elem_of_In|]. apply list_elem_of_In, elem_of_app.
    destruct e as [i a c]. cbn in *. subst a.
    destruct Hc as [[-> ->]|(Hd & -> & ->)].
    + left. rewrite N.eqb_refl. apply list_elem_of_here.
    + right. rewrite Hd, N.eqb_refl. apply list_elem_of_here.
Qed.

Lemma in_edges_range_elem (v : N) (gr : Graph) (e : edge_t) :
  e ∈ in_edges_range v gr <->
  directed gr = true
  /\ (eidx e, (source e, target e)) ∈ indexed 0%N (edge_list gr) /\ target e = v.
Proof.
  unfold in_edges_range. destruct (directed gr).
  2:{ split; [by intros ?%elem_of_nil|by intros [? _]]. }
  rewrite list_elem_of_In, in_flat_map. split.
  - intros [[i [s t]] [Hin He]]. rewrite <- list_elem_of_In in Hin. rewrite <- list_elem_of_In in He.
    destruct (N.eqb_spec t v) as [->|]; [|by apply elem_of_nil in He].
    apply list_elem_of_singleton in He as ->. by cbn.
  - intros (_ & Hin & Ht). exists (eidx e, (source e, target e)).
    split; [by apply list_elem_of_In|]. apply list_elem_of_In.
    rewrite Ht, N.eqb_refl. destruct e as [i a c]. cbn in *. subst c.
    apply list_elem_of_here.
Qed.

Section BatchSet.
Variable gr : Graph.
Variable vs : list N.

Local Abbreviation batch_step v :=
  (fun (es' : list edge_t) (e : edge_t) =>
     let u := if N.eqb (source e) v then target e else source e in
     if bool_decide (u ∈ vs) then eset_insert es' e else es').

Lemma eset_insert_in (es : list edge_t) (e : edge_t) (i : N) :
  edge_in (eset_insert es e) i = true <-> edge_in es i = true \/ i = eidx e.
Proof.
  unfold eset_insert. destruct (edge_in es (eidx e)) eqn:He.
  - split; [auto|]. intros [?| ->]; done.
  - rewrite !edge_in_spec, fmap_app, elem_of_app. cbn. rewrite list_elem_of_singleton.
    reflexivity.
Qed.

Lemma batch_step_mono (v : N) (el : list edge_t) (es : list edge_t) (i : N) :
  edge_in es i = true -> edge_in (foldl (batch_step v) es el) i = true.
Proof.
  revert es. induction el as [|e el IH]; intros es Hi; [done|].
  cbn [foldl]. apply IH. cbv zeta. destruct (bool_decide _); [|done].
  apply eset_insert_in. by left.
Qed.

Lemma batch_step_adds (v : N) (el : list edge_t) (es : list edge_t) (e : edge_t) :
  e ∈ el -> (if N.eqb (source e) v then target e else source e) ∈ vs ->
  edge_in (foldl (batch_step v) es el) (eidx e) = true.
Proof.
  revert es. induction el as [|e' el IH]; intros es He Hu; [by apply elem_of_nil in He|].
  cbn [foldl]. apply elem_of_cons in He as [<-|He]; [|by apply IH].
  apply batch_step_mono. cbv zeta. rewrite bool_decide_eq_true_2 by exact Hu.
  apply eset_insert_in. by right.
Qed.

Lemma batch_step_inv (v : N) (el : list edge_t) (es : list edge_t) :
  v ∈ vs -> (forall e, e ∈ el -> e ∈ all_edges_range v gr) ->
  batch_set gr vs es -> batch_set gr vs (foldl (batch_step v) es el).
Proof.
  intros Hv. revert es. induction el as [|e el IH]; intros es Hel Hes; [done|].
  cbn [foldl]. apply IH; [intros e' He'; apply Hel; by right|].
  cbv zeta. case_bool_decide as Hu; [|done].
  unfold eset_insert. destruct (edge_in es (eidx e)) eqn:Hin; [done|].
  destruct Hes as [Hnd Hall]. split.
  - rewrite fmap_app. apply NoDup_app. split; [done|]. split; [|apply NoDup_singleton].
    intros i Hi Hi'. apply list_elem_of_singleton in Hi' as ->.
    apply edge_in_spec in Hi. congruence.
  - apply Forall_app. split; [done|]. constructor; [|constructor].
    specialize (Hel e (list_elem_of_here _ _)). unfold all_edges_range in Hel.
    apply elem_of_app in Hel as [Ho|Hi].
    + apply out_edges_range_elem in Ho as (s & t & Hidx & Hs & Hc).
      rewrite Hs, N.eqb_refl in Hu. exists s, t. split; [exact Hidx|].
      destruct Hc as [[-> <-]|(Hd & -> & <-)].
      * split; [exact Hv|]. split; [exact Hu|]. by left.
      * split; [exact Hu|]. split; [exact Hv|]. right. done.
    + apply in_edges_range_elem in Hi as (Hd & Hidx & Ht).
      exists (source e), (target e). split; [exact Hidx|].
      split; [|split; [by rewrite Ht|by left]].
      destruct (N.eqb_spec (source e) v) as [->|]; [exact Hv|exact Hu].
Qed.

Lemma batch_fold_mono (l : list N) (es : list edge_t) (i : N) :
  edge_in es i = true ->
  edge_in (foldl (fun es v => foldl (batch_step v) es (all_edges_range v gr)) es l) i = true.
Proof.
  revert es. induction l as [|v l IH]; intros es Hi; [done|].
  cbn [foldl]. apply IH. by apply batch_step_mono.
Qed.

(** The edge set of a batch lists every edge between two vertices of the
    batch once, and nothing else. *)
Lemma batch_edges_spec :
  batch_set gr vs (batch_edges gr vs)
  /\ forall i s t, (i, (s, t)) ∈ indexed 0%N (edge_list gr) -> s ∈ vs -> t ∈ vs ->
       edge_in (batch_edges gr vs) i = true.
Proof.
  unfold batch_edges. split.
  - assert (H : forall l es, (forall v, v ∈ l -> v ∈ vs) -> batch_set gr vs es ->
              batch_set gr vs (foldl (fun es v => foldl (batch_step v) es (all_edges_range v gr))
                               es l)).
    { induction l as [|v l IH]; intros es Hl Hes; [done|].
      cbn [foldl]. apply IH; [intros u Hu; apply Hl; by right|].
      apply batch_step_inv; [apply Hl; by left|done|done]. }
    apply H; [done|]. split; [constructor|constructor].
  - intros i s t Hidx Hs Ht.
    assert (H : forall l es, s ∈ l ->
              edge_in (foldl (fun es v => foldl (batch_step v) es (all_edges_range v gr))
                             es l) i = true).
    { induction l as [|v l IH]; intros es Hl; [by apply elem_of_nil in Hl|].
      cbn [foldl]. apply elem_of_cons in Hl as [<-|Hl]; [|by apply IH].
      apply batch_fold_mono.
      apply (batch_step_adds s _ es {| eidx := i; source := s; target := t |}).
      - unfold all_edges_range. apply elem_of_app. left.
        apply out_edges_range_elem. exists s, t. cbn. naive_solver.
      - cbn. by rewrite N.eqb_refl. }
    by apply H.
Qed.

End BatchSet.

(** The sum a loop over the edge set of a batch makes, edge by edge of the
    graph. *)
Lemma batch_sum (gr : Graph) (vs : list N) (es : list edge_t) (h : N -> N -> N -> Z) :
  batch_set gr vs es ->
  (directed gr = false -> forall i s t, h i s t = h i t s) ->
  sumZ (fun e => h (eidx e) (source e) (target e)) es
  = sumZ (fun ie : N * (N * N) => if edge_in es ie.1 then h ie.1 ie.2.1 ie.2.2 else 0)
         (indexed 0%N (edge_list gr)).
Proof.
  intros [Hnd Hall] Hsym. rewrite Forall_forall in Hall.
  set (H := fun i : N => match edge_list gr !! N.to_nat i with
                          | Some (s, t) => h i s t
                          | None => 0
                          end).
  assert (HH : forall i s t, (i, (s, t)) ∈ indexed 0%N (edge_list gr) -> H i = h i s t).
  { intros i s t Hin. apply elem_of_indexed in Hin as [_ Hl].
    rewrite N.sub_0_r in Hl. unfold H. by rewrite Hl. }
  transitivity (sumZ H (eidx <$> es)).
  { rewrite sumZ_fmap. apply sumZ_ext. intros e He.
    destruct (Hall e He) as (s & t & Hin & _ & _ & Hc). rewrite (HH _ _ _ Hin).
    destruct Hc as [[-> ->]|(Hd & -> & ->)]; [reflexivity|by apply Hsym]. }
  transitivity (sumZ H (filter (fun i => edge_in es i) (indexed 0%N (edge_list gr)).*1)).
  { apply sumZ_perm, NoDup_Permutation.
    - exact Hnd.
    - apply NoDup_filter, indexed_fst_NoDup.
    - intros i. rewrite list_elem_of_filter, <- edge_in_spec. split.
      + intros Hi. split; [by apply Is_true_true|].
        apply edge_in_spec, list_elem_of_fmap in Hi as [e [-> He]].
        destruct (Hall e He) as (s & t & Hin & _).
        apply list_elem_of_fmap. by exists (eidx e, (s, t)).
      + intros [Hi _]. by apply Is_true_true. }
  rewrite sumZ_filter_bool, sumZ_fmap. apply sumZ_ext. intros [i [s t]] Hin.
  cbn [fst snd]. by rewrite (HH _ _ _ Hin).
Qed.

(** The filter of a bulk operation: the edges between two vertices of the
    batch. *)
Lemma batch_filter_spec (gr : Graph) (vs : list N) (i s t : N) :
  (i, (s, t)) ∈ indexed 0%N (edge_list gr) ->
  edge_in (batch_edges gr vs) i = true <-> s ∈ vs /\ t ∈ vs.
Proof.
  intros Hin. destruct (batch_edges_spec gr vs) as [[_ Hall] Hc]. split.
  - intros Hi. apply edge_in_spec, list_elem_of_fmap in Hi as [e [-> He]].
    rewrite Forall_forall in Hall. destruct (Hall e He) as (s' & t' & Hin' & Hs & Ht & _).
    pose proof (indexed_functional _ _ _ _ _ Hin Hin') as Heq.
    injection Heq as -> ->. done.
  - intros [Hs Ht]. by apply (Hc i s t).
Qed.

Section BatchEdges.
Context `{Ext : Externals}.

Local Notation "x ≡ y" := (x mod 2 ^ 32 = y mod 2 ^ 32) (at level 70, no associativity).

(** ** The block edge counts through the bulk operations *)

Lemma counted_weight_parts (st st' : BlockState) (P : N -> N -> N -> bool) (k : N * N) :
  static_part st' = static_part st ->
  (forall i s t, P i s t = true -> blk st' s = blk st s /\ blk st' t = blk st t) ->
  counted_weight st' P k = counted_weight st P k.
Proof.
  intros Hs Hb. unfold counted_weight. rewrite (static_g _ _ Hs).
  apply sumZ_ext. intros [i [s t]] _. cbn [fst snd].
  rewrite (static_eweight _ _ i Hs). unfold edge_pair. cbn [fst snd].
  rewrite (static_g _ _ Hs).
  destruct (P i s t) eqn:HP; [|reflexivity].
  destruct (Hb i s t HP) as [-> ->]. reflexivity.
Qed.

Lemma pair_weight_counted (st : BlockState) (X : gset N) (k : N * N) :
  pair_weight st X k
  = counted_weight st (fun _ s t => bool_decide (s ∉ X) && bool_decide (t ∉ X)) k.
Proof.
  unfold pair_weight, counted_weight. apply sumZ_ext. intros [i [s t]] _. cbn [fst snd].
  repeat case_bool_decide; cbn [andb]; try reflexivity; tauto.
Qed.

(** Taking out a vertex with a filter: the edges at the vertex the filter
    lets through are no longer counted. *)
Lemma remove_filt_counted (st : BlockState) (v : N) (efilt : N -> bool)
    (P P' : N -> N -> N -> bool) (k : N * N) :
  blk st v ≠ null_group ->
  mrs_at st k = wrap32 (counted_weight st P k) ->
  (forall i s t, (i, (s, t)) ∈ indexed 0%N (edge_list (g st)) ->
     if bool_decide (s = v \/ t = v) && negb (efilt i)
     then P i s t = true /\ P' i s t = false else P' i s t = P i s t) ->
  let st' := remove_vertex_filt v (blk st v) efilt st in
  mrs_at st' k = wrap32 (counted_weight st' P' k)
  /\ static_part st' = static_part st /\ b st' = b st.
Proof.
  intros Hr Hok HP st'.
  destruct (modify_vertex_remove_parts v (blk st v) efilt st) as (Hs & Hb & Hm).
  fold (remove_vertex_filt v (blk st v) efilt st) in Hs, Hb, Hm. fold st' in Hs, Hb, Hm.
  split; [|split; [exact Hs|exact Hb]].
  unfold mrs_at at 1. rewrite Hm.
  fold (mrs_at (foldl (fun s e => apply_entry false e s)
    (get_move_entries v (blk st v) null_group efilt st)
    (entries (m_entries (get_move_entries v (blk st v) null_group efilt st)))) k).
  rewrite mrs_at_apply_entries.
  2:{ change (mrs_at (get_move_entries v (blk st v) null_group efilt st) k)
        with (mrs_at st k). rewrite Hok. apply wrap32_range. }
  change (mrs_at (get_move_entries v (blk st v) null_group efilt st) k) with (mrs_at st k).
  change (directed (g (get_move_entries v (blk st v) null_group efilt st)))
    with (directed (g st)).
  change (entries (m_entries (get_move_entries v (blk st v) null_group efilt st)))
    with (entries (move_entries v (blk st v) null_group (b st) (g st) (eweight st) efilt)).
  rewrite Hok, wrap32_add_l. apply wrap32_congr.
  rewrite (counted_weight_parts st st' P' k Hs)
    by (intros; split; by apply blk_parts).
  eapply cong_trans; [apply cong_add; [reflexivity|apply move_entries_delta_filt]|].
  f_equal. unfold counted_weight. rewrite <- sumZ_add. apply sumZ_ext.
  intros [i [s t]] Hin. specialize (HP i s t Hin). cbn [fst snd].
  destruct (bool_decide (s = v \/ t = v) && negb (efilt i)).
  - destruct HP as [-> ->]. cbn [andb]. rewrite put_delta_remove by exact Hr.
    cbn [fst snd]. unfold edge_pair. cbn [fst snd]. fold (blk st s). fold (blk st t).
    assert (Hbs : (if N.eqb s v then blk st v else blk st s) = blk st s)
      by (by destruct (N.eqb_spec s v) as [->|]).
    assert (Hbt : (if N.eqb t v then blk st v else blk st t) = blk st t)
      by (by destruct (N.eqb_spec t v) as [->|]).
    rewrite Hbs, Hbt. case_bool_decide; lia.
  - rewrite HP. lia.
Qed.

(** Putting in a vertex with a filter: the edges at the vertex the filter
    lets through are counted from now on. *)
Lemma add_filt_counted (st : BlockState) (v r : N) (efilt : N -> bool)
    (P P' : N -> N -> N -> bool) (k : N * N) :
  Z.of_N r < 2 ^ 31 ->
  mrs_at st k = wrap32 (counted_weight st P k) ->
  (forall i s t, (i, (s, t)) ∈ indexed 0%N (edge_list (g st)) ->
     if bool_decide (s = v \/ t = v) && negb (efilt i)
     then P i s t = false /\ P' i s t = true
     else P' i s t = P i s t /\ (P i s t = true -> s ≠ v /\ t ≠ v)) ->
  let st' := add_vertex_filt v r efilt st in
  mrs_at st' k = wrap32 (counted_weight st' P' k)
  /\ static_part st' = static_part st
  /\ (forall u, blk st' u = if decide (v = u) then r else blk st u).
Proof.
  intros Hr Hok HP st'.
  assert (Hnull : r ≠ null_group) by (unfold null_group; intros ->; lia).
  destruct (modify_vertex_add_parts v r efilt st Hr) as (Hs & Hb & Hm).
  fold (add_vertex_filt v r efilt st) in Hs, Hb, Hm. fold st' in Hs, Hb, Hm.
  split; [|split; [exact Hs|exact Hb]].
  unfold mrs_at at 1. rewrite Hm.
  fold (mrs_at (foldl (fun s e => apply_entry true e s)
    (get_move_entries v null_group r efilt st)
    (entries (m_entries (get_move_entries v null_group r efilt st)))) k).
  rewrite mrs_at_apply_entries.
  2:{ change (mrs_at (get_move_entries v null_group r efilt st) k) with (mrs_at st k).
      rewrite Hok. apply wrap32_range. }
  change (mrs_at (get_move_entries v null_group r efilt st) k) with (mrs_at st k).
  change (directed (g (get_move_entries v null_group r efilt st))) with (directed (g st)).
  change (entries (m_entries (get_move_entries v null_group r efilt st)))
    with (entries (move_entries v null_group r (b st) (g st) (eweight st) efilt)).
  rewrite Hok, wrap32_add_l. apply wrap32_congr.
  eapply cong_trans; [apply cong_add; [reflexivity|apply move_entries_delta_filt]|].
  f_equal. unfold counted_weight. rewrite (static_g _ _ Hs), <- sumZ_add.
  apply sumZ_ext. intros [i [s t]] Hin. specialize (HP i s t Hin). cbn [fst snd].
  rewrite (static_eweight _ _ i Hs). unfold edge_pair. cbn [fst snd].
  rewrite (static_g _ _ Hs), !Hb.
  destruct (bool_decide (s = v \/ t = v) && negb (efilt i)).
  - destruct HP as [-> ->]. cbn [andb]. rewrite put_delta_add by exact Hnull.
    cbn [fst snd]. fold (blk st s). fold (blk st t).
    assert (Hbs : (if N.eqb s v then r else blk st s)
                  = (if decide (v = s) then r else blk st s)).
    { destruct (N.eqb_spec s v), (decide (v = s)); congruence. }
    assert (Hbt : (if N.eqb t v then r else blk st t)
                  = (if decide (v = t) then r else blk st t)).
    { destruct (N.eqb_spec t v), (decide (v = t)); congruence. }
    rewrite Hbs, Hbt. case_bool_decide; lia.
  - destruct HP as [-> Hne]. rewrite Z.add_0_r.
    destruct (P i s t); [|reflexivity]. destruct (Hne eq_refl) as [Hs' Ht'].
    destruct (decide (v = s)); [congruence|]. destruct (decide (v = t)); [congruence|].
    reflexivity.
Qed.

(** The loop of [remove_vertices] over the batch. *)
Lemma remove_fold_counted (F : N -> bool) (V : gset N) (l : list N) (X : gset N)
    (st : BlockState) (k : N * N) :
  NoDup l ->
  (forall x, x ∈ l -> x ∈ V /\ (x ∉ X) /\ blk st x ≠ null_group) -> X ⊆ V ->
  (forall i s t, (i, (s, t)) ∈ indexed 0%N (edge_list (g st)) ->
     F i = true <-> s ∈ V /\ t ∈ V) ->
  mrs_at st k = wrap32 (counted_weight st (kept F X) k) ->
  let st' := foldl (fun s v => remove_vertex_filt v (size_t_of_int (pget (b s) v)) F s)
                   st l in
  mrs_at st' k = wrap32 (counted_weight st' (kept F (X ∪ list_to_set l)) k)
  /\ static_part st' = static_part st /\ b st' = b st.
Proof.
  revert X st. induction l as [|v l IH]; intros X st Hnd Hl HX HF Hok.
  - cbn [foldl list_to_set]. replace (X ∪ ∅) with X by set_solver. done.
  - cbn [foldl]. fold (blk st v). apply NoDup_cons in Hnd as [Hni Hnd].
    destruct (Hl v (list_elem_of_here _ _)) as (HvV & HvX & Hnull).
    destruct (remove_filt_counted st v F (kept F X) (kept F (X ∪ {[v]})) k Hnull Hok)
      as (Hok1 & Hs1 & Hb1).
    { intros i s t Hin. specialize (HF i s t Hin). unfold kept.
      destruct (F i) eqn:HFi; cbn [negb andb orb].
      - by rewrite andb_false_r.
      - rewrite andb_true_r. case_bool_decide as Hat.
        + assert (Hout : ¬ (s ∈ V /\ t ∈ V)) by (intros HH; apply HF in HH; done).
          split.
          * rewrite !bool_decide_eq_true_2; [done| |]; set_solver.
          * apply andb_false_iff. rewrite !bool_decide_eq_false. set_solver.
        + f_equal; apply bool_decide_ext; set_solver. }
    set (st1 := remove_vertex_filt v (blk st v) F st) in *.
    destruct (IH (X ∪ {[v]}) st1 Hnd) as (Hok2 & Hs2 & Hb2).
    + intros x Hx. destruct (Hl x (list_elem_of_further _ _ _ Hx)) as (H1 & H2 & H3).
      split; [exact H1|]. split; [set_solver|]. by rewrite (blk_parts _ _ x Hb1).
    + set_solver.
    + rewrite (static_g _ _ Hs1). exact HF.
    + exact Hok1.
    + split; [|split; congruence].
      replace (X ∪ list_to_set (v :: l)) with (X ∪ {[v]} ∪ list_to_set l : gset N)
        by set_solver.
      exact Hok2.
Qed.

(** The value [vset] holds for a vertex. *)
Lemma vset_find_cons (v r u : N) (l : list (N * N)) :
  vset_find ((v, r) :: l) u = if decide (v = u) then r else vset_find l u.
Proof.
  unfold vset_find. cbn [find fst]. destruct (N.eqb_spec v u), (decide (v = u)); done.
Qed.

(** The loop of [add_vertices] over the batch. *)
Lemma add_fold_counted (F : N -> bool) (V : gset N) (l : list (N * N))
    (st : BlockState) (k : N * N) :
  NoDup l.*1 ->
  (forall p, p ∈ l -> p.1 ∈ V /\ Z.of_N p.2 < 2 ^ 31) ->
  (forall i s t, (i, (s, t)) ∈ indexed 0%N (edge_list (g st)) ->
     F i = true <-> s ∈ V /\ t ∈ V) ->
  mrs_at st k = wrap32 (counted_weight st (entered F (list_to_set l.*1)) k) ->
  let st' := foldl (fun s vr => add_vertex_filt vr.1 vr.2 F s) st l in
  mrs_at st' k = wrap32 (counted_weight st' (entered F ∅) k)
  /\ static_part st' = static_part st
  /\ (forall u, blk st' u = if bool_decide (u ∈ l.*1) then vset_find l u else blk st u).
Proof.
  revert st. induction l as [|[v r] l IH]; intros st Hnd Hl HF Hok.
  - cbn [foldl]. split; [exact Hok|]. split; [reflexivity|]. intros u.
    rewrite bool_decide_eq_false_2; [done|]. cbn. set_solver.
  - cbn [foldl fst snd]. rewrite fmap_cons in Hnd, Hok. cbn [fst] in Hnd, Hok.
    apply NoDup_cons in Hnd as [Hni Hnd].
    destruct (Hl (v, r) (list_elem_of_here _ _)) as (HvV & Hr). cbn [fst snd] in HvV, Hr.
    assert (HlV : forall x, x ∈ l.*1 -> x ∈ V).
    { intros x Hx. apply list_elem_of_fmap in Hx as [p [-> Hp]].
      by destruct (Hl p (list_elem_of_further _ _ _ Hp)). }
    destruct (add_filt_counted st v r F (entered F (list_to_set (v :: l.*1)))
                (entered F (list_to_set l.*1)) k Hr Hok) as (Hok1 & Hs1 & Hb1).
    { intros i s t Hin. specialize (HF i s t Hin). unfold entered.
      destruct (F i) eqn:HFi; cbn [negb andb orb].
      - rewrite andb_false_r. done.
      - rewrite andb_true_r. case_bool_decide as Hat.
        + assert (Hout : ¬ (s ∈ V /\ t ∈ V)) by (intros HH; apply HF in HH; done).
          split.
          * apply andb_false_iff. rewrite !bool_decide_eq_false.
            rewrite !elem_of_list_to_set, !elem_of_cons. tauto.
          * rewrite !bool_decide_eq_true_2; [done| |];
              rewrite elem_of_list_to_set; intros Hx.
            -- destruct Hat as [-> | ->];
                 [apply Hout; split; [exact HvV|by apply HlV]|exact (Hni Hx)].
            -- destruct Hat as [-> | ->];
                 [exact (Hni Hx)|apply Hout; split; [by apply HlV|exact HvV]].
        + split.
          * f_equal; apply bool_decide_ext;
              rewrite !elem_of_list_to_set, !elem_of_cons; naive_solver.
          * intros _. split; intros ->; tauto. }
    set (st1 := add_vertex_filt v r F st) in *.
    destruct (IH st1 Hnd) as (Hok2 & Hs2 & Hb2).
    + intros p Hp. apply Hl. by right.
    + rewrite (static_g _ _ Hs1). exact HF.
    + exact Hok1.
    + split; [exact Hok2|]. split; [congruence|]. intros u.
      rewrite Hb2, Hb1, vset_find_cons.
      destruct (decide (v = u)) as [<-|Hne].
      * rewrite (bool_decide_eq_false_2 (v ∈ l.*1)) by exact Hni.
        rewrite bool_decide_eq_true_2; [done|]. cbn. by left.
      * rewrite (bool_decide_ext (u ∈ ((v, r) :: l).*1) (u ∈ l.*1)); [done|].
        rewrite fmap_cons, elem_of_cons. cbn [fst]. naive_solver.
Qed.

(** The closing loop of a bulk operation on the count of one pair. *)
Lemma batch_loop_mrs (f : edge_t -> BlockState -> BlockState) (kk : edge_t -> N * N)
    (d : edge_t -> Z) (st0 : BlockState) (k : N * N) (es : list edge_t) (st : BlockState) :
  (forall e s, static_part s = static_part st0 -> b s = b st0 ->
     static_part (f e s) = static_part s /\ b (f e s) = b s
     /\ mrs_at (f e s) k = if decide (kk e = k) then wrap32 (mrs_at s k + d e)
                           else mrs_at s k) ->
  static_part st = static_part st0 -> b st = b st0 -> int32_range (mrs_at st k) ->
  let st' := foldl (fun s e => f e s) st es in
  mrs_at st' k = wrap32 (mrs_at st k + sumZ (fun e => if decide (kk e = k) then d e else 0) es)
  /\ static_part st' = static_part st0 /\ b st' = b st0.
Proof.
  intros Hf. revert st. induction es as [|e es IH]; intros st Hs Hb Hr.
  - cbn [foldl sumZ foldr]. rewrite Z.add_0_r, wrap32_id by exact Hr. done.
  - cbn [foldl]. destruct (Hf e st Hs Hb) as (Hs1 & Hb1 & Hm1).
    destruct (IH (f e st)) as (Hm2 & Hs2 & Hb2); [congruence|congruence| |].
    { rewrite Hm1. destruct (decide _); [apply wrap32_range|exact Hr]. }
    split; [|done]. rewrite Hm2, Hm1.
    change (sumZ ?h (e :: es)) with (h e + sumZ h es). cbv beta.
    destruct (decide (kk e = k)).
    + rewrite wrap32_add_l. f_equal; lia.
    + f_equal; lia.
Qed.

Lemma remove_batch_edge_mrs (e : edge_t) (st : BlockState) (k : N * N) :
  static_part (remove_batch_edge e st) = static_part st
  /\ b (remove_batch_edge e st) = b st
  /\ mrs_at (remove_batch_edge e st) k
     = if decide (edge_key (directed (g st)) (blk st (source e)) (blk st (target e)) = k)
       then wrap32 (mrs_at st k + - eweight st (eidx e)) else mrs_at st k.
Proof.
  unfold remove_batch_edge. cbv zeta. fold (blk st (source e)). fold (blk st (target e)).
  set (k0 := edge_key (directed (g st)) (blk st (source e)) (blk st (target e))).
  split; [|split].
  - unfold drop_if_zero, bump_totals, set_mrm, bump_mrs. cbn.
    destruct (mrm_is_mrp st); by destruct (_ =? 0).
  - unfold drop_if_zero, bump_totals, set_mrm, bump_mrs. cbn.
    destruct (mrm_is_mrp st); by destruct (_ =? 0).
  - rewrite mrs_at_drop_if_zero, mrs_at_bump_totals, mrs_at_bump_mrs.
    destruct (decide (k0 = k)) as [<-|]; reflexivity.
Qed.

Lemma add_batch_edge_mrs (vset : list (N * N)) (e : edge_t) (st : BlockState) (k : N * N) :
  static_part (add_batch_edge vset e st) = static_part st
  /\ b (add_batch_edge vset e st) = b st
  /\ mrs_at (add_batch_edge vset e st) k
     = if decide (edge_key (directed (g st)) (vset_find vset (source e))
                    (vset_find vset (target e)) = k)
       then wrap32 (mrs_at st k + eweight st (eidx e)) else mrs_at st k.
Proof.
  unfold add_batch_edge. cbv zeta.
  set (k0 := edge_key (directed (g st)) (vset_find vset (source e))
               (vset_find vset (target e))).
  split; [|split].
  - unfold bump_totals, set_mrm, bump_mrs. cbn. by destruct (mrm_is_mrp st).
  - unfold bump_totals, set_mrm, bump_mrs. cbn. by destruct (mrm_is_mrp st).
  - rewrite mrs_at_bump_totals, mrs_at_bump_mrs.
    destruct (decide (k0 = k)) as [<-|]; reflexivity.
Qed.

Lemma counted_weight_ext (st : BlockState) (P P' : N -> N -> N -> bool) (k : N * N) :
  (forall i s t, (i, (s, t)) ∈ indexed 0%N (edge_list (g st)) -> P i s t = P' i s t) ->
  counted_weight st P k = counted_weight st P' k.
Proof.
  intros HP. unfold counted_weight. apply sumZ_ext. intros [i [s t]] Hin. cbn [fst snd].
  by rewrite (HP i s t Hin).
Qed.

(** [remove_vertices] leaves the counts of the edges that meet no vertex
    of the batch. *)
Lemma remove_vertices_edges (st : BlockState) (vs : list N) :
  consistent ∅ st -> edges_ok ∅ st ->
  Forall (fun v => (v < num_vertices (g st))%N) vs ->
  edges_ok (list_to_set vs) (remove_vertices vs st).
Proof.
  intros Hc Hok Hvs k. unfold remove_vertices. cbv zeta.
  set (vset := remove_dups vs). set (eset := batch_edges (g st) vset).
  set (V := list_to_set vs : gset N).
  assert (HV : forall x, x ∈ vset <-> x ∈ V).
  { intros x. unfold vset, V. by rewrite elem_of_remove_dups, elem_of_list_to_set. }
  assert (HF : forall i s t, (i, (s, t)) ∈ indexed 0%N (edge_list (g st)) ->
                 edge_in eset i = true <-> s ∈ V /\ t ∈ V).
  { intros i s t Hin. unfold eset. rewrite (batch_filter_spec _ vset i s t Hin).
    by rewrite !HV. }
  destruct (remove_fold_counted (edge_in eset) V vset ∅ st k) as (Hok1 & Hs1 & Hb1).
  { apply NoDup_remove_dups. }
  { intros x Hx. split; [by apply HV|]. split; [set_solver|].
    rewrite Forall_forall in Hvs.
    destruct (consistent_block ∅ st x Hc) as (_ & ? & _); [|done].
    apply Hvs. by apply elem_of_remove_dups. }
  { set_solver. }
  { exact HF. }
  { rewrite Hok, pair_weight_counted. f_equal. apply counted_weight_ext.
    intros i s t _. unfold kept. rewrite !bool_decide_eq_true_2 by set_solver.
    by rewrite orb_true_r. }
  set (st1 := foldl _ st vset) in *.
  destruct (batch_loop_mrs remove_batch_edge
              (fun e => edge_key (directed (g st1)) (blk st1 (source e)) (blk st1 (target e)))
              (fun e => - eweight st1 (eidx e)) st1 k eset st1)
    as (Hok2 & Hs2 & Hb2); [|done|done|rewrite Hok1; apply wrap32_range|].
  { intros e s Hs Hb. destruct (remove_batch_edge_mrs e s k) as (H1 & H2 & H3).
    split; [exact H1|]. split; [exact H2|]. rewrite H3.
    by rewrite (static_g _ _ Hs), (static_eweight _ _ _ Hs),
      (blk_parts _ _ (source e) Hb), (blk_parts _ _ (target e) Hb). }
  rewrite Hok2, Hok1, wrap32_add_l. f_equal.
  rewrite (pair_weight_parts V st1 _ k Hs2) by (intros u; by apply blk_parts).
  pose proof (batch_sum (g st) vset eset
                (fun i s t => if decide (edge_key (directed (g st1)) (blk st1 s)
                                           (blk st1 t) = k)
                              then - eweight st1 i else 0)
                (proj1 (batch_edges_spec (g st) vset))) as Hsum.
  cbv beta in Hsum. rewrite Hsum.
  2:{ intros Hd i s t. rewrite (static_g _ _ Hs1), Hd, (edge_key_sym (blk st1 s)).
      reflexivity. }
  clear Hsum.
  unfold counted_weight, pair_weight. rewrite (static_g _ _ Hs1), <- sumZ_add.
  apply sumZ_ext. intros [i [s t]] Hin. cbn [fst snd]. unfold edge_pair, kept. cbn [fst snd].
  rewrite (static_g _ _ Hs1). fold V.
  pose proof (HF i s t Hin) as HFi.
  replace (∅ ∪ list_to_set vset : gset N) with V
    by (apply set_eq; intros x; rewrite elem_of_union, elem_of_list_to_set, HV; set_solver).
  destruct (edge_in eset i) eqn:He.
  - destruct (proj1 HFi eq_refl) as [HsV HtV]. cbn [orb andb].
    rewrite (bool_decide_eq_false_2 (_ ∧ _ ∧ _)) by tauto.
    case_bool_decide; destruct (decide _); try done; lia.
  - assert (Hout : ¬ (s ∈ V /\ t ∈ V)) by (intros HH; apply HFi in HH; done).
    cbn [orb]. rewrite Z.add_0_r.
    repeat case_bool_decide; cbn [andb]; try reflexivity; tauto.
Qed.

(** [add_vertices] on a state from which the batch is out brings in the
    counts of every edge at a vertex of the batch, once. *)
Lemma add_vertices_edges (st : BlockState) (vs rs : list N) :
  consistent (list_to_set vs) st -> edges_ok (list_to_set vs) st ->
  length vs = length rs -> Forall (fun r => (r < B st)%N) rs ->
  edges_ok ∅ (final_state (add_vertices vs rs st)).
Proof.
  intros Hc Hok Hlen Hrs k. unfold add_vertices.
  rewrite (proj2 (Nat.eqb_eq _ _) Hlen). cbn [negb final_state].
  destruct (vset_of_spec vs rs [] (fun r => (r < B st)%N) Hlen) as (Hnd & Hval & Hkeys);
    [constructor|constructor|done|].
  set (vset := vset_of vs rs []) in *.
  set (eset := batch_edges (g st) vset.*1).
  set (V := list_to_set vs : gset N) in *.
  assert (HV : forall x, x ∈ vset.*1 <-> x ∈ V).
  { intros x. unfold V. rewrite Hkeys, elem_of_list_to_set. cbn. set_solver. }
  assert (HVeq : (list_to_set vset.*1 : gset N) = V).
  { apply set_eq. intros x. by rewrite elem_of_list_to_set, HV. }
  assert (HF : forall i s t, (i, (s, t)) ∈ indexed 0%N (edge_list (g st)) ->
                 edge_in eset i = true <-> s ∈ V /\ t ∈ V).
  { intros i s t Hin. unfold eset. rewrite (batch_filter_spec _ vset.*1 i s t Hin).
    by rewrite !HV. }
  pose proof (cs_pools _ st Hc) as Hp. unfold pools_ok, weight_part in Hp.
  destruct Hp as [HB _ _ _ _ _ _ _ _ _].
  destruct (add_fold_counted (edge_in eset) V vset st k Hnd) as (Hok1 & Hs1 & Hb1).
  { intros p Hp. split.
    - apply HV, list_elem_of_fmap. by exists p.
    - rewrite Forall_forall in Hval. specialize (Hval p Hp). cbn in Hval. lia. }
  { exact HF. }
  { rewrite Hok, pair_weight_counted, HVeq. f_equal. apply counted_weight_ext.
    intros i s t Hin. unfold entered. specialize (HF i s t Hin).
    destruct (edge_in eset i) eqn:He; cbn [negb andb]; [|reflexivity].
    destruct (proj1 HF eq_refl) as [HsV _].
    by rewrite (bool_decide_eq_false_2 (s ∉ V)) by tauto. }
  set (st1 := foldl _ st vset) in *.
  destruct (batch_loop_mrs (add_batch_edge vset)
              (fun e => edge_key (directed (g st1)) (vset_find vset (source e))
                          (vset_find vset (target e)))
              (fun e => eweight st1 (eidx e)) st1 k eset st1)
    as (Hok2 & Hs2 & Hb2); [|done|done|rewrite Hok1; apply wrap32_range|].
  { intros e s Hs Hb. destruct (add_batch_edge_mrs vset e s k) as (H1 & H2 & H3).
    split; [exact H1|]. split; [exact H2|]. rewrite H3.
    by rewrite (static_g _ _ Hs), (static_eweight _ _ _ Hs). }
  rewrite Hok2, Hok1, wrap32_add_l. f_equal.
  rewrite (pair_weight_parts ∅ st1 _ k Hs2) by (intros u; by apply blk_parts).
  pose proof (batch_sum (g st) vset.*1 eset
                (fun i s t => if decide (edge_key (directed (g st1)) (vset_find vset s)
                                           (vset_find vset t) = k)
                              then eweight st1 i else 0)
                (proj1 (batch_edges_spec (g st) vset.*1))) as Hsum.
  cbv beta in Hsum. rewrite Hsum.
  2:{ intros Hd i s t. rewrite (static_g _ _ Hs1), Hd, (edge_key_sym (vset_find vset s)).
      reflexivity. }
  clear Hsum.
  unfold counted_weight, pair_weight. rewrite (static_g _ _ Hs1), <- sumZ_add.
  apply sumZ_ext. intros [i [s t]] Hin. cbn [fst snd]. unfold edge_pair, entered.
  cbn [fst snd]. rewrite (static_g _ _ Hs1).
  pose proof (HF i s t Hin) as HFi.
  rewrite !(bool_decide_eq_true_2 (_ ∉ ∅)) by set_solver. cbn [andb].
  destruct (edge_in eset i) eqn:He; cbn [negb andb].
  - destruct (proj1 HFi eq_refl) as [HsV HtV].
    rewrite !Hb1, (bool_decide_eq_true_2 (s ∈ vset.*1)),
      (bool_decide_eq_true_2 (t ∈ vset.*1)) by (by apply HV).
    case_bool_decide as H1; destruct (decide _) as [H2|H2]; try lia.
    + exfalso. apply H2. apply H1.
    + exfalso. apply H1. split; [set_solver|]. split; [set_solver|exact H2].
  - rewrite Z.add_0_r. repeat case_bool_decide; try reflexivity.
    + exfalso. set_solver.
    + exfalso. set_solver.
Qed.

End BatchEdges.

Section BulkProofs.
Context `{Ext : Externals}.

(** ** The bulk operations against the graph *)

Lemma remove_vertices_parts (vs : list N) (st : BlockState) :
  static_part (remove_vertices vs st) = static_part st /\ b (remove_vertices vs st) = b st.
Proof.
  unfold remove_vertices. cbv zeta.
  set (F := edge_in _). set (eset := batch_edges _ _).
  assert (H1 : forall l s, static_part s = static_part st /\ b s = b st ->
             let s' := foldl (fun s v => remove_vertex_filt v (size_t_of_int (pget (b s) v))
                                           F s) s l in
             static_part s' = static_part st /\ b s' = b st).
  { intros l s Hs. apply (foldl_invariant (fun x => static_part x = static_part st
                                                     /\ b x = b st)); [|exact Hs].
    intros a v _ [Ha Hb].
    destruct (modify_vertex_remove_parts v (size_t_of_int (pget (b a) v)) F a)
      as (Hs1 & Hb1 & _).
    unfold remove_vertex_filt. split; congruence. }
  apply (foldl_invariant (fun x => static_part x = static_part st /\ b x = b st)).
  - intros a e _ [Ha Hb]. destruct (remove_batch_edge_mrs e a (0, 0)%N) as (Hs1 & Hb1 & _).
    split; congruence.
  - by apply H1.
Qed.

Lemma add_fold_blk (F : N -> bool) (l : list (N * N)) (st : BlockState) :
  NoDup l.*1 -> (forall p, p ∈ l -> Z.of_N p.2 < 2 ^ 31) ->
  let st' := foldl (fun s vr => add_vertex_filt vr.1 vr.2 F s) st l in
  static_part st' = static_part st
  /\ forall u, blk st' u = if bool_decide (u ∈ l.*1) then vset_find l u else blk st u.
Proof.
  revert st. induction l as [|[v r] l IH]; intros st Hnd Hl.
  - cbn [foldl]. split; [reflexivity|]. intros u.
    rewrite bool_decide_eq_false_2; [done|]. cbn. set_solver.
  - cbn [foldl fst snd]. rewrite fmap_cons in Hnd. cbn [fst] in Hnd.
    apply NoDup_cons in Hnd as [Hni Hnd].
    pose proof (Hl (v, r) (list_elem_of_here _ _)) as Hr. cbn [snd] in Hr.
    destruct (modify_vertex_add_parts v r F st Hr) as (Hs1 & Hb1 & _).
    fold (add_vertex_filt v r F st) in Hs1, Hb1.
    destruct (IH (add_vertex_filt v r F st) Hnd) as (Hs2 & Hb2).
    { intros p Hp. apply Hl. by right. }
    split; [congruence|]. intros u. rewrite Hb2, Hb1, vset_find_cons.
    destruct (decide (v = u)) as [<-|Hne].
    + rewrite (bool_decide_eq_false_2 (v ∈ l.*1)) by exact Hni.
      rewrite bool_decide_eq_true_2; [done|]. cbn. by left.
    + rewrite (bool_decide_ext (u ∈ ((v, r) :: l).*1) (u ∈ l.*1)); [done|].
      rewrite fmap_cons, elem_of_cons. cbn [fst]. naive_solver.
Qed.

Lemma add_vertices_parts (vs rs : list N) (st : BlockState) :
  length vs = length rs -> Forall (fun r => Z.of_N r < 2 ^ 31) rs ->
  let st' := final_state (add_vertices vs rs st) in
  static_part st' = static_part st
  /\ forall u, blk st' u = if bool_decide (u ∈ vs) then vset_find (vset_of vs rs []) u
                           else blk st u.
Proof.
  intros Hlen Hrs. unfold add_vertices.
  rewrite (proj2 (Nat.eqb_eq _ _) Hlen). cbn [negb final_state].
  destruct (vset_of_spec vs rs [] (fun r => Z.of_N r < 2 ^ 31) Hlen) as (Hnd & Hval & Hkeys);
    [constructor|constructor|done|].
  set (vset := vset_of vs rs []) in *. set (F := edge_in _). set (eset := batch_edges _ _).
  destruct (add_fold_blk F vset st Hnd) as (Hs1 & Hb1).
  { rewrite Forall_forall in Hval. exact Hval. }
  set (st1 := foldl _ st vset) in *.
  assert (H2 : static_part (foldl (fun s e => add_batch_edge vset e s) st1 eset)
               = static_part st1
               /\ b (foldl (fun s e => add_batch_edge vset e s) st1 eset) = b st1).
  { apply (foldl_invariant (fun x => static_part x = static_part st1 /\ b x = b st1));
      [|done].
    intros a e _ [Ha Hb]. destruct (add_batch_edge_mrs vset e a (0, 0)%N) as (Hs2 & Hb2 & _).
    split; congruence. }
  destruct H2 as [Hs2 Hb2]. split; [congruence|]. intros u.
  rewrite (blk_parts _ _ u Hb2), Hb1.
  rewrite (bool_decide_ext (u ∈ vset.*1) (u ∈ vs)); [done|].
  rewrite Hkeys. cbn. set_solver.
Qed.

(** The value held for a vertex when the blocks are given by a function
    of the vertex. *)
Lemma vset_of_map (f : N -> N) (vs : list N) (acc : list (N * N)) :
  Forall (fun p : N * N => p.2 = f p.1) acc ->
  Forall (fun p : N * N => p.2 = f p.1) (vset_of vs (f <$> vs) acc).
Proof.
  revert acc. induction vs as [|v vs IH]; intros acc Hacc; [done|].
  rewrite fmap_cons. cbn [vset_of]. apply IH. case_bool_decide.
  - apply Forall_fmap. eapply Forall_impl; [exact Hacc|]. intros [a c] Hp. cbn in *.
    destruct (N.eqb_spec a v) as [->|]; done.
  - apply Forall_app. split; [exact Hacc|]. by repeat constructor.
Qed.

Lemma vset_find_map (f : N -> N) (l : list (N * N)) (u : N) :
  Forall (fun p : N * N => p.2 = f p.1) l -> u ∈ l.*1 -> vset_find l u = f u.
Proof.
  intros Hl Hu. unfold vset_find.
  destruct (find (fun p : N * N => N.eqb p.1 u) l) as [p|] eqn:Hf.
  - apply find_some in Hf as [Hin Hp]. apply N.eqb_eq in Hp. subst u.
    rewrite Forall_forall in Hl. apply Hl. by apply list_elem_of_In.
  - exfalso. apply list_elem_of_fmap in Hu as [p [-> Hp]].
    apply list_elem_of_In in Hp. pose proof (find_none _ _ Hf p Hp) as Hn. cbn in Hn.
    by rewrite N.eqb_refl in Hn.
Qed.

(** X21. The bulk operations keep the block edge counts those of the
    graph. On a consistent state with every vertex placed whose counts
    [mrs] are those of the graph, [remove_vertices(vs)] leaves every
    [mrs[r,s]] equal to the total weight of the edges between [r] and [s]
    that meet no vertex of [vs]: an edge between two vertices of the batch
    is taken out once. And on a consistent state from which exactly the
    vertices of [vs] are out, [add_vertices(vs, rs)] to blocks of the block
    graph leaves the counts of all the edges of the graph. *)
Theorem bulk_edge_counts (st : BlockState) (vs rs : list N) :
  (consistent ∅ st -> edges_ok ∅ st ->
   Forall (fun v => (v < num_vertices (g st))%N) vs ->
   edges_ok (list_to_set vs) (remove_vertices vs st))
  /\ (consistent (list_to_set vs) st -> edges_ok (list_to_set vs) st ->
      length vs = length rs -> Forall (fun r => (r < B st)%N) rs ->
      edges_ok ∅ (final_state (add_vertices vs rs st))).
Proof.
  split.
  - apply remove_vertices_edges.
  - apply add_vertices_edges.
Qed.

(** X22. Taking a batch out and putting it back is a round trip. On a
    consistent state whose edge counts are those of the graph,
    [remove_vertices(vs)] followed by [add_vertices(vs, rs)] with [rs] the
    blocks the vertices were in leaves a consistent state with the same
    partition, the same [mrs] counts, and for every block the same [wr],
    the same [mrp] and the same place in the two pools. *)
Theorem bulk_round_trip (st : BlockState) (vs : list N) :
  consistent ∅ st -> edges_ok ∅ st ->
  Forall (fun v => (v < num_vertices (g st))%N) vs ->
  let st' := final_state (add_vertices vs (blk st <$> vs) (remove_vertices vs st)) in
  consistent ∅ st' /\ edges_ok ∅ st'
  /\ (forall u, blk st' u = blk st u)
  /\ (forall k, mrs_at st' k = mrs_at st k)
  /\ forall r, (r < B st)%N ->
       pget (wr st') r = pget (wr st) r
       /\ pget (mrp st') r = pget (mrp st) r
       /\ (r ∈ empty_blocks st' <-> r ∈ empty_blocks st)
       /\ (r ∈ candidate_blocks st' <-> r ∈ candidate_blocks st).
Proof.
  intros Hc Hok Hvs st'.
  pose proof (cs_pools _ st Hc) as Hp. unfold pools_ok, weight_part in Hp.
  destruct Hp as [HB _ _ _ _ _ _ _ _ _].
  destruct (remove_vertices_parts vs st) as [Hs1 Hb1].
  set (st1 := remove_vertices vs st) in *.
  assert (Hc1 : consistent (list_to_set vs) st1).
  { replace (list_to_set vs : gset N) with (∅ ∪ list_to_set vs : gset N) by set_solver.
    apply remove_vertices_consistent; [exact Hc|].
    eapply Forall_impl; [exact Hvs|]. intros v Hv. split; [exact Hv|set_solver]. }
  assert (Hok1 : edges_ok (list_to_set vs) st1) by (by apply remove_vertices_edges).
  assert (Hrs : Forall (fun r => (r < B st1)%N) (blk st <$> vs)).
  { rewrite (static_B _ _ Hs1). apply Forall_fmap. eapply Forall_impl; [exact Hvs|].
    intros v Hv. cbn. by destruct (consistent_block ∅ st v Hc Hv). }
  assert (Hlen : length vs = length (blk st <$> vs)) by (by rewrite length_fmap).
  assert (Hc2 : consistent ∅ st').
  { replace (∅ : gset N) with (list_to_set vs ∖ list_to_set vs : gset N) by set_solver.
    apply add_vertices_consistent; try done. apply Forall_forall. intros v Hv.
    by apply elem_of_list_to_set. }
  assert (Hok2 : edges_ok ∅ st') by (by apply add_vertices_edges).
  destruct (add_vertices_parts vs (blk st <$> vs) st1 Hlen) as [Hs2 Hb2].
  { eapply Forall_impl; [exact Hrs|]. intros r Hr. cbn in Hr.
    rewrite (static_B _ _ Hs1) in Hr. lia. }
  fold st' in Hs2, Hb2.
  assert (Hblk : forall u, blk st' u = blk st u).
  { intros u. rewrite Hb2. case_bool_decide as Hu; [|by apply blk_parts].
    apply vset_find_map; [apply vset_of_map; constructor|].
    destruct (vset_of_spec vs (blk st <$> vs) [] (fun _ => True) Hlen) as (_ & _ & Hkeys);
      [constructor|constructor|by apply Forall_forall|].
    apply Hkeys. by right. }
  assert (Hs : static_part st' = static_part st) by congruence.
  split; [exact Hc2|]. split; [exact Hok2|]. split; [exact Hblk|].
  by apply (counters_determined ∅).
Qed.

(** X23. The counters built from nothing are those of the partition. On a
    state whose counters are all zero, whose graph is well formed and whose
    vertex weights are non-negative and sum to an [int32_t], the body of the
    constructor followed by [add_vertices] of every vertex, to blocks of
    the block graph, gives a consistent state ([wr] counts the vertices of
    every block, the pools are right, [mrp] is the row sum of [mrs]) whose
    counts [mrs] are those of the graph, with every vertex in the block it
    was given. *)
Theorem counters_from_nothing (st : BlockState) (tgt : N -> N) :
  graph_ok (g st) -> Forall (fun v => 0 <= vweight st v) (vertices st) ->
  total_vweight st < 2 ^ 31 -> Forall (fun v => (blk st v < B st)%N) (vertices st) ->
  Z.of_N (B st) < 2 ^ 31 -> wr st = ∅ -> mrs st = ∅ -> mrp st = ∅ ->
  mrm_is_mrp st = negb (directed (g st)) ->
  Forall (fun v => (tgt v < B st)%N) (vertices st) ->
  let st' := final_state (add_vertices (vertices st) (tgt <$> vertices st) (init_pools st)) in
  consistent ∅ st' /\ edges_ok ∅ st'
  /\ Forall (fun v => blk st' v = tgt v) (vertices st).
Proof.
  intros Hg Hv Ht Hb HB Hwr Hmrs Hmrp Hsh Htgt st'.
  pose proof (fresh_consistent st Hg Hv Ht Hb HB Hwr Hmrs Hmrp Hsh) as Hc0.
  destruct (init_pools_ok st HB) as (_ & Hs0 & _ & He0 & _).
  { intros r _. rewrite Hwr. unfold pget. rewrite lookup_empty. simpl. lia. }
  set (st0 := init_pools st) in *.
  assert (Hlen : length (vertices st) = length (tgt <$> vertices st))
    by (by rewrite length_fmap).
  assert (Hrs : Forall (fun r => (r < B st0)%N) (tgt <$> vertices st)).
  { rewrite (static_B _ _ Hs0). by apply Forall_fmap. }
  assert (Hok0 : edges_ok (list_to_set (vertices st)) st0).
  { intros k. unfold mrs_at. unfold edge_part in He0. injection He0 as Hm _ _.
    rewrite Hm, Hmrs, lookup_empty. cbn [default].
    assert (Hz : pair_weight st0 (list_to_set (vertices st)) k = 0).
    { unfold pair_weight. etrans; [|apply (sumZ_zero (indexed 0%N (edge_list (g st0))))].
      apply sumZ_ext. intros [i [s t]] Hin. cbn [fst snd].
      rewrite bool_decide_eq_false_2; [reflexivity|]. intros (Hs & _).
      apply Hs, elem_of_list_to_set, elem_of_vertices.
      rewrite (static_g _ _ Hs0) in Hin. apply elem_of_indexed in Hin as [_ Hl].
      apply list_elem_of_lookup_2 in Hl. unfold graph_ok in Hg.
      rewrite Forall_forall in Hg. by destruct (Hg _ Hl). }
    by rewrite Hz. }
  assert (Hc1 : consistent ∅ st').
  { replace (∅ : gset N)
      with (list_to_set (vertices st) ∖ list_to_set (vertices st) : gset N) by set_solver.
    apply add_vertices_consistent; try done. apply Forall_forall. intros v Hin.
    by apply elem_of_list_to_set. }
  split; [exact Hc1|]. split; [by apply add_vertices_edges|].
  destruct (add_vertices_parts (vertices st) (tgt <$> vertices st) st0 Hlen) as [_ Hb2].
  { eapply Forall_impl; [exact Hrs|]. intros r Hr. cbn in Hr.
    rewrite (static_B _ _ Hs0) in Hr. lia. }
  fold st' in Hb2. apply Forall_forall. intros v Hin. rewrite Hb2.
  rewrite bool_decide_eq_true_2 by exact Hin.
  apply vset_find_map; [apply vset_of_map; constructor|].
  destruct (vset_of_spec (vertices st) (tgt <$> vertices st) [] (fun _ => True) Hlen)
    as (_ & _ & Hkeys); [constructor|constructor|by apply Forall_forall|].
  apply Hkeys. by right.
Qed.

End BulkProofs.

Section OccupancyProofs.
Context `{Ext : Externals}.

(** ** How many blocks a proposal chooses from *)

(** X24. The pools count the blocks. In a consistent state
    [_candidate_blocks] holds the sentinel and the occupied blocks, each
    once, and [_empty_blocks] the other blocks of the block graph; so the
    count [B] that [get_move_prob] and [sample_block] take from the sizes
    of the pools is the number of occupied blocks, plus one when some block
    is empty. *)
Theorem proposal_B_counts (A : gset N) (st : BlockState) :
  consistent A st ->
  candidate_blocks st ≡ₚ null_group :: occupied_blocks st
  /\ (length (empty_blocks st) + length (occupied_blocks st) = N.to_nat (B st))%nat
  /\ Z.of_N (proposal_B st)
     = Z.of_nat (length (occupied_blocks st))
       + (if bool_decide (length (occupied_blocks st) = N.to_nat (B st)) then 0 else 1).
Proof.
  intros Hc. pose proof (cs_pools A st Hc) as Hp. unfold pools_ok, weight_part in Hp.
  destruct Hp as [HB Hwr _ Hnd _ _ _ Hlen _ Hcand]. cbn [fst snd] in *.
  assert (Hocc : forall r, r ∈ occupied_blocks st <-> (r < B st)%N /\ 0 < pget (wr st) r).
  { intros r. unfold occupied_blocks. rewrite list_elem_of_filter, elem_of_block_range.
    tauto. }
  assert (Hperm : candidate_blocks st ≡ₚ null_group :: occupied_blocks st).
  { apply NoDup_Permutation; [exact Hnd| |].
    - constructor.
      + rewrite Hocc. intros [Hr _]. by apply (null_group_not_block _ _ HB Hr).
      + apply NoDup_filter, NoDup_block_range.
    - intros r. rewrite Hcand, elem_of_cons, Hocc. reflexivity. }
  split; [exact Hperm|].
  apply Permutation_length in Hperm. cbn [length] in Hperm.
  split; [lia|].
  unfold proposal_B. destruct (empty_blocks st) as [|e l]; cbn [length] in Hlen.
  - rewrite bool_decide_eq_true_2 by lia. rewrite wrap64_small by lia. lia.
  - rewrite bool_decide_eq_false_2 by lia. lia.
Qed.

End OccupancyProofs.

Section OneWay.
Context `{Ext : Externals}.

(** ** A move that cannot be undone *)

(** X25. The label barrier is open one way through an empty block. On a
    consistent level with no coupled state, a vertex that weighs and is not
    alone in [r] can be moved to an empty block [nr] whose label differs
    from the label of [r]: [allow_move] lets it through because [nr] is
    empty. The move back is then refused with the barrier exception,
    because [r] is still occupied and no label was written. *)
Theorem move_vertex_one_way (st : BlockState) (v nr : N) :
  consistent ∅ st -> coupled_state st = None ->
  (v < num_vertices (g st))%N -> (nr < B st)%N ->
  pget (bclabel st) (blk st v) ≠ pget (bclabel st) nr ->
  pget (wr st) nr = 0 -> 0 < vweight st v < pget (wr st) (blk st v) ->
  exists st1,
    move_vertex v (blk st v) nr st = Ok tt st1 /\ blk st1 v = nr
    /\ move_vertex v nr (blk st v) st1
       = Throw (ValueException "cannot move vertex across clabel barriers") st1.
Proof.
  intros Hc Hcs Hv Hnr Hlab Hempty Hw.
  assert (Hne : blk st v ≠ nr) by (intros Heq; rewrite Heq in Hw; lia).
  destruct (move_vertex_middle st v nr Hc Hv Hnr) as (Hc2 & Hs & Hb & Hl & Hcs2 & Hwr & _).
  set (st2 := add_vertex v nr (remove_vertex v (blk st v) st)) in *.
  destruct (decide (blk st v = nr)); [done|]. rewrite Z.add_0_r in Hwr.
  exists st2. split; [|split; [exact Hb|]].
  - unfold move_vertex. rewrite (proj2 (N.eqb_neq _ _) Hne).
    unfold allow_move. rewrite (proj2 (Z.eqb_eq _ _) Hempty), orb_true_r. cbn [negb].
    unfold propagate_move. fold st2. by rewrite Hcs2, Hcs.
  - unfold move_vertex.
    rewrite (proj2 (N.eqb_neq nr (blk st v))) by congruence.
    unfold allow_move. rewrite Hl, Hwr.
    rewrite (proj2 (Z.eqb_neq (pget (bclabel st) nr) (pget (bclabel st) (blk st v))))
      by congruence.
    rewrite (proj2 (Z.eqb_neq (pget (wr st) (blk st v) - vweight st v) 0)) by lia.
    reflexivity.
Qed.

End OneWay.

(** ** The properties on the scenario *)

Lemma scenario_state_edges : edges_ok ∅ scenario_state.
Proof. apply edges_okb_sound. vm_compute. reflexivity. Qed.

Lemma scenario_weights :
  Forall (fun ie : N * (N * N) => 0 <= eweight scenario_state ie.1)
         (indexed 0%N (edge_list (g scenario_state))).
Proof. vm_compute. repeat constructor; discriminate. Qed.

Lemma scenario_vertex (v : N) : (v < 4)%N -> (v < num_vertices (g scenario_state))%N.
Proof. intros H. exact H. Qed.

Lemma none_removed (v : N) : v ∉ (∅ : gset N).
Proof. set_solver. Qed.

Lemma virtual_remove_size_spec_witness :
  Z.of_N (virtual_remove_size scenario_state 1) = 1
  /\ is_last scenario_state 1 = false.
Proof.
  pose proof (virtual_remove_size_spec ∅ scenario_state 1 scenario_state_consistent
                (scenario_vertex 1 eq_refl) (none_removed 1)) as H.
  cbv zeta in H. destruct H as (_ & H2 & _ & _).
  split; [|vm_compute; reflexivity].
  etrans; [exact H2|]. vm_compute. reflexivity.
Defined.

Lemma swapped_partition_blocks :
  Forall (fun v => (size_t_of_int (pget swapped_partition v) < B scenario_state)%N)
         (vertices scenario_state).
Proof.
  replace (vertices scenario_state) with [0; 1; 2; 3]%N by (vm_compute; reflexivity).
  repeat constructor; vm_compute; reflexivity.
Qed.

Lemma set_partition_installs_witness :
  result_of (set_partition swapped_partition scenario_state) = Some tt
  /\ Forall (fun v => blk (final_state (set_partition swapped_partition scenario_state)) v
                      = size_t_of_int (pget swapped_partition v))
            (vertices scenario_state).
Proof.
  pose proof (set_partition_installs scenario_state swapped_partition
                scenario_state_consistent swapped_partition_blocks) as H.
  cbv zeta in H. destruct H as (_ & _ & H3).
  assert (Hok : result_of (set_partition swapped_partition scenario_state) = Some tt)
    by (vm_compute; reflexivity).
  split; [exact Hok|exact (H3 Hok)].
Defined.

Lemma check_node_counts_spec_witness :
  check_node_counts scenario_state = true.
Proof.
  apply (proj2 (check_node_counts_spec ∅ scenario_state scenario_state_consistent)).
  intros v Hv. exfalso. exact (none_removed v Hv).
Defined.

Lemma sweep_counts_witness :
  (sv_nmoves (sweep_loop (N.to_nat (niter demo_mc)) (sweep_start demo_mc tt)) <= 5)%N
  /\ visits (hist (sv_state (sweep_loop (N.to_nat (niter demo_mc)) (sweep_start demo_mc tt))))
     - visits (hist demo_mc) <= 5.
Proof.
  pose proof (sweep_counts demo_mc tt eq_refl eq_refl) as H.
  cbv zeta in H. destruct H as (H1 & H2 & _). split; [exact H1|exact (proj2 H2)].
Defined.

Lemma demo_uniform_block (l : list N) (q : @prng_t _ demo_proposals) :
  l ≠ [] -> (@uniform_block _ demo_proposals l q).1 ∈ l.
Proof. destruct l as [|x l]; [done|]. intros _. simpl. by left. Qed.

Lemma demo_sample_edge (t : N) (eg : @egroups_t demo_externals)
    (q : @prng_t _ demo_proposals) :
  edge_ok (g scenario_state) (@egroups_sample_edge _ demo_proposals t eg q).1.
Proof. split; reflexivity. Qed.

Lemma sample_block_valid_witness :
  ((@sample_block _ demo_proposals tt 2 1%float tt scenario_state).1.1 < 2)%N.
Proof.
  pose proof (@sample_block_valid _ demo_proposals ∅ scenario_state tt 2 1%float tt
                scenario_state_consistent eq_refl demo_uniform_block demo_sample_edge) as H.
  cbv zeta in H. exact (proj1 H).
Defined.

Lemma moves_keep_edge_counts_witness :
  edges_ok ∅ (final_state (move_vertex_from_b 1 1 scenario_state))
  /\ edges_ok ∅ (final_state (set_partition swapped_partition scenario_state)).
Proof.
  destruct (moves_keep_edge_counts scenario_state scenario_state_consistent
              scenario_state_edges) as (H1 & _ & H3).
  split; [apply H1; reflexivity|apply H3; exact swapped_partition_blocks].
Defined.

Lemma check_edge_counts_passes_witness :
  check_edge_counts scenario_state = true.
Proof.
  apply (check_edge_counts_passes scenario_state scenario_state_edges scenario_weights).
  vm_compute. reflexivity.
Defined.

Lemma remove_add_round_trip_witness :
  consistent ∅ (add_vertex 1 (blk scenario_state 1)
                  (remove_vertex 1 (blk scenario_state 1) scenario_state))
  /\ edges_ok ∅ (add_vertex 1 (blk scenario_state 1)
                   (remove_vertex 1 (blk scenario_state 1) scenario_state)).
Proof.
  pose proof (remove_add_round_trip scenario_state 1 scenario_state_consistent
                scenario_state_edges (scenario_vertex 1 eq_refl)) as H.
  cbv zeta in H. destruct H as (H1 & H2 & _). split; [exact H1|exact H2].
Defined.

Lemma scenario_moved_ok :
  move_vertex 1 (blk scenario_state 1) 1 scenario_state = Ok tt scenario_moved.
Proof. vm_compute. reflexivity. Qed.

Lemma scenario_returned_ok :
  move_vertex 1 1 (blk scenario_state 1) scenario_moved = Ok tt scenario_returned.
Proof. vm_compute. reflexivity. Qed.

Lemma move_vertex_back_witness :
  blk scenario_moved 1 = 1%N
  /\ consistent ∅ scenario_returned /\ edges_ok ∅ scenario_returned
  /\ blk scenario_returned 1 = blk scenario_state 1.
Proof.
  destruct (move_vertex_back scenario_state scenario_moved scenario_returned 1 1
              scenario_state_consistent scenario_state_edges
              (scenario_vertex 1 eq_refl) eq_refl
              scenario_moved_ok scenario_returned_ok) as (H1 & H2 & H3 & _).
  split; [vm_compute; reflexivity|].
  split; [exact H1|]. split; [exact H2|exact (H3 1%N)].
Defined.

Lemma scenario_block_weights (r : N) :
  (r < B scenario_state)%N -> 0 <= pget (wr scenario_state) r < 2 ^ 31.
Proof.
  change (B scenario_state) with 2%N. intros Hr.
  assert (Hcases : r = 0%N \/ r = 1%N) by lia.
  destruct Hcases as [-> | ->]; vm_compute; split; (discriminate || reflexivity).
Qed.

Lemma constructor_pools_witness :
  NoDup (candidate_blocks (init_pools scenario_state))
  /\ (length (empty_blocks (init_pools scenario_state))
      + length (candidate_blocks (init_pools scenario_state)) = 3)%nat.
Proof.
  pose proof (constructor_pools scenario_state eq_refl scenario_block_weights) as H.
  cbv zeta in H. destruct H as (_ & H2 & _ & H4 & _). split; [exact H2|exact H4].
Defined.

(** ** The properties on the two levels *)

Lemma blank_lower_fresh : consistent (list_to_set [0; 1; 2; 3]%N) (init_pools blank_lower).
Proof.
  apply (fresh_consistent blank_lower).
  - repeat constructor.
  - repeat constructor; vm_compute; discriminate.
  - vm_compute. reflexivity.
  - repeat constructor; vm_compute; reflexivity.
  - vm_compute. reflexivity.
  - reflexivity.
  - reflexivity.
  - reflexivity.
  - reflexivity.
Qed.

Lemma lower3_consistent : consistent ∅ lower3.
Proof.
  replace (∅ : gset N) with (list_to_set [0; 1; 2; 3]%N ∖ list_to_set [0; 1; 2; 3]%N : gset N)
    by set_solver.
  apply add_vertices_consistent.
  - apply blank_lower_fresh.
  - reflexivity.
  - repeat constructor; set_solver.
  - destruct (init_pools_ok blank_lower) as (_ & Hs & _).
    { vm_compute. reflexivity. }
    { intros r _. vm_compute. split; [discriminate|reflexivity]. }
    rewrite (static_B _ _ Hs). repeat constructor.
Qed.

Lemma blank_upper_fresh : consistent (list_to_set [0; 1; 2]%N) (init_pools blank_upper).
Proof.
  apply (fresh_consistent blank_upper).
  - repeat constructor.
  - repeat constructor; vm_compute; discriminate.
  - vm_compute. reflexivity.
  - repeat constructor; vm_compute; reflexivity.
  - vm_compute. reflexivity.
  - reflexivity.
  - reflexivity.
  - reflexivity.
  - reflexivity.
Qed.

Lemma upper3_consistent : consistent ∅ upper3.
Proof.
  replace (∅ : gset N) with (list_to_set [0; 1; 2]%N ∖ list_to_set [0; 1; 2]%N : gset N)
    by set_solver.
  apply add_vertices_consistent.
  - apply blank_upper_fresh.
  - reflexivity.
  - repeat constructor; set_solver.
  - destruct (init_pools_ok blank_upper) as (_ & Hs & _).
    { vm_compute. reflexivity. }
    { intros r _. vm_compute. split; [discriminate|reflexivity]. }
    rewrite (static_B _ _ Hs). repeat constructor.
Qed.

Lemma levels3_consistent : consistent ∅ levels3.
Proof. by apply (consistent_parts ∅ lower3); [apply lower3_consistent|..]. Qed.

Lemma levels3_flat_consistent : consistent ∅ levels3_flat.
Proof. by apply (consistent_parts ∅ lower3); [apply lower3_consistent|..]. Qed.

Lemma levels3_linked : linked levels3 upper3.
Proof.
  split; [reflexivity|]. split; [reflexivity|]. intros r Hr.
  change (B levels3) with 3%N in Hr.
  assert (Hcases : r = 0%N \/ r = 1%N \/ r = 2%N) by lia.
  destruct Hcases as [-> | [-> | ->]]; split; vm_compute; reflexivity.
Qed.



Lemma move_vertex_levels_witness :
  result_of (move_vertex 1 (blk levels3 1) 2 levels3) = Some tt
  /\ consistent ∅ (final_state (move_vertex 1 (blk levels3 1) 2 levels3)).
Proof.
  pose proof (move_vertex_levels levels3 upper3 1 2 levels3_consistent eq_refl
                upper3_consistent levels3_linked eq_refl eq_refl) as H.
  cbv zeta in H. destruct H as (_ & H2 & _).
  split; [vm_compute; reflexivity|exact H2].
Defined.

Lemma move_vertex_unweighted_parent_witness :
  blk (final_state (move_vertex 1 (blk levels3_flat 1) 2 levels3_flat)) 1 = 2%N
  /\ result_of (move_vertex 1 (blk levels3_flat 1) 2 levels3_flat) = None.
Proof.
  pose proof (move_vertex_unweighted_parent levels3_flat scenario_state 1 2
                levels3_flat_consistent eq_refl eq_refl eq_refl eq_refl) as H.
  cbv zeta in H.
  destruct H as (H1 & H2 & _).
  - vm_compute. discriminate.
  - vm_compute. reflexivity.
  - vm_compute. reflexivity.
  - right. vm_compute. reflexivity.
  - split; [exact H2|]. rewrite H1. reflexivity.
Defined.

Lemma levels3_moved :
  move_vertex 1 (blk levels3 1) 2 levels3
  = Ok tt (final_state (move_vertex 1 0 2 levels3)).
Proof. vm_compute. reflexivity. Qed.

Lemma levels3_label : int32_range (pget (bclabel levels3) (blk levels3 1)).
Proof. vm_compute. split; [discriminate|reflexivity]. Qed.

Lemma move_vertex_label_witness :
  blk (final_state (move_vertex 1 0 2 levels3)) 1 = 2%N
  /\ pget (bclabel (final_state (move_vertex 1 0 2 levels3))) 2
     = pget (bclabel levels3) (blk levels3 1).
Proof.
  destruct (move_vertex_label levels3 (final_state (move_vertex 1 0 2 levels3)) 1 2
              levels3_consistent eq_refl eq_refl levels3_label levels3_moved)
    as (H1 & _ & H3).
  split; [exact H1|]. apply H3. left. split; [discriminate|reflexivity].
Defined.

(** ** The properties of the sweep, the statistics and the bulk operations
    on the scenario *)

Lemma sweep_weightless_witness :
  result_of (@multicanonical_sweep idle_sweep idle_mc tt) = Some (0%float, 0%N).
Proof.
  destruct (@sweep_weightless idle_sweep idle_mc tt) as [rng' H].
  - vm_compute. reflexivity.
  - intros q. reflexivity.
  - rewrite H. reflexivity.
Defined.

Lemma scenario_labels :
  Forall (fun v => 0 <= pget (pclabel scenario_state) v < 2 ^ 31 - 1)
         (vertices scenario_state).
Proof.
  replace (vertices scenario_state) with [0; 1; 2; 3]%N by (vm_compute; reflexivity).
  repeat constructor; vm_compute; (discriminate || reflexivity).
Qed.

Lemma enable_partition_stats_covers_witness :
  is_partition_stats_enabled (enable_partition_stats scenario_state) = true
  /\ counters (enable_partition_stats scenario_state) = counters scenario_state.
Proof.
  pose proof (enable_partition_stats_covers scenario_state eq_refl scenario_labels eq_refl)
    as H.
  cbv zeta in H. destruct H as (H1 & _ & H3 & _). split; [exact H1|exact H3].
Defined.

Lemma scenario_batch : Forall (fun v => (v < num_vertices (g scenario_state))%N) [1; 2]%N.
Proof. repeat constructor; vm_compute; reflexivity. Qed.

Lemma scenario_batch_out :
  consistent (list_to_set [1; 2]%N) (remove_vertices [1; 2]%N scenario_state).
Proof.
  replace (list_to_set [1; 2]%N : gset N) with (∅ ∪ list_to_set [1; 2]%N : gset N)
    by set_solver.
  apply remove_vertices_consistent; [apply scenario_state_consistent|].
  repeat constructor; set_solver.
Qed.

Lemma scenario_batch_blocks :
  Forall (fun r => (r < B (remove_vertices [1; 2]%N scenario_state))%N) [1; 0]%N.
Proof. repeat constructor; vm_compute; reflexivity. Qed.

Lemma bulk_edge_counts_witness :
  edges_ok (list_to_set [1; 2]%N) (remove_vertices [1; 2]%N scenario_state)
  /\ edges_ok ∅ (final_state (add_vertices [1; 2]%N [1; 0]%N
                               (remove_vertices [1; 2]%N scenario_state))).
Proof.
  assert (H1 : edges_ok (list_to_set [1; 2]%N) (remove_vertices [1; 2]%N scenario_state)).
  { exact (proj1 (bulk_edge_counts scenario_state [1; 2]%N [])
             scenario_state_consistent scenario_state_edges scenario_batch). }
  split; [exact H1|].
  exact (proj2 (bulk_edge_counts (remove_vertices [1; 2]%N scenario_state)
                  [1; 2]%N [1; 0]%N)
           scenario_batch_out H1 eq_refl scenario_batch_blocks).
Defined.

Lemma bulk_round_trip_witness :
  consistent ∅ (final_state (add_vertices [1; 2]%N (blk scenario_state <$> [1; 2]%N)
                               (remove_vertices [1; 2]%N scenario_state)))
  /\ mrs_at (final_state (add_vertices [1; 2]%N (blk scenario_state <$> [1; 2]%N)
                            (remove_vertices [1; 2]%N scenario_state))) (0, 1)%N
     = mrs_at scenario_state (0, 1)%N.
Proof.
  pose proof (bulk_round_trip scenario_state [1; 2]%N scenario_state_consistent
                scenario_state_edges scenario_batch) as H.
  cbv zeta in H. destruct H as (H1 & _ & _ & H4 & _). split; [exact H1|exact (H4 _)].
Defined.

Lemma blank_state_blocks :
  Forall (fun v => (blk blank_state v < B blank_state)%N) (vertices blank_state).
Proof. repeat constructor; vm_compute; reflexivity. Qed.

Lemma blank_state_weights :
  Forall (fun v => 0 <= vweight blank_state v) (vertices blank_state).
Proof. repeat constructor; vm_compute; discriminate. Qed.

Lemma blank_state_graph : graph_ok (g blank_state).
Proof. repeat constructor. Qed.

Lemma counters_from_nothing_witness :
  consistent ∅ (final_state (add_vertices (vertices blank_state)
                               (blk blank_state <$> vertices blank_state)
                               (init_pools blank_state)))
  /\ edges_ok ∅ (final_state (add_vertices (vertices blank_state)
                                 (blk blank_state <$> vertices blank_state)
                                 (init_pools blank_state))).
Proof.
  pose proof (counters_from_nothing blank_state (blk blank_state)
                blank_state_graph blank_state_weights eq_refl blank_state_blocks
                eq_refl eq_refl eq_refl eq_refl eq_refl blank_state_blocks) as H.
  cbv zeta in H. destruct H as (H1 & H2 & _). split; [exact H1|exact H2].
Defined.

Lemma proposal_B_counts_witness :
  (length (empty_blocks lower3) + length (occupied_blocks lower3) = 3)%nat
  /\ proposal_B lower3 = 3%N.
Proof.
  destruct (proposal_B_counts ∅ lower3 lower3_consistent) as (_ & H2 & _).
  split; [exact H2|]. vm_compute. reflexivity.
Defined.

Lemma with_bclabel_consistent `{Ext : Externals} (A : gset N) (x : gmap N Z)
    (st : BlockState) :
  consistent A st -> consistent A (with_bclabel x st).
Proof. intros Hc. by apply (consistent_parts A st). Qed.

Lemma labelled3_consistent : consistent ∅ labelled3.
Proof. unfold labelled3. apply with_bclabel_consistent, lower3_consistent. Qed.

Lemma labelled3_uncoupled : coupled_state labelled3 = None.
Proof. vm_compute. reflexivity. Qed.

Lemma labelled3_vertex : (1 < num_vertices (g labelled3))%N.
Proof. vm_compute. reflexivity. Qed.

Lemma labelled3_block : (2 < B labelled3)%N.
Proof. vm_compute. reflexivity. Qed.

Lemma labelled3_barrier :
  pget (bclabel labelled3) (blk labelled3 1) ≠ pget (bclabel labelled3) 2.
Proof. vm_compute. discriminate. Qed.

Lemma labelled3_empty : pget (wr labelled3) 2 = 0.
Proof. vm_compute. reflexivity. Qed.

Lemma labelled3_weights : 0 < vweight labelled3 1 < pget (wr labelled3) (blk labelled3 1).
Proof. vm_compute. split; reflexivity. Qed.

Lemma move_vertex_one_way_witness :
  exists st1,
    move_vertex 1 (blk labelled3 1) 2 labelled3 = Ok tt st1 /\ blk st1 1 = 2%N
    /\ move_vertex 1 2 (blk labelled3 1) st1
       = Throw (ValueException "cannot move vertex across clabel barriers") st1.
Proof.
  exact (move_vertex_one_way labelled3 1 2 labelled3_consistent labelled3_uncoupled
           labelled3_vertex labelled3_block labelled3_barrier labelled3_empty
           labelled3_weights).
Defined.
